(** * Declaration lowering and symbol linkage (lib/IRGen/GenDecl.cpp)

    A shallow embedding of the declaration-lowering layer of the IR
    generator: link entities and their linkage, the per-module symbol
    caches, formal getter and setter types, type-metadata addressing,
    category requirements of extensions, and the synthesis of the
    per-file initializer and of [main]. *)

From stdpp Require Import base decidable option list strings finite.
From stdpp Require Import countable gmap fin_maps stringmap pretty.

Set Default Proof Using "Type".
Set Warnings "-register-all".
Open Scope string_scope.

(** ** The typed AST, as far as GenDecl.cpp reads it *)

(** Addresses of AST nodes.  Declarations have identity: two declarations
    are the same one when they live at the same address. *)
Abbreviation Ptr := N (only parsing).

Module DeclContextKind.
Inductive t :=
| Module | FileUnit | AbstractClosureExpr | TopLevelCodeDecl
| AbstractFunctionDecl | Initializer | ExtensionDecl | NominalTypeDecl.
#[global] Instance eq_dec : EqDecision t.
Proof. solve_decision. Defined.
#[global, program] Instance finite : Finite t :=
  {| enum := [Module; FileUnit; AbstractClosureExpr; TopLevelCodeDecl;
              AbstractFunctionDecl; Initializer; ExtensionDecl;
              NominalTypeDecl] |}.
Next Obligation. by apply (bool_decide_unpack _). Qed.
Next Obligation. intros []; by apply (bool_decide_unpack _). Qed.
End DeclContextKind.

(** A declaration context with its chain of parents.  The chain ends in
    the module (whose parent is null); every other context has a parent. *)
Inductive DeclContext :=
| ModuleDC (addr : Ptr)
| SubDC (kind : DeclContextKind.t) (addr : Ptr) (parent : DeclContext).

Definition getContextKind (DC : DeclContext) : DeclContextKind.t :=
  match DC with
  | ModuleDC _ => DeclContextKind.Module
  | SubDC k _ _ => k
  end.

Definition isModuleContext (DC : DeclContext) : bool :=
  bool_decide (getContextKind DC = DeclContextKind.Module).

Module DeclKind.
Inductive t :=
| Import | Extension | PatternBinding | EnumCase | TopLevelCode
| InfixOperator | PrefixOperator | PostfixOperator
| GenericTypeParam | AssociatedType | TypeAlias
| Enum | Struct | Class | Protocol
| Var | EnumElement | Subscript | Constructor | Destructor | Func.
#[global] Instance eq_dec : EqDecision t.
Proof. solve_decision. Defined.
#[global, program] Instance finite : Finite t :=
  {| enum := [Import; Extension; PatternBinding; EnumCase; TopLevelCode;
              InfixOperator; PrefixOperator; PostfixOperator;
              GenericTypeParam; AssociatedType; TypeAlias;
              Enum; Struct; Class; Protocol;
              Var; EnumElement; Subscript; Constructor; Destructor; Func] |}.
Next Obligation. by apply (bool_decide_unpack _). Qed.
Next Obligation. intros []; by apply (bool_decide_unpack _). Qed.
End DeclKind.

(** A declaration: its address, its kind, the context it is declared in
    and the attributes GenDecl.cpp asks for. *)
Module Decl.
Record t := mk {
  addr : Ptr;
  getKind : DeclKind.t;
  getDeclContext : DeclContext;
  isObjC : bool;          (* ClassDecl / ProtocolDecl ::isObjC *)
  isComputed : bool;      (* VarDecl::isComputed *)
  hasClangNode : bool
}.
End Decl.
Abbreviation Decl := Decl.t.

(** Canonical types.  Canonical types are uniqued, so pointer equality of
    [CanType]s is structural equality. *)
Module NominalKind.
Inductive t := Enum | Struct | Class | Protocol.
#[global] Instance eq_dec : EqDecision t.
Proof. solve_decision. Defined.
End NominalKind.

Inductive CanType :=
| BuiltinType (name : string)
| NominalType (k : NominalKind.t) (D : Decl) (parent : option CanType)
| BoundGenericType (k : NominalKind.t) (D : Decl) (parent : option CanType)
                   (args : list CanType)
| UnboundGenericType (D : Decl) (parent : option CanType)
| TupleType (elts : list CanType)
| FunctionType (input result : CanType)
| PolymorphicFunctionType (input result : CanType)
                          (params : list (list Decl * option CanType))
| LValueType (object : CanType)
| MetatypeType (instance : CanType)
| ArchetypeType (id : Ptr).

(** A generic parameter, as [isLocalLinkageGenericClause] reads it: the
    protocols the type parameter conforms to and its superclass bound. *)
Abbreviation GenericParam := (list Decl * option CanType)%type (only parsing).
Definition getProtocols (p : GenericParam) : list Decl := p.1.
Definition getSuperclass (p : GenericParam) : option CanType := p.2.

(** Equality of AST values is decidable, and they can serve as keys. *)
#[global] Instance DeclContext_eq_dec : EqDecision DeclContext.
Proof. solve_decision. Defined.
#[global] Instance Decl_eq_dec : EqDecision Decl.
Proof. solve_decision. Defined.

#[global] Instance CanType_eq_dec : EqDecision CanType.
Proof.
  refine (fix go (t1 t2 : CanType) {struct t1} : Decision (t1 = t2) :=
    let _ : EqDecision CanType := @go in
    match t1, t2 with
    | BuiltinType a, BuiltinType b => cast_if (decide (a = b))
    | NominalType k D p, NominalType k' D' p' =>
        cast_if_and3 (decide (k = k')) (decide (D = D')) (decide (p = p'))
    | BoundGenericType k D p a, BoundGenericType k' D' p' a' =>
        cast_if_and4 (decide (k = k')) (decide (D = D')) (decide (p = p'))
                     (decide (a = a'))
    | UnboundGenericType D p, UnboundGenericType D' p' =>
        cast_if_and (decide (D = D')) (decide (p = p'))
    | TupleType a, TupleType b => cast_if (decide (a = b))
    | FunctionType a r, FunctionType a' r' =>
        cast_if_and (decide (a = a')) (decide (r = r'))
    | PolymorphicFunctionType a r ps, PolymorphicFunctionType a' r' ps' =>
        cast_if_and3 (decide (a = a')) (decide (r = r')) (decide (ps = ps'))
    | LValueType a, LValueType b => cast_if (decide (a = b))
    | MetatypeType a, MetatypeType b => cast_if (decide (a = b))
    | ArchetypeType a, ArchetypeType b => cast_if (decide (a = b))
    | _, _ => right _
    end); congruence.
Defined.

Fixpoint DeclContext_flatten (DC : DeclContext)
    (acc : list (DeclContextKind.t * Ptr))
  : Ptr * list (DeclContextKind.t * Ptr) :=
  match DC with
  | ModuleDC a => (a, acc)
  | SubDC k a p => DeclContext_flatten p ((k, a) :: acc)
  end.

Definition DeclContext_unflatten (x : Ptr * list (DeclContextKind.t * Ptr))
  : DeclContext :=
  foldl (fun p ka => SubDC ka.1 ka.2 p) (ModuleDC x.1) x.2.

Lemma DeclContext_unflatten_flatten DC acc :
  DeclContext_unflatten (DeclContext_flatten DC acc)
  = foldl (fun p ka => SubDC ka.1 ka.2 p) DC acc.
Proof.
  revert acc. induction DC as [a|k a p IH]; intros acc; simpl; [done|].
  by rewrite IH.
Qed.

#[global] Instance DeclContext_countable : Countable DeclContext :=
  inj_countable' (fun DC => DeclContext_flatten DC []) DeclContext_unflatten
                 (fun DC => DeclContext_unflatten_flatten DC []).

#[global] Instance Decl_countable : Countable Decl.
Proof.
  refine (inj_countable'
    (fun d => (Decl.addr d, Decl.getKind d, Decl.getDeclContext d,
               Decl.isObjC d, Decl.isComputed d, Decl.hasClangNode d))
    (fun x => let '(a, k, c, o, v, n) := x in Decl.mk a k c o v n) _).
  by intros [].
Defined.

#[global] Instance NominalKind_countable : Countable NominalKind.t.
Proof.
  refine (inj_countable'
    (fun k => match k with
              | NominalKind.Enum => 0 | NominalKind.Struct => 1
              | NominalKind.Class => 2 | NominalKind.Protocol => 3
              end)
    (fun n => match n with
              | 0 => NominalKind.Enum | 1 => NominalKind.Struct
              | 2 => NominalKind.Class | _ => NominalKind.Protocol
              end) _).
  by intros [].
Defined.

Definition encLeaf `{Countable A} (x : A) : positive := encode x.
Definition decLeaf `{Countable A} (p : positive) : option A := decode p.
Lemma decLeaf_encLeaf `{Countable A} (x : A) : decLeaf (encLeaf x) = Some x.
Proof. apply decode_encode. Qed.

Fixpoint CanType_enc (t : CanType) : gen_tree positive :=
  let encO (o : option CanType) :=
    match o with
    | None => GenNode 0 []
    | Some t => GenNode 1 [CanType_enc t]
    end in
  match t with
  | BuiltinType s => GenNode 0 [GenLeaf (encLeaf s)]
  | NominalType k D p =>
      GenNode 1 [GenLeaf (encLeaf k); GenLeaf (encLeaf D); encO p]
  | BoundGenericType k D p args =>
      GenNode 2 [GenLeaf (encLeaf k); GenLeaf (encLeaf D); encO p;
                 GenNode 0 (map CanType_enc args)]
  | UnboundGenericType D p => GenNode 3 [GenLeaf (encLeaf D); encO p]
  | TupleType elts => GenNode 4 (map CanType_enc elts)
  | FunctionType a r => GenNode 5 [CanType_enc a; CanType_enc r]
  | PolymorphicFunctionType a r ps =>
      GenNode 6 [CanType_enc a; CanType_enc r;
                 GenNode 0 (map (fun p : GenericParam =>
                                   GenNode 0 [GenLeaf (encLeaf p.1); encO p.2])
                                ps)]
  | LValueType a => GenNode 7 [CanType_enc a]
  | MetatypeType a => GenNode 8 [CanType_enc a]
  | ArchetypeType a => GenNode 9 [GenLeaf (encLeaf a)]
  end.

Fixpoint CanType_dec (g : gen_tree positive) : option CanType :=
  let decO (g : gen_tree positive) : option (option CanType) :=
    match g with
    | GenNode 0 [] => Some None
    | GenNode 1 [x] => Some <$> CanType_dec x
    | _ => None
    end in
  match g with
  | GenNode 0 [GenLeaf s] => BuiltinType <$> decLeaf s
  | GenNode 1 [GenLeaf k; GenLeaf D; p] =>
      k ← decLeaf k; D ← decLeaf D; p ← decO p; Some (NominalType k D p)
  | GenNode 2 [GenLeaf k; GenLeaf D; p; GenNode 0 args] =>
      k ← decLeaf k; D ← decLeaf D; p ← decO p;
      args ← mapM CanType_dec args; Some (BoundGenericType k D p args)
  | GenNode 3 [GenLeaf D; p] =>
      D ← decLeaf D; p ← decO p; Some (UnboundGenericType D p)
  | GenNode 4 elts => TupleType <$> mapM CanType_dec elts
  | GenNode 5 [a; r] =>
      a ← CanType_dec a; r ← CanType_dec r; Some (FunctionType a r)
  | GenNode 6 [a; r; GenNode 0 ps] =>
      a ← CanType_dec a; r ← CanType_dec r;
      ps ← mapM (fun g => match g with
                          | GenNode 0 [GenLeaf protos; sup] =>
                              protos ← decLeaf protos; sup ← decO sup;
                              Some (protos, sup)
                          | _ => None
                          end) ps;
      Some (PolymorphicFunctionType a r ps)
  | GenNode 7 [a] => LValueType <$> CanType_dec a
  | GenNode 8 [a] => MetatypeType <$> CanType_dec a
  | GenNode 9 [GenLeaf a] => ArchetypeType <$> decLeaf a
  | _ => None
  end.

#[local] Opaque encLeaf decLeaf.

Lemma CanType_dec_enc (t : CanType) : CanType_dec (CanType_enc t) = Some t.
Proof.
  revert t. fix IH 1. intros t.
  assert (HO : forall o : option CanType,
    (fun g : gen_tree positive =>
       match g with
       | GenNode 0 [] => Some None
       | GenNode 1 [x] => Some <$> CanType_dec x
       | _ => None
       end)
      (match o with
       | None => GenNode 0 []
       | Some t => GenNode 1 [CanType_enc t]
       end) = Some o).
  { intros [u|]; simpl; [|done]. by rewrite IH. }
  assert (HL : forall l : list CanType,
             mapM CanType_dec (map CanType_enc l) = Some l).
  { induction l as [|u l IHl]; simpl; [done|].
    rewrite IH. simpl. by rewrite IHl. }
  destruct t as [s|k D p|k D p args|D p|elts|a r|a r ps|a|a|a]; simpl.
  - by rewrite decLeaf_encLeaf.
  - rewrite !decLeaf_encLeaf. simpl. by rewrite HO.
  - rewrite !decLeaf_encLeaf. simpl. rewrite HO. simpl. by rewrite HL.
  - rewrite !decLeaf_encLeaf. simpl. by rewrite HO.
  - by rewrite HL.
  - by rewrite !IH.
  - rewrite !IH. simpl.
    match goal with |- context [mapM ?f (map ?g ps)] =>
      assert (mapM f (map g ps) = Some ps) as ->; [|done] end.
    induction ps as [|[protos sup] ps IHps]; simpl; [done|].
    rewrite decLeaf_encLeaf. simpl. rewrite HO. simpl. by rewrite IHps.
  - by rewrite IH.
  - by rewrite IH.
  - by rewrite decLeaf_encLeaf.
Qed.

#[local] Transparent encLeaf decLeaf.

#[global] Instance CanType_countable : Countable CanType :=
  inj_countable CanType_enc CanType_dec CanType_dec_enc.

(** AST queries on types that GenDecl.cpp uses. *)
Definition getAnyNominal (type : CanType) : option Decl :=
  match type with
  | NominalType _ D _ | BoundGenericType _ D _ _ | UnboundGenericType D _ =>
      Some D
  | _ => None
  end.

Definition getNominalOrBoundGenericNominal (type : CanType) : option Decl :=
  match type with
  | NominalType _ D _ | BoundGenericType _ D _ _ => Some D
  | _ => None
  end.

Definition getClassOrBoundGenericClass (type : CanType) : option Decl :=
  match type with
  | NominalType NominalKind.Class D _
  | BoundGenericType NominalKind.Class D _ _ => Some D
  | _ => None
  end.

(** The declared type of a protocol: protocols are declared at file
    scope, so the type has no parent type. *)
Definition getDeclaredType (proto : Decl) : CanType :=
  NominalType NominalKind.Protocol proto None.

(** [Type::findIf]: whether the predicate holds of the type or of a type
    nested in it.  The walk does not enter the generic parameters of a
    polymorphic function type. *)
Fixpoint findIf (pred : CanType -> bool) (type : CanType) : bool :=
  pred type ||
  match type with
  | NominalType _ _ parent | UnboundGenericType _ parent =>
      from_option (findIf pred) false parent
  | BoundGenericType _ _ parent args =>
      from_option (findIf pred) false parent || existsb (findIf pred) args
  | TupleType elts => existsb (findIf pred) elts
  | FunctionType input result | PolymorphicFunctionType input result _ =>
      findIf pred input || findIf pred result
  | LValueType object => findIf pred object
  | MetatypeType instance => findIf pred instance
  | BuiltinType _ | ArchetypeType _ => false
  end.

(** ** Link entities (Linking.h) *)

Module SILLinkage.
Inductive t := External | Thunk | Internal | Deserialized.
#[global] Instance eq_dec : EqDecision t.
Proof. solve_decision. Defined.
#[global, program] Instance finite : Finite t :=
  {| enum := [External; Thunk; Internal; Deserialized] |}.
Next Obligation. by apply (bool_decide_unpack _). Qed.
Next Obligation. intros []; by apply (bool_decide_unpack _). Qed.
End SILLinkage.

Module Kind.
Inductive t :=
| ValueWitness | ValueWitnessTable | TypeMetadata | TypeMangling
| DebuggerTypeMangling
| WitnessTableOffset | Constructor | Destructor | Function | Getter
| Setter | Other | ObjCClass | ObjCMetaclass | SwiftMetaclassStub
| FieldOffset | NominalTypeDescriptor | ProtocolDescriptor
| DebuggerDeclTypeMangling
| DirectProtocolWitnessTable | LazyProtocolWitnessTableAccessor
| DependentProtocolWitnessTableGenerator
| LazyProtocolWitnessTableTemplate | DependentProtocolWitnessTableTemplate
| AnonymousFunction | BridgeToBlockConverter
| SILFunction | SILGlobalVariable.
#[global] Instance eq_dec : EqDecision t.
Proof. solve_decision. Defined.
#[global, program] Instance finite : Finite t :=
  {| enum := [ValueWitness; ValueWitnessTable; TypeMetadata; TypeMangling;
              DebuggerTypeMangling;
              WitnessTableOffset; Constructor; Destructor; Function; Getter;
              Setter; Other; ObjCClass; ObjCMetaclass; SwiftMetaclassStub;
              FieldOffset; NominalTypeDescriptor; ProtocolDescriptor;
              DebuggerDeclTypeMangling;
              DirectProtocolWitnessTable; LazyProtocolWitnessTableAccessor;
              DependentProtocolWitnessTableGenerator;
              LazyProtocolWitnessTableTemplate;
              DependentProtocolWitnessTableTemplate;
              AnonymousFunction; BridgeToBlockConverter;
              SILFunction; SILGlobalVariable] |}.
Next Obligation. by apply (bool_decide_unpack _). Qed.
Next Obligation. intros []; by apply (bool_decide_unpack _). Qed.
End Kind.

(** What the [Pointer] field of a link entity points to. *)
Inductive EntityPointer :=
| DeclPointer (D : Decl)
| TypePointer (T : CanType)
| ConformancePointer (C : Ptr)
| SILFunctionPointer (name : string) (linkage : SILLinkage.t)
| SILGlobalVariablePointer (name : string) (linkage : SILLinkage.t)
| ExprPointer (E : Ptr).

#[global] Instance EntityPointer_eq_dec : EqDecision EntityPointer.
Proof. solve_decision. Defined.

#[global] Instance EntityPointer_countable : Countable EntityPointer.
Proof.
  refine (inj_countable'
    (fun p => match p with
              | DeclPointer D => inl (inl D)
              | TypePointer T => inl (inr T)
              | ConformancePointer C => inr (inl (inl C))
              | ExprPointer E => inr (inl (inr E))
              | SILFunctionPointer n l => inr (inr (inl (n, l)))
              | SILGlobalVariablePointer n l => inr (inr (inr (n, l)))
              end)
    (fun x => match x with
              | inl (inl D) => DeclPointer D
              | inl (inr T) => TypePointer T
              | inr (inl (inl C)) => ConformancePointer C
              | inr (inl (inr E)) => ExprPointer E
              | inr (inr (inl (n, l))) => SILFunctionPointer n l
              | inr (inr (inr (n, l))) => SILGlobalVariablePointer n l
              end) _).
  by intros [].
Defined.

(** A link entity: a pointer and a word of data, of which the kind is
    one field.  Two entities are equal when both are. *)
Module LinkEntity.
Record t := mk {
  Pointer : EntityPointer;
  getKind : Kind.t;
  Data : N   (* the remaining fields: explosion and uncurry level,
                witness index, flags *)
}.

#[global] Instance eq_dec : EqDecision t.
Proof. solve_decision. Defined.
#[global] Instance countable : Countable t.
Proof.
  refine (inj_countable' (fun e => (Pointer e, getKind e, Data e))
                         (fun x => mk x.1.1 x.1.2 x.2) _).
  by intros [].
Defined.

(** The casts of the pointer; a cast to the wrong class has no result. *)
Definition getDecl (e : t) : option Decl :=
  match Pointer e with DeclPointer D => Some D | _ => None end.
Definition getType (e : t) : option CanType :=
  match Pointer e with TypePointer T => Some T | _ => None end.
Definition getSILFunction (e : t) : option SILLinkage.t :=
  match Pointer e with SILFunctionPointer _ l => Some l | _ => None end.
Definition getSILGlobalVariable (e : t) : option SILLinkage.t :=
  match Pointer e with
  | SILGlobalVariablePointer _ l => Some l
  | _ => None
  end.
End LinkEntity.
Abbreviation LinkEntity := LinkEntity.t.

(** What GenDecl.cpp takes from Linking.h and the AST headers without
    defining it: the mangler, the classification of entity kinds, and two
    queries on declaration contexts. *)
Class LinkingHeader := {
  mangle : LinkEntity -> string;
  isValueWitness : LinkEntity -> bool;
  isDeclKind : Kind.t -> bool;
  isProtocolConformanceKind : Kind.t -> bool;
  isTypeKind : Kind.t -> bool;
  (* DeclContext::isLocalContext *)
  isLocalContext : DeclContext -> bool;
  (* isa<ClangModuleUnit>(DC->getModuleScopeContext()) *)
  inClangModuleUnit : DeclContext -> bool
}.

Inductive LinkageTypes :=
| ExternalLinkage | LinkOnceODRLinkage | AppendingLinkage
| InternalLinkage | PrivateLinkage.
Inductive VisibilityTypes := DefaultVisibility | HiddenVisibility.

#[global] Instance LinkageTypes_eq_dec : EqDecision LinkageTypes.
Proof. solve_decision. Defined.
#[global] Instance VisibilityTypes_eq_dec : EqDecision VisibilityTypes.
Proof. solve_decision. Defined.

Module LinkInfo.
Record t := mk {
  getName : string;
  getLinkage : LinkageTypes;
  getVisibility : VisibilityTypes
}.
#[global] Instance eq_dec : EqDecision t.
Proof. solve_decision. Defined.
End LinkInfo.
Abbreviation LinkInfo := LinkInfo.t.

Section Linkage.
Context `{!LinkingHeader}.

Fixpoint isLocalLinkageContext (DC : DeclContext) : bool :=
  if isModuleContext DC then false
  else if isLocalContext DC then true
  else match DC with
       | SubDC _ _ parent => isLocalLinkageContext parent
       | ModuleDC _ => false
       end.

Definition isLocalLinkageDecl (D : Decl) : bool :=
  isLocalLinkageContext (Decl.getDeclContext D).

(** [isLocalLinkageType] with its helper [isLocalLinkageGenericClause]
    and the walk of [findIf] written in one recursion on the type; that
    it is [findIf] of the source's predicate is
    [isLocalLinkageType_findIf] below. *)
Fixpoint isLocalLinkageType (type : CanType) : bool :=
  match type with
  | NominalType _ nominal _ | BoundGenericType _ nominal _ _
  | UnboundGenericType nominal _ => isLocalLinkageDecl nominal
  | PolymorphicFunctionType _ _ params =>
      existsb (fun param : GenericParam =>
                 existsb isLocalLinkageDecl (getProtocols param)
                 || from_option isLocalLinkageType false
                                (getSuperclass param))
              params
  | _ => false
  end
  ||
  match type with
  | NominalType _ _ parent | UnboundGenericType _ parent =>
      from_option isLocalLinkageType false parent
  | BoundGenericType _ _ parent args =>
      from_option isLocalLinkageType false parent
      || existsb isLocalLinkageType args
  | TupleType elts => existsb isLocalLinkageType elts
  | FunctionType input result | PolymorphicFunctionType input result _ =>
      isLocalLinkageType input || isLocalLinkageType result
  | LValueType object => isLocalLinkageType object
  | MetatypeType instance => isLocalLinkageType instance
  | BuiltinType _ | ArchetypeType _ => false
  end.

Definition isLocalLinkageGenericClause (params : list GenericParam) : bool :=
  existsb (fun param : GenericParam =>
             existsb (fun proto => isLocalLinkageType (getDeclaredType proto))
                     (getProtocols param)
             || from_option isLocalLinkageType false (getSuperclass param))
          params.

(** The predicate [isLocalLinkageType] hands to [findIf]. *)
Definition isLocalLinkageType_pred (type : CanType) : bool :=
  match getAnyNominal type with
  | Some nominal => isLocalLinkageDecl nominal
  | None =>
      match type with
      | PolymorphicFunctionType _ _ params =>
          isLocalLinkageGenericClause params
      | _ => false
      end
  end.

Definition isLocalLinkage (e : LinkEntity) : option bool :=
  match LinkEntity.getKind e with
  | Kind.ValueWitness | Kind.ValueWitnessTable | Kind.TypeMetadata
  | Kind.TypeMangling | Kind.DebuggerTypeMangling =>
      isLocalLinkageType <$> LinkEntity.getType e
  | Kind.WitnessTableOffset | Kind.Constructor | Kind.Destructor
  | Kind.Function | Kind.Getter | Kind.Setter | Kind.Other
  | Kind.ObjCClass | Kind.ObjCMetaclass | Kind.SwiftMetaclassStub
  | Kind.FieldOffset | Kind.NominalTypeDescriptor
  | Kind.ProtocolDescriptor | Kind.DebuggerDeclTypeMangling =>
      isLocalLinkageDecl <$> LinkEntity.getDecl e
  | Kind.DirectProtocolWitnessTable
  | Kind.LazyProtocolWitnessTableAccessor
  | Kind.DependentProtocolWitnessTableGenerator => Some false
  | Kind.LazyProtocolWitnessTableTemplate
  | Kind.DependentProtocolWitnessTableTemplate => Some true
  | Kind.AnonymousFunction => Some true
  | Kind.BridgeToBlockConverter => Some false
  | Kind.SILFunction =>
      l ← LinkEntity.getSILFunction e;
      Some (bool_decide (l = SILLinkage.Internal))
  | Kind.SILGlobalVariable =>
      l ← LinkEntity.getSILGlobalVariable e;
      Some (bool_decide (l = SILLinkage.Internal))
  end.

Definition isa (k : DeclKind.t) (D : Decl) : bool :=
  bool_decide (Decl.getKind D = k).

(** [None] is [llvm_unreachable("invalid entity kind")], or a cast of
    the pointer to the wrong class. *)
Definition isThunk (e : LinkEntity) : option bool :=
  let kind := LinkEntity.getKind e in
  if bool_decide (kind = Kind.SILFunction) then
    l ← LinkEntity.getSILFunction e;
    Some (bool_decide (l = SILLinkage.Thunk))
  else if bool_decide (kind = Kind.SILGlobalVariable) then
    l ← LinkEntity.getSILGlobalVariable e;
    Some (bool_decide (l = SILLinkage.Thunk))
  else if isDeclKind kind then
    D ← LinkEntity.getDecl e;
    if negb (inClangModuleUnit (Decl.getDeclContext D)) then Some false
    else if bool_decide (kind = Kind.NominalTypeDescriptor)
            || bool_decide (kind = Kind.ProtocolDescriptor) then Some true
    else Some (isa DeclKind.Constructor D || isa DeclKind.Subscript D
               || (isa DeclKind.Var D && Decl.isComputed D))
  else if isProtocolConformanceKind kind then Some false
  else if isTypeKind kind then
    ty ← LinkEntity.getType e;
    match getNominalOrBoundGenericNominal ty with
    | None => Some false
    | Some decl => Some (inClangModuleUnit (Decl.getDeclContext decl))
    end
  else None.

Definition isDeserialized (e : LinkEntity) : option bool :=
  let kind := LinkEntity.getKind e in
  if bool_decide (kind = Kind.SILFunction) then
    l ← LinkEntity.getSILFunction e;
    Some (bool_decide (l = SILLinkage.Deserialized))
  else if bool_decide (kind = Kind.SILGlobalVariable) then
    l ← LinkEntity.getSILGlobalVariable e;
    Some (bool_decide (l = SILLinkage.Deserialized))
  else Some false.

Definition LinkInfo_get (entity : LinkEntity) : option LinkInfo :=
  let Name := mangle entity in
  isLocal ← isLocalLinkage entity;
  if (isLocal : bool) then
    Some (LinkInfo.mk Name InternalLinkage DefaultVisibility)
  else if isValueWitness entity then
    Some (LinkInfo.mk Name LinkOnceODRLinkage HiddenVisibility)
  else
    thunk ← isThunk entity;
    if (thunk : bool) then
      Some (LinkInfo.mk Name LinkOnceODRLinkage HiddenVisibility)
    else
      deserialized ← isDeserialized entity;
      if (deserialized : bool) then
        Some (LinkInfo.mk Name LinkOnceODRLinkage HiddenVisibility)
      else
        Some (LinkInfo.mk Name ExternalLinkage DefaultVisibility).
End Linkage.

(** ** The IR module, as far as GenDecl.cpp drives it *)

Module llvm.

(** IR types. *)
Inductive type :=
| VoidTy
| IntegerTy (bits : N)
| PointerTy (elt : type)
| StructTy (name : string)          (* a named struct such as swift.type *)
| ArrayTy (elt : type) (n : N)
| FunctionTy (ret : type) (params : list type) (isVarArg : bool)
| LiteralStructTy (fields : list type).

#[global] Instance type_eq_dec : EqDecision type.
Proof.
  refine (fix go (t1 t2 : type) {struct t1} : Decision (t1 = t2) :=
    let _ : EqDecision type := @go in
    match t1, t2 with
    | VoidTy, VoidTy => left _
    | IntegerTy a, IntegerTy b => cast_if (decide (a = b))
    | PointerTy a, PointerTy b => cast_if (decide (a = b))
    | StructTy a, StructTy b => cast_if (decide (a = b))
    | ArrayTy a n, ArrayTy b m =>
        cast_if_and (decide (a = b)) (decide (n = m))
    | FunctionTy r ps v, FunctionTy r' ps' v' =>
        cast_if_and3 (decide (r = r')) (decide (ps = ps')) (decide (v = v'))
    | LiteralStructTy a, LiteralStructTy b => cast_if (decide (a = b))
    | _, _ => right _
    end); congruence.
Defined.

Definition getPointerTo (t : type) : type := PointerTy t.

(** Addresses of the module's global values (functions and global
    variables). *)
Abbreviation ValueId := nat (only parsing).

(** Constants. *)
Inductive Constant :=
| GlobalRef (g : ValueId)
| ConstantInt (ty : type) (v : Z)
| BitCast (c : Constant) (ty : type)
| InBoundsGEP (c : Constant) (indices : list Constant)
| ConstantDataString (data : string)   (* the bytes and a trailing null *)
| ConstantStruct (fields : list Constant)
| ConstantArray (elts : list Constant).

#[global] Instance Constant_eq_dec : EqDecision Constant.
Proof.
  refine (fix go (c1 c2 : Constant) {struct c1} : Decision (c1 = c2) :=
    let _ : EqDecision Constant := @go in
    match c1, c2 with
    | GlobalRef a, GlobalRef b => cast_if (decide (a = b))
    | ConstantInt t v, ConstantInt t' v' =>
        cast_if_and (decide (t = t')) (decide (v = v'))
    | BitCast c t, BitCast c' t' =>
        cast_if_and (decide (c = c')) (decide (t = t'))
    | InBoundsGEP c i, InBoundsGEP c' i' =>
        cast_if_and (decide (c = c')) (decide (i = i'))
    | ConstantDataString a, ConstantDataString b => cast_if (decide (a = b))
    | ConstantStruct a, ConstantStruct b => cast_if (decide (a = b))
    | ConstantArray a, ConstantArray b => cast_if (decide (a = b))
    | _, _ => right _
    end); congruence.
Defined.

(** Operands of instructions: constants, the arguments of the enclosing
    function, and results of earlier instructions of the block. *)
Inductive Value :=
| Const (c : Constant)
| Argument (i : nat)
| Result (i : nat).

Inductive Instruction :=
| Call (callee : Value) (args : list Value)
| BitCastInst (v : Value) (ty : type)
| Store (val ptr : Value)
| Ret (v : option Value)
| OtherInst (opcode : string) (operands : list Value).

#[global] Instance Value_eq_dec : EqDecision Value.
Proof. solve_decision. Defined.
#[global] Instance Instruction_eq_dec : EqDecision Instruction.
Proof. solve_decision. Defined.

Abbreviation BasicBlock := (list Instruction) (only parsing).

Inductive ValueKind := FunctionKind | GlobalVariableKind.
#[global] Instance ValueKind_eq_dec : EqDecision ValueKind.
Proof. solve_decision. Defined.

(** A global value.  Its type as a value is a pointer to [valueType]. *)
Record GlobalValue := mkGlobalValue {
  kind : ValueKind;
  name : string;
  valueType : type;
  linkage : LinkageTypes;
  visibility : VisibilityTypes;
  callingConv : N;                  (* functions *)
  attributes : list string;         (* functions *)
  body : list BasicBlock;           (* functions *)
  isConstant : bool;                (* global variables *)
  initializer : option Constant;    (* global variables *)
  unnamedAddr : bool;
  alignment : N;
  section : string
}.

#[global] Instance GlobalValue_eq_dec : EqDecision GlobalValue.
Proof. solve_decision. Defined.

Definition getType (gv : GlobalValue) : type := PointerTy (valueType gv).

Definition withName (gv : GlobalValue) (n : string) : GlobalValue :=
  mkGlobalValue (kind gv) n (valueType gv) (linkage gv) (visibility gv)
    (callingConv gv) (attributes gv) (body gv) (isConstant gv)
    (initializer gv) (unnamedAddr gv) (alignment gv) (section gv).

(** The module: its global values by address, and its symbol table,
    which maps the names in use to the values that carry them.
    Values whose name is empty are not in the symbol table. *)
Record IRModule := mkModule {
  values : gmap ValueId GlobalValue;
  symtab : gmap string ValueId
}.

Definition empty : IRModule := mkModule ∅ ∅.

Definition getNamedValue (M : IRModule) (n : string) : option ValueId :=
  symtab M !! n.

Definition lookupKind (k : ValueKind) (M : IRModule) (n : string)
  : option ValueId :=
  id ← getNamedValue M n;
  gv ← values M !! id;
  if bool_decide (kind gv = k) then Some id else None.

(** [Module::getFunction]: the function of that name, if there is one. *)
Definition getFunction := lookupKind FunctionKind.
(** [Module::getNamedGlobal]: the global variable of that name. *)
Definition getNamedGlobal := lookupKind GlobalVariableKind.

(** The name a value receives when it asks for [n]: [n] itself when it
    is free, and otherwise [n] followed by a number that makes it
    unique.  The empty name is never entered into the table. *)
Definition uniqueName (tab : gmap string ValueId) (n : string) : string :=
  if bool_decide (n = "") then "" else fresh_string n tab.

Definition tabRemove (n : string) (tab : gmap string ValueId)
  : gmap string ValueId :=
  if bool_decide (n = "") then tab else delete n tab.

Definition tabAdd (n : string) (id : ValueId) (tab : gmap string ValueId)
  : gmap string ValueId :=
  if bool_decide (n = "") then tab else <[n := id]> tab.

(** [Value::setName]. *)
Definition setName (id : ValueId) (n : string) (M : IRModule) : IRModule :=
  match values M !! id with
  | None => M
  | Some gv =>
      let tab := tabRemove (name gv) (symtab M) in
      let n' := uniqueName tab n in
      mkModule (<[id := withName gv n']> (values M)) (tabAdd n' id tab)
  end.

(** Creating a global value in the module ([Function::Create],
    [new GlobalVariable]): it gets a fresh address and a unique name. *)
Definition create (gv : GlobalValue) (M : IRModule) : ValueId * IRModule :=
  let id := fresh (dom (values M)) in
  let n' := uniqueName (symtab M) (name gv) in
  (id, mkModule (<[id := withName gv n']> (values M))
                (tabAdd n' id (symtab M))).

(** [GlobalValue::eraseFromParent]. *)
Definition eraseFromParent (id : ValueId) (M : IRModule) : IRModule :=
  match values M !! id with
  | None => M
  | Some gv => mkModule (delete id (values M)) (tabRemove (name gv) (symtab M))
  end.

(** The type of a constant, where the constant determines it. *)
Definition typeOf (M : IRModule) (c : Constant) : option type :=
  match c with
  | GlobalRef g => getType <$> values M !! g
  | ConstantInt ty _ => Some ty
  | BitCast _ ty => Some ty
  | _ => None
  end.

(** [ConstantExpr::getBitCast]: a cast to the type the constant already
    has is the constant itself. *)
Definition getBitCast (M : IRModule) (c : Constant) (ty : type) : Constant :=
  if bool_decide (typeOf M c = Some ty) then c else BitCast c ty.

Definition getInBoundsGetElementPtr (c : Constant) (indices : list Constant)
  : Constant := InBoundsGEP c indices.

(** The global values a constant refers to. *)
Fixpoint refersTo (g : ValueId) (c : Constant) : bool :=
  match c with
  | GlobalRef g' => bool_decide (g = g')
  | ConstantInt _ _ | ConstantDataString _ => false
  | BitCast c _ => refersTo g c
  | InBoundsGEP c idx => refersTo g c || existsb (refersTo g) idx
  | ConstantStruct cs | ConstantArray cs => existsb (refersTo g) cs
  end.

(** The global value a handle is an address into: casts and element
    accesses stripped. *)
Fixpoint stripPointerCasts (c : Constant) : Constant :=
  match c with
  | BitCast c _ => stripPointerCasts c
  | InBoundsGEP c _ => stripPointerCasts c
  | _ => c
  end.

(** Replacing every use of a global value by a constant. *)
Fixpoint replaceInConstant (old : ValueId) (new : Constant) (c : Constant)
  : Constant :=
  match c with
  | GlobalRef g => if bool_decide (g = old) then new else c
  | ConstantInt _ _ | ConstantDataString _ => c
  | BitCast c ty => BitCast (replaceInConstant old new c) ty
  | InBoundsGEP c idx =>
      InBoundsGEP (replaceInConstant old new c)
                  (map (replaceInConstant old new) idx)
  | ConstantStruct cs => ConstantStruct (map (replaceInConstant old new) cs)
  | ConstantArray cs => ConstantArray (map (replaceInConstant old new) cs)
  end.

Definition replaceInValue (old : ValueId) (new : Constant) (v : Value)
  : Value :=
  match v with
  | Const c => Const (replaceInConstant old new c)
  | _ => v
  end.

Definition replaceInInstruction (old : ValueId) (new : Constant)
    (i : Instruction) : Instruction :=
  match i with
  | Call f args =>
      Call (replaceInValue old new f) (map (replaceInValue old new) args)
  | BitCastInst v ty => BitCastInst (replaceInValue old new v) ty
  | Store v p => Store (replaceInValue old new v) (replaceInValue old new p)
  | Ret v => Ret (replaceInValue old new <$> v)
  | OtherInst op vs => OtherInst op (map (replaceInValue old new) vs)
  end.

Definition replaceInGlobal (old : ValueId) (new : Constant)
    (gv : GlobalValue) : GlobalValue :=
  mkGlobalValue (kind gv) (name gv) (valueType gv) (linkage gv)
    (visibility gv) (callingConv gv) (attributes gv)
    (map (map (replaceInInstruction old new)) (body gv))
    (isConstant gv) (replaceInConstant old new <$> initializer gv)
    (unnamedAddr gv) (alignment gv) (section gv).

(** [Value::replaceAllUsesWith], on the uses inside the module:
    initializers and instruction operands. *)
Definition replaceAllUsesWith (old : ValueId) (new : Constant)
    (M : IRModule) : IRModule :=
  mkModule (replaceInGlobal old new <$> values M) (symtab M).

(** Whether a global value is used by an instruction or initializer. *)
Definition valueRefersTo (g : ValueId) (v : Value) : bool :=
  match v with Const c => refersTo g c | _ => false end.

Definition instructionRefersTo (g : ValueId) (i : Instruction) : bool :=
  match i with
  | Call f args => valueRefersTo g f || existsb (valueRefersTo g) args
  | BitCastInst v _ => valueRefersTo g v
  | Store v p => valueRefersTo g v || valueRefersTo g p
  | Ret v => from_option (valueRefersTo g) false v
  | OtherInst _ vs => existsb (valueRefersTo g) vs
  end.

Definition globalRefersTo (g : ValueId) (gv : GlobalValue) : bool :=
  existsb (existsb (instructionRefersTo g)) (body gv)
  || from_option (refersTo g) false (initializer gv).

(** The instruction builder: appends to the last block of a function. *)
Definition appendInst (i : Instruction) (blocks : list BasicBlock)
  : list BasicBlock :=
  match reverse blocks with
  | [] => [[i]]
  | b :: rest => reverse ((b ++ [i])%list :: rest)
  end.

Definition withBody (gv : GlobalValue) (b : list BasicBlock) : GlobalValue :=
  mkGlobalValue (kind gv) (name gv) (valueType gv) (linkage gv)
    (visibility gv) (callingConv gv) (attributes gv) b
    (isConstant gv) (initializer gv) (unnamedAddr gv) (alignment gv)
    (section gv).

Definition emit (fn : ValueId) (i : Instruction) (M : IRModule) : IRModule :=
  mkModule (alter (fun gv => withBody gv (appendInst i (body gv))) fn
                  (values M))
           (symtab M).

End llvm.

(** ** More of the AST: conformances, extensions, source files *)

Inductive ProtocolConformance :=
| Conformance (addr : Ptr)
              (getInheritedConformances : list (Decl * ProtocolConformance)).

Definition getInheritedConformances (c : ProtocolConformance)
  : list (Decl * ProtocolConformance) :=
  match c with Conformance _ l => l end.

Module ExtensionDecl.
Record t := mk {
  asDecl : Decl;
  getMembers : list Decl;
  getProtocols : list Decl;
  getConformances : list ProtocolConformance;
  getDeclaredTypeInContext : CanType
}.
End ExtensionDecl.
Abbreviation ExtensionDecl := ExtensionDecl.t.

Module SourceFileKind.
Inductive t := Library | Main | REPL | SIL.
#[global] Instance eq_dec : EqDecision t.
Proof. solve_decision. Defined.
End SourceFileKind.

Module SourceFile.
Record t := mk {
  Decls : list Decl;
  Kind : SourceFileKind.t;
  getFilename : string;        (* the file name, without directories *)
  getParentModuleName : string
}.

(** Modelled from the spec: [SourceFile::isScriptMode] is declared with
    the AST, outside this file.  The spec calls the units whose
    top-level code runs from the program entry function "the program's
    main unit or an interactive-session unit". *)
Definition isScriptMode (SF : t) : bool :=
  bool_decide (Kind SF = SourceFileKind.Main)
  || bool_decide (Kind SF = SourceFileKind.REPL).
End SourceFile.
Abbreviation SourceFile := SourceFile.t.

(** ** The state of IR generation for one module *)

Record Diagnostic := mkDiagnostic {
  diagLoc : option Ptr;      (* [None] is the null location [SourceLoc()] *)
  diagMessage : string
}.

(** The fields of IRGenModule that GenDecl.cpp reads and writes.  Debug
    info is off throughout: IGM.DebugInfo is null, and the branches under
    [if (DebugInfo)] are left out. *)
Record IRGenModule := mkIRGenModule {
  TheModule : llvm.IRModule;                       (* IGM.Module *)
  GlobalVars : gmap LinkEntity nat;
  GlobalFuncs : gmap LinkEntity nat;
  GlobalStrings : gmap string llvm.Constant;
  (* Value handles that follow replaceAllUsesWith. *)
  LLVMUsed : list llvm.Constant;
  ObjCClasses : list llvm.Constant;
  ObjCCategories : list llvm.Constant;
  ObjCCategoryDecls : list ExtensionDecl;
  Diags : list Diagnostic;
  ObjCInterop : bool;
  UseJIT : bool;                                   (* Opts.UseJIT *)
  SizeTy : llvm.type
}.

Definition withModule (f : llvm.IRModule -> llvm.IRModule) (IGM : IRGenModule)
  : IRGenModule :=
  mkIRGenModule (f (TheModule IGM)) (GlobalVars IGM) (GlobalFuncs IGM)
    (GlobalStrings IGM) (LLVMUsed IGM) (ObjCClasses IGM) (ObjCCategories IGM)
    (ObjCCategoryDecls IGM) (Diags IGM) (ObjCInterop IGM) (UseJIT IGM)
    (SizeTy IGM).

Definition withGlobalVars (f : gmap LinkEntity nat -> gmap LinkEntity nat)
    (IGM : IRGenModule) : IRGenModule :=
  mkIRGenModule (TheModule IGM) (f (GlobalVars IGM)) (GlobalFuncs IGM)
    (GlobalStrings IGM) (LLVMUsed IGM) (ObjCClasses IGM) (ObjCCategories IGM)
    (ObjCCategoryDecls IGM) (Diags IGM) (ObjCInterop IGM) (UseJIT IGM)
    (SizeTy IGM).

Definition withGlobalFuncs (f : gmap LinkEntity nat -> gmap LinkEntity nat)
    (IGM : IRGenModule) : IRGenModule :=
  mkIRGenModule (TheModule IGM) (GlobalVars IGM) (f (GlobalFuncs IGM))
    (GlobalStrings IGM) (LLVMUsed IGM) (ObjCClasses IGM) (ObjCCategories IGM)
    (ObjCCategoryDecls IGM) (Diags IGM) (ObjCInterop IGM) (UseJIT IGM)
    (SizeTy IGM).

Definition withGlobalStrings
    (f : gmap string llvm.Constant -> gmap string llvm.Constant)
    (IGM : IRGenModule) : IRGenModule :=
  mkIRGenModule (TheModule IGM) (GlobalVars IGM) (GlobalFuncs IGM)
    (f (GlobalStrings IGM)) (LLVMUsed IGM) (ObjCClasses IGM)
    (ObjCCategories IGM) (ObjCCategoryDecls IGM) (Diags IGM) (ObjCInterop IGM)
    (UseJIT IGM) (SizeTy IGM).

Definition withHandles (f : llvm.Constant -> llvm.Constant) (IGM : IRGenModule)
  : IRGenModule :=
  mkIRGenModule (TheModule IGM) (GlobalVars IGM) (GlobalFuncs IGM)
    (GlobalStrings IGM) (f <$> LLVMUsed IGM) (f <$> ObjCClasses IGM)
    (f <$> ObjCCategories IGM) (ObjCCategoryDecls IGM) (Diags IGM)
    (ObjCInterop IGM) (UseJIT IGM) (SizeTy IGM).

Definition withCategory (category : llvm.Constant) (ext : ExtensionDecl)
    (IGM : IRGenModule) : IRGenModule :=
  mkIRGenModule (TheModule IGM) (GlobalVars IGM) (GlobalFuncs IGM)
    (GlobalStrings IGM) (LLVMUsed IGM) (ObjCClasses IGM)
    (ObjCCategories IGM ++ [category]) (ObjCCategoryDecls IGM ++ [ext])
    (Diags IGM) (ObjCInterop IGM) (UseJIT IGM) (SizeTy IGM).

Definition withObjCClass (classPtr : llvm.Constant) (IGM : IRGenModule)
  : IRGenModule :=
  mkIRGenModule (TheModule IGM) (GlobalVars IGM) (GlobalFuncs IGM)
    (GlobalStrings IGM) (LLVMUsed IGM) (ObjCClasses IGM ++ [classPtr])
    (ObjCCategories IGM) (ObjCCategoryDecls IGM) (Diags IGM) (ObjCInterop IGM)
    (UseJIT IGM) (SizeTy IGM).

Definition withDiag (d : Diagnostic) (IGM : IRGenModule) : IRGenModule :=
  mkIRGenModule (TheModule IGM) (GlobalVars IGM) (GlobalFuncs IGM)
    (GlobalStrings IGM) (LLVMUsed IGM) (ObjCClasses IGM) (ObjCCategories IGM)
    (ObjCCategoryDecls IGM) (Diags IGM ++ [d]) (ObjCInterop IGM) (UseJIT IGM)
    (SizeTy IGM).

(** Computations of the IR generator: they read and update the state, and
    may stop the compiler ([None]: a failed assertion, llvm_unreachable,
    or a dangling pointer). *)
Definition IRGen (A : Type) : Type := IRGenModule -> option (A * IRGenModule).

Definition ret {A} (a : A) : IRGen A := fun IGM => Some (a, IGM).
Definition bind {A B} (m : IRGen A) (k : A -> IRGen B) : IRGen B :=
  fun IGM => match m IGM with
             | Some (a, IGM') => k a IGM'
             | None => None
             end.
Definition fatal {A} : IRGen A := fun _ => None.
Definition get : IRGen IRGenModule := fun IGM => Some (IGM, IGM).
Definition modify (f : IRGenModule -> IRGenModule) : IRGen unit :=
  fun IGM => Some (tt, f IGM).
Definition liftOption {A} (o : option A) : IRGen A :=
  match o with Some a => ret a | None => fatal end.
Definition assert (b : bool) : IRGen unit := if b then ret tt else fatal.

Declare Scope irgen_scope.
Delimit Scope irgen_scope with irgen.
Notation "x <- m ;; k" := (bind m (fun x => k))
  (at level 100, m at next level, right associativity) : irgen_scope.
Notation "m ;; k" := (bind m (fun _ => k))
  (at level 100, right associativity) : irgen_scope.
Open Scope irgen_scope.

Fixpoint forEach {A} (l : list A) (f : A -> IRGen unit) : IRGen unit :=
  match l with
  | [] => ret tt
  | x :: l => f x ;; forEach l f
  end.

(** Add the given global value to the Objective-C class list. *)
Definition addObjCClass (classPtr : llvm.Constant) : IRGen unit :=
  modify (withObjCClass classPtr).

(** IGM.error *)
Definition error (loc : option Ptr) (msg : string) : IRGen unit :=
  modify (withDiag (mkDiagnostic loc msg)).

Definition getModule : IRGen llvm.IRModule :=
  IGM <- get ;; ret (TheModule IGM).

Definition createGlobal (gv : llvm.GlobalValue) : IRGen nat :=
  M <- getModule ;;
  let '(id, M') := llvm.create gv M in
  modify (withModule (fun _ => M')) ;;
  ret id.

(** The global value behind a pointer; a dangling pointer is fatal. *)
Definition deref (g : nat) : IRGen llvm.GlobalValue :=
  M <- getModule ;; liftOption (llvm.values M !! g).

(** [replaceAllUsesWith], on the module and on the value handles. *)
Definition replaceAllUsesWith (old : nat) (new : llvm.Constant) : IRGen unit :=
  modify (fun IGM =>
    withHandles (llvm.replaceInConstant old new)
      (withModule (llvm.replaceAllUsesWith old new) IGM)).

(** ** Creating symbols with given linkage rules *)

Definition isPointerTo (ptrTy objTy : llvm.type) : option bool :=
  match ptrTy with
  | llvm.PointerTy elt => Some (bool_decide (elt = objTy))
  | _ => None
  end.

Definition newFunction (fnType : llvm.type) (link : LinkageTypes)
    (n : string) : llvm.GlobalValue :=
  llvm.mkGlobalValue llvm.FunctionKind n fnType link DefaultVisibility
    0 [] [] false None false 0 "".

Definition newGlobalVariable (ty : llvm.type) (isConstant : bool)
    (link : LinkageTypes) (init : option llvm.Constant) (n : string)
  : llvm.GlobalValue :=
  llvm.mkGlobalValue llvm.GlobalVariableKind n ty link DefaultVisibility
    0 [] [] isConstant init false 0 "".

Definition update (g : nat) (f : llvm.GlobalValue -> llvm.GlobalValue)
  : IRGen unit :=
  modify (withModule (fun M =>
    llvm.mkModule (alter f g (llvm.values M)) (llvm.symtab M))).

Definition setVisibility (v : VisibilityTypes) (gv : llvm.GlobalValue)
  : llvm.GlobalValue :=
  llvm.mkGlobalValue (llvm.kind gv) (llvm.name gv) (llvm.valueType gv)
    (llvm.linkage gv) v (llvm.callingConv gv) (llvm.attributes gv)
    (llvm.body gv) (llvm.isConstant gv) (llvm.initializer gv)
    (llvm.unnamedAddr gv) (llvm.alignment gv) (llvm.section gv).

Definition setCallingConv (cc : N) (gv : llvm.GlobalValue)
  : llvm.GlobalValue :=
  llvm.mkGlobalValue (llvm.kind gv) (llvm.name gv) (llvm.valueType gv)
    (llvm.linkage gv) (llvm.visibility gv) cc (llvm.attributes gv)
    (llvm.body gv) (llvm.isConstant gv) (llvm.initializer gv)
    (llvm.unnamedAddr gv) (llvm.alignment gv) (llvm.section gv).

Definition setAttributes (attrs : list string) (gv : llvm.GlobalValue)
  : llvm.GlobalValue :=
  llvm.mkGlobalValue (llvm.kind gv) (llvm.name gv) (llvm.valueType gv)
    (llvm.linkage gv) (llvm.visibility gv) (llvm.callingConv gv) attrs
    (llvm.body gv) (llvm.isConstant gv) (llvm.initializer gv)
    (llvm.unnamedAddr gv) (llvm.alignment gv) (llvm.section gv).

Definition setUnnamedAddr (b : bool) (gv : llvm.GlobalValue)
  : llvm.GlobalValue :=
  llvm.mkGlobalValue (llvm.kind gv) (llvm.name gv) (llvm.valueType gv)
    (llvm.linkage gv) (llvm.visibility gv) (llvm.callingConv gv)
    (llvm.attributes gv) (llvm.body gv) (llvm.isConstant gv)
    (llvm.initializer gv) b (llvm.alignment gv) (llvm.section gv).

(** Get or create an LLVM function with these linkage rules. *)
Definition LinkInfo_createFunction (link : LinkInfo) (fnType : llvm.type)
    (cc : N) (attrs : list string) : IRGen nat :=
  M <- getModule ;;
  found <-
    match llvm.getFunction M (LinkInfo.getName link) with
    | Some existing =>
        gv <- deref existing ;;
        compatible <- liftOption (isPointerTo (llvm.getType gv) fnType) ;;
        if (compatible : bool) then ret (Some existing)
        else
          error None
            ("program too clever: function collides with existing symbol "
             +:+ LinkInfo.getName link) ;;
          (* Note that this will implicitly unique if the .unique name is
             also taken. *)
          modify (withModule
                    (llvm.setName existing (LinkInfo.getName link +:+ ".unique"))) ;;
          ret None
    | None => ret None
    end ;;
  match found with
  | Some existing => ret existing
  | None =>
      fn <- createGlobal (newFunction fnType (LinkInfo.getLinkage link)
                                      (LinkInfo.getName link)) ;;
      update fn (setVisibility (LinkInfo.getVisibility link)) ;;
      update fn (setCallingConv cc) ;;
      (if bool_decide (attrs = []) then ret tt
       else update fn (setAttributes attrs)) ;;
      ret fn
  end.

(** Get or create an LLVM global variable with these linkage rules.
    (No debug info is emitted: IGM.DebugInfo is null.) *)
Definition LinkInfo_createVariable (link : LinkInfo) (storageType : llvm.type)
  : IRGen nat :=
  M <- getModule ;;
  found <-
    match llvm.getNamedGlobal M (LinkInfo.getName link) with
    | Some existing =>
        gv <- deref existing ;;
        compatible <-
          (if bool_decide (llvm.kind gv = llvm.GlobalVariableKind)
           then liftOption (isPointerTo (llvm.getType gv) storageType)
           else ret false) ;;
        if (compatible : bool) then ret (Some existing)
        else
          error None
            ("program too clever: variable collides with existing symbol "
             +:+ LinkInfo.getName link) ;;
          modify (withModule
                    (llvm.setName existing (LinkInfo.getName link +:+ ".unique"))) ;;
          ret None
    | None => ret None
    end ;;
  match found with
  | Some existing => ret existing
  | None =>
      var <- createGlobal (newGlobalVariable storageType false
                             (LinkInfo.getLinkage link) None
                             (LinkInfo.getName link)) ;;
      update var (setVisibility (LinkInfo.getVisibility link)) ;;
      ret var
  end.

(** ** The symbol caches *)

Module ExplosionKind.
Inductive t := Minimal | Maximal.
End ExplosionKind.

Module ExtraData.
Inductive t := None | Retainable | Metatype.
End ExtraData.

Module FunctionRef.
Record t := mk {
  getDecl : Decl;
  getExplosionLevel : ExplosionKind.t;
  getUncurryLevel : nat
}.
End FunctionRef.
Abbreviation FunctionRef := FunctionRef.t.

(** What the cache functions take from the rest of the IR generator:
    the constructors of link entities (Linking.h), the lowering of a
    function reference to its IR signature (the SIL type of the constant,
    getFunctionType and expandAbstractCC), and GenMeta's test for
    classes with Swift metadata. *)
Class LoweringHeader := {
  forFunction : FunctionRef -> LinkEntity;
  forObjCClass : Decl -> LinkEntity;
  forTypeMetadata : CanType -> bool -> bool -> LinkEntity;
  (* the IR function type, the calling convention and the attributes *)
  lowerFunctionRef : FunctionRef -> ExtraData.t -> llvm.type * N * list string;
  hasKnownSwiftMetadata : Decl -> bool
}.

(** The IR types IRGenModule keeps for metadata. *)
Definition Int8Ty := llvm.IntegerTy 8.
Definition Int32Ty := llvm.IntegerTy 32.
Definition Int8PtrTy := llvm.PointerTy Int8Ty.
Definition TypeMetadataStructTy := llvm.StructTy "swift.type".
Definition TypeMetadataPtrTy := llvm.PointerTy TypeMetadataStructTy.
Definition TypeMetadataPatternStructTy := llvm.StructTy "swift.type_pattern".
Definition TypeMetadataPatternPtrTy := llvm.PointerTy TypeMetadataPatternStructTy.
Definition FullHeapMetadataStructTy := llvm.StructTy "swift.full_heapmetadata".
Definition FullHeapMetadataPtrTy := llvm.PointerTy FullHeapMetadataStructTy.
Definition FullTypeMetadataStructTy := llvm.StructTy "swift.full_type".
Definition FullTypeMetadataPtrTy := llvm.PointerTy FullTypeMetadataStructTy.

Section Caches.
Context `{!LinkingHeader} `{!LoweringHeader}.

(** Fetch the declaration of the given known function. *)
Definition getAddrOfFunction (fn : FunctionRef) (extraData : ExtraData.t)
  : IRGen nat :=
  let entity := forFunction fn in
  IGM <- get ;;
  (* Check whether we've cached this. *)
  match GlobalFuncs IGM !! entity with
  | Some entry => ret entry
  | None =>
      let '(fnType, cc, attrs) := lowerFunctionRef fn extraData in
      link <- liftOption (LinkInfo_get entity) ;;
      entry <- LinkInfo_createFunction link fnType cc attrs ;;
      modify (withGlobalFuncs <[entity := entry]>) ;;
      ret entry
  end.

(** Get or create a llvm::GlobalVariable.

    If a definition type is given, the result will always be an
    llvm::GlobalVariable of that type.  Otherwise, the result will have
    type pointerToDefaultType and may involve bitcasts.

    (The map of globals is IGM.GlobalVars at every call.) *)
Definition getAddrOfLLVMVariable (entity : LinkEntity)
    (definitionType : option llvm.type)
    (defaultType pointerToDefaultType : llvm.type) : IRGen llvm.Constant :=
  IGM <- get ;;
  let entry := GlobalVars IGM !! entity in
  done <-
    match entry with
    | Some entry =>
        match definitionType with
        | Some definitionType =>
            (* If we're looking to define something, we may need to
               replace a forward declaration. *)
            gv <- deref entry ;;
            assert (bool_decide (llvm.getType gv = pointerToDefaultType)) ;;
            (* If the type is right, we're done. *)
            if bool_decide (definitionType = defaultType)
            then ret (Some (llvm.GlobalRef entry))
            else
              (* Fall out to the case below, clearing the name so that
                 createVariable doesn't detect a collision. *)
              modify (withModule (llvm.setName entry "")) ;;
              ret None
        | None =>
            (* Otherwise, we have a previous declaration or definition
               which we need to ensure has the right type. *)
            ret (Some (llvm.getBitCast (TheModule IGM) (llvm.GlobalRef entry)
                                       pointerToDefaultType))
        end
    | None => ret None
    end ;;
  match done with
  | Some result => ret result
  | None =>
      (* If we're not defining the object now *)
      let definitionType := default defaultType definitionType in
      (* Create the variable. *)
      link <- liftOption (LinkInfo_get entity) ;;
      var <- LinkInfo_createVariable link definitionType ;;
      (* If we have an existing entry, destroy it, replacing it with the
         new variable. *)
      match entry with
      | Some entry =>
          M <- getModule ;;
          let castVar :=
            llvm.getBitCast M (llvm.GlobalRef var) pointerToDefaultType in
          replaceAllUsesWith entry castVar ;;
          modify (withModule (llvm.eraseFromParent entry))
      | None => ret tt
      end ;;
      (* Cache and return. *)
      modify (withGlobalVars <[entity := var]>) ;;
      ret (llvm.GlobalRef var)
  end.

Definition isClassType (type : CanType) : option Decl :=
  match type with
  | NominalType NominalKind.Class D _ => Some D
  | _ => None
  end.

Definition isBoundGenericClassType (type : CanType) : bool :=
  match type with
  | BoundGenericType NominalKind.Class _ _ _ => true
  | _ => false
  end.

Definition isUnboundGenericType (type : CanType) : bool :=
  match type with UnboundGenericType _ _ => true | _ => false end.

(** The storage layout of a type's metadata: the default type of the
    variable, the pointer type, the adjustment index, and the class when
    the metadata is that of an Objective-C class. *)
Definition metadataLayout (concreteType : CanType)
    (isIndirect isPattern : bool)
  : llvm.type * llvm.type * nat * option Decl :=
  let '(defaultVarTy, defaultVarPtrTy, adjustmentIndex, ObjCClass) :=
    (* Patterns use the pattern type and no adjustment. *)
    if isPattern then
      (TypeMetadataPatternStructTy, TypeMetadataPatternPtrTy, 0, None)
    else
      match isClassType concreteType with
      | Some D =>
          (* Objective-C classes use the generic metadata type and need
             no adjustment. *)
          if negb (hasKnownSwiftMetadata D) then
            (TypeMetadataStructTy, TypeMetadataPtrTy, 0, Some D)
          (* Class direct metadata use the heap type and require a
             two-word adjustment (due to the heap-metadata header). *)
          else (FullHeapMetadataStructTy, FullHeapMetadataPtrTy, 2, None)
      | None =>
          if isBoundGenericClassType concreteType then
            (FullHeapMetadataStructTy, FullHeapMetadataPtrTy, 2, None)
          (* All other non-pattern direct metadata use the full type and
             require an adjustment. *)
          else (FullTypeMetadataStructTy, FullTypeMetadataPtrTy, 1, None)
      end in
  (* When indirect, this is always a pointer variable and has no
     adjustment. *)
  if isIndirect then
    (defaultVarPtrTy, llvm.getPointerTo defaultVarPtrTy, 0, ObjCClass)
  else (defaultVarTy, defaultVarPtrTy, adjustmentIndex, ObjCClass).

(** Fetch the declaration of the metadata (or metadata template) for a
    class. *)
Definition getAddrOfTypeMetadata (concreteType : CanType)
    (isIndirect isPattern : bool) (storageType : option llvm.type)
  : IRGen llvm.Constant :=
  assert (isPattern || negb (isUnboundGenericType concreteType)) ;;
  let '(defaultVarTy, defaultVarPtrTy, adjustmentIndex, ObjCClass) :=
    metadataLayout concreteType isIndirect isPattern in
  let entity :=
    match ObjCClass with
    | Some ObjCClass => forObjCClass ObjCClass
    | None => forTypeMetadata concreteType isIndirect isPattern
    end in
  addr <- getAddrOfLLVMVariable entity storageType defaultVarTy
                                defaultVarPtrTy ;;
  (* Do an adjustment if necessary. *)
  if bool_decide (adjustmentIndex <> 0) && bool_decide (storageType = None)
  then
    let indices := [llvm.ConstantInt Int32Ty 0;
                    llvm.ConstantInt Int32Ty (Z.of_nat adjustmentIndex)] in
    ret (llvm.getInBoundsGetElementPtr addr indices)
  else ret addr.

(** Get or create a global string constant.

    Returns an i8* with a null terminator; note that embedded nulls are
    okay. *)
Definition getAddrOfGlobalString (data : string) : IRGen llvm.Constant :=
  IGM <- get ;;
  (* Check whether this string already exists. *)
  match GlobalStrings IGM !! data with
  | Some entry => ret entry
  | None =>
      (* If not, create it.  This implicitly adds a trailing null. *)
      let init := llvm.ConstantDataString data in
      let initType :=
        llvm.ArrayTy Int8Ty (N.of_nat (String.length data) + 1) in
      global <- createGlobal (newGlobalVariable initType true PrivateLinkage
                                                (Some init) "") ;;
      update global (setUnnamedAddr true) ;;
      (* Drill down to make an i8*. *)
      let zero := llvm.ConstantInt (SizeTy IGM) 0 in
      let indices := [zero; zero] in
      let address :=
        llvm.getInBoundsGetElementPtr (llvm.GlobalRef global) indices in
      (* Cache and return. *)
      modify (withGlobalStrings <[data := address]>) ;;
      ret address
  end.
End Caches.

(** ** Formal types of getters and setters *)

Module AbstractCC.
Inductive t := C | ObjCMethod | Freestanding | Method.
#[global] Instance eq_dec : EqDecision t.
Proof. solve_decision. Defined.
End AbstractCC.

Module FormalType.
Record t := mk {
  getType : CanType;
  getAbstractCC : AbstractCC.t;
  getNaturalUncurryLevel : nat
}.
#[global] Instance eq_dec : EqDecision t.
Proof. solve_decision. Defined.
End FormalType.
Abbreviation FormalType := FormalType.t.

(** A variable or subscript declaration. *)
Module ValueDecl.
Record t := mk {
  asDecl : Decl;
  getType : CanType;
  (* for a SubscriptDecl *)
  getIndicesType : CanType;     (* sub->getIndices()->getType() *)
  getElementType : CanType
}.
Definition getDeclContext (value : t) : DeclContext :=
  Decl.getDeclContext (asDecl value).
(** dyn_cast<SubscriptDecl>(value) *)
Definition isSubscriptDecl (value : t) : bool :=
  bool_decide (Decl.getKind (asDecl value) = DeclKind.Subscript).
End ValueDecl.
Abbreviation ValueDecl := ValueDecl.t.

(** Queries on declaration contexts and types answered by the AST. *)
Class ASTHeader := {
  getDeclaredTypeInContext : DeclContext -> CanType;
  hasReferenceSemantics : CanType -> bool;
  getGenericParamsOfContext : DeclContext -> option (list GenericParam)
}.

Section FormalTypes.
Context `{!ASTHeader}.

Definition addOwnerArgumentDC (DC : DeclContext) (resultType : CanType)
  : CanType :=
  let argType := getDeclaredTypeInContext DC in
  let argType :=
    if negb (hasReferenceSemantics argType) then LValueType argType
    else argType in
  match getGenericParamsOfContext DC with
  | Some params => PolymorphicFunctionType argType resultType params
  | None => FunctionType argType resultType
  end.

(** The result type and the uncurry level are passed by reference;
    they are returned here along with the convention. *)
Definition addOwnerArgument (value : ValueDecl) (resultType : CanType)
    (uncurryLevel : nat) : AbstractCC.t * CanType * nat :=
  let DC := ValueDecl.getDeclContext value in
  match getContextKind DC with
  | DeclContextKind.Module | DeclContextKind.FileUnit
  | DeclContextKind.AbstractClosureExpr | DeclContextKind.TopLevelCodeDecl
  | DeclContextKind.AbstractFunctionDecl | DeclContextKind.Initializer =>
      (AbstractCC.Freestanding, resultType, uncurryLevel)
  | DeclContextKind.ExtensionDecl | DeclContextKind.NominalTypeDecl =>
      (AbstractCC.Method, addOwnerArgumentDC DC resultType, S uncurryLevel)
  end.

(** Add the 'index' argument to a getter or setter. *)
Definition addIndexArgument (value : ValueDecl) (formalType : CanType)
    (uncurryLevel : nat) : CanType * nat :=
  if ValueDecl.isSubscriptDecl value then
    (FunctionType (ValueDecl.getIndicesType value) formalType,
     S uncurryLevel)
  else (formalType, uncurryLevel).

Definition getObjectType (decl : ValueDecl) : CanType :=
  if ValueDecl.isSubscriptDecl decl then ValueDecl.getElementType decl
  else ValueDecl.getType decl.

Definition TupleType_getEmpty : CanType := TupleType [].

(** getTypeOfGetter - Return the formal type of a getter for a variable
    or subscripted object. *)
Definition getTypeOfGetter (value : ValueDecl) : FormalType :=
  let uncurryLevel := 0 in
  let formalType := FunctionType TupleType_getEmpty (getObjectType value) in
  let '(formalType, uncurryLevel) :=
    addIndexArgument value formalType uncurryLevel in
  let '(cc, formalType, uncurryLevel) :=
    addOwnerArgument value formalType uncurryLevel in
  FormalType.mk formalType cc uncurryLevel.

(** getTypeOfSetter - Return the formal type of a setter for a variable
    or subscripted object. *)
Definition getTypeOfSetter (value : ValueDecl) : FormalType :=
  let uncurryLevel := 0 in
  let argType := getObjectType value in
  let formalType := FunctionType argType TupleType_getEmpty in
  let '(formalType, uncurryLevel) :=
    addIndexArgument value formalType uncurryLevel in
  let '(cc, formalType, uncurryLevel) :=
    addOwnerArgument value formalType uncurryLevel in
  FormalType.mk formalType cc uncurryLevel.
End FormalTypes.

(** ** Emitting declarations *)

(** The emitters of other files that GenDecl.cpp calls, GenObjC's tests
    for members that need an Objective-C entry point, and the downcast of
    a declaration to an extension. *)
Class EmitterHeader := {
  emitEnumDecl : Decl -> IRGen unit;
  emitStructDecl : Decl -> IRGen unit;
  emitClassDecl : Decl -> IRGen unit;
  emitProtocolDecl : Decl -> IRGen unit;
  emitLocalDecls : Decl -> IRGen unit;
  emitCategoryData : ExtensionDecl -> IRGen llvm.Constant;
  requiresObjCMethodDescriptor : Decl -> bool;
  requiresObjCPropertyDescriptor : Decl -> bool;
  requiresObjCSubscriptDescriptor : Decl -> bool;
  castExtensionDecl : Decl -> ExtensionDecl
}.

Fixpoint protocolExtensionRequiresCategory (protocol : Decl)
    (conformance : ProtocolConformance) {struct conformance} : bool :=
  if Decl.isObjC protocol then true
  else
    match conformance with
    | Conformance _ inherited =>
        existsb (fun inherited : Decl * ProtocolConformance =>
                   protocolExtensionRequiresCategory inherited.1 inherited.2)
                inherited
    end.

(** The loop over the protocols of an extension, from index [i]; the
    conformance of the i-th protocol is the i-th conformance, and reading
    past the end of the conformances is undefined. *)
Fixpoint protocolsRequireCategory (protocols : list Decl)
    (conformances : list ProtocolConformance) (i : nat) : option bool :=
  match protocols with
  | [] => Some false
  | protocol :: protocols =>
      conformance ← conformances !! i;
      if protocolExtensionRequiresCategory protocol conformance then Some true
      else protocolsRequireCategory protocols conformances (S i)
  end.

Section Emission.
Context `{!EmitterHeader}.

(** Whether a member of an extension requires an Objective-C entry
    point: the chain of dyn_casts in the last loop of emitExtension. *)
Definition memberRequiresCategory (member : Decl) : bool :=
  match Decl.getKind member with
  | DeclKind.Func | DeclKind.Constructor =>
      requiresObjCMethodDescriptor member
  | DeclKind.Var => requiresObjCPropertyDescriptor member
  | DeclKind.Subscript => requiresObjCSubscriptDescriptor member
  | _ => false
  end.

Definition emitExtensionMember (member : Decl) : IRGen unit :=
  match Decl.getKind member with
  | DeclKind.Import | DeclKind.EnumCase | DeclKind.EnumElement
  | DeclKind.TopLevelCode | DeclKind.Protocol | DeclKind.Extension
  | DeclKind.Destructor | DeclKind.InfixOperator | DeclKind.PrefixOperator
  | DeclKind.PostfixOperator =>
      fatal   (* decl not allowed in extension! *)
  | DeclKind.PatternBinding => ret tt
  | DeclKind.Subscript => ret tt
  | DeclKind.TypeAlias | DeclKind.GenericTypeParam
  | DeclKind.AssociatedType => ret tt
  | DeclKind.Enum => emitEnumDecl member
  | DeclKind.Struct => emitStructDecl member
  | DeclKind.Class => emitClassDecl member
  | DeclKind.Var =>
      if Decl.isComputed member then ret tt
      else fatal   (* decl not allowed in extension! *)
  | DeclKind.Func => emitLocalDecls member
  | DeclKind.Constructor => emitLocalDecls member
  end.

(** Emit a type extension. *)
Definition emitExtension (ext : ExtensionDecl) : IRGen unit :=
  forEach (ExtensionDecl.getMembers ext) emitExtensionMember ;;
  (* If the original class is ObjC, or the extension either introduces a
     conformance to an ObjC protocol or introduces a method that
     requires an Objective-C entry point, generate a category. *)
  match getClassOrBoundGenericClass
          (ExtensionDecl.getDeclaredTypeInContext ext) with
  | None => ret tt
  | Some origClass =>
      let needsCategory := Decl.isObjC origClass in
      needsCategory <-
        (if negb needsCategory then
           liftOption (protocolsRequireCategory
                         (ExtensionDecl.getProtocols ext)
                         (ExtensionDecl.getConformances ext) 0)
         else ret needsCategory) ;;
      let needsCategory :=
        if negb needsCategory then
          existsb memberRequiresCategory (ExtensionDecl.getMembers ext)
        else needsCategory in
      if needsCategory then
        category <- emitCategoryData ext ;;
        M <- getModule ;;
        let category := llvm.getBitCast M category Int8PtrTy in
        modify (withCategory category ext)
      else ret tt
  end.

(** Emit a global declaration. *)
Definition emitGlobalDecl (D : Decl) : IRGen unit :=
  match Decl.getKind D with
  | DeclKind.Extension => emitExtension (castExtensionDecl D)
  | DeclKind.Protocol => emitProtocolDecl D
  | DeclKind.PatternBinding => ret tt
  | DeclKind.Subscript => fatal
  | DeclKind.EnumCase | DeclKind.EnumElement => fatal
  | DeclKind.Constructor => fatal
  | DeclKind.Destructor => fatal
  | DeclKind.TypeAlias | DeclKind.GenericTypeParam
  | DeclKind.AssociatedType => ret tt
  | DeclKind.Enum => emitEnumDecl D
  | DeclKind.Struct => emitStructDecl D
  | DeclKind.Class => emitClassDecl D
  | DeclKind.Import => ret tt
  | DeclKind.Var => ret tt
  | DeclKind.Func => emitLocalDecls D
  | DeclKind.TopLevelCode => ret tt
  | DeclKind.InfixOperator | DeclKind.PrefixOperator
  | DeclKind.PostfixOperator => ret tt
  end.
End Emission.

(** ** Lists of globals for the linker and the runtime *)

(** [GlobalValue::isDeclaration]: a function without a body, a global
    variable without an initializer. *)
Definition isDeclaration (gv : llvm.GlobalValue) : bool :=
  match llvm.kind gv with
  | llvm.FunctionKind => bool_decide (llvm.body gv = [])
  | llvm.GlobalVariableKind => bool_decide (llvm.initializer gv = None)
  end.

(** [GlobalValue::isLocalLinkage], on a linkage. *)
Definition GlobalValue_isLocalLinkage (linkage : LinkageTypes) : bool :=
  bool_decide (linkage = InternalLinkage)
  || bool_decide (linkage = PrivateLinkage).

Definition setSection (s : string) (gv : llvm.GlobalValue)
  : llvm.GlobalValue :=
  llvm.mkGlobalValue (llvm.kind gv) (llvm.name gv) (llvm.valueType gv)
    (llvm.linkage gv) (llvm.visibility gv) (llvm.callingConv gv)
    (llvm.attributes gv) (llvm.body gv) (llvm.isConstant gv)
    (llvm.initializer gv) (llvm.unnamedAddr gv) (llvm.alignment gv) s.

Definition setAlignment (a : N) (gv : llvm.GlobalValue) : llvm.GlobalValue :=
  llvm.mkGlobalValue (llvm.kind gv) (llvm.name gv) (llvm.valueType gv)
    (llvm.linkage gv) (llvm.visibility gv) (llvm.callingConv gv)
    (llvm.attributes gv) (llvm.body gv) (llvm.isConstant gv)
    (llvm.initializer gv) (llvm.unnamedAddr gv) a (llvm.section gv).

Definition setConstant (b : bool) (gv : llvm.GlobalValue) : llvm.GlobalValue :=
  llvm.mkGlobalValue (llvm.kind gv) (llvm.name gv) (llvm.valueType gv)
    (llvm.linkage gv) (llvm.visibility gv) (llvm.callingConv gv)
    (llvm.attributes gv) (llvm.body gv) b
    (llvm.initializer gv) (llvm.unnamedAddr gv) (llvm.alignment gv)
    (llvm.section gv).

Definition withUsed (global : llvm.Constant) (IGM : IRGenModule)
  : IRGenModule :=
  mkIRGenModule (TheModule IGM) (GlobalVars IGM) (GlobalFuncs IGM)
    (GlobalStrings IGM) (LLVMUsed IGM ++ [global]) (ObjCClasses IGM)
    (ObjCCategories IGM) (ObjCCategoryDecls IGM) (Diags IGM) (ObjCInterop IGM)
    (UseJIT IGM) (SizeTy IGM).

(** Add the given global value to @llvm.used. *)
Definition addUsedGlobal (global : nat) : IRGen unit :=
  gv <- deref global ;;
  (* Only globals with definition can force usage. *)
  assert (negb (isDeclaration gv)) ;;
  modify (withUsed (llvm.GlobalRef global)).

(** What the target says about pointers. *)
Class TargetHeader := {
  getPointerAlignment : N;      (* IGM.getPointerAlignment().getValue() *)
  getPointerSize : N
}.

(** The constant behind a value handle.  The handle of a global value
    that has been erased is null, and [cast<llvm::Constant>] of a null
    pointer stops the compiler. *)
Definition derefHandle (handle : llvm.Constant) : IRGen llvm.Constant :=
  match handle with
  | llvm.GlobalRef g => deref g ;; ret handle
  | _ => ret handle
  end.

Fixpoint mapIRGen {A B} (f : A -> IRGen B) (l : list A) : IRGen (list B) :=
  match l with
  | [] => ret []
  | x :: l => y <- f x ;; ys <- mapIRGen f l ;; ret (y :: ys)
  end.

Section GlobalLists.
Context `{!TargetHeader}.

(** Emit a global list, i.e. a global constant array holding all of a
    list of values.  Generally these lists are for various LLVM
    metadata or runtime purposes. *)
Definition emitGlobalList (handles : list llvm.Constant)
    (name section : string) (linkage : LinkageTypes) : IRGen unit :=
  (* Do nothing if the list is empty. *)
  if bool_decide (handles = []) then ret tt
  else
    (* For global lists that actually get linked (as opposed to notional
       ones like @llvm.used), it's important to set an explicit
       alignment so that the linker doesn't accidentally put padding in
       the list. *)
    let alignment := getPointerAlignment in
    let eltTy := Int8PtrTy in
    (* We have an array of value handles, but we need an array of
       constants. *)
    elts <- mapIRGen (fun handle =>
              elt <- derefHandle handle ;;
              M <- getModule ;;
              ret (llvm.getBitCast M elt eltTy)) handles ;;
    let varTy := llvm.ArrayTy eltTy (N.of_nat (length elts)) in
    let init := llvm.ConstantArray elts in
    var <- createGlobal (newGlobalVariable varTy false linkage (Some init)
                                           name) ;;
    update var (setSection section) ;;
    update var (setAlignment alignment) ;;
    (* Mark the variable as used if doesn't have external linkage.
       (Note that we'd specifically like to not put @llvm.used in
       itself.) *)
    if GlobalValue_isLocalLinkage linkage then addUsedGlobal var
    else ret tt.

Definition emitGlobalLists : IRGen unit :=
  (* Objective-C class references go in a variable with a meaningless
     name but a magic section. *)
  IGM <- get ;;
  emitGlobalList (ObjCClasses IGM) "objc_classes"
    "__DATA, __objc_classlist, regular, no_dead_strip" InternalLinkage ;;
  (* So do categories. *)
  IGM <- get ;;
  emitGlobalList (ObjCCategories IGM) "objc_categories"
    "__DATA, __objc_catlist, regular, no_dead_strip" InternalLinkage ;;
  (* We also emit the class references in a second magic section to
     make sure they are "realized" by the Objective-C runtime before any
     instances are allocated. *)
  IGM <- get ;;
  emitGlobalList (ObjCClasses IGM) "objc_non_lazy_classes"
    "__DATA, __objc_nlclslist, regular, no_dead_strip" InternalLinkage ;;
  (* @llvm.used *)
  IGM <- get ;;
  emitGlobalList (LLVMUsed IGM) "llvm.used" "llvm.metadata"
    AppendingLinkage.
End GlobalLists.

(** ** External definitions and the top level of the module *)

(** What [emitGlobalTopLevel] walks: the contents of the SIL module and
    the external definitions of the AST context, with the emitters of
    other files for them.  (Debug info is off.) *)
Class TopLevelHeader := {
  getGlobals : list ValueDecl;             (* SILMod->getGlobals() *)
  getSILGlobals : list Ptr;                (* SILMod->getSILGlobals() *)
  getSILFunctions : list Ptr;              (* the functions of *SILMod *)
  getWitnessTableList : list Ptr;          (* SILMod->getWitnessTableList() *)
  (* Context.LangOpts.EmitSILProtocolWitnessTables *)
  EmitSILProtocolWitnessTables : bool;
  ExternalDefinitions : list Decl;         (* Context.ExternalDefinitions *)
  (* emitGlobalVariable(global, getTypeInfoForUnlowered(global->getType())) *)
  emitGlobalVariable : ValueDecl -> IRGen unit;
  emitSILGlobalVariable : Ptr -> IRGen unit;
  emitSILFunction : Ptr -> IRGen unit;
  emitSILWitnessTable : Ptr -> IRGen unit;
  emitStructMetadata : Decl -> IRGen unit;
  emitEnumMetadata : Decl -> IRGen unit
}.

Section TopLevel.
Context `{!EmitterHeader} `{!TopLevelHeader}.

Definition emitExternalDefinition (D : Decl) : IRGen unit :=
  match Decl.getKind D with
  | DeclKind.Extension | DeclKind.PatternBinding | DeclKind.EnumCase
  | DeclKind.EnumElement | DeclKind.TopLevelCode | DeclKind.TypeAlias
  | DeclKind.GenericTypeParam | DeclKind.AssociatedType | DeclKind.Var
  | DeclKind.Import | DeclKind.Subscript | DeclKind.Destructor
  | DeclKind.InfixOperator | DeclKind.PrefixOperator
  | DeclKind.PostfixOperator =>
      fatal   (* Not a valid external definition for IRgen *)
  | DeclKind.Func => emitLocalDecls D
  | DeclKind.Constructor => emitLocalDecls D
  | DeclKind.Struct =>
      (* Emit Swift metadata for the external struct. *)
      emitStructMetadata D
  | DeclKind.Enum =>
      (* Emit Swift metadata for the external enum. *)
      emitEnumMetadata D
  | DeclKind.Class =>
      (* No need to emit Swift metadata for external ObjC classes. *)
      ret tt
  | DeclKind.Protocol =>
      (* Emit Swift metadata for the protocol type. *)
      emitProtocolDecl D
  end.

Definition emitGlobalTopLevel : IRGen unit :=
  (* Emit global variables. *)
  forEach getGlobals emitGlobalVariable ;;
  forEach getSILGlobals emitSILGlobalVariable ;;
  (* Emit SIL functions. *)
  forEach getSILFunctions emitSILFunction ;;
  (* Emit witness tables. *)
  (if EmitSILProtocolWitnessTables
   then forEach getWitnessTableList emitSILWitnessTable
   else ret tt) ;;
  (* Emit external definitions used by this module. *)
  forEach ExternalDefinitions emitExternalDefinition.
End TopLevel.

(** ** More addresses of symbols *)

Module ConstructorKind.
Inductive t := Allocating | Initializing.
#[global] Instance eq_dec : EqDecision t.
Proof. solve_decision. Defined.
End ConstructorKind.

Module DestructorKind.
Inductive t := Deallocating | Destroying.
#[global] Instance eq_dec : EqDecision t.
Proof. solve_decision. Defined.
End DestructorKind.

(** A reference to a SIL constant: the declaration, what of it is
    referred to, and the uncurry level ([None] is
    [ConstructAtNaturalUncurryLevel]). *)
Module SILDeclRef.
Inductive Kind :=
| Func | Allocator | Initializer | EnumElement | Getter | Setter.
#[global] Instance Kind_eq_dec : EqDecision Kind.
Proof. solve_decision. Defined.
Record t := mk {
  getDecl : Decl;
  kind : Kind;
  uncurryLevel : option nat;
  isForeign : bool
}.
End SILDeclRef.
Abbreviation SILDeclRef := SILDeclRef.t.

(** A reference to code: a declaration, what of it is called, and the
    explosion and uncurry levels. *)
Module CodeRef.
Inductive Kind := Function | Getter | Setter | EnumElement | Constructor.
Record t := mk {
  kind : Kind;
  getDecl : Decl;
  getExplosionLevel : ExplosionKind.t;
  getUncurryLevel : nat
}.
Definition forEnumElement := mk EnumElement.
Definition forConstructor := mk Constructor.
Definition forGetter := mk Getter.
Definition forSetter := mk Setter.
End CodeRef.
Abbreviation CodeRef := CodeRef.t.

(** An address: a pointer and the alignment known for it. *)
Module Address.
Record t := mk {
  getAddress : llvm.Constant;
  getAlignment : N
}.
#[global] Instance eq_dec : EqDecision t.
Proof. solve_decision. Defined.
End Address.
Abbreviation Address := Address.t.

(** The other constructors of link entities (Linking.h), the lowering
    of SIL constants to IR signatures (the SIL type of the constant,
    getFunctionType and expandAbstractCC), the type information of
    GenType, and the IR types and runtime conventions IRGenModule
    keeps. *)
Class AddressHeader := {
  forCodeRef : CodeRef -> LinkEntity;        (* LinkEntity::forFunction *)
  forConstructor : CodeRef -> ConstructorKind.t -> LinkEntity;
  forDestructor : Decl -> DestructorKind.t -> LinkEntity;
  forValueWitness : CanType -> nat -> LinkEntity;
  forValueWitnessTable : CanType -> LinkEntity;
  forNonFunction : Decl -> LinkEntity;
  forObjCMetaclass : Decl -> LinkEntity;
  forSwiftMetaclassStub : Decl -> LinkEntity;
  forNominalTypeDescriptor : Decl -> LinkEntity;
  forProtocolDescriptor : Decl -> LinkEntity;
  forWitnessTableOffset : Decl -> ExplosionKind.t -> nat -> LinkEntity;
  forFieldOffset : Decl -> bool -> LinkEntity;
  forDirectProtocolWitnessTable : Ptr -> LinkEntity;
  forTypeMangling : CanType -> LinkEntity;
  (* SILMod->Types.getConstantFunctionType *)
  SILFunctionType : Type;
  getConstantFunctionType : SILDeclRef -> SILFunctionType;
  getAbstractCC : SILFunctionType -> AbstractCC.t;
  (* getFunctionType: the IR function type and the attributes *)
  getFunctionType : SILFunctionType -> ExplosionKind.t -> ExtraData.t
                    -> llvm.type * list string;
  expandAbstractCC : AbstractCC.t -> N;
  hasArgumentType : Decl -> bool;            (* EnumElementDecl *)
  getClassDeclaredTypeInContext : Decl -> CanType;
  (* type information *)
  TypeInfo : Type;
  getTypeInfoForUnlowered : CanType -> TypeInfo;
  getTypeInfoForLowered : CanType -> TypeInfo;
  getStorageType : TypeInfo -> llvm.type;
  getAddressForPointer : TypeInfo -> llvm.Constant -> Address;
  (* IR types and conventions *)
  ObjCClassStructTy : llvm.type;
  ProtocolDescriptorStructTy : llvm.type;
  WitnessTableTy : llvm.type;
  WitnessTablePtrTy : llvm.type;
  DeallocatingDtorTy : llvm.type;
  RefCountedPtrTy : llvm.type;
  RuntimeCC : N;
  getValueWitnessTy : nat -> llvm.type;
  (* GenObjC *)
  getAddrOfObjCProtocolRecord : Decl -> IRGen llvm.Constant
}.

Definition isBoundGenericType (type : CanType) : bool :=
  match type with BoundGenericType _ _ _ _ => true | _ => false end.

Section Addresses.
Context `{!LinkingHeader} `{!LoweringHeader} `{!TargetHeader}
        `{!AddressHeader}.

(** [IRGenModule::ObjCClassPtrTy]: the constructor of IRGenModule (in
    IRGenModule.cpp) sets it to [ObjCClassStructTy->getPointerTo()]. *)
Definition ObjCClassPtrTy : llvm.type := llvm.PointerTy ObjCClassStructTy.

(** Find the address of a (fragile, constant-size) global variable
    declaration.  The address value is always an
    llvm::GlobalVariable*. *)
Definition getAddrOfGlobalVariable (var : ValueDecl) : IRGen Address :=
  (* Check whether we've cached this. *)
  let entity := forNonFunction (ValueDecl.asDecl var) in
  IGM <- get ;;
  match GlobalVars IGM !! entity with
  | Some entry =>
      gv <- deref entry ;;
      ret (Address.mk (llvm.GlobalRef entry) (llvm.alignment gv))
  | None =>
      let type := getTypeInfoForUnlowered (ValueDecl.getType var) in
      (* Okay, we need to rebuild it. *)
      link <- liftOption (LinkInfo_get entity) ;;
      addr <- LinkInfo_createVariable link (getStorageType type) ;;
      (* Ask the type to give us an Address. *)
      let result := getAddressForPointer type (llvm.GlobalRef addr) in
      (* Set that alignment back on the global variable. *)
      update addr (setAlignment (Address.getAlignment result)) ;;
      (* Write this to the cache and return. *)
      modify (withGlobalVars <[entity := addr]>) ;;
      ret result
  end.

(** getAddrOfGlobalInjectionFunction - Get the address of the function
    to perform a particular injection into an enum type. *)
Definition getAddrOfInjectionFunction (D : Decl) : IRGen nat :=
  let explosionLevel := ExplosionKind.Minimal in
  let uncurryLevel := if hasArgumentType D then 1 else 0 in
  let entity :=
    forCodeRef (CodeRef.forEnumElement D explosionLevel uncurryLevel) in
  IGM <- get ;;
  match GlobalFuncs IGM !! entity with
  | Some entry => ret entry
  | None =>
      let silFn := SILDeclRef.mk D SILDeclRef.EnumElement
                                 (Some uncurryLevel) false in
      let silFnType := getConstantFunctionType silFn in
      let cc := expandAbstractCC (getAbstractCC silFnType) in
      let '(fnType, attrs) :=
        getFunctionType silFnType explosionLevel ExtraData.None in
      link <- liftOption (LinkInfo_get entity) ;;
      entry <- LinkInfo_createFunction link fnType cc attrs ;;
      modify (withGlobalFuncs <[entity := entry]>) ;;
      ret entry
  end.

Definition getSILDeclRefKind (ctorKind : ConstructorKind.t)
  : SILDeclRef.Kind :=
  match ctorKind with
  | ConstructorKind.Allocating => SILDeclRef.Allocator
  | ConstructorKind.Initializing => SILDeclRef.Initializer
  end.

(** Fetch the declaration of the given known function. *)
Definition getAddrOfConstructor (ctor : Decl) (ctorKind : ConstructorKind.t)
    (explodeLevel : ExplosionKind.t) : IRGen nat :=
  let uncurryLevel := 1 in
  let codeRef := CodeRef.forConstructor ctor explodeLevel uncurryLevel in
  let entity := forConstructor codeRef ctorKind in
  IGM <- get ;;
  (* Check whether we've cached this. *)
  match GlobalFuncs IGM !! entity with
  | Some entry => ret entry
  | None =>
      let silFn := SILDeclRef.mk ctor (getSILDeclRefKind ctorKind)
                                 (Some uncurryLevel) false in
      let silFnType := getConstantFunctionType silFn in
      let '(fnType, attrs) :=
        getFunctionType silFnType explodeLevel ExtraData.None in
      let cc := expandAbstractCC (getAbstractCC silFnType) in
      link <- liftOption (LinkInfo_get entity) ;;
      entry <- LinkInfo_createFunction link fnType cc attrs ;;
      modify (withGlobalFuncs <[entity := entry]>) ;;
      ret entry
  end.

(** Fetch a global reference to the given Objective-C class.  The
    result is always a TypeMetadataPtrTy, but it may not be compatible
    with IR-generation. *)
Definition getAddrOfObjCClass (theClass : Decl) : IRGen llvm.Constant :=
  IGM <- get ;;
  (* getting address of ObjC class in no-interop mode *)
  assert (ObjCInterop IGM) ;;
  let entity := forObjCClass theClass in
  getAddrOfLLVMVariable entity (Some TypeMetadataStructTy)
                        TypeMetadataStructTy TypeMetadataPtrTy.

(** Fetch a global reference to the given Objective-C metaclass.  The
    result is always a GlobalVariable of ObjCClassPtrTy. *)
Definition getAddrOfObjCMetaclass (theClass : Decl) : IRGen llvm.Constant :=
  IGM <- get ;;
  assert (ObjCInterop IGM) ;;
  let entity := forObjCMetaclass theClass in
  getAddrOfLLVMVariable entity (Some ObjCClassStructTy) ObjCClassStructTy
                        ObjCClassPtrTy.

(** Fetch the declaration of the metaclass stub for the given class
    type.  The result is always a GlobalVariable of ObjCClassPtrTy. *)
Definition getAddrOfSwiftMetaclassStub (theClass : Decl)
  : IRGen llvm.Constant :=
  IGM <- get ;;
  assert (ObjCInterop IGM) ;;
  let entity := forSwiftMetaclassStub theClass in
  getAddrOfLLVMVariable entity (Some ObjCClassStructTy) ObjCClassStructTy
                        ObjCClassPtrTy.

(** Fetch the declaration of a metaclass object.  This performs either
    getAddrOfSwiftMetaclassStub or getAddrOfObjCMetaclass, depending on
    whether the class is published as an ObjC class. *)
Definition getAddrOfMetaclassObject (decl : Decl) : IRGen llvm.Constant :=
  if Decl.isObjC decl || Decl.hasClangNode decl
  then getAddrOfObjCMetaclass decl
  else getAddrOfSwiftMetaclassStub decl.

Definition getAddrOfNominalTypeDescriptor (D : Decl) (ty : llvm.type)
  : IRGen llvm.Constant :=
  let entity := forNominalTypeDescriptor D in
  getAddrOfLLVMVariable entity (Some ty) ty (llvm.getPointerTo ty).

Definition getAddrOfProtocolDescriptor (D : Decl) : IRGen llvm.Constant :=
  if Decl.isObjC D then getAddrOfObjCProtocolRecord D
  else
    let entity := forProtocolDescriptor D in
    let ty := ProtocolDescriptorStructTy in
    getAddrOfLLVMVariable entity (Some ty) ty (llvm.getPointerTo ty).

(** Fetch the declaration of the given known function. *)
Definition getAddrOfDestructor (cd : Decl) (kind : DestructorKind.t)
  : IRGen nat :=
  let entity := forDestructor cd kind in
  IGM <- get ;;
  (* Check whether we've cached this. *)
  match GlobalFuncs IGM !! entity with
  | Some entry => ret entry
  | None =>
      let attrs := [] in
      let cc := expandAbstractCC AbstractCC.Method in
      link <- liftOption (LinkInfo_get entity) ;;
      let dtorTy :=
        if bool_decide (kind = DestructorKind.Deallocating)
        then DeallocatingDtorTy
        else
          let info :=
            getTypeInfoForLowered (getClassDeclaredTypeInContext cd) in
          llvm.FunctionTy RefCountedPtrTy [getStorageType info] false in
      entry <- LinkInfo_createFunction link dtorTy cc attrs ;;
      modify (withGlobalFuncs <[entity := entry]>) ;;
      ret entry
  end.

(** Returns the address of a value-witness function. *)
Definition getAddrOfValueWitness (abstractType : CanType) (index : nat)
  : IRGen nat :=
  (* We shouldn't emit value witness symbols for generic type
     instances. *)
  assert (negb (isBoundGenericType abstractType)) ;;
  let entity := forValueWitness abstractType index in
  IGM <- get ;;
  match GlobalFuncs IGM !! entity with
  | Some entry => ret entry
  | None =>
      (* Find the appropriate function type: the two casts. *)
      fnType <-
        liftOption
          (match getValueWitnessTy index with
           | llvm.PointerTy (llvm.FunctionTy _ _ _ as fnType) => Some fnType
           | _ => None
           end) ;;
      link <- liftOption (LinkInfo_get entity) ;;
      entry <- LinkInfo_createFunction link fnType RuntimeCC [] ;;
      modify (withGlobalFuncs <[entity := entry]>) ;;
      ret entry
  end.

(** Returns the address of a value-witness table.  If a definition type
    is provided, the table is created with that type; the return value
    will be an llvm::GlobalVariable.  Otherwise, the result will have
    type WitnessTablePtrTy. *)
Definition getAddrOfValueWitnessTable (concreteType : CanType)
    (definitionType : option llvm.type) : IRGen llvm.Constant :=
  let entity := forValueWitnessTable concreteType in
  getAddrOfLLVMVariable entity definitionType WitnessTableTy
                        WitnessTablePtrTy.

(** getAddrOfGetter - Get the address of the function which performs a
    get of a variable or subscripted object. *)
Definition getAddrOfGetter (value : Decl) (explosionLevel : ExplosionKind.t)
  : IRGen nat :=
  let entity := forCodeRef (CodeRef.forGetter value explosionLevel 0) in
  IGM <- get ;;
  match GlobalFuncs IGM !! entity with
  | Some entry => ret entry
  | None =>
      let silFn := SILDeclRef.mk value SILDeclRef.Getter None false in
      let silFnType := getConstantFunctionType silFn in
      let convention := expandAbstractCC (getAbstractCC silFnType) in
      let '(fnType, attrs) :=
        getFunctionType silFnType explosionLevel ExtraData.None in
      link <- liftOption (LinkInfo_get entity) ;;
      entry <- LinkInfo_createFunction link fnType convention attrs ;;
      modify (withGlobalFuncs <[entity := entry]>) ;;
      ret entry
  end.

(** getAddrOfSetter - Get the address of the function which performs a
    set of a variable or subscripted object. *)
Definition getAddrOfSetter (value : Decl) (explosionLevel : ExplosionKind.t)
  : IRGen nat :=
  let entity := forCodeRef (CodeRef.forSetter value explosionLevel 0) in
  IGM <- get ;;
  match GlobalFuncs IGM !! entity with
  | Some entry => ret entry
  | None =>
      let silFn := SILDeclRef.mk value SILDeclRef.Setter None false in
      let silFnType := getConstantFunctionType silFn in
      let '(fnType, attrs) :=
        getFunctionType silFnType explosionLevel ExtraData.None in
      let convention := expandAbstractCC (getAbstractCC silFnType) in
      link <- liftOption (LinkInfo_get entity) ;;
      entry <- LinkInfo_createFunction link fnType convention attrs ;;
      modify (withGlobalFuncs <[entity := entry]>) ;;
      ret entry
  end.

(** (The cache is IGM.GlobalVars at every call.) *)
Definition getAddrOfSimpleVariable (entity : LinkEntity) (type : llvm.type)
    (alignment : N) : IRGen Address :=
  IGM <- get ;;
  (* Check whether it's already cached. *)
  match GlobalVars IGM !! entity with
  | Some entry =>
      gv <- deref entry ;;
      assert (bool_decide (alignment = llvm.alignment gv)) ;;
      ret (Address.mk (llvm.GlobalRef entry) alignment)
  | None =>
      (* Otherwise, we need to create it. *)
      link <- liftOption (LinkInfo_get entity) ;;
      addr <- LinkInfo_createVariable link type ;;
      update addr (setConstant true) ;;
      update addr (setAlignment alignment) ;;
      modify (withGlobalVars <[entity := addr]>) ;;
      ret (Address.mk (llvm.GlobalRef addr) alignment)
  end.

(** getAddrOfWitnessTableOffset - Get the address of the global
    variable which contains an offset within a witness table for the
    value associated with the given function. *)
Definition getAddrOfWitnessTableOffset (code : CodeRef) : IRGen Address :=
  IGM <- get ;;
  let entity :=
    forWitnessTableOffset (CodeRef.getDecl code)
                          (CodeRef.getExplosionLevel code)
                          (CodeRef.getUncurryLevel code) in
  getAddrOfSimpleVariable entity (SizeTy IGM) getPointerAlignment.

(** getAddrOfWitnessTableOffset - Get the address of the global
    variable which contains an offset within a witness table for the
    value associated with the given member variable. *)
Definition getAddrOfWitnessTableOffset_field (field : Decl)
  : IRGen Address :=
  IGM <- get ;;
  let entity := forWitnessTableOffset field ExplosionKind.Minimal 0 in
  getAddrOfSimpleVariable entity (SizeTy IGM) getPointerAlignment.

(** getAddrOfFieldOffset - Get the address of the global variable which
    contains an offset to apply to either an object (if direct) or a
    metadata object in order to find an offset to apply to an object
    (if indirect).

    The result is always a GlobalVariable. *)
Definition getAddrOfFieldOffset (var : Decl) (isIndirect : bool)
  : IRGen Address :=
  IGM <- get ;;
  let entity := forFieldOffset var isIndirect in
  getAddrOfSimpleVariable entity (SizeTy IGM) getPointerAlignment.

(** Mangle the name of a type. *)
Definition mangleType (type : CanType) : string :=
  mangle (forTypeMangling type).

(** Is the given declaration resilient?  (The scope is not looked
    at.) *)
Definition isResilient (theDecl : Decl) : bool :=
  (* Classes defined by Clang are resilient. *)
  if bool_decide (Decl.getKind theDecl = DeclKind.Class)
  then Decl.hasClangNode theDecl
  else false.

(** Look up the address of a witness table. *)
Definition getAddrOfWitnessTable (C : Ptr) (storageTy : option llvm.type)
  : IRGen llvm.Constant :=
  let entity := forDirectProtocolWitnessTable C in
  getAddrOfLLVMVariable entity storageTy WitnessTableTy WitnessTablePtrTy.
End Addresses.

(** ** Cached results of name-lookup requests (lib/AST/NameLookupRequests.cpp) *)

Module NameLookupRequests.

(** A nominal type declaration, as the requests read and write it:
    its kind, and for classes and protocols the pointer-and-bit pair
    [LazySemanticInfo.SuperclassDecl] (the bit says that the pointer
    has been computed; the pointer may be null). *)
Record NominalTypeDecl := mkNominal {
  kind : NominalKind.t;
  SuperclassDecl : option Ptr * bool
}.

(** An extension, with the nominal type it has been bound to. *)
Record ExtensionDecl := mkExtension {
  ExtendedNominal : option Ptr
}.

(** [Optional<ClassDecl *>]: [None] is a cache miss; [Some None] is
    the cached null pointer. *)
Definition SuperclassDeclRequest_getCachedResult
    (nominalDecl : NominalTypeDecl) : option (option Ptr) :=
  match (if bool_decide (kind nominalDecl = NominalKind.Class)
         then if (SuperclassDecl nominalDecl).2
              then Some ((SuperclassDecl nominalDecl).1) else None
         else None) with
  | Some r => Some r
  | None =>
      if bool_decide (kind nominalDecl = NominalKind.Protocol)
      then if (SuperclassDecl nominalDecl).2
           then Some ((SuperclassDecl nominalDecl).1) else None
      else None
  end.

(** The declaration after [cacheResult(value)]. *)
Definition SuperclassDeclRequest_cacheResult (value : option Ptr)
    (nominalDecl : NominalTypeDecl) : NominalTypeDecl :=
  let nominalDecl :=
    if bool_decide (kind nominalDecl = NominalKind.Class)
    then mkNominal (kind nominalDecl) (value, true)
    else nominalDecl in
  if bool_decide (kind nominalDecl = NominalKind.Protocol)
  then mkNominal (kind nominalDecl) (value, true)
  else nominalDecl.

Definition ExtendedNominalRequest_getCachedResult (ext : ExtensionDecl)
  : option (option Ptr) :=
  (* Note: if we fail to compute any nominal declaration, it's
     considered a cache miss.  This allows us to recompute the extended
     nominal types during extension binding. *)
  match ExtendedNominal ext with
  | Some nominal => Some (Some nominal)
  | None => None
  end.

Definition ExtendedNominalRequest_cacheResult (value : option Ptr)
    (ext : ExtensionDecl) : ExtensionDecl :=
  match value with
  | Some _ => mkExtension value
  | None => ext
  end.

End NameLookupRequests.

(** ** Initializers and the program entry function *)

(** [None] where the source is undefined: a function without blocks, an
    entry block without instructions, or the failed assertion that the
    only instruction is a 'ret'. *)
Definition isTrivialGlobalInit (fn : llvm.GlobalValue) : option bool :=
  match llvm.body fn with
  | [] => None
  | entry :: blocks =>
      (* Must be exactly one basic block. *)
      if negb (bool_decide (blocks = [])) then Some false
      else
        match entry with
        | [] => None
        | front :: insts =>
            (* Basic block must have exactly one instruction. *)
            if negb (bool_decide (insts = [])) then Some false
            else
              (* That instruction is necessarily a 'ret' instruction. *)
              match front with
              | llvm.Ret _ => Some true
              | _ => None
              end
        end
  end.

(** What the synthesis of initializers takes from other files: the
    helpers of GenObjC, GenMeta and the AST, which run in the IR
    generator (they may declare runtime functions and emit globals of
    their own), and what the base class of the member visitor
    (TypeMemberVisitor.h) does with a member that is no function,
    constructor, variable or subscript. *)
Class ObjCHeader := {
  ObjCPtrTy : llvm.type;
  ObjCSELTy : llvm.type;
  (* IRGenModule::getObjCMsgSendFn *)
  getObjCMsgSendFn : IRGen llvm.Constant;
  (* IRGenFunction::emitObjCSelectorRefLoad, in the function IGF *)
  emitObjCSelectorRefLoad : nat -> string -> IRGen llvm.Value;
  (* IRGenModule::getClassReplaceMethodFn, getClassAddProtocolFn,
     getObjCSelRegisterNameFn *)
  getClassReplaceMethodFn : IRGen llvm.Constant;
  getClassAddProtocolFn : IRGen llvm.Constant;
  getObjCSelRegisterNameFn : IRGen llvm.Constant;
  (* ext->getDeclaredTypeOfContext()->getCanonicalType() *)
  getDeclaredTypeOfContext : ExtensionDecl -> CanType;
  (* GenMeta: null when the type has no constant metadata *)
  tryEmitConstantHeapMetadataRef : CanType -> IRGen (option llvm.Constant);
  (* GenObjC: the name, the types and the implementation *)
  emitObjCMethodDescriptorParts
    : Decl -> IRGen (llvm.Constant * llvm.Constant * llvm.Constant);
  emitObjCGetterDescriptorParts
    : Decl -> IRGen (llvm.Constant * llvm.Constant * llvm.Constant);
  emitObjCSetterDescriptorParts
    : Decl -> IRGen (llvm.Constant * llvm.Constant * llvm.Constant);
  isStatic : Decl -> bool;                 (* FuncDecl::isStatic *)
  isSettable : Decl -> bool;               (* VarDecl, SubscriptDecl *)
  (* ClassMemberVisitor: the visit of a member of another kind, in the
     function IGF *)
  visitOtherDecl : nat -> Decl -> IRGen unit;
  (* the IR type and attributes of a function of SIL type () -> () *)
  topLevelFunctionType : llvm.type * list string
}.

(** IRBuilder: append an instruction to the function; the value of the
    instruction is its position in the function. *)
Definition emitInst (fn : nat) (i : llvm.Instruction) : IRGen llvm.Value :=
  gv <- deref fn ;;
  modify (withModule (llvm.emit fn i)) ;;
  ret (llvm.Result (length (concat (llvm.body gv)))).

(** [Module::getOrInsertFunction]: the value of that name, cast to the
    function type if its type is another, or else a new declaration.
    (A value of local linkage that carries the name is not looked at
    separately.) *)
Definition getOrInsertFunction (n : string) (ty : llvm.type)
  : IRGen llvm.Constant :=
  M <- getModule ;;
  match llvm.getNamedValue M n with
  | Some F => ret (llvm.getBitCast M (llvm.GlobalRef F) (llvm.PointerTy ty))
  | None =>
      F <- createGlobal (newFunction ty ExternalLinkage n) ;;
      ret (llvm.GlobalRef F)
  end.

(** The state of a [CategoryInitializerVisitor]: the function it emits
    into and the constants its constructor computes. *)
Module CategoryInitializerVisitor.
Record t := mk {
  IGF : nat;
  class_replaceMethod : llvm.Constant;
  class_addProtocol : llvm.Constant;
  classMetadata : llvm.Constant;
  metaclassMetadata : llvm.Constant
}.
End CategoryInitializerVisitor.

Section SourceFiles.
Context `{!LinkingHeader} `{!LoweringHeader} `{!TargetHeader}
        `{!AddressHeader} `{!EmitterHeader} `{!ObjCHeader}.

Definition voidFnType : llvm.type := llvm.FunctionTy llvm.VoidTy [] false.

(** Generates a function to call +load on all the given classes.  The
    classes are value handles: the handle of a class that has been
    erased is null, and its cast to a constant stops the compiler. *)
Definition emitObjCClassInitializer (classes : list llvm.Constant)
  : IRGen nat :=
  initFn <- createGlobal (newFunction voidFnType InternalLinkage
                                      "_swift_initObjCClasses") ;;
  loadSel <- emitObjCSelectorRefLoad initFn "load" ;;
  let msgSendType :=
    llvm.FunctionTy llvm.VoidTy [ObjCPtrTy; ObjCSELTy] false in
  msgSendFn <- getObjCMsgSendFn ;;
  M <- getModule ;;
  let msgSend :=
    llvm.getBitCast M msgSendFn (llvm.getPointerTo msgSendType) in
  forEach classes (fun nextClass =>
    nextClass <- derefHandle nextClass ;;
    M <- getModule ;;
    let receiver := llvm.getBitCast M nextClass ObjCPtrTy in
    emitInst initFn (llvm.Call (llvm.Const msgSend)
                               [llvm.Const receiver; loadSel]) ;;
    ret tt) ;;
  emitInst initFn (llvm.Ret None) ;;
  ret initFn.

(** The constructor of the visitor. *)
Definition CategoryInitializerVisitor_new (IGF : nat) (ext : ExtensionDecl)
  : IRGen CategoryInitializerVisitor.t :=
  class_replaceMethod <- getClassReplaceMethodFn ;;
  class_addProtocol <- getClassAddProtocolFn ;;
  let origTy := getDeclaredTypeOfContext ext in
  classMetadata <- tryEmitConstantHeapMetadataRef origTy ;;
  (* extended objc class doesn't have constant metadata?! *)
  classMetadata <- liftOption classMetadata ;;
  M <- getModule ;;
  let classMetadata :=
    llvm.getBitCast M classMetadata TypeMetadataPtrTy in
  (* getAddrOfMetaclassObject reads the class it is given *)
  origClass <- liftOption (getClassOrBoundGenericClass origTy) ;;
  metaclassMetadata <- getAddrOfMetaclassObject origClass ;;
  M <- getModule ;;
  let metaclassMetadata :=
    llvm.getBitCast M metaclassMetadata TypeMetadataPtrTy in
  (* Register ObjC protocol conformances. *)
  forEach (ExtensionDecl.getProtocols ext) (fun p =>
    if negb (Decl.isObjC p) then ret tt
    else
      proto <- getAddrOfObjCProtocolRecord p ;;
      emitInst IGF (llvm.Call (llvm.Const class_addProtocol)
                              [llvm.Const classMetadata; llvm.Const proto]) ;;
      ret tt) ;;
  ret (CategoryInitializerVisitor.mk IGF class_replaceMethod
         class_addProtocol classMetadata metaclassMetadata).

(** The two calls that register one method: sel_registerName on the
    name (when generating JIT'd code, to force the runtime to unique
    the selector), and class_replaceMethod. *)
Definition replaceMethod (v : CategoryInitializerVisitor.t)
    (target : llvm.Constant)
    (parts : llvm.Constant * llvm.Constant * llvm.Constant) : IRGen unit :=
  let '(name, types, imp) := parts in
  let IGF := CategoryInitializerVisitor.IGF v in
  selRegisterName <- getObjCSelRegisterNameFn ;;
  sel <- emitInst IGF (llvm.Call (llvm.Const selRegisterName)
                                 [llvm.Const name]) ;;
  emitInst IGF
    (llvm.Call (llvm.Const (CategoryInitializerVisitor.class_replaceMethod v))
               [llvm.Const target; sel; llvm.Const imp; llvm.Const types]) ;;
  ret tt.

Definition visitFuncDecl (v : CategoryInitializerVisitor.t) (method : Decl)
  : IRGen unit :=
  if negb (requiresObjCMethodDescriptor method) then ret tt
  else
    parts <- emitObjCMethodDescriptorParts method ;;
    replaceMethod v
      (if isStatic method
       then CategoryInitializerVisitor.metaclassMetadata v
       else CategoryInitializerVisitor.classMetadata v)
      parts.

Definition visitConstructorDecl (v : CategoryInitializerVisitor.t)
    (constructor : Decl) : IRGen unit :=
  if negb (requiresObjCMethodDescriptor constructor) then ret tt
  else
    parts <- emitObjCMethodDescriptorParts constructor ;;
    replaceMethod v (CategoryInitializerVisitor.classMetadata v) parts.

(** The getter, and the setter when there is one. *)
Definition replaceAccessors (v : CategoryInitializerVisitor.t)
    (decl : Decl) : IRGen unit :=
  parts <- emitObjCGetterDescriptorParts decl ;;
  replaceMethod v (CategoryInitializerVisitor.classMetadata v) parts ;;
  if isSettable decl then
    parts <- emitObjCSetterDescriptorParts decl ;;
    replaceMethod v (CategoryInitializerVisitor.classMetadata v) parts
  else ret tt.

Definition visitVarDecl (v : CategoryInitializerVisitor.t) (prop : Decl)
  : IRGen unit :=
  if negb (requiresObjCPropertyDescriptor prop) then ret tt
  else replaceAccessors v prop.

Definition visitSubscriptDecl (v : CategoryInitializerVisitor.t)
    (subscript : Decl) : IRGen unit :=
  if negb (requiresObjCSubscriptDescriptor subscript) then ret tt
  else replaceAccessors v subscript.

(** [visit]: the dispatch on the kind of the member; the kinds the
    visitor does not define are left to the base class. *)
Definition visit (v : CategoryInitializerVisitor.t) (member : Decl)
  : IRGen unit :=
  match Decl.getKind member with
  | DeclKind.Func => visitFuncDecl v member
  | DeclKind.Constructor => visitConstructorDecl v member
  | DeclKind.Var => visitVarDecl v member
  | DeclKind.Subscript => visitSubscriptDecl v member
  | _ => visitOtherDecl (CategoryInitializerVisitor.IGF v) member
  end.

Definition visitMembers (v : CategoryInitializerVisitor.t)
    (ext : ExtensionDecl) : IRGen unit :=
  forEach (ExtensionDecl.getMembers ext) (visit v).

Definition emitObjCCategoryInitializer (categories : list ExtensionDecl)
  : IRGen nat :=
  initFn <- createGlobal (newFunction voidFnType InternalLinkage
                                      "_swift_initObjCCategories") ;;
  forEach categories (fun ext =>
    v <- CategoryInitializerVisitor_new initFn ext ;;
    visitMembers v ext) ;;
  emitInst initFn (llvm.Ret None) ;;
  ret initFn.

(** The parameter types of [main]: i32 and i8**. *)
Definition argcArgvTypes : list llvm.type :=
  [Int32Ty; llvm.PointerTy (llvm.PointerTy Int8Ty)].

Definition varNames : list (string * string) :=
  [ (* global accessor for swift.C_ARGC : CInt *)
    ("argc", "_TFSsa6C_ARGCVSs5Int32");
    (* global accessor for swift.C_ARGV : UnsafePointer<CString> *)
    ("argv", "_TFSsa6C_ARGVGVSs13UnsafePointerVSs7CString_") ].

(** Poke argc and argv into variables declared in the Swift stdlib:
    the loop over [varNames] in [emitSourceFile], with [args] the
    iterator over the arguments of [main] (setting the names of the
    arguments is not modelled). *)
Fixpoint pokeArguments (mainFn : nat) (names : list (string * string))
    (args : nat) : IRGen unit :=
  match names with
  | [] => ret tt
  | (fnParameterName, accessorName) :: names =>
      let fnParameter := llvm.Argument args in
      paramTy <- liftOption (argcArgvTypes !! args) ;;
      let accessorTy := llvm.FunctionTy Int8PtrTy [] false in
      (* Access the address of the global. *)
      accessor <- getOrInsertFunction accessorName accessorTy ;;
      ptr <- emitInst mainFn (llvm.Call (llvm.Const accessor) []) ;;
      (* Cast to the type of the parameter we're storing. *)
      ptr <- emitInst mainFn
               (llvm.BitCastInst ptr (llvm.getPointerTo paramTy)) ;;
      emitInst mainFn (llvm.Store fnParameter ptr) ;;
      pokeArguments mainFn names (S args)
  end.

(** Emit main(): the block of [emitSourceFile] under
    [if (SF.isScriptMode())]. *)
Definition emitMain (topLevelCodeFn : option nat) : IRGen unit :=
  mainFn <- createGlobal
              (newFunction (llvm.FunctionTy Int32Ty argcArgvTypes false)
                           ExternalLinkage "main") ;;
  pokeArguments mainFn varNames 0 ;;
  (* Emit Objective-C runtime interop setup for immediate-mode code. *)
  IGM <- get ;;
  (if ObjCInterop IGM && UseJIT IGM then
     (if negb (bool_decide (ObjCClasses IGM = [])) then
        (* Emit an initializer for the Objective-C classes. *)
        initFn <- emitObjCClassInitializer (ObjCClasses IGM) ;;
        emitInst mainFn (llvm.Call (llvm.Const (llvm.GlobalRef initFn)) []) ;;
        ret tt
      else ret tt) ;;
     IGM <- get ;;
     (if negb (bool_decide (length (ObjCCategoryDecls IGM) = 0)) then
        (* Emit an initializer to add declarations from category decls. *)
        initFn <- emitObjCCategoryInitializer (ObjCCategoryDecls IGM) ;;
        emitInst mainFn (llvm.Call (llvm.Const (llvm.GlobalRef initFn)) []) ;;
        ret tt
      else ret tt)
   else ret tt) ;;
  (* Call the top-level code. *)
  match topLevelCodeFn with
  | Some topLevelCodeFn =>
      emitInst mainFn
        (llvm.Call (llvm.Const (llvm.GlobalRef topLevelCodeFn)) []) ;;
      ret tt
  | None => ret tt
  end ;;
  emitInst mainFn (llvm.Ret (Some (llvm.Const (llvm.ConstantInt Int32Ty 0)))) ;;
  ret tt.

(** [SF.Kind == SourceFileKind::Main || SF.Kind == SourceFileKind::REPL];
    the test [SF.Kind != Main && SF.Kind != REPL] is its negation. *)
Definition isEntryPointKind (SF : SourceFile) : bool :=
  bool_decide (SourceFile.Kind SF = SourceFileKind.Main)
  || bool_decide (SourceFile.Kind SF = SourceFileKind.REPL).

(** The loop over the declarations of the file: it runs from
    [StartElem] until the index is the number of declarations, so a
    start past the end indexes outside the declarations. *)
Definition emitGlobalDecls (SF : SourceFile) (StartElem : nat)
  : IRGen unit :=
  if bool_decide (StartElem <= length (SourceFile.Decls SF))
  then forEach (drop StartElem (SourceFile.Decls SF)) emitGlobalDecl
  else fatal.

(** Emit all the top-level code in the source file. *)
Definition emitSourceFile (SF : SourceFile) (StartElem : nat) : IRGen unit :=
  (* Emit types and other global decls. *)
  emitGlobalDecls SF StartElem ;;
  M <- getModule ;;
  let topLevelCodeFn := llvm.getFunction M "top_level_code" in
  (if SourceFile.isScriptMode SF then emitMain topLevelCodeFn else ret tt) ;;
  match topLevelCodeFn with
  | None => ret tt
  | Some topLevelCodeFn =>
      let '(fnType, attrs) := topLevelFunctionType in
      initFn <-
        (if negb (isEntryPointKind SF) then
           (* Create a global initializer for library modules. *)
           let file := SourceFile.getFilename SF in
           initFn <- createGlobal
                       (newFunction fnType ExternalLinkage
                          (SourceFile.getParentModuleName SF
                           +:+ ".init." +:+ file)) ;;
           update initFn (setAttributes attrs) ;;
           (* Insert a call to the top_level_code symbol from the SIL
              module. *)
           emitInst initFn
             (llvm.Call (llvm.Const (llvm.GlobalRef topLevelCodeFn)) []) ;;
           emitInst initFn (llvm.Ret None) ;;
           ret (Some initFn)
         else ret None) ;;
      allInits <-
        (if isEntryPointKind SF then
           (* We don't need global init to call main(). *)
           ret []
         else
           top <- deref topLevelCodeFn ;;
           trivial <- liftOption (isTrivialGlobalInit top) ;;
           if (trivial : bool) then
             (* Not all source files need a global initialization
                function. *)
             initFn <- liftOption initFn ;;
             modify (withModule (llvm.eraseFromParent initFn)) ;;
             modify (withModule (llvm.eraseFromParent topLevelCodeFn)) ;;
             ret []
           else
             (* Build the initializer for the module. *)
             initFn <- liftOption initFn ;;
             ret [llvm.ConstantStruct [llvm.ConstantInt Int32Ty 1;
                                       llvm.GlobalRef initFn]]) ;;
      if negb (bool_decide (allInits = [])) then
        (* Add this as a global initializer. *)
        createGlobal (newGlobalVariable
                        (llvm.ArrayTy
                           (llvm.LiteralStructTy
                              [Int32Ty; llvm.PointerTy fnType])
                           (N.of_nat (length allInits)))
                        false AppendingLinkage
                        (Some (llvm.ConstantArray allInits))
                        "llvm.global_ctors") ;;
        ret tt
      else ret tt
  end.
End SourceFiles.

(** * Properties *)

Open Scope list_scope.

(** ** Linkage *)

Section LinkageProperties.
Context `{!LinkingHeader}.

(** "Some ancestor declaration context before the module boundary is a
    local context." *)
Inductive LocalBeforeModule : DeclContext -> Prop :=
| LocalHere DC :
    isModuleContext DC = false -> isLocalContext DC = true ->
    LocalBeforeModule DC
| LocalAbove k a parent :
    isModuleContext (SubDC k a parent) = false ->
    LocalBeforeModule parent ->
    LocalBeforeModule (SubDC k a parent).

Definition LocallyDeclared (D : Decl) : Prop :=
  LocalBeforeModule (Decl.getDeclContext D).

(** The types directly nested in a type, as [findIf] walks them. *)
Inductive NestedIn : CanType -> CanType -> Prop :=
| NestedNominalParent k D p : NestedIn p (NominalType k D (Some p))
| NestedUnboundParent D p : NestedIn p (UnboundGenericType D (Some p))
| NestedBoundParent k D p args :
    NestedIn p (BoundGenericType k D (Some p) args)
| NestedBoundArg k D p args a :
    a ∈ args -> NestedIn a (BoundGenericType k D p args)
| NestedTupleElt elts a : a ∈ elts -> NestedIn a (TupleType elts)
| NestedInput a r : NestedIn a (FunctionType a r)
| NestedResult a r : NestedIn r (FunctionType a r)
| NestedPolyInput a r ps : NestedIn a (PolymorphicFunctionType a r ps)
| NestedPolyResult a r ps : NestedIn r (PolymorphicFunctionType a r ps)
| NestedObject a : NestedIn a (LValueType a)
| NestedInstance a : NestedIn a (MetatypeType a).

(** "The type structurally contains a reference to a locally-declared
    nominal type or a polymorphic function type one of whose generic
    parameters has a local protocol or superclass bound." *)
Inductive ReachesLocal : CanType -> Prop :=
| ReachesNominal type nominal :
    getAnyNominal type = Some nominal -> LocallyDeclared nominal ->
    ReachesLocal type
| ReachesProtocolBound input result params param proto :
    param ∈ params -> proto ∈ getProtocols param ->
    LocallyDeclared proto ->
    ReachesLocal (PolymorphicFunctionType input result params)
| ReachesSuperclassBound input result params param superclass :
    param ∈ params -> getSuperclass param = Some superclass ->
    ReachesLocal superclass ->
    ReachesLocal (PolymorphicFunctionType input result params)
| ReachesNested type nested :
    NestedIn nested type -> ReachesLocal nested -> ReachesLocal type.

Lemma isLocalLinkageContext_spec DC :
  isLocalLinkageContext DC = true <-> LocalBeforeModule DC.
Proof.
  induction DC as [a|k a parent IH]; simpl.
  - split; [done|]. inversion 1 as [? Hm|]; subst. by cbv in Hm.
  - destruct (isModuleContext (SubDC k a parent)) eqn:Hm.
    + split; [done|]. inversion 1; congruence.
    + destruct (isLocalContext (SubDC k a parent)) eqn:Hl.
      * split; [|done]. intros _. by apply LocalHere.
      * rewrite IH. split.
        -- intros ?. by apply LocalAbove.
        -- inversion 1; subst; [congruence|done].
Qed.

Lemma isLocalLinkageDecl_spec D :
  isLocalLinkageDecl D = true <-> LocallyDeclared D.
Proof. apply isLocalLinkageContext_spec. Qed.

(** An induction principle for types that reaches the types in the
    lists, the options and the generic parameters. *)
Lemma CanType_nested_ind (P : CanType -> Prop) :
  (forall s, P (BuiltinType s)) ->
  (forall k D p, from_option P True p -> P (NominalType k D p)) ->
  (forall k D p args, from_option P True p -> Forall P args ->
                      P (BoundGenericType k D p args)) ->
  (forall D p, from_option P True p -> P (UnboundGenericType D p)) ->
  (forall elts, Forall P elts -> P (TupleType elts)) ->
  (forall a r, P a -> P r -> P (FunctionType a r)) ->
  (forall a r ps, P a -> P r ->
      Forall (fun p : GenericParam => from_option P True (getSuperclass p))
             ps ->
      P (PolymorphicFunctionType a r ps)) ->
  (forall a, P a -> P (LValueType a)) ->
  (forall a, P a -> P (MetatypeType a)) ->
  (forall a, P (ArchetypeType a)) ->
  forall t, P t.
Proof.
  intros HB HN HBG HU HT HF HP HL HM HA.
  fix IH 1. intros t.
  assert (HO : forall p : option CanType, from_option P True p).
  { intros [u|]; simpl; [apply IH|done]. }
  assert (HLs : forall l : list CanType, Forall P l).
  { induction l as [|u l IHl]; constructor; [apply IH|done]. }
  destruct t as [s|k D p|k D p args|D p|elts|a r|a r ps|a|a|a].
  - apply HB.
  - apply HN, HO.
  - apply HBG; [apply HO|apply HLs].
  - apply HU, HO.
  - apply HT, HLs.
  - apply HF; apply IH.
  - apply HP; [apply IH|apply IH|].
    induction ps as [|[protos sup] ps IHps]; constructor; [|done].
    apply HO.
  - apply HL, IH.
  - apply HM, IH.
  - apply HA.
Qed.

Lemma existsb_True {A} (f : A -> bool) (l : list A) :
  existsb f l = true <-> exists x, x ∈ l /\ f x = true.
Proof.
  rewrite existsb_exists. split; intros (x & Hx & Hf); exists x;
    (split; [by apply list_elem_of_In|done]).
Qed.

(** The recursion written for [isLocalLinkageType] is [findIf] of the
    predicate in the source. *)
Lemma isLocalLinkageType_findIf type :
  isLocalLinkageType type = findIf isLocalLinkageType_pred type.
Proof.
  induction type as [s|k D p IHp|k D p args IHp IHargs|D p IHp|elts IHelts
                    |a r IHa IHr|a r ps IHa IHr _|a IHa|a IHa|a]
    using CanType_nested_ind;
    cbn [isLocalLinkageType findIf];
    unfold isLocalLinkageType_pred at 1; cbn [getAnyNominal].
  - done.
  - f_equal. destruct p as [t|]; simpl in *; [by rewrite IHp|done].
  - f_equal. f_equal.
    + destruct p as [t|]; simpl in *; [by rewrite IHp|done].
    + induction IHargs as [|x l Hx _ IHl]; simpl; [done|]. by rewrite Hx, IHl.
  - f_equal. destruct p as [t|]; simpl in *; [by rewrite IHp|done].
  - simpl. induction IHelts as [|x l Hx _ IHl]; simpl; [done|].
    by rewrite Hx, IHl.
  - simpl. by rewrite IHa, IHr.
  - rewrite IHa, IHr. f_equal. unfold isLocalLinkageGenericClause.
    induction ps as [|p ps IHps]; simpl; [done|]. rewrite IHps.
    f_equal. f_equal.
    induction (getProtocols p) as [|proto protos IHprotos]; simpl; [done|].
    rewrite IHprotos. by rewrite !orb_false_r.
  - simpl. by rewrite IHa.
  - simpl. by rewrite IHa.
  - done.
Qed.

Lemma isLocalLinkageType_spec type :
  isLocalLinkageType type = true <-> ReachesLocal type.
Proof.
  split.
  - induction type as [s|k D p IHp|k D p args IHp IHargs|D p IHp|elts IHelts
                      |a r IHa IHr|a r ps IHa IHr IHps|a IHa|a IHa|a]
      using CanType_nested_ind; simpl; rewrite ?orb_true_iff.
    + done.
    + intros [HD|Hp].
      * eapply ReachesNominal; [done|]. by apply isLocalLinkageDecl_spec.
      * destruct p as [t|]; [|done]. simpl in Hp.
        eapply ReachesNested; [constructor|]. by apply IHp.
    + intros [HD|[Hp|Ha]].
      * eapply ReachesNominal; [done|]. by apply isLocalLinkageDecl_spec.
      * destruct p as [t|]; [|done]. simpl in Hp.
        eapply ReachesNested; [constructor|]. by apply IHp.
      * apply existsb_True in Ha as (x & Hx & Hf).
        eapply ReachesNested; [by apply NestedBoundArg|].
        rewrite Forall_forall in IHargs. by apply IHargs.
    + intros [HD|Hp].
      * eapply ReachesNominal; [done|]. by apply isLocalLinkageDecl_spec.
      * destruct p as [t|]; [|done]. simpl in Hp.
        eapply ReachesNested; [constructor|]. by apply IHp.
    + intros Ha.
      apply existsb_True in Ha as (x & Hx & Hf).
      eapply ReachesNested; [by apply NestedTupleElt|].
      rewrite Forall_forall in IHelts. by apply IHelts.
    + intros [Ha|Hr].
      * eapply ReachesNested; [apply NestedInput|]. by apply IHa.
      * eapply ReachesNested; [apply NestedResult|]. by apply IHr.
    + intros [Hps|[Ha|Hr]].
      * apply existsb_True in Hps as (p & Hp & Hf).
        apply orb_true_iff in Hf as [Hprotos|Hsup].
        -- apply existsb_True in Hprotos as (proto & Hproto & Hl).
           eapply ReachesProtocolBound; [done..|].
           by apply isLocalLinkageDecl_spec.
        -- destruct (getSuperclass p) as [sup|] eqn:Hs; [|done].
           simpl in Hsup.
           eapply ReachesSuperclassBound; [done..|].
           rewrite Forall_forall in IHps. specialize (IHps _ Hp).
           rewrite Hs in IHps. by apply IHps.
      * eapply ReachesNested; [apply NestedPolyInput|]. by apply IHa.
      * eapply ReachesNested; [apply NestedPolyResult|]. by apply IHr.
    + intros Ha.
      eapply ReachesNested; [constructor|]. by apply IHa.
    + intros Ha.
      eapply ReachesNested; [constructor|]. by apply IHa.
    + done.
  - induction 1 as [type nominal Hn Hl
                   |input result params param proto Hp Hproto Hl
                   |input result params param sup Hp Hs _ IH
                   |type nested Hn _ IH].
    + apply isLocalLinkageDecl_spec in Hl.
      destruct type; simplify_eq/=; by rewrite Hl.
    + apply isLocalLinkageDecl_spec in Hl. simpl.
      apply orb_true_iff; left. apply existsb_True. exists param.
      split; [done|]. apply orb_true_iff; left. apply existsb_True.
      by exists proto.
    + simpl. apply orb_true_iff; left. apply existsb_True. exists param.
      split; [done|]. apply orb_true_iff; right. by rewrite Hs.
    + destruct Hn; simpl; rewrite ?IH, ?orb_true_r; try done.
      * apply orb_true_iff; right. apply orb_true_iff; right.
        apply existsb_True. by eexists.
      * apply existsb_True. by eexists.
Qed.

(** *** Which entities are local *)

Definition typeKeyed (k : Kind.t) : bool :=
  bool_decide (k ∈ [Kind.ValueWitness; Kind.ValueWitnessTable;
                    Kind.TypeMetadata; Kind.TypeMangling;
                    Kind.DebuggerTypeMangling]).

Definition declKeyed (k : Kind.t) : bool :=
  bool_decide (k ∈ [Kind.WitnessTableOffset; Kind.Constructor;
                    Kind.Destructor; Kind.Function; Kind.Getter;
                    Kind.Setter; Kind.Other; Kind.ObjCClass;
                    Kind.ObjCMetaclass; Kind.SwiftMetaclassStub;
                    Kind.FieldOffset; Kind.NominalTypeDescriptor;
                    Kind.ProtocolDescriptor;
                    Kind.DebuggerDeclTypeMangling]).

(** Locality in the words of the specification of [LinkInfo::get]:
    through the declaration context of the entity's declaration, or
    through the structure of the entity's type. *)
Definition LocalByContextOrType (e : LinkEntity) : Prop :=
  (exists D, LinkEntity.getDecl e = Some D /\ LocallyDeclared D)
  \/ (exists T, LinkEntity.getType e = Some T /\ ReachesLocal T).

(** Locality as [isLocalLinkage] decides it, kind by kind. *)
Definition LocalEntity (e : LinkEntity) : Prop :=
  let k := LinkEntity.getKind e in
  if typeKeyed k then
    exists T, LinkEntity.getType e = Some T /\ ReachesLocal T
  else if declKeyed k then
    exists D, LinkEntity.getDecl e = Some D /\ LocallyDeclared D
  else
    match k with
    | Kind.LazyProtocolWitnessTableTemplate
    | Kind.DependentProtocolWitnessTableTemplate
    | Kind.AnonymousFunction => True
    | Kind.SILFunction =>
        LinkEntity.getSILFunction e = Some SILLinkage.Internal
    | Kind.SILGlobalVariable =>
        LinkEntity.getSILGlobalVariable e = Some SILLinkage.Internal
    | _ => False
    end.

(** The entities on which the casts of the pointer and the
    classification of the kind are defined. *)
Definition wellFormed (e : LinkEntity) : bool :=
  let k := LinkEntity.getKind e in
  match k with
  | Kind.SILFunction => bool_decide (is_Some (LinkEntity.getSILFunction e))
  | Kind.SILGlobalVariable =>
      bool_decide (is_Some (LinkEntity.getSILGlobalVariable e))
  | Kind.LazyProtocolWitnessTableTemplate
  | Kind.DependentProtocolWitnessTableTemplate
  | Kind.AnonymousFunction => true
  | _ =>
      (if typeKeyed k then bool_decide (is_Some (LinkEntity.getType e))
       else true)
      && (if declKeyed k then bool_decide (is_Some (LinkEntity.getDecl e))
          else true)
      && (if isDeclKind k then bool_decide (is_Some (LinkEntity.getDecl e))
          else if isProtocolConformanceKind k then true
          else if isTypeKind k
               then bool_decide (is_Some (LinkEntity.getType e))
          else false)
  end.

Lemma isLocalLinkage_spec e b :
  isLocalLinkage e = Some b -> (b = true <-> LocalEntity e).
Proof.
  unfold isLocalLinkage, LocalEntity.
  destruct e as [P k D]; simpl.
  destruct k; simpl; destruct P; simpl; intros Hb;
    try discriminate Hb; injection Hb as <-;
    rewrite ?isLocalLinkageType_spec, ?isLocalLinkageDecl_spec,
            ?bool_decide_eq_true;
    try (split; [by eauto|by intros (? & [= <-] & ?)]);
    try (split; [done|by intros (? & ? & ?)]);
    try (split; congruence); try done;
    unfold LinkEntity.getSILFunction, LinkEntity.getSILGlobalVariable;
    simpl; split; congruence.
Qed.

Lemma is_Some_None_bool {A} : bool_decide (is_Some (@None A)) = false.
Proof. apply bool_decide_eq_false. by intros [? ?]. Qed.

Lemma wellFormed_isLocalLinkage e :
  wellFormed e = true -> is_Some (isLocalLinkage e).
Proof.
  unfold wellFormed, isLocalLinkage.
  destruct e as [P k D]; simpl.
  destruct k; simpl; destruct P; simpl;
    rewrite ?is_Some_None_bool, ?andb_false_r; simpl; intros Hw;
    try first [discriminate Hw | by eexists].
Qed.

Lemma wellFormed_isDeserialized e :
  wellFormed e = true -> is_Some (isDeserialized e).
Proof.
  unfold wellFormed, isDeserialized.
  destruct e as [P k D]; simpl.
  destruct k; simpl; destruct P; simpl;
    rewrite ?is_Some_None_bool; intros Hw;
    try first [discriminate Hw | by eexists].
Qed.

Lemma wellFormed_isThunk e :
  wellFormed e = true -> isLocalLinkage e = Some false ->
  is_Some (isThunk e).
Proof.
  unfold wellFormed, isLocalLinkage, isThunk.
  destruct e as [P k D]; simpl.
  destruct k; simpl; try done;
    destruct P; simpl;
    rewrite ?is_Some_None_bool, ?andb_false_r; simpl; intros Hw Hl;
    try discriminate Hw; try (by eexists);
    repeat match goal with
           | |- context [if ?b then _ else _] =>
               destruct b eqn:?; simpl in *;
               rewrite ?is_Some_None_bool in Hw; try discriminate Hw
           | |- context [match ?b with Some _ => _ | None => _ end] =>
               destruct b eqn:?; simpl in *
           end;
    try (by eexists).
Qed.

Definition linkOnce (e : LinkEntity) : Prop :=
  isValueWitness e = true \/ isThunk e = Some true
  \/ isDeserialized e = Some true.

(** C2 (amended).  On every entity on which the casts and the kind
    classification are defined, [LinkInfo::get] returns the mangled
    name with: internal linkage and default visibility when the entity
    is local, where local is decided by kind (through the type for the
    type-keyed kinds, through the declaration context for the
    declaration-keyed kinds, always for witness-table templates and
    anonymous functions, by SIL linkage for SIL functions and globals,
    and never for the remaining kinds); link-once ODR linkage and hidden
    visibility when it is not local and is a value witness, a thunk or
    deserialized; external linkage and default visibility otherwise. *)
Theorem LinkInfo_get_decision_table (e : LinkEntity) :
  wellFormed e = true ->
  exists info,
    LinkInfo_get e = Some info /\
    LinkInfo.getName info = mangle e /\
    (LocalEntity e ->
       LinkInfo.getLinkage info = InternalLinkage /\
       LinkInfo.getVisibility info = DefaultVisibility) /\
    (~ LocalEntity e -> linkOnce e ->
       LinkInfo.getLinkage info = LinkOnceODRLinkage /\
       LinkInfo.getVisibility info = HiddenVisibility) /\
    (~ LocalEntity e -> ~ linkOnce e ->
       LinkInfo.getLinkage info = ExternalLinkage /\
       LinkInfo.getVisibility info = DefaultVisibility).
Proof.
  intros Hw. unfold LinkInfo_get, linkOnce.
  destruct (wellFormed_isLocalLinkage e Hw) as [isLocal Hl].
  pose proof (isLocalLinkage_spec e isLocal Hl) as Hspec.
  rewrite Hl; simpl. destruct isLocal.
  { eexists; split; [done|]. simpl. intuition. }
  assert (~ LocalEntity e) as Hn by (rewrite <- Hspec; done).
  destruct (isValueWitness e) eqn:Hvw.
  { eexists; split; [done|]. simpl. intuition. }
  destruct (wellFormed_isThunk e Hw Hl) as [thunk Ht]. rewrite Ht; simpl.
  destruct thunk.
  { eexists; split; [done|]. simpl. intuition. }
  destruct (wellFormed_isDeserialized e Hw) as [des Hd]. rewrite Hd; simpl.
  destruct des.
  { eexists; split; [done|]. simpl. intuition. }
  eexists; split; [done|]. simpl. intuition; congruence.
Qed.

(** C3 (amended).  Whatever the entity points to: a witness-table
    generator (like a direct witness table and a lazy accessor) is never
    local; a witness-table template and an anonymous function are always
    local and get internal linkage; a bridge-to-block converter is never
    local and never gets internal linkage. *)
Theorem isLocalLinkage_by_kind (P : EntityPointer) (D : N) :
  let entity k := LinkEntity.mk P k D in
  isLocalLinkage (entity Kind.DependentProtocolWitnessTableGenerator)
    = Some false
  /\ isLocalLinkage (entity Kind.DirectProtocolWitnessTable) = Some false
  /\ isLocalLinkage (entity Kind.LazyProtocolWitnessTableAccessor)
     = Some false
  /\ isLocalLinkage (entity Kind.LazyProtocolWitnessTableTemplate)
     = Some true
  /\ isLocalLinkage (entity Kind.DependentProtocolWitnessTableTemplate)
     = Some true
  /\ isLocalLinkage (entity Kind.AnonymousFunction) = Some true
  /\ isLocalLinkage (entity Kind.BridgeToBlockConverter) = Some false
  /\ (forall k,
        k ∈ [Kind.LazyProtocolWitnessTableTemplate;
             Kind.DependentProtocolWitnessTableTemplate;
             Kind.AnonymousFunction] ->
        LinkInfo_get (entity k)
        = Some (LinkInfo.mk (mangle (entity k)) InternalLinkage
                            DefaultVisibility))
  /\ (forall k info,
        k ∈ [Kind.DependentProtocolWitnessTableGenerator;
             Kind.BridgeToBlockConverter] ->
        LinkInfo_get (entity k) = Some info ->
        LinkInfo.getLinkage info <> InternalLinkage).
Proof.
  simpl. repeat split; try done.
  - intros k Hk. unfold LinkInfo_get, isLocalLinkage; simpl.
    repeat (apply elem_of_cons in Hk as [->|Hk]; [done|]).
    by apply elem_of_nil in Hk.
  - intros k info Hk. unfold LinkInfo_get, isLocalLinkage; simpl.
    repeat (apply elem_of_cons in Hk as [->|Hk];
            [simpl; intros Hi;
             repeat (case_match; simplify_option_eq); done|]).
    by apply elem_of_nil in Hk.
Qed.
End LinkageProperties.

(** ** Formal types of getters and setters *)

Section FormalTypeProperties.
Context `{!ASTHeader}.

(** The declaration is a member of a nominal type or of an extension. *)
Definition isMember (value : ValueDecl) : bool :=
  bool_decide (getContextKind (ValueDecl.getDeclContext value)
               ∈ [DeclContextKind.NominalTypeDecl;
                  DeclContextKind.ExtensionDecl]).

(** The receiver parameter: the owner type, by reference unless the
    owner has reference semantics. *)
Definition receiverType (value : ValueDecl) : CanType :=
  let owner := getDeclaredTypeInContext (ValueDecl.getDeclContext value) in
  if hasReferenceSemantics owner then owner else LValueType owner.

(** The function type from a parameter to a result, polymorphic when
    the owner context has generic parameters. *)
Definition memberFunctionType (value : ValueDecl) (param result : CanType)
  : CanType :=
  match getGenericParamsOfContext (ValueDecl.getDeclContext value) with
  | Some params => PolymorphicFunctionType param result params
  | None => FunctionType param result
  end.

(** The index and the receiver threaded onto [() -> T] or
    [T -> ()]. *)
Definition threaded (value : ValueDecl) (accessorType : CanType)
  : FormalType :=
  let indexed :=
    if ValueDecl.isSubscriptDecl value
    then FunctionType (ValueDecl.getIndicesType value) accessorType
    else accessorType in
  let indexLevel := if ValueDecl.isSubscriptDecl value then 1 else 0 in
  if isMember value then
    FormalType.mk (memberFunctionType value (receiverType value) indexed)
                  AbstractCC.Method (S indexLevel)
  else FormalType.mk indexed AbstractCC.Freestanding indexLevel.

(** C8.  The formal getter type is [() -> T] and the formal setter type
    [T -> ()], with T the value type of the object; an index parameter
    is prepended for a subscript and a receiver parameter for a member,
    each with one more uncurry level; members get the method
    convention and the others the freestanding one. *)
Theorem getter_setter_formal_types (value : ValueDecl) :
  let T := if ValueDecl.isSubscriptDecl value
           then ValueDecl.getElementType value
           else ValueDecl.getType value in
  getTypeOfGetter value = threaded value (FunctionType (TupleType []) T)
  /\ getTypeOfSetter value = threaded value (FunctionType T (TupleType [])).
Proof.
  unfold getTypeOfGetter, getTypeOfSetter, threaded, addIndexArgument,
    addOwnerArgument, getObjectType, isMember, memberFunctionType,
    receiverType, addOwnerArgumentDC, TupleType_getEmpty.
  destruct (ValueDecl.isSubscriptDecl value);
    destruct (getContextKind (ValueDecl.getDeclContext value)) eqn:Hk;
    simpl; (split; [|]);
    try done;
    destruct (hasReferenceSemantics _); simpl; done.
Qed.
End FormalTypeProperties.

(** ** Metadata addressing *)

Section MetadataProperties.
Context `{!LinkingHeader} `{!LoweringHeader}.

(** The word adjustment of each storage layout class. *)
Definition wordAdjustment (concreteType : CanType)
    (isIndirect isPattern : bool) : nat :=
  if isPattern then 0                              (* pattern form *)
  else if isIndirect then 0                        (* indirect form *)
  else
    match concreteType with
    | NominalType NominalKind.Class D _ =>
        if hasKnownSwiftMetadata D then 2          (* direct class *)
        else 0                                     (* Objective-C class *)
    | BoundGenericType NominalKind.Class _ _ _ => 2  (* direct class *)
    | _ => 1                                       (* other direct *)
    end.

(** The address point: the raw address plus the adjustment, as an
    in-bounds element access. *)
Definition addressPoint (raw : llvm.Constant) (adjustment : nat)
  : llvm.Constant :=
  match adjustment with
  | 0 => raw
  | _ => llvm.InBoundsGEP raw
           [llvm.ConstantInt Int32Ty 0;
            llvm.ConstantInt Int32Ty (Z.of_nat adjustment)]
  end.

Definition metadataEntity (concreteType : CanType)
    (isIndirect isPattern : bool) : LinkEntity :=
  match (metadataLayout concreteType isIndirect isPattern).2 with
  | Some ObjCClass => forObjCClass ObjCClass
  | None => forTypeMetadata concreteType isIndirect isPattern
  end.

Lemma metadataLayout_adjustment concreteType isIndirect isPattern :
  (metadataLayout concreteType isIndirect isPattern).1.2
  = wordAdjustment concreteType isIndirect isPattern.
Proof.
  unfold metadataLayout, wordAdjustment.
  destruct isPattern, isIndirect; simpl; try done;
    destruct concreteType as [|[]| []| | | | | | |]; simpl; try done;
    by destruct (hasKnownSwiftMetadata _).
Qed.

(** C6.  The adjustment index is the word adjustment of the layout
    class; the result is the address of the metadata variable at its
    address point, and the address of the variable itself when a
    storage type is given. *)
Theorem getAddrOfTypeMetadata_address_point
    (concreteType : CanType) (isIndirect isPattern : bool)
    (storageType : option llvm.type) (IGM : IRGenModule) :
  let layout := metadataLayout concreteType isIndirect isPattern in
  layout.1.2 = wordAdjustment concreteType isIndirect isPattern
  /\ getAddrOfTypeMetadata concreteType isIndirect isPattern storageType IGM
     = (assert (isPattern || negb (isUnboundGenericType concreteType)) ;;
        raw <- getAddrOfLLVMVariable
                 (metadataEntity concreteType isIndirect isPattern)
                 storageType layout.1.1.1 layout.1.1.2 ;;
        ret (match storageType with
             | Some _ => raw
             | None =>
                 addressPoint raw (wordAdjustment concreteType isIndirect
                                                  isPattern)
             end)) IGM.
Proof.
  simpl. split; [apply metadataLayout_adjustment|].
  unfold getAddrOfTypeMetadata, metadataEntity.
  rewrite <- metadataLayout_adjustment.
  destruct (metadataLayout concreteType isIndirect isPattern)
    as [[[defaultVarTy defaultVarPtrTy] adjustmentIndex] ObjCClass]; simpl.
  unfold bind. destruct (assert _ IGM) as [[[] IGM1]|]; [|done].
  destruct (getAddrOfLLVMVariable _ _ _ _ IGM1) as [[raw IGM2]|]; [|done].
  destruct storageType, adjustmentIndex; simpl; done.
Qed.
End MetadataProperties.

(** ** Categories for extensions *)

(** "The extension conforms directly or transitively through inherited
    conformances to a runtime-visible protocol." *)
Inductive ConformsToObjCProtocol : Decl -> ProtocolConformance -> Prop :=
| ConformsDirectly protocol conformance :
    Decl.isObjC protocol = true ->
    ConformsToObjCProtocol protocol conformance
| ConformsThroughInherited protocol conformance inherited :
    inherited ∈ getInheritedConformances conformance ->
    ConformsToObjCProtocol inherited.1 inherited.2 ->
    ConformsToObjCProtocol protocol conformance.

Lemma ProtocolConformance_nested_ind (P : ProtocolConformance -> Prop) :
  (forall addr inherited,
      Forall (fun i : Decl * ProtocolConformance => P i.2) inherited ->
      P (Conformance addr inherited)) ->
  forall c, P c.
Proof.
  intros HC. fix IH 1. intros [addr inherited]. apply HC.
  induction inherited as [|[p c] l IHl]; constructor; [apply IH|done].
Qed.

Lemma protocolExtensionRequiresCategory_spec protocol conformance :
  protocolExtensionRequiresCategory protocol conformance = true
  <-> ConformsToObjCProtocol protocol conformance.
Proof.
  revert protocol.
  induction conformance as [addr inherited IH]
    using ProtocolConformance_nested_ind.
  intros protocol. simpl. destruct (Decl.isObjC protocol) eqn:HO.
  { split; [|done]. intros _. by apply ConformsDirectly. }
  rewrite existsb_True. split.
  - intros ([p c] & Hin & Hreq). rewrite Forall_forall in IH.
    apply (ConformsThroughInherited _ _ (p, c)); [done|].
    by apply (IH _ Hin).
  - inversion 1 as [|? ? [p c] Hin Hc]; subst; [congruence|].
    exists (p, c). split; [done|]. rewrite Forall_forall in IH.
    by apply (IH _ Hin).
Qed.

Lemma protocolsRequireCategory_spec protocols conformances i :
  i + length protocols <= length conformances ->
  exists b,
    protocolsRequireCategory protocols conformances i = Some b /\
    (b = true <->
     exists j protocol conformance,
       protocols !! j = Some protocol /\
       conformances !! (i + j) = Some conformance /\
       ConformsToObjCProtocol protocol conformance).
Proof.
  revert i. induction protocols as [|p ps IH]; intros i Hlen; simpl in *.
  { exists false. split; [done|]. split; [done|]. by intros (j & ? & ? & ? & _). }
  destruct (lookup_lt_is_Some_2 conformances i) as [c Hc]; [lia|].
  rewrite Hc; simpl.
  destruct (protocolExtensionRequiresCategory p c) eqn:Hreq.
  - exists true. split; [done|]. split; [|done]. intros _.
    exists 0, p, c. rewrite Nat.add_0_r.
    by rewrite <- protocolExtensionRequiresCategory_spec.
  - destruct (IH (S i)) as (b & Hb & Hspec); [lia|].
    exists b. split; [done|]. rewrite Hspec. split.
    + intros (j & p' & c' & Hp & Hc' & Hconf).
      exists (S j), p', c'. simpl.
      replace (i + S j) with (S i + j) by lia. split_and!; assumption.
    + intros ([|j] & p' & c' & Hp & Hc' & Hconf); simpl in *.
      * rewrite Nat.add_0_r in Hc'. simplify_eq.
        apply protocolExtensionRequiresCategory_spec in Hconf. congruence.
      * exists j, p', c'. rewrite Nat.add_succ_r in Hc'.
        split_and!; assumption.
Qed.

Section CategoryProperties.
Context `{!EmitterHeader}.

(** A computation that completes and leaves the pending category lists
    as they are. *)
Definition keepsCategories {A} (m : IRGen A) : Prop :=
  forall IGM, exists a IGM',
    m IGM = Some (a, IGM') /\
    ObjCCategories IGM' = ObjCCategories IGM /\
    ObjCCategoryDecls IGM' = ObjCCategoryDecls IGM.

(** The emitters of other files do not register categories. *)
Record EmittersKeepCategories : Prop := {
  emitEnumDecl_keeps D : keepsCategories (emitEnumDecl D);
  emitStructDecl_keeps D : keepsCategories (emitStructDecl D);
  emitClassDecl_keeps D : keepsCategories (emitClassDecl D);
  emitLocalDecls_keeps D : keepsCategories (emitLocalDecls D);
  emitCategoryData_keeps ext : keepsCategories (emitCategoryData ext)
}.

(** The members an extension may have. *)
Definition allowedInExtension (member : Decl) : bool :=
  match Decl.getKind member with
  | DeclKind.Import | DeclKind.EnumCase | DeclKind.EnumElement
  | DeclKind.TopLevelCode | DeclKind.Protocol | DeclKind.Extension
  | DeclKind.Destructor | DeclKind.InfixOperator | DeclKind.PrefixOperator
  | DeclKind.PostfixOperator => false
  | DeclKind.Var => Decl.isComputed member
  | _ => true
  end.

(** "Some member of the extension (method, constructor, property, or
    subscript) requires a dynamic-dispatch entry point." *)
Definition RequiresEntryPoint (member : Decl) : Prop :=
  (Decl.getKind member ∈ [DeclKind.Func; DeclKind.Constructor]
   /\ requiresObjCMethodDescriptor member = true)
  \/ (Decl.getKind member = DeclKind.Var
      /\ requiresObjCPropertyDescriptor member = true)
  \/ (Decl.getKind member = DeclKind.Subscript
      /\ requiresObjCSubscriptDescriptor member = true).

(** The three conditions under which an extension of a class needs a
    category. *)
Definition NeedsCategory (ext : ExtensionDecl) (origClass : Decl) : Prop :=
  Decl.isObjC origClass = true
  \/ (exists i protocol conformance,
        ExtensionDecl.getProtocols ext !! i = Some protocol /\
        ExtensionDecl.getConformances ext !! i = Some conformance /\
        ConformsToObjCProtocol protocol conformance)
  \/ (exists member,
        member ∈ ExtensionDecl.getMembers ext /\ RequiresEntryPoint member).

Lemma memberRequiresCategory_spec member :
  memberRequiresCategory member = true <-> RequiresEntryPoint member.
Proof.
  unfold memberRequiresCategory, RequiresEntryPoint.
  destruct (Decl.getKind member) eqn:Hk; split;
    try (intros [[Hin _]|[[? _]|[? _]]]; try done;
         repeat (apply elem_of_cons in Hin as [?|Hin]; [done|]);
         by apply elem_of_nil in Hin);
    try done.
  - intros ?. right; left. done.
  - intros [[Hin _]|[[_ ?]|[? _]]]; try done.
    repeat (apply elem_of_cons in Hin as [?|Hin]; [done|]).
    by apply elem_of_nil in Hin.
  - intros ?. right; right. done.
  - intros [[Hin _]|[[? _]|[_ ?]]]; try done.
    repeat (apply elem_of_cons in Hin as [?|Hin]; [done|]).
    by apply elem_of_nil in Hin.
  - intros ?. left. split; [|done]. set_solver.
  - intros [[_ ?]|[[? _]|[? _]]]; done.
  - intros ?. left. split; [|done]. set_solver.
  - intros [[_ ?]|[[? _]|[? _]]]; done.
Qed.

Lemma keepsCategories_bind {A B} (m : IRGen A) (k : A -> IRGen B) :
  keepsCategories m -> (forall a, keepsCategories (k a)) ->
  keepsCategories (bind m k).
Proof.
  intros Hm Hk IGM. unfold bind.
  destruct (Hm IGM) as (a & IGM1 & -> & HC1 & HD1).
  destruct (Hk a IGM1) as (b & IGM2 & -> & HC2 & HD2).
  exists b, IGM2. split; [done|]. split; congruence.
Qed.

Lemma keepsCategories_ret {A} (a : A) : keepsCategories (ret a).
Proof. intros IGM. by exists a, IGM. Qed.

Lemma emitExtensionMembers_keeps (members : list Decl) :
  EmittersKeepCategories ->
  Forall (fun member => allowedInExtension member = true) members ->
  keepsCategories (forEach members emitExtensionMember).
Proof.
  intros HE. induction 1 as [|member members Hm _ IH]; simpl.
  { apply keepsCategories_ret. }
  apply keepsCategories_bind; [|done].
  unfold emitExtensionMember, allowedInExtension in *.
  destruct (Decl.getKind member); try done;
    try apply keepsCategories_ret; try apply HE.
  rewrite Hm. apply keepsCategories_ret.
Qed.

(** C7.  An extension of a class (with members an extension may have,
    and a conformance for each of its protocols) registers a category
    exactly when its class is an Objective-C class, or it conforms,
    directly or through inherited conformances, to an Objective-C
    protocol, or one of its members requires an Objective-C entry
    point; it then registers exactly one, and nothing otherwise. *)
Theorem emitExtension_category
    (ext : ExtensionDecl) (origClass : Decl) (IGM : IRGenModule) :
  EmittersKeepCategories ->
  getClassOrBoundGenericClass (ExtensionDecl.getDeclaredTypeInContext ext)
    = Some origClass ->
  Forall (fun member => allowedInExtension member = true)
         (ExtensionDecl.getMembers ext) ->
  length (ExtensionDecl.getProtocols ext)
    <= length (ExtensionDecl.getConformances ext) ->
  exists IGM',
    emitExtension ext IGM = Some (tt, IGM') /\
    ((NeedsCategory ext origClass /\
      (exists category,
          ObjCCategories IGM' = ObjCCategories IGM ++ [category]) /\
      ObjCCategoryDecls IGM' = ObjCCategoryDecls IGM ++ [ext])
     \/ (~ NeedsCategory ext origClass /\
         ObjCCategories IGM' = ObjCCategories IGM /\
         ObjCCategoryDecls IGM' = ObjCCategoryDecls IGM)).
Proof.
  intros HE Hclass Hmembers Hlen.
  unfold emitExtension. rewrite Hclass. unfold bind at 1.
  destruct (emitExtensionMembers_keeps _ HE Hmembers IGM)
    as ([] & IGM1 & -> & HC1 & HD1).
  destruct (protocolsRequireCategory_spec
              (ExtensionDecl.getProtocols ext)
              (ExtensionDecl.getConformances ext) 0)
    as (byProtocol & Hproto & Hprotospec); [simpl; lia|].
  setoid_rewrite Nat.add_0_l in Hprotospec.
  assert (Hmem : existsb memberRequiresCategory (ExtensionDecl.getMembers ext)
                 = true
                 <-> exists member, member ∈ ExtensionDecl.getMembers ext
                                    /\ RequiresEntryPoint member).
  { rewrite existsb_True. by setoid_rewrite memberRequiresCategory_spec. }
  set (needs := Decl.isObjC origClass || byProtocol
                || existsb memberRequiresCategory
                           (ExtensionDecl.getMembers ext)).
  assert (Hneeds : needs = true <-> NeedsCategory ext origClass).
  { unfold needs, NeedsCategory.
    rewrite !orb_true_iff, Hprotospec, Hmem. tauto. }
  assert (Hrun : forall k : bool -> IRGen unit,
    bind (if negb (Decl.isObjC origClass)
          then liftOption (protocolsRequireCategory
                             (ExtensionDecl.getProtocols ext)
                             (ExtensionDecl.getConformances ext) 0)
          else ret (Decl.isObjC origClass)) k IGM1
    = k (Decl.isObjC origClass || byProtocol) IGM1).
  { intros k. unfold bind. destruct (Decl.isObjC origClass); simpl; [done|].
    by rewrite Hproto. }
  rewrite Hrun.
  replace (if negb (Decl.isObjC origClass || byProtocol)
           then existsb memberRequiresCategory (ExtensionDecl.getMembers ext)
           else Decl.isObjC origClass || byProtocol) with needs
    by (unfold needs; by destruct (Decl.isObjC origClass), byProtocol).
  destruct needs.
  - destruct (emitCategoryData_keeps HE ext IGM1)
      as (category & IGM2 & Hcat & HC2 & HD2).
    unfold bind, getModule, get, modify, ret. rewrite Hcat. simpl.
    eexists. split; [done|]. left. split; [by apply Hneeds|].
    simpl. rewrite HC2, HC1, HD2, HD1. split; [by eexists|done].
  - exists IGM1. split; [done|]. right. split; [|done].
    rewrite <- Hneeds. done.
Qed.
End CategoryProperties.

(** ** The IR module: names and the symbol table *)

Lemma string_length_app (a b : string) :
  String.length (a +:+ b) = String.length a + String.length b.
Proof. induction a as [|c a IH]; simpl; [done|]. by rewrite IH. Qed.

Lemma string_app_empty_r (a : string) : a +:+ "" = a.
Proof.
  induction a as [|c a IH]; [done|].
  change (String c (a +:+ "") = String c a). by rewrite IH.
Qed.

Lemma string_app_assoc (a b c : string) : (a +:+ b) +:+ c = a +:+ (b +:+ c).
Proof.
  induction a as [|x a IH]; [done|].
  change (String x ((a +:+ b) +:+ c) = String x (a +:+ (b +:+ c))).
  by rewrite IH.
Qed.

Lemma fresh_string_prefix {A} (m : stringmap A) (s : string) :
  exists suffix, fresh_string s m = s +:+ suffix.
Proof.
  unfold fresh_string. destruct (m !! s) as [a|] eqn:Hs; [clear a Hs|].
  2:{ exists "". by rewrite string_app_empty_r. }
  generalize 0%N (wf_guard 32 (fresh_string_R_wf s m) 0%N). revert m.
  fix FIX 3. intros m n [?]. simpl. unfold fresh_string_go at 1. simpl.
  destruct (Some_dec (m !! _)) as [[??]|?]; eauto.
Qed.

Lemma fresh_string_free {A} (m : stringmap A) (s : string) :
  m !! s = None -> fresh_string s m = s.
Proof. intros Hs. unfold fresh_string. by rewrite Hs. Qed.

Module llvm_facts.
Import llvm.

Lemma uniqueName_free tab n : tab !! n = None -> uniqueName tab n = n.
Proof.
  intros Hn. unfold uniqueName. case_bool_decide; [done|].
  by apply fresh_string_free.
Qed.

Lemma uniqueName_length tab n :
  String.length n <= String.length (uniqueName tab n).
Proof.
  unfold uniqueName. case_bool_decide; [by subst|].
  destruct (fresh_string_prefix tab n) as [suffix ->].
  rewrite string_length_app. lia.
Qed.

Lemma uniqueName_nonempty tab n : n <> "" -> uniqueName tab n <> "".
Proof.
  intros Hn Hu. pose proof (uniqueName_length tab n) as Hl.
  rewrite Hu in Hl. destruct n; [done|]. simpl in Hl. lia.
Qed.

Lemma uniqueName_fresh tab n : tab !! uniqueName tab n = None \/ n = "".
Proof.
  unfold uniqueName. case_bool_decide; [by right|]. left.
  apply fresh_string_fresh.
Qed.

Lemma uniqueName_empty tab : uniqueName tab "" = "".
Proof. done. Qed.

(** The symbol table holds exactly the named values of the module. *)
Definition symtab_ok (M : IRModule) : Prop :=
  forall n id,
    symtab M !! n = Some id <->
    n <> "" /\ exists gv, values M !! id = Some gv /\ name gv = n.

Lemma symtab_ok_empty : symtab_ok empty.
Proof.
  intros n id. simpl. rewrite lookup_empty. split; [done|].
  intros (_ & gv & Hgv & _). by rewrite lookup_empty in Hgv.
Qed.

Lemma symtab_ok_no_empty_name M : symtab_ok M -> symtab M !! "" = None.
Proof.
  intros HM. destruct (symtab M !! "") as [id|] eqn:H; [|done].
  apply HM in H as [? _]. done.
Qed.

Lemma symtab_ok_unique M id1 id2 gv1 gv2 :
  symtab_ok M ->
  values M !! id1 = Some gv1 -> values M !! id2 = Some gv2 ->
  name gv1 = name gv2 -> name gv1 <> "" -> id1 = id2.
Proof.
  intros HM H1 H2 Hn Hne.
  assert (symtab M !! name gv1 = Some id1) as E1 by (apply HM; eauto).
  assert (symtab M !! name gv1 = Some id2) as E2
    by (apply HM; split; [done|]; eauto).
  congruence.
Qed.

Lemma tabRemove_lookup n tab n' :
  tabRemove n tab !! n' =
  if bool_decide (n = n' /\ n <> "") then None else tab !! n'.
Proof.
  unfold tabRemove. case_bool_decide as Hn; subst.
  - case_bool_decide as H; [by destruct H|done].
  - case_bool_decide as H.
    + destruct H as [-> _]. apply lookup_delete_eq.
    + rewrite lookup_delete_ne; [done|]. intros ->. by apply H.
Qed.

Lemma tabAdd_lookup n id tab n' :
  tabAdd n id tab !! n' =
  if bool_decide (n = n' /\ n <> "") then Some id else tab !! n'.
Proof.
  unfold tabAdd. case_bool_decide as Hn; subst.
  - case_bool_decide as H; [by destruct H|done].
  - case_bool_decide as H.
    + destruct H as [-> _]. apply lookup_insert_eq.
    + rewrite lookup_insert_ne; [done|]. intros ->. by apply H.
Qed.

Lemma withName_name gv n : name (withName gv n) = n.
Proof. done. Qed.

(** Creating a value. *)
Lemma create_fresh gv M : values M !! (create gv M).1 = None.
Proof. simpl. apply not_elem_of_dom, is_fresh. Qed.

Lemma create_values gv M :
  values (create gv M).2
  = <[(create gv M).1 := withName gv (uniqueName (symtab M) (name gv))]>
      (values M).
Proof. done. Qed.

Lemma create_symtab_ok gv M : symtab_ok M -> symtab_ok (create gv M).2.
Proof.
  intros HM n id. pose proof (create_fresh gv M) as Hfresh.
  simpl in *. set (new := fresh (dom (values M))) in *.
  set (n' := uniqueName (symtab M) (name gv)).
  rewrite tabAdd_lookup. case_bool_decide as Hn.
  - destruct Hn as [<- Hne]. split.
    + intros [= <-]. split; [done|]. eexists.
      by rewrite lookup_insert_eq.
    + intros (_ & gv' & Hgv' & Hname).
      destruct (decide (id = new)) as [->|Hid]; [done|].
      rewrite lookup_insert_ne in Hgv' by done.
      assert (symtab M !! n' = Some id) as Hin by (apply HM; eauto).
      destruct (uniqueName_fresh (symtab M) (name gv)) as [Hf|He].
      * fold n' in Hf. congruence.
      * exfalso. apply Hne. unfold n'. by rewrite He.
  - rewrite (HM _ _). split.
    + intros (Hne & gv' & Hgv' & Hname). split; [done|]. exists gv'.
      split; [|done]. rewrite lookup_insert_ne; [done|].
      intros <-. congruence.
    + intros (Hne & gv' & Hgv' & Hname). split; [done|].
      destruct (decide (new = id)) as [<-|Hid].
      * rewrite lookup_insert_eq in Hgv'. simplify_eq. simpl in Hn.
        exfalso. apply Hn. done.
      * rewrite lookup_insert_ne in Hgv' by done. eauto.
Qed.

(** Renaming a value. *)
Lemma setName_symtab_ok id n M : symtab_ok M -> symtab_ok (setName id n M).
Proof.
  intros HM. unfold setName.
  destruct (values M !! id) as [gv|] eqn:Hid; [|done].
  set (tab := tabRemove (name gv) (symtab M)).
  set (n' := uniqueName tab n).
  intros m id'. simpl. rewrite tabAdd_lookup.
  assert (Htab : forall m id', tab !! m = Some id' <->
            m <> "" /\ id' <> id /\
            exists gv', values M !! id' = Some gv' /\ name gv' = m).
  { intros m0 id0. unfold tab. rewrite tabRemove_lookup.
    case_bool_decide as Hm.
    - destruct Hm as [<- Hne]. split; [done|].
      intros (_ & Hid0 & gv0 & Hgv0 & Hname0). exfalso. apply Hid0.
      apply (symtab_ok_unique M id0 id gv0 gv); try done. congruence.
    - rewrite (HM _ _). split.
      + intros (Hne & gv0 & Hgv0 & Hname0). split; [done|].
        split; [|eauto]. intros ->. simplify_eq. by apply Hm.
      + intros (Hne & _ & Hex). done. }
  case_bool_decide as Hn.
  - destruct Hn as [<- Hne]. split.
    + intros [= <-]. split; [done|]. eexists.
      by rewrite lookup_insert_eq.
    + intros (_ & gv' & Hgv' & Hname).
      destruct (decide (id' = id)) as [->|Hne']; [done|].
      rewrite lookup_insert_ne in Hgv' by done.
      assert (tab !! n' = Some id') as Hin by (apply Htab; eauto).
      destruct (uniqueName_fresh tab n) as [Hf|He].
      * fold n' in Hf. congruence.
      * exfalso. apply Hne. unfold n'. by rewrite He.
  - rewrite (Htab _ _). split.
    + intros (Hne & Hid' & gv' & Hgv' & Hname). split; [done|].
      exists gv'. by rewrite lookup_insert_ne.
    + intros (Hne & gv' & Hgv' & Hname). split; [done|].
      destruct (decide (id = id')) as [<-|Hid'].
      * rewrite lookup_insert_eq in Hgv'. simplify_eq. simpl in Hn.
        exfalso. by apply Hn.
      * rewrite lookup_insert_ne in Hgv' by done. eauto.
Qed.

(** Erasing a value. *)
Lemma eraseFromParent_symtab_ok id M :
  symtab_ok M -> symtab_ok (eraseFromParent id M).
Proof.
  intros HM. unfold eraseFromParent.
  destruct (values M !! id) as [gv|] eqn:Hid; [|done].
  intros m id'. simpl. rewrite tabRemove_lookup.
  case_bool_decide as Hm.
  - destruct Hm as [<- Hne]. split; [done|].
    intros (_ & gv' & Hgv' & Hname).
    destruct (decide (id' = id)) as [->|Hne'].
    + by rewrite lookup_delete_eq in Hgv'.
    + rewrite lookup_delete_ne in Hgv' by done.
      exfalso. apply Hne'.
      apply (symtab_ok_unique M id' id gv' gv); try done. congruence.
  - rewrite (HM _ _). split.
    + intros (Hne & gv' & Hgv' & Hname). split; [done|]. exists gv'.
      split; [|done]. rewrite lookup_delete_ne; [done|].
      intros <-. simplify_eq. by apply Hm.
    + intros (Hne & gv' & Hgv' & Hname). split; [done|].
      destruct (decide (id = id')) as [<-|Hid'].
      * by rewrite lookup_delete_eq in Hgv'.
      * rewrite lookup_delete_ne in Hgv' by done. eauto.
Qed.

(** Changes to the values that keep their names. *)
Lemma fmap_symtab_ok (f : GlobalValue -> GlobalValue) M :
  (forall gv, name (f gv) = name gv) ->
  symtab_ok M -> symtab_ok (mkModule (f <$> values M) (symtab M)).
Proof.
  intros Hf HM n id. simpl. rewrite (HM _ _), lookup_fmap. split.
  - intros (Hne & gv & -> & Hname). split; [done|]. exists (f gv).
    by rewrite Hf.
  - intros (Hne & gv & Hgv & Hname). split; [done|].
    destruct (values M !! id) as [gv0|]; simplify_eq/=.
    exists gv0. by rewrite <- Hf.
Qed.

Lemma alter_symtab_ok (f : GlobalValue -> GlobalValue) id M :
  (forall gv, name (f gv) = name gv) ->
  symtab_ok M -> symtab_ok (mkModule (alter f id (values M)) (symtab M)).
Proof.
  intros Hf HM n id'. simpl. rewrite (HM _ _). split.
  - intros (Hne & gv & Hgv & Hname). split; [done|].
    destruct (decide (id = id')) as [<-|Hid].
    + exists (f gv). rewrite lookup_alter_eq, Hgv. by rewrite Hf.
    + exists gv. by rewrite lookup_alter_ne.
  - intros (Hne & gv & Hgv & Hname). split; [done|].
    destruct (decide (id = id')) as [<-|Hid].
    + rewrite lookup_alter_eq in Hgv.
      destruct (values M !! id) as [gv0|]; simplify_eq/=.
      exists gv0. by rewrite <- Hf.
    + rewrite lookup_alter_ne in Hgv by done. eauto.
Qed.

Lemma replaceAllUsesWith_symtab_ok old new M :
  symtab_ok M -> symtab_ok (replaceAllUsesWith old new M).
Proof. by apply fmap_symtab_ok. Qed.
End llvm_facts.

(** ** Global strings *)

Ltac irgen_unfold :=
  cbv beta iota delta [bind ret get modify getModule createGlobal update deref
                       liftOption assert error fatal].

(** The global that holds the string [data]. *)
Definition stringGlobal (data : string) : llvm.GlobalValue :=
  llvm.mkGlobalValue llvm.GlobalVariableKind ""
    (llvm.ArrayTy Int8Ty (N.of_nat (String.length data) + 1))
    PrivateLinkage DefaultVisibility 0 [] [] true
    (Some (llvm.ConstantDataString data)) true 0 "".

(** C10.  [getAddrOfGlobalString] always returns; a second call with the
    same string, at once or in any later state that still has the cache
    entry, returns the same constant and changes nothing; and when the
    string was not cached, the call adds exactly one global to the
    module — constant, of private linkage, unnamed_addr, initialized with
    the string and its trailing null — and returns the in-bounds address
    of its first byte. *)
Theorem getAddrOfGlobalString_idempotent (data : string) (IGM : IRGenModule) :
  exists address IGM1,
    getAddrOfGlobalString data IGM = Some (address, IGM1)
    /\ getAddrOfGlobalString data IGM1 = Some (address, IGM1)
    /\ GlobalStrings IGM1 !! data = Some address
    /\ (forall IGM2, GlobalStrings IGM2 !! data = Some address ->
          getAddrOfGlobalString data IGM2 = Some (address, IGM2))
    /\ match GlobalStrings IGM !! data with
       | Some entry => address = entry /\ IGM1 = IGM
       | None =>
           exists global,
             llvm.values (TheModule IGM) !! global = None
             /\ llvm.values (TheModule IGM1)
                = <[global := stringGlobal data]> (llvm.values (TheModule IGM))
             /\ size (llvm.values (TheModule IGM1))
                = S (size (llvm.values (TheModule IGM)))
             /\ llvm.symtab (TheModule IGM1) = llvm.symtab (TheModule IGM)
             /\ address
                = llvm.InBoundsGEP (llvm.GlobalRef global)
                    [llvm.ConstantInt (SizeTy IGM) 0;
                     llvm.ConstantInt (SizeTy IGM) 0]
       end.
Proof.
  assert (Hcached : forall address IGM2,
             GlobalStrings IGM2 !! data = Some address ->
             getAddrOfGlobalString data IGM2 = Some (address, IGM2)).
  { intros address IGM2 Hentry. unfold getAddrOfGlobalString. irgen_unfold.
    by rewrite Hentry. }
  destruct (GlobalStrings IGM !! data) as [entry|] eqn:Hentry.
  { exists entry, IGM. split_and!; try done; by apply Hcached. }
  unfold getAddrOfGlobalString at 1. irgen_unfold. rewrite Hentry. simpl.
  set (global := fresh (dom (llvm.values (TheModule IGM)))).
  assert (Hfresh : llvm.values (TheModule IGM) !! global = None)
    by apply not_elem_of_dom, is_fresh.
  eexists _, _. split; [done|].
  split; [apply Hcached; simpl; by rewrite lookup_insert_eq|].
  split; [simpl; by rewrite lookup_insert_eq|].
  split; [apply Hcached|]. simpl. exists global.
  assert (Hvalues :
    alter (setUnnamedAddr true) global
      (<[global := llvm.withName
                     (newGlobalVariable
                        (llvm.ArrayTy Int8Ty
                           (N.of_nat (String.length data) + 1))
                        true PrivateLinkage
                        (Some (llvm.ConstantDataString data)) "")
                     (llvm.uniqueName (llvm.symtab (TheModule IGM)) "")]>
         (llvm.values (TheModule IGM)))
    = <[global := stringGlobal data]> (llvm.values (TheModule IGM))).
  { apply map_eq. intros i. destruct (decide (i = global)) as [->|Hi].
    - by rewrite lookup_alter_eq, !lookup_insert_eq.
    - by rewrite lookup_alter_ne, !lookup_insert_ne. }
  rewrite Hvalues. split_and!; try done.
  by apply map_size_insert_None.
Qed.

(** ** Name collisions *)

Section Collisions.
Import llvm_facts.

(** What [createFunction] and [createVariable] leave behind after a
    collision on the name of [link] with the value [existing]. *)
Definition collisionOutcome (what : string) (k : llvm.ValueKind)
    (link : LinkInfo) (ty : llvm.type)
    (existing : nat) (gv : llvm.GlobalValue)
    (IGM : IRGenModule) (new : nat) (IGM' : IRGenModule) : Prop :=
  let M := TheModule IGM in
  let M' := TheModule IGM' in
  (* one diagnostic, at the null location, naming the symbol *)
  Diags IGM' = Diags IGM ++
    [mkDiagnostic None
       ("program too clever: " +:+ what
        +:+ " collides with existing symbol " +:+ LinkInfo.getName link)]
  (* the existing symbol is renamed with a suffix *)
  /\ (exists suffix,
        llvm.values M' !! existing
        = Some (llvm.withName gv
                  (LinkInfo.getName link +:+ ".unique" +:+ suffix)))
  (* a new symbol is created as requested *)
  /\ new <> existing
  /\ llvm.values M !! new = None
  /\ (exists newgv,
        llvm.values M' !! new = Some newgv
        /\ llvm.kind newgv = k
        /\ llvm.name newgv = LinkInfo.getName link
        /\ llvm.valueType newgv = ty
        /\ llvm.linkage newgv = LinkInfo.getLinkage link
        /\ llvm.visibility newgv = LinkInfo.getVisibility link)
  (* and nothing else changes *)
  /\ (forall other, other <> existing -> other <> new ->
        llvm.values M' !! other = llvm.values M !! other)
  /\ symtab_ok M'
  /\ GlobalVars IGM' = GlobalVars IGM
  /\ GlobalFuncs IGM' = GlobalFuncs IGM.

Lemma lookupKind_Some k M n id :
  symtab_ok M -> llvm.lookupKind k M n = Some id ->
  exists gv, llvm.values M !! id = Some gv /\ llvm.name gv = n
             /\ n <> "" /\ llvm.kind gv = k.
Proof.
  intros HM. unfold llvm.lookupKind, llvm.getNamedValue.
  destruct (llvm.symtab M !! n) as [id'|] eqn:Hn; simpl; [|done].
  apply HM in Hn as (Hne & gv & Hgv & Hname). rewrite Hgv. simpl.
  case_bool_decide; [|done]. intros [= <-]. eauto.
Qed.

Lemma renamed_frees_name M existing gv n :
  symtab_ok M -> llvm.values M !! existing = Some gv ->
  llvm.name gv = n -> n <> "" ->
  llvm.symtab (llvm.setName existing (n +:+ ".unique") M) !! n = None
  /\ exists suffix,
       llvm.values (llvm.setName existing (n +:+ ".unique") M)
       = <[existing := llvm.withName gv (n +:+ ".unique" +:+ suffix)]>
           (llvm.values M).
Proof.
  intros HM Hgv Hname Hne. unfold llvm.setName. rewrite Hgv. simpl.
  set (tab := llvm.tabRemove (llvm.name gv) (llvm.symtab M)).
  assert (Hlen : String.length n
                 < String.length (llvm.uniqueName tab (n +:+ ".unique"))).
  { pose proof (uniqueName_length tab (n +:+ ".unique")) as Hl.
    rewrite string_length_app in Hl. simpl in Hl. lia. }
  split.
  - rewrite tabAdd_lookup. case_bool_decide as Hn.
    { destruct Hn as [Hn _]. rewrite Hn in Hlen. lia. }
    unfold tab. rewrite tabRemove_lookup, Hname.
    by rewrite bool_decide_eq_true_2.
  - unfold llvm.uniqueName. case_bool_decide as He.
    { by destruct n. }
    destruct (fresh_string_prefix tab (n +:+ ".unique")) as [suffix ->].
    exists suffix. by rewrite string_app_assoc.
Qed.

(** When the name of [link] belongs to an existing function
    ([createFunction]) or global variable ([createVariable]): if the
    existing symbol has the requested type it is returned and nothing
    changes, no diagnostic included; otherwise one diagnostic is
    emitted at the null location with the colliding name in its
    message, the existing symbol is renamed to the name followed by
    ".unique" (and what makes that unique), and a new symbol with the
    requested name, type, linkage and visibility is created and
    returned. *)
Theorem name_collision_recovers
    (link : LinkInfo) (ty : llvm.type) (cc : N) (attrs : list string)
    (IGM : IRGenModule) (existing : nat) (gv : llvm.GlobalValue) :
  symtab_ok (TheModule IGM) ->
  llvm.values (TheModule IGM) !! existing = Some gv ->
  (llvm.getFunction (TheModule IGM) (LinkInfo.getName link) = Some existing ->
     (llvm.valueType gv = ty ->
        LinkInfo_createFunction link ty cc attrs IGM = Some (existing, IGM))
     /\ (llvm.valueType gv <> ty ->
         exists fn IGM',
           LinkInfo_createFunction link ty cc attrs IGM = Some (fn, IGM')
           /\ collisionOutcome "function" llvm.FunctionKind link ty
                               existing gv IGM fn IGM'))
  /\ (llvm.getNamedGlobal (TheModule IGM) (LinkInfo.getName link)
      = Some existing ->
        (llvm.valueType gv = ty ->
           LinkInfo_createVariable link ty IGM = Some (existing, IGM))
        /\ (llvm.valueType gv <> ty ->
            exists var IGM',
              LinkInfo_createVariable link ty IGM = Some (var, IGM')
              /\ collisionOutcome "variable" llvm.GlobalVariableKind link ty
                                  existing gv IGM var IGM')).
Proof.
  intros HM Hgv. split; intros Hfound.
  - destruct (lookupKind_Some _ _ _ _ HM Hfound)
      as (gv' & Hgv' & Hname & Hne & Hkind).
    rewrite Hgv in Hgv'. injection Hgv' as <-.
    unfold LinkInfo_createFunction. irgen_unfold. simpl.
    rewrite Hfound. simpl. rewrite Hgv. simpl. split.
    + intros ->. by rewrite bool_decide_eq_true_2.
    + intros Hty. rewrite bool_decide_eq_false_2 by done. simpl.
      destruct (renamed_frees_name _ _ _ _ HM Hgv Hname Hne)
        as (Hfree & suffix & Hvalues).
      set (M1 := llvm.setName existing
                              (LinkInfo.getName link +:+ ".unique")
                              (TheModule IGM)) in *.
      set (fn := fresh (dom (llvm.values M1))).
      assert (Hfresh : llvm.values M1 !! fn = None)
        by apply not_elem_of_dom, is_fresh.
      assert (Hfn : fn <> existing).
      { intros E. rewrite E, Hvalues, lookup_insert_eq in Hfresh. done. }
      assert (Hold : llvm.values (TheModule IGM) !! fn = None).
      { by rewrite Hvalues, lookup_insert_ne in Hfresh. }
      rewrite (uniqueName_free _ _ Hfree).
      assert (Hok : symtab_ok M1) by by apply setName_symtab_ok.
      pose proof (create_symtab_ok
                    (newFunction ty (LinkInfo.getLinkage link)
                                 (LinkInfo.getName link)) M1 Hok) as Hok'.
      unfold llvm.create in Hok'. simpl in Hok'. fold fn in Hok'.
      rewrite (uniqueName_free _ _ Hfree) in Hok'.
      unfold collisionOutcome.
      destruct (bool_decide (attrs = [])); simpl;
        (eexists fn, _; split; [reflexivity|]; simpl;
         split_and!; try done;
         [ exists suffix;
           rewrite ?lookup_alter_ne by done;
           rewrite lookup_insert_ne by done;
           by rewrite Hvalues, lookup_insert_eq
         | eexists; split;
           [ rewrite ?lookup_alter_eq, lookup_insert_eq; simpl; reflexivity
           | done ]
         | intros other Ho1 Ho2;
           rewrite ?lookup_alter_ne by done;
           rewrite lookup_insert_ne by done;
           by rewrite Hvalues, lookup_insert_ne
         | repeat (apply (alter_symtab_ok _ _ (llvm.mkModule _ _));
                   [done|]); done ]).
  - destruct (lookupKind_Some _ _ _ _ HM Hfound)
      as (gv' & Hgv' & Hname & Hne & Hkind).
    rewrite Hgv in Hgv'. injection Hgv' as <-.
    unfold LinkInfo_createVariable. irgen_unfold. simpl.
    rewrite Hfound. simpl. rewrite Hgv. simpl.
    rewrite (bool_decide_eq_true_2 _ Hkind). simpl. split.
    + intros ->. by rewrite bool_decide_eq_true_2.
    + intros Hty. rewrite bool_decide_eq_false_2 by done. simpl.
      destruct (renamed_frees_name _ _ _ _ HM Hgv Hname Hne)
        as (Hfree & suffix & Hvalues).
      set (M1 := llvm.setName existing
                              (LinkInfo.getName link +:+ ".unique")
                              (TheModule IGM)) in *.
      set (var := fresh (dom (llvm.values M1))).
      assert (Hfresh : llvm.values M1 !! var = None)
        by apply not_elem_of_dom, is_fresh.
      assert (Hvar : var <> existing).
      { intros E. rewrite E, Hvalues, lookup_insert_eq in Hfresh. done. }
      assert (Hold : llvm.values (TheModule IGM) !! var = None).
      { by rewrite Hvalues, lookup_insert_ne in Hfresh. }
      rewrite (uniqueName_free _ _ Hfree).
      eexists var, _. split; [reflexivity|].
      assert (Hok : symtab_ok M1) by by apply setName_symtab_ok.
      pose proof (create_symtab_ok
                    (newGlobalVariable ty false (LinkInfo.getLinkage link)
                                       None (LinkInfo.getName link))
                    M1 Hok) as Hok'.
      unfold llvm.create in Hok'. simpl in Hok'. fold var in Hok'.
      rewrite (uniqueName_free _ _ Hfree) in Hok'.
      unfold collisionOutcome. simpl.
      split_and!; try done.
      * exists suffix. rewrite lookup_alter_ne by done.
        rewrite lookup_insert_ne by done.
        by rewrite Hvalues, lookup_insert_eq.
      * eexists. split;
          [rewrite lookup_alter_eq, lookup_insert_eq; simpl; reflexivity|].
        done.
      * intros other Ho1 Ho2. rewrite lookup_alter_ne by done.
        rewrite lookup_insert_ne by done.
        by rewrite Hvalues, lookup_insert_ne.
      * by apply (alter_symtab_ok _ _ (llvm.mkModule _ _)).
Qed.
End Collisions.

(** ** Replacing the uses of a value *)

Module rauw_facts.
Import llvm.

Lemma Constant_nested_ind (P : Constant -> Prop) :
  (forall g, P (GlobalRef g)) ->
  (forall ty v, P (ConstantInt ty v)) ->
  (forall c ty, P c -> P (BitCast c ty)) ->
  (forall c idx, P c -> Forall P idx -> P (InBoundsGEP c idx)) ->
  (forall data, P (ConstantDataString data)) ->
  (forall cs, Forall P cs -> P (ConstantStruct cs)) ->
  (forall cs, Forall P cs -> P (ConstantArray cs)) ->
  forall c, P c.
Proof.
  intros HG HI HB HGEP HD HS HA. fix IH 1. intros c.
  assert (HL : forall l : list Constant, Forall P l).
  { induction l as [|x l IHl]; constructor; [apply IH|done]. }
  destruct c as [g|ty v|c ty|c idx|data|cs|cs].
  - apply HG.
  - apply HI.
  - apply HB, IH.
  - apply HGEP; [apply IH|apply HL].
  - apply HD.
  - apply HS, HL.
  - apply HA, HL.
Qed.

Lemma existsb_map_false {A} (f : A -> bool) (g : A -> A) (l : list A) :
  Forall (fun x => f (g x) = false) l -> existsb f (map g l) = false.
Proof. induction 1 as [|x l Hx _ IH]; simpl; [done|]. by rewrite Hx, IH. Qed.

(** After the replacement nothing refers to the old value, provided the
    replacement does not. *)
Lemma replaceInConstant_gone old new c :
  refersTo old new = false ->
  refersTo old (replaceInConstant old new c) = false.
Proof.
  intros Hnew.
  induction c as [g|ty v|c ty IH|c idx IH IHidx|data|cs IH|cs IH]
    using Constant_nested_ind; simpl; try done.
  - case_bool_decide as Hg; [done|]. simpl.
    apply bool_decide_eq_false. congruence.
  - rewrite IH. simpl. by apply existsb_map_false.
  - by apply existsb_map_false.
  - by apply existsb_map_false.
Qed.

Lemma replaceInValue_gone old new v :
  refersTo old new = false ->
  valueRefersTo old (replaceInValue old new v) = false.
Proof.
  intros Hnew. destruct v; simpl; [|done..].
  by apply replaceInConstant_gone.
Qed.

Lemma replaceInInstruction_gone old new i :
  refersTo old new = false ->
  instructionRefersTo old (replaceInInstruction old new i) = false.
Proof.
  intros Hnew.
  assert (HL : forall vs, existsb (valueRefersTo old)
                            (map (replaceInValue old new) vs) = false).
  { intros vs. apply existsb_map_false, Forall_forall. intros v _.
    by apply replaceInValue_gone. }
  destruct i as [f args|v ty|v p|[v|]|op vs]; simpl;
    rewrite ?replaceInValue_gone, ?HL by done; done.
Qed.

Lemma replaceInGlobal_gone old new gv :
  refersTo old new = false ->
  globalRefersTo old (replaceInGlobal old new gv) = false.
Proof.
  intros Hnew. unfold globalRefersTo. simpl.
  apply orb_false_iff. split.
  - apply existsb_map_false, Forall_forall. intros b _.
    apply existsb_map_false, Forall_forall. intros i _.
    by apply replaceInInstruction_gone.
  - destruct (initializer gv) as [c|]; simpl; [|done].
    by apply replaceInConstant_gone.
Qed.

Lemma getBitCast_strip M g ty :
  stripPointerCasts (getBitCast M (GlobalRef g) ty) = GlobalRef g.
Proof. unfold getBitCast. by case_bool_decide. Qed.

Lemma getBitCast_refersTo M g ty old :
  old <> g -> refersTo old (getBitCast M (GlobalRef g) ty) = false.
Proof.
  intros Hne. unfold getBitCast.
  case_bool_decide; simpl; by apply bool_decide_eq_false.
Qed.
End rauw_facts.

(** ** Symbols under free names *)

Module cache_facts.
Import llvm llvm_facts.

(** Adding a value under a name that is free. *)
Definition addGlobal (id : nat) (gv : GlobalValue) (M : IRModule)
  : IRModule :=
  mkModule (<[id := gv]> (values M)) (tabAdd (name gv) id (symtab M)).

Lemma addGlobal_symtab_ok id gv M :
  symtab_ok M -> values M !! id = None -> symtab M !! name gv = None ->
  symtab_ok (addGlobal id gv M).
Proof.
  intros HM Hid Hfree n id'. simpl. rewrite tabAdd_lookup.
  case_bool_decide as Hn.
  - destruct Hn as [<- Hne]. split.
    + intros [= <-]. split; [done|]. exists gv. by rewrite lookup_insert_eq.
    + intros (_ & gv' & Hgv' & Hname).
      destruct (decide (id' = id)) as [->|Hne']; [done|].
      rewrite lookup_insert_ne in Hgv' by done.
      assert (symtab M !! name gv = Some id') by (apply HM; eauto).
      congruence.
  - rewrite (HM _ _). split.
    + intros (Hne & gv' & Hgv' & Hname). split; [done|]. exists gv'.
      split; [|done]. rewrite lookup_insert_ne; [done|]. congruence.
    + intros (Hne & gv' & Hgv' & Hname). split; [done|].
      destruct (decide (id = id')) as [<-|Hid'].
      * rewrite lookup_insert_eq in Hgv'. simplify_eq.
        exfalso. by apply Hn.
      * rewrite lookup_insert_ne in Hgv' by done. eauto.
Qed.

Lemma lookupKind_None k M n : symtab M !! n = None -> lookupKind k M n = None.
Proof. intros Hn. unfold lookupKind, getNamedValue. by rewrite Hn. Qed.

Definition createdVariable (link : LinkInfo) (ty : type) : GlobalValue :=
  setVisibility (LinkInfo.getVisibility link)
    (newGlobalVariable ty false (LinkInfo.getLinkage link) None
                       (LinkInfo.getName link)).

Definition createdFunction (link : LinkInfo) (ty : type) (cc : N)
    (attrs : list string) : GlobalValue :=
  (if bool_decide (attrs = []) then id else setAttributes attrs)
    (setCallingConv cc
       (setVisibility (LinkInfo.getVisibility link)
          (newFunction ty (LinkInfo.getLinkage link)
                       (LinkInfo.getName link)))).

Lemma createdVariable_name link ty :
  name (createdVariable link ty) = LinkInfo.getName link.
Proof. done. Qed.

Lemma createdFunction_name link ty cc attrs :
  name (createdFunction link ty cc attrs) = LinkInfo.getName link.
Proof. unfold createdFunction. by case_bool_decide. Qed.

(** Without a collision, [createVariable] and [createFunction] add the
    requested symbol at a fresh address. *)
Lemma createVariable_no_collision link ty IGM :
  symtab (TheModule IGM) !! LinkInfo.getName link = None ->
  LinkInfo_createVariable link ty IGM
  = Some (fresh (dom (values (TheModule IGM))),
          withModule (addGlobal (fresh (dom (values (TheModule IGM))))
                                (createdVariable link ty)) IGM).
Proof.
  intros Hfree. unfold LinkInfo_createVariable. irgen_unfold.
  unfold getNamedGlobal. rewrite lookupKind_None by done.
  simpl. rewrite (uniqueName_free _ _ Hfree). f_equal. f_equal.
  unfold withModule, addGlobal. simpl. f_equal. f_equal.
  by rewrite alter_insert_eq.
Qed.

Lemma createFunction_no_collision link ty cc attrs IGM :
  symtab (TheModule IGM) !! LinkInfo.getName link = None ->
  LinkInfo_createFunction link ty cc attrs IGM
  = Some (fresh (dom (values (TheModule IGM))),
          withModule (addGlobal (fresh (dom (values (TheModule IGM))))
                                (createdFunction link ty cc attrs)) IGM).
Proof.
  intros Hfree. unfold LinkInfo_createFunction. irgen_unfold.
  unfold getFunction. rewrite lookupKind_None by done.
  simpl. rewrite (uniqueName_free _ _ Hfree).
  unfold createdFunction, withModule, addGlobal.
  destruct (bool_decide (attrs = [])); simpl; f_equal; f_equal;
    f_equal; rewrite ?createdFunction_name; simpl; f_equal;
    by rewrite !alter_insert_eq.
Qed.
End cache_facts.

Section LinkNames.
Context `{!LinkingHeader}.

(** The linkage of an entity carries its mangled name. *)
Lemma LinkInfo_get_name entity link :
  LinkInfo_get entity = Some link -> LinkInfo.getName link = mangle entity.
Proof.
  unfold LinkInfo_get. intros Hget.
  repeat (case_match; simplify_option_eq); done.
Qed.
End LinkNames.

(** ** What a computation establishes when it returns *)

Module post_facts.
Import llvm.

(** Whenever [m] returns from [IGM], its result and final state
    satisfy [Q]. *)
Definition post {A} (m : IRGen A) (IGM : IRGenModule)
    (Q : A -> IRGenModule -> Prop) : Prop :=
  forall a IGM', m IGM = Some (a, IGM') -> Q a IGM'.

Lemma post_bind {A B} (m : IRGen A) (k : A -> IRGen B) IGM
    (P : A -> IRGenModule -> Prop) (Q : B -> IRGenModule -> Prop) :
  post m IGM P -> (forall a IGM1, P a IGM1 -> post (k a) IGM1 Q) ->
  post (bind m k) IGM Q.
Proof.
  intros Hm Hk b IGM'. unfold bind.
  destruct (m IGM) as [[a IGM1]|] eqn:Hrun; [|done].
  intros Hb. by eapply Hk; [apply Hm|].
Qed.

Lemma post_weaken {A} (m : IRGen A) IGM (P Q : A -> IRGenModule -> Prop) :
  post m IGM P -> (forall a IGM', P a IGM' -> Q a IGM') -> post m IGM Q.
Proof. intros Hm HPQ a IGM' Hrun. by apply HPQ, Hm. Qed.

Lemma post_ret {A} (a : A) IGM (Q : A -> IRGenModule -> Prop) :
  Q a IGM -> post (ret a) IGM Q.
Proof. by intros HQ a' IGM' [= <- <-]. Qed.

Lemma post_fatal {A} IGM (Q : A -> IRGenModule -> Prop) : post fatal IGM Q.
Proof. by intros a IGM'. Qed.

Lemma post_get IGM (Q : IRGenModule -> IRGenModule -> Prop) :
  Q IGM IGM -> post get IGM Q.
Proof. by intros HQ a' IGM' [= <- <-]. Qed.

Lemma post_getModule IGM (Q : IRModule -> IRGenModule -> Prop) :
  Q (TheModule IGM) IGM -> post getModule IGM Q.
Proof. by intros HQ a' IGM' [= <- <-]. Qed.

Lemma post_modify f IGM (Q : unit -> IRGenModule -> Prop) :
  Q tt (f IGM) -> post (modify f) IGM Q.
Proof. by intros HQ a' IGM' [= <- <-]. Qed.

Lemma post_liftOption {A} (o : option A) IGM
    (Q : A -> IRGenModule -> Prop) :
  (forall a, o = Some a -> Q a IGM) -> post (liftOption o) IGM Q.
Proof.
  intros HQ a IGM'. destruct o as [a'|]; [|done].
  intros [= <- <-]. by apply HQ.
Qed.

Lemma post_assert (b : bool) IGM (Q : unit -> IRGenModule -> Prop) :
  (b = true -> Q tt IGM) -> post (assert b) IGM Q.
Proof.
  intros HQ a IGM'. destruct b; [|done]. intros [= <- <-]. by apply HQ.
Qed.

Lemma post_deref g IGM (Q : GlobalValue -> IRGenModule -> Prop) :
  (forall gv, values (TheModule IGM) !! g = Some gv -> Q gv IGM) ->
  post (deref g) IGM Q.
Proof.
  intros HQ gv IGM'. unfold deref, getModule, bind, get, ret, liftOption.
  destruct (values (TheModule IGM) !! g) as [gv'|] eqn:Hg; [|done].
  intros [= <- <-]. by apply HQ.
Qed.

Lemma post_error loc msg IGM (Q : unit -> IRGenModule -> Prop) :
  Q tt (withDiag (mkDiagnostic loc msg) IGM) -> post (error loc msg) IGM Q.
Proof. apply post_modify. Qed.

(** The state after [createGlobal gv]. *)
Definition created (gv : GlobalValue) (IGM : IRGenModule) : IRGenModule :=
  withModule (fun M => (create gv M).2) IGM.

Lemma createGlobal_created gv IGM :
  createGlobal gv IGM
  = Some (fresh (dom (values (TheModule IGM))), created gv IGM).
Proof. done. Qed.

Lemma post_createGlobal gv IGM (Q : nat -> IRGenModule -> Prop) :
  Q (fresh (dom (values (TheModule IGM)))) (created gv IGM) ->
  post (createGlobal gv) IGM Q.
Proof. intros HQ id IGM'. rewrite createGlobal_created. by intros [= <- <-]. Qed.

(** The state after [update g f]. *)
Definition updated (g : nat) (f : GlobalValue -> GlobalValue)
    (IGM : IRGenModule) : IRGenModule :=
  withModule (fun M => mkModule (alter f g (values M)) (symtab M)) IGM.

Lemma post_update g f IGM (Q : unit -> IRGenModule -> Prop) :
  Q tt (updated g f IGM) -> post (update g f) IGM Q.
Proof. apply post_modify. Qed.

Lemma post_forEach {A} (l : list A) (f : A -> IRGen unit)
    (I : IRGenModule -> Prop) IGM :
  (forall x IGM1, x ∈ l -> I IGM1 -> post (f x) IGM1 (fun _ => I)) ->
  I IGM -> post (forEach l f) IGM (fun _ => I).
Proof.
  revert IGM. induction l as [|x l IH]; intros IGM Hf HI; simpl.
  { by apply post_ret. }
  eapply post_bind.
  - apply Hf; [apply list_elem_of_here|done].
  - cbv beta. intros [] IGM1 HI1. apply IH; [|done].
    intros y IGM2 Hy. apply Hf. by apply list_elem_of_further.
Qed.

(** The same, for a computation that goes on. *)
Section Steps.
Context {B : Type} (IGM : IRGenModule) (Q : B -> IRGenModule -> Prop).

Lemma post_ret_bind {A} (a : A) (k : A -> IRGen B) :
  post (k a) IGM Q -> post (bind (ret a) k) IGM Q.
Proof. done. Qed.

Lemma post_get_bind (k : IRGenModule -> IRGen B) :
  post (k IGM) IGM Q -> post (bind get k) IGM Q.
Proof. done. Qed.

Lemma post_getModule_bind (k : IRModule -> IRGen B) :
  post (k (TheModule IGM)) IGM Q -> post (bind getModule k) IGM Q.
Proof. done. Qed.

Lemma post_modify_bind f (k : unit -> IRGen B) :
  post (k tt) (f IGM) Q -> post (bind (modify f) k) IGM Q.
Proof. done. Qed.

Lemma post_update_bind g f (k : unit -> IRGen B) :
  post (k tt) (updated g f IGM) Q -> post (bind (update g f) k) IGM Q.
Proof. done. Qed.

Lemma post_error_bind loc msg (k : unit -> IRGen B) :
  post (k tt) (withDiag (mkDiagnostic loc msg) IGM) Q ->
  post (bind (error loc msg) k) IGM Q.
Proof. done. Qed.

Lemma post_createGlobal_bind gv (k : nat -> IRGen B) :
  post (k (fresh (dom (values (TheModule IGM))))) (created gv IGM) Q ->
  post (bind (createGlobal gv) k) IGM Q.
Proof. done. Qed.

Lemma post_assert_bind (b : bool) (k : unit -> IRGen B) :
  (b = true -> post (k tt) IGM Q) -> post (bind (assert b) k) IGM Q.
Proof. intros Hk. destruct b; [by apply Hk|by intros ? ?]. Qed.

Lemma post_liftOption_bind {A} (o : option A) (k : A -> IRGen B) :
  (forall a, o = Some a -> post (k a) IGM Q) ->
  post (bind (liftOption o) k) IGM Q.
Proof. intros Hk. destruct o as [a|]; [by apply Hk|by intros ? ?]. Qed.

Lemma post_deref_bind g (k : GlobalValue -> IRGen B) :
  (forall gv, values (TheModule IGM) !! g = Some gv -> post (k gv) IGM Q) ->
  post (bind (deref g) k) IGM Q.
Proof.
  intros Hk b IGM'. unfold bind at 1.
  destruct (deref g IGM) as [[gv IGM1]|] eqn:Hrun; [|done].
  revert Hrun. unfold deref, getModule, bind, get, ret, liftOption.
  destruct (values (TheModule IGM) !! g) as [gv'|] eqn:Hg; [|done].
  intros [= <- <-]. by apply Hk.
Qed.

Lemma post_assoc {A A'} (m : IRGen A) (k1 : A -> IRGen A')
    (k2 : A' -> IRGen B) :
  post (bind m (fun a => bind (k1 a) k2)) IGM Q ->
  post (bind (bind m k1) k2) IGM Q.
Proof.
  intros Hk b IGM' Hrun. apply Hk. revert Hrun. unfold bind.
  by destruct (m IGM) as [[a IGM1]|].
Qed.
End Steps.
End post_facts.

Ltac post_step :=
  lazymatch goal with
  | |- post_facts.post (bind (bind _ _) _) _ _ => apply post_facts.post_assoc
  | |- post_facts.post (bind (replaceAllUsesWith _ _) _) _ _ =>
      unfold replaceAllUsesWith; apply post_facts.post_modify_bind
  | |- post_facts.post (bind (ret _) _) _ _ => apply post_facts.post_ret_bind
  | |- post_facts.post (bind get _) _ _ => apply post_facts.post_get_bind
  | |- post_facts.post (bind getModule _) _ _ =>
      apply post_facts.post_getModule_bind
  | |- post_facts.post (bind (update _ _) _) _ _ =>
      apply post_facts.post_update_bind
  | |- post_facts.post (bind (error _ _) _) _ _ =>
      apply post_facts.post_error_bind
  | |- post_facts.post (bind (createGlobal _) _) _ _ =>
      apply post_facts.post_createGlobal_bind
  | |- post_facts.post (bind (modify _) _) _ _ =>
      apply post_facts.post_modify_bind
  | |- post_facts.post (bind (assert _) _) _ _ =>
      apply post_facts.post_assert_bind; intros ?
  | |- post_facts.post (bind (liftOption _) _) _ _ =>
      apply post_facts.post_liftOption_bind; intros ? ?
  | |- post_facts.post (bind (deref _) _) _ _ =>
      apply post_facts.post_deref_bind; intros ? ?
  end.

(** ** What the creation of a symbol returns *)

Module create_facts.
Import llvm llvm_facts post_facts.

(** The values of [M] are in [M'] with their kinds, types and
    alignments (their names may have changed). *)
Definition keepsTypes (M M' : IRModule) : Prop :=
  forall g gv, values M !! g = Some gv ->
    exists gv', values M' !! g = Some gv'
                /\ kind gv' = kind gv /\ valueType gv' = valueType gv
                /\ alignment gv' = alignment gv.

Lemma keepsTypes_refl M : keepsTypes M M.
Proof. intros g gv Hg. by exists gv. Qed.

Lemma keepsTypes_trans M1 M2 M3 :
  keepsTypes M1 M2 -> keepsTypes M2 M3 -> keepsTypes M1 M3.
Proof.
  intros H12 H23 g gv Hg.
  destruct (H12 g gv Hg) as (gv2 & Hg2 & Hk2 & Ht2 & Ha2).
  destruct (H23 g gv2 Hg2) as (gv3 & Hg3 & Hk3 & Ht3 & Ha3).
  exists gv3. split_and!; congruence.
Qed.

Lemma keepsTypes_setName id n M : keepsTypes M (setName id n M).
Proof.
  intros g gv Hg. unfold setName.
  destruct (values M !! id) as [gv0|] eqn:Hid; [|by exists gv].
  simpl. destruct (decide (g = id)) as [->|Hne].
  - rewrite lookup_insert_eq. simplify_eq. by eexists.
  - rewrite lookup_insert_ne by done. by exists gv.
Qed.

Lemma fresh_values M : values M !! fresh (dom (values M)) = None.
Proof. apply not_elem_of_dom, is_fresh. Qed.

Lemma keepsTypes_create gv M : keepsTypes M (create gv M).2.
Proof.
  intros g gv' Hg. exists gv'. split; [|done]. simpl.
  rewrite lookup_insert_ne; [done|]. intros <-.
  by rewrite fresh_values in Hg.
Qed.

Lemma created_lookup gv IGM :
  values (TheModule (created gv IGM)) !! fresh (dom (values (TheModule IGM)))
  = Some (withName gv (uniqueName (symtab (TheModule IGM)) (name gv))).
Proof. simpl. by rewrite lookup_insert_eq. Qed.

(** The state but for the module and the diagnostics. *)
Definition sameCaches (IGM IGM' : IRGenModule) : Prop :=
  GlobalVars IGM' = GlobalVars IGM
  /\ GlobalFuncs IGM' = GlobalFuncs IGM
  /\ GlobalStrings IGM' = GlobalStrings IGM
  /\ LLVMUsed IGM' = LLVMUsed IGM
  /\ ObjCClasses IGM' = ObjCClasses IGM
  /\ ObjCCategories IGM' = ObjCCategories IGM
  /\ ObjCCategoryDecls IGM' = ObjCCategoryDecls IGM
  /\ ObjCInterop IGM' = ObjCInterop IGM
  /\ UseJIT IGM' = UseJIT IGM
  /\ SizeTy IGM' = SizeTy IGM.

Lemma sameCaches_refl IGM : sameCaches IGM IGM.
Proof. by repeat split. Qed.

Lemma sameCaches_trans IGM1 IGM2 IGM3 :
  sameCaches IGM1 IGM2 -> sameCaches IGM2 IGM3 -> sameCaches IGM1 IGM3.
Proof.
  unfold sameCaches. intros H12 H23.
  destruct_and!. split_and!; congruence.
Qed.

(** Whatever [createVariable] returns is a global variable of the
    requested type, in a module that has kept its other values but for
    their names. *)
Lemma createVariable_result link ty IGM :
  post (LinkInfo_createVariable link ty) IGM
    (fun var IGM' =>
       (exists gv, values (TheModule IGM') !! var = Some gv
                   /\ kind gv = GlobalVariableKind /\ valueType gv = ty)
       /\ keepsTypes (TheModule IGM) (TheModule IGM')
       /\ sameCaches IGM IGM').
Proof.
  unfold LinkInfo_createVariable. post_step.
  eapply (post_bind _ _ _
            (fun found IGM1 =>
               keepsTypes (TheModule IGM) (TheModule IGM1)
               /\ sameCaches IGM IGM1
               /\ match found with
                  | Some existing =>
                      exists gv, values (TheModule IGM1) !! existing = Some gv
                                 /\ kind gv = GlobalVariableKind
                                 /\ valueType gv = ty
                  | None => True
                  end)).
  - destruct (getNamedGlobal _ _) as [existing|];
      [|by apply post_ret; split_and!;
          [apply keepsTypes_refl|apply sameCaches_refl|]].
    post_step.
    case_bool_decide as Hkind; [|post_step].
    + post_step. simpl in *. simplify_eq.
      case_bool_decide as Hty.
      * apply post_ret. split_and!;
          [apply keepsTypes_refl|apply sameCaches_refl|by eexists].
      * do 2 post_step. apply post_ret. split_and!; [|done..].
        apply keepsTypes_setName.
    + do 2 post_step. apply post_ret. split_and!; [|done..].
      apply keepsTypes_setName.
  - cbv beta. intros [existing|] IGM1 (HK & HS & Hfound).
    { by apply post_ret. }
    do 2 post_step. apply post_ret. split_and!.
    + eexists. simpl. rewrite lookup_alter_eq, lookup_insert_eq. simpl.
      done.
    + eapply keepsTypes_trans; [exact HK|].
      intros g gv Hg. exists gv. split; [|done]. simpl.
      rewrite lookup_alter_ne, lookup_insert_ne; [done|..];
        intros <-; by rewrite fresh_values in Hg.
    + exact HS.
Qed.

(** Whatever [createFunction] returns is a function of the requested
    type. *)
Lemma createFunction_result link ty cc attrs IGM :
  post (LinkInfo_createFunction link ty cc attrs) IGM
    (fun fn IGM' =>
       (exists gv, values (TheModule IGM') !! fn = Some gv
                   /\ kind gv = FunctionKind /\ valueType gv = ty)
       /\ keepsTypes (TheModule IGM) (TheModule IGM')
       /\ sameCaches IGM IGM').
Proof.
  unfold LinkInfo_createFunction. post_step.
  eapply (post_bind _ _ _
            (fun found IGM1 =>
               keepsTypes (TheModule IGM) (TheModule IGM1)
               /\ sameCaches IGM IGM1
               /\ match found with
                  | Some existing =>
                      exists gv, values (TheModule IGM1) !! existing = Some gv
                                 /\ kind gv = FunctionKind
                                 /\ valueType gv = ty
                  | None => True
                  end)).
  - destruct (getFunction _ _) as [existing|] eqn:Hfound;
      [|by apply post_ret; split_and!;
          [apply keepsTypes_refl|apply sameCaches_refl|]].
    post_step.
    assert (Hkind : kind gv = FunctionKind).
    { unfold getFunction, lookupKind in Hfound.
      destruct (getNamedValue _ _) as [id|]; simpl in Hfound; [|done].
      destruct (values (TheModule IGM) !! id) as [gv'|] eqn:Hid;
        simpl in Hfound; [|done].
      case_bool_decide; [|done]. by simplify_eq. }
    post_step. simpl in *. simplify_eq.
    case_bool_decide as Hty.
    + apply post_ret. split_and!;
        [apply keepsTypes_refl|apply sameCaches_refl|by eexists].
    + do 2 post_step. apply post_ret. split_and!; [|done..].
      apply keepsTypes_setName.
  - cbv beta. intros [existing|] IGM1 (HK & HS & Hfound).
    { by apply post_ret. }
    do 3 post_step.
    case_bool_decide as Hattrs.
    + post_step. apply post_ret. split_and!.
      * eexists. simpl. rewrite !lookup_alter_eq, lookup_insert_eq. simpl.
        done.
      * eapply keepsTypes_trans; [exact HK|].
        intros g gv Hg. exists gv. split; [|done]. simpl.
        rewrite !lookup_alter_ne, lookup_insert_ne; [done|..];
          intros <-; by rewrite fresh_values in Hg.
      * exact HS.
    + post_step. apply post_ret. split_and!.
      * eexists. simpl. rewrite !lookup_alter_eq, lookup_insert_eq. simpl.
        done.
      * eapply keepsTypes_trans; [exact HK|].
        intros g gv Hg. exists gv. split; [|done]. simpl.
        rewrite !lookup_alter_ne, lookup_insert_ne; [done|..];
          intros <-; by rewrite fresh_values in Hg.
      * exact HS.
Qed.
End create_facts.

(** ** Building functions *)

Module builder_facts.
Import llvm llvm_facts.

(** The values of [M] are in [M'] as they were. *)
Definition extends (M M' : IRModule) : Prop :=
  forall g gv, values M !! g = Some gv -> values M' !! g = Some gv.

Lemma extends_refl M : extends M M.
Proof. by intros g gv. Qed.

Lemma extends_trans M1 M2 M3 : extends M1 M2 -> extends M2 M3 -> extends M1 M3.
Proof. intros H12 H23 g gv Hg. by apply H23, H12. Qed.

(** The body of a function after the builder has appended
    instructions to it. *)
Definition appendAll (insts : list Instruction) (blocks : list BasicBlock)
  : list BasicBlock :=
  foldl (fun b i => appendInst i b) blocks insts.

Lemma appendInst_nil i : appendInst i [] = [[i]].
Proof. done. Qed.

Lemma appendInst_single i b : appendInst i [b] = [(b ++ [i])%list].
Proof. done. Qed.

Lemma appendAll_single insts b : appendAll insts [b] = [(b ++ insts)%list].
Proof.
  revert b. induction insts as [|i insts IH]; intros b.
  - simpl. by rewrite app_nil_r.
  - change (appendAll insts (appendInst i [b]) = [(b ++ i :: insts)%list]).
    rewrite appendInst_single, IH. by rewrite <- app_assoc.
Qed.

Lemma appendAll_nil i insts : appendAll (i :: insts) [] = [i :: insts].
Proof.
  change (appendAll insts (appendInst i []) = [i :: insts]).
  by rewrite appendInst_nil, appendAll_single.
Qed.

Lemma appendAll_app insts1 insts2 b :
  appendAll (insts1 ++ insts2) b = appendAll insts2 (appendAll insts1 b).
Proof. apply foldl_app. Qed.

Lemma createGlobal_run gv IGM :
  let id := fresh (dom (values (TheModule IGM))) in
  let gv' := withName gv (uniqueName (symtab (TheModule IGM)) (name gv)) in
  createGlobal gv IGM
  = Some (id, withModule
                (fun _ => mkModule (<[id := gv']> (values (TheModule IGM)))
                            (tabAdd (name gv') id (symtab (TheModule IGM))))
                IGM)
  /\ values (TheModule IGM) !! id = None.
Proof. split; [done|]. apply not_elem_of_dom, is_fresh. Qed.

Lemma emitInst_run fn i IGM gv :
  values (TheModule IGM) !! fn = Some gv ->
  emitInst fn i IGM
  = Some (Result (length (concat (body gv))),
          withModule
            (fun _ => mkModule
                        (<[fn := withBody gv (appendInst i (body gv))]>
                           (values (TheModule IGM)))
                        (symtab (TheModule IGM)))
            IGM).
Proof.
  intros Hfn. unfold emitInst. irgen_unfold. rewrite Hfn. simpl.
  unfold withModule, emit. simpl. do 4 f_equal.
  apply map_eq. intros g. destruct (decide (g = fn)) as [->|Hg].
  - by rewrite lookup_alter_eq, lookup_insert_eq, Hfn.
  - by rewrite lookup_alter_ne, lookup_insert_ne.
Qed.

(** What the synthesis of the entry function reads of the state
    besides the module: the pending lists and the options. *)
Definition steady (IGM IGM' : IRGenModule) : Prop :=
  ObjCClasses IGM' = ObjCClasses IGM
  /\ ObjCCategoryDecls IGM' = ObjCCategoryDecls IGM
  /\ ObjCInterop IGM' = ObjCInterop IGM
  /\ UseJIT IGM' = UseJIT IGM.

Lemma steady_refl IGM : steady IGM IGM.
Proof. done. Qed.

Lemma steady_trans IGM1 IGM2 IGM3 :
  steady IGM1 IGM2 -> steady IGM2 IGM3 -> steady IGM1 IGM3.
Proof.
  intros (H1 & H2 & H3 & H4) (H1' & H2' & H3' & H4').
  split_and!; congruence.
Qed.

Lemma steady_withModule f IGM : steady IGM (withModule f IGM).
Proof. done. Qed.
End builder_facts.

(** ** The program entry function and the initializers *)

Section EntryFunction.
Context `{!LinkingHeader} `{!LoweringHeader} `{!TargetHeader}
        `{!AddressHeader} `{!EmitterHeader} `{!ObjCHeader}.
Import llvm llvm_facts builder_facts post_facts.

Lemma uniqueName_prefix tab n : exists suffix, uniqueName tab n = n +:+ suffix.
Proof.
  unfold uniqueName. case_bool_decide as Hn.
  - exists "". by subst.
  - apply fresh_string_prefix.
Qed.

(** What the synthesis of the entry function may add to the module
    besides the entry function and the two initializers: anything but
    a variable of appending linkage and an external function with a
    body. *)
Definition isAuxiliary (gv : GlobalValue) : Prop :=
  linkage gv <> AppendingLinkage
  /\ (kind gv = FunctionKind -> linkage gv = ExternalLinkage ->
      body gv = []).

(** The value is as it was, but that a global variable may have been
    renamed (by a collision of names, in [createVariable]). *)
Definition kept (gv gv' : GlobalValue) : Prop :=
  gv' = gv \/ (kind gv = GlobalVariableKind /\ gv' = withName gv (name gv')).

(** The values of [M] are kept in [M']. *)
Definition keeps (M M' : IRModule) : Prop :=
  forall g gv, values M !! g = Some gv ->
               exists gv', values M' !! g = Some gv' /\ kept gv gv'.

(** The values of [M] are kept in [M'], and what is new is
    auxiliary. *)
Definition grows (M M' : IRModule) : Prop :=
  keeps M M'
  /\ forall g gv, values M' !! g = Some gv -> values M !! g = None ->
                  isAuxiliary gv.

(** The values of [M] other than [fn] are kept in [M']. *)
Definition frame (fn : nat) (M M' : IRModule) : Prop :=
  forall g gv, g <> fn -> values M !! g = Some gv ->
               exists gv', values M' !! g = Some gv' /\ kept gv gv'.

(** Since [M], the function [fn], which was [gv], has had [insts]
    appended; the other values of [M] are kept, and whatever else is
    new is auxiliary. *)
Definition building (fn : nat) (gv : GlobalValue) (insts : list Instruction)
    (M M' : IRModule) : Prop :=
  kind gv = FunctionKind
  /\ values M' !! fn = Some (withBody gv (appendAll insts (body gv)))
  /\ frame fn M M'
  /\ forall g gv', g <> fn -> values M' !! g = Some gv' ->
                   values M !! g = None -> isAuxiliary gv'.

(** A helper that hands back a constant: when it returns, the pending
    lists and the options are as they were and the module has
    grown. *)
Definition provides {A} (m : IRGen A) : Prop :=
  forall IGM,
    post m IGM (fun _ IGM' =>
                  steady IGM IGM'
                  /\ grows (TheModule IGM) (TheModule IGM')).

(** A computation that emits into the function [fn], and whose
    result satisfies [P]. *)
Definition emitsTo {A} (fn : nat) (m : IRGen A) (P : A -> Prop) : Prop :=
  forall IGM gv,
    values (TheModule IGM) !! fn = Some gv ->
    kind gv = FunctionKind ->
    post m IGM
      (fun a IGM' =>
         steady IGM IGM'
         /\ P a
         /\ exists insts,
              building fn gv insts (TheModule IGM) (TheModule IGM')).

(** A helper that emits into the function [fn]. *)
Definition emits {A} (fn : nat) (m : IRGen A) : Prop :=
  emitsTo fn m (fun _ => True).

(** The helpers of the other files, when they return, leave the
    pending lists and the options as they are, keep the values of the
    module, and add auxiliary values only; those that emit append to
    the function they are given. *)
Record ObjCHelpersBehave : Prop := {
  getObjCMsgSendFn_provides : provides getObjCMsgSendFn;
  emitObjCSelectorRefLoad_emits IGF sel :
    emits IGF (emitObjCSelectorRefLoad IGF sel);
  getClassReplaceMethodFn_provides : provides getClassReplaceMethodFn;
  getClassAddProtocolFn_provides : provides getClassAddProtocolFn;
  getObjCSelRegisterNameFn_provides : provides getObjCSelRegisterNameFn;
  tryEmitConstantHeapMetadataRef_provides T :
    provides (tryEmitConstantHeapMetadataRef T);
  emitObjCMethodDescriptorParts_provides D :
    provides (emitObjCMethodDescriptorParts D);
  emitObjCGetterDescriptorParts_provides D :
    provides (emitObjCGetterDescriptorParts D);
  emitObjCSetterDescriptorParts_provides D :
    provides (emitObjCSetterDescriptorParts D);
  getAddrOfObjCProtocolRecord_provides D :
    provides (getAddrOfObjCProtocolRecord D);
  visitOtherDecl_emits IGF D : emits IGF (visitOtherDecl IGF D)
}.

Lemma withBody_body gv : withBody gv (body gv) = gv.
Proof. by destruct gv. Qed.

Lemma withBody_withBody gv b1 b2 :
  withBody (withBody gv b1) b2 = withBody gv b2.
Proof. done. Qed.

Lemma kept_refl gv : kept gv gv.
Proof. by left. Qed.

Lemma kept_trans gv1 gv2 gv3 : kept gv1 gv2 -> kept gv2 gv3 -> kept gv1 gv3.
Proof.
  intros [->|[Hk1 H12]] [->|[Hk2 H23]]; [by left|by right|by right|].
  right. split; [done|]. rewrite H23, H12. done.
Qed.

Lemma kept_function gv gv' : kept gv gv' -> kind gv = FunctionKind -> gv' = gv.
Proof. intros [->|[Hk _]] Hf; [done|congruence]. Qed.

Lemma kept_isAuxiliary gv gv' : kept gv gv' -> isAuxiliary gv -> isAuxiliary gv'.
Proof.
  intros [->|[Hk ->]] Haux; [done|]. destruct Haux as [Hl Hb].
  split; [done|]. simpl. congruence.
Qed.

Lemma keeps_refl M : keeps M M.
Proof. intros g gv Hg. exists gv. split; [done|apply kept_refl]. Qed.

Lemma keeps_trans M1 M2 M3 : keeps M1 M2 -> keeps M2 M3 -> keeps M1 M3.
Proof.
  intros H12 H23 g gv Hg. destruct (H12 g gv Hg) as (gv2 & Hg2 & Hk2).
  destruct (H23 g gv2 Hg2) as (gv3 & Hg3 & Hk3).
  exists gv3. split; [done|by eapply kept_trans].
Qed.

Lemma extends_keeps M M' : extends M M' -> keeps M M'.
Proof.
  intros He g gv Hg. exists gv. split; [by apply He|apply kept_refl].
Qed.

Lemma frame_refl fn M : frame fn M M.
Proof. intros g gv _ Hg. exists gv. split; [done|apply kept_refl]. Qed.

Lemma frame_trans fn M1 M2 M3 :
  frame fn M1 M2 -> frame fn M2 M3 -> frame fn M1 M3.
Proof.
  intros H12 H23 g gv Hne Hg. destruct (H12 g gv Hne Hg) as (gv2 & Hg2 & Hk2).
  destruct (H23 g gv2 Hne Hg2) as (gv3 & Hg3 & Hk3).
  exists gv3. split; [done|by eapply kept_trans].
Qed.

Lemma keeps_frame fn M M' : keeps M M' -> frame fn M M'.
Proof. intros Hk g gv _ Hg. by apply Hk. Qed.

Lemma grows_refl M : grows M M.
Proof. split; [apply keeps_refl|]. intros g gv Hg Hn. congruence. Qed.

Lemma grows_trans M1 M2 M3 : grows M1 M2 -> grows M2 M3 -> grows M1 M3.
Proof.
  intros [K12 N12] [K23 N23]. split; [by eapply keeps_trans|].
  intros g gv Hg Hn.
  destruct (values M2 !! g) as [gv2|] eqn:Hg2.
  - destruct (K23 g gv2 Hg2) as (gv3 & Hg3 & Hk3).
    assert (gv3 = gv) as -> by congruence.
    eapply kept_isAuxiliary; [done|]. by apply (N12 g).
  - by apply (N23 g).
Qed.

(** A function of [M] is in [M'] as it was. *)
Lemma frame_function fn M M' g gv :
  frame fn M M' -> g <> fn -> values M !! g = Some gv ->
  kind gv = FunctionKind -> values M' !! g = Some gv.
Proof.
  intros HF Hne Hg Hk. destruct (HF g gv Hne Hg) as (gv' & Hg' & Hkept).
  by rewrite (kept_function _ _ Hkept Hk) in Hg'.
Qed.

Lemma keeps_function M M' g gv :
  keeps M M' -> values M !! g = Some gv -> kind gv = FunctionKind ->
  values M' !! g = Some gv.
Proof.
  intros HK Hg Hk. destruct (HK g gv Hg) as (gv' & Hg' & Hkept).
  by rewrite (kept_function _ _ Hkept Hk) in Hg'.
Qed.

Lemma building_refl fn gv M :
  values M !! fn = Some gv -> kind gv = FunctionKind ->
  building fn gv [] M M.
Proof.
  intros Hfn Hk. split_and!.
  - done.
  - simpl. by rewrite withBody_body.
  - apply frame_refl.
  - intros g gv' _ Hg Hn. congruence.
Qed.

(** Appending to [fn] after appending to [fn]. *)
Lemma building_trans fn gv gv1 insts1 insts2 M M1 M2 :
  building fn gv insts1 M M1 ->
  values M1 !! fn = Some gv1 ->
  building fn gv1 insts2 M1 M2 ->
  building fn gv (insts1 ++ insts2) M M2
  /\ frame fn M1 M2.
Proof.
  intros (Hk & Hv1 & F1 & N1) Hgv1 (Hk1 & Hv2 & F2 & N2).
  rewrite Hv1 in Hgv1. injection Hgv1 as <-.
  split; [|done]. split_and!.
  - done.
  - rewrite Hv2. simpl. by rewrite appendAll_app.
  - by eapply frame_trans.
  - intros g gv' Hg Hgv' Hn.
    destruct (values M1 !! g) as [old|] eqn:Hold.
    + destruct (F2 g old Hg Hold) as (gv2 & Hg2 & Hkept).
      assert (gv2 = gv') as -> by congruence.
      eapply kept_isAuxiliary; [done|]. by apply (N1 g).
    + by apply (N2 g).
Qed.

Lemma building_grows fn gv insts M M1 M2 :
  building fn gv insts M M1 -> grows M1 M2 ->
  building fn gv insts M M2 /\ frame fn M1 M2.
Proof.
  intros (Hk & Hv1 & F1 & N1) [He Hn].
  split; [|by apply keeps_frame]. split_and!.
  - done.
  - by apply (keeps_function M1).
  - eapply frame_trans; [done|by apply keeps_frame].
  - intros g gv' Hg Hgv' Hnew.
    destruct (values M1 !! g) as [old|] eqn:Hold.
    + destruct (He g old Hold) as (gv2 & Hg2 & Hkept).
      assert (gv2 = gv') as -> by congruence.
      eapply kept_isAuxiliary; [done|]. by apply (N1 g).
    + by apply (Hn g).
Qed.

(** *** Steps of the builder *)

(** Whenever [m] returns, the pending lists and the options are as
    they were and [Q] holds. *)
Definition yields {A} (m : IRGen A) (IGM : IRGenModule)
    (Q : A -> IRGenModule -> Prop) : Prop :=
  post m IGM (fun a IGM' => steady IGM IGM' /\ Q a IGM').

Lemma yields_bind {A B} (m : IRGen A) (k : A -> IRGen B) IGM
    (P : A -> IRGenModule -> Prop) (Q : B -> IRGenModule -> Prop) :
  yields m IGM P ->
  (forall a IGM', steady IGM IGM' -> P a IGM' -> yields (k a) IGM' Q) ->
  yields (bind m k) IGM Q.
Proof.
  intros Hm Hk. eapply post_bind; [exact Hm|].
  cbv beta. intros a IGM1 [HS1 HP].
  eapply post_weaken; [by apply Hk|].
  cbv beta. intros b IGM2 [HS2 HQ]. split; [by eapply steady_trans|done].
Qed.

Lemma yields_ret {A} (a : A) IGM (Q : A -> IRGenModule -> Prop) :
  Q a IGM -> yields (ret a) IGM Q.
Proof. intros HQ. by apply post_ret. Qed.

Lemma yields_weaken {A} (m : IRGen A) IGM (P Q : A -> IRGenModule -> Prop) :
  yields m IGM P ->
  (forall a IGM', steady IGM IGM' -> P a IGM' -> Q a IGM') ->
  yields m IGM Q.
Proof.
  intros Hm HPQ. eapply post_weaken; [exact Hm|].
  cbv beta. intros a IGM' [HS HP]. eauto.
Qed.

Lemma yields_getModule {A} (k : IRModule -> IRGen A) IGM
    (Q : A -> IRGenModule -> Prop) :
  yields (k (TheModule IGM)) IGM Q -> yields (M <- getModule ;; k M) IGM Q.
Proof. done. Qed.

Lemma yields_get {A} (k : IRGenModule -> IRGen A) IGM
    (Q : A -> IRGenModule -> Prop) :
  yields (k IGM) IGM Q -> yields (x <- get ;; k x) IGM Q.
Proof. done. Qed.

Lemma yields_ret_bind {A B} (a : A) (k : A -> IRGen B) IGM
    (Q : B -> IRGenModule -> Prop) :
  yields (k a) IGM Q -> yields (x <- ret a ;; k x) IGM Q.
Proof. done. Qed.

Lemma yields_liftOption_bind {A B} (o : option A) (k : A -> IRGen B) IGM
    (Q : B -> IRGenModule -> Prop) :
  (forall a, o = Some a -> yields (k a) IGM Q) ->
  yields (x <- liftOption o ;; k x) IGM Q.
Proof. apply post_liftOption_bind. Qed.

Lemma yields_assert_bind {B} (b : bool) (k : IRGen B) IGM
    (Q : B -> IRGenModule -> Prop) :
  (b = true -> yields k IGM Q) -> yields (assert b ;; k) IGM Q.
Proof. apply (post_assert_bind IGM _ b (fun _ => k)). Qed.

Lemma yields_fatal {A} IGM (Q : A -> IRGenModule -> Prop) :
  yields fatal IGM Q.
Proof. apply post_fatal. Qed.

Lemma yields_provides {A} (m : IRGen A) IGM :
  provides m ->
  yields m IGM (fun _ IGM' => grows (TheModule IGM) (TheModule IGM')).
Proof. intros Hm. apply Hm. Qed.

(** One more instruction. *)
Lemma emitInst_step fn gv insts M IGM i :
  building fn gv insts M (TheModule IGM) ->
  yields (emitInst fn i) IGM
    (fun v IGM' =>
       v = Result (length (concat (appendAll insts (body gv))))
       /\ building fn gv (insts ++ [i]) M (TheModule IGM')
       /\ frame fn (TheModule IGM) (TheModule IGM')).
Proof.
  intros (Hk & Hfn & HF & Hnew) v IGM'.
  rewrite (emitInst_run _ _ _ _ Hfn). intros [= <- <-].
  split; [apply steady_withModule|]. simpl.
  split; [done|]. split; [split_and!|]; simpl.
  - done.
  - rewrite lookup_insert_eq, appendAll_app. done.
  - intros g gv' Hg Hgv'. simpl. rewrite lookup_insert_ne by done.
    by apply HF.
  - intros g gv' Hg. rewrite lookup_insert_ne by done. by apply Hnew.
  - intros g gv' Hg Hgv'. simpl. rewrite lookup_insert_ne by done.
    exists gv'. split; [done|apply kept_refl].
Qed.

Lemma emitInst_emits fn i : emits fn (emitInst fn i).
Proof.
  intros IGM gv Hfn Hk.
  eapply yields_weaken; [by apply emitInst_step, building_refl|].
  cbv beta. intros v IGM' _ (_ & HB & _). split; [done|]. by eexists.
Qed.

Lemma createGlobal_yields gv IGM :
  yields (createGlobal gv) IGM
    (fun id IGM' =>
       id = fresh (dom (values (TheModule IGM)))
       /\ values (TheModule IGM) !! id = None
       /\ values (TheModule IGM')
          = <[id := withName gv (uniqueName (symtab (TheModule IGM))
                                            (name gv))]>
              (values (TheModule IGM))).
Proof.
  destruct (createGlobal_run gv IGM) as [Hrun Hfresh].
  intros id IGM'. rewrite Hrun. intros [= <- <-].
  split; [apply steady_withModule|]. by simpl.
Qed.

Lemma grows_added M M' id gv :
  values M !! id = None -> values M' = <[id := gv]> (values M) ->
  isAuxiliary gv -> grows M M'.
Proof.
  intros Hid HM' Haux. split.
  - intros g gv' Hg. exists gv'. split; [|apply kept_refl].
    rewrite HM', lookup_insert_ne; [done|congruence].
  - intros g gv' Hg Hn. rewrite HM' in Hg.
    destruct (decide (g = id)) as [->|Hne].
    + rewrite lookup_insert_eq in Hg. by injection Hg as <-.
    + rewrite lookup_insert_ne in Hg by done. congruence.
Qed.

Lemma getOrInsertFunction_provides n ty :
  provides (getOrInsertFunction n ty).
Proof.
  intros IGM. unfold getOrInsertFunction. apply yields_getModule.
  destruct (getNamedValue _ _).
  - apply yields_ret, grows_refl.
  - eapply yields_bind; [apply createGlobal_yields|].
    cbv beta. intros F IGM' _ (_ & Hfresh & HM'). apply yields_ret.
    eapply grows_added; [done..|]. split; [done|]. done.
Qed.

Lemma provides_step {A} (m : IRGen A) fn gv insts M IGM :
  provides m ->
  building fn gv insts M (TheModule IGM) ->
  yields m IGM
    (fun _ IGM' =>
       building fn gv insts M (TheModule IGM')
       /\ frame fn (TheModule IGM) (TheModule IGM')).
Proof.
  intros Hm HB. eapply yields_weaken; [apply Hm|].
  cbv beta. intros _ IGM' _ Hgrows. by eapply building_grows.
Qed.

Lemma emitsTo_step {A} (m : IRGen A) (P : A -> Prop) fn gv insts M IGM :
  emitsTo fn m P ->
  building fn gv insts M (TheModule IGM) ->
  yields m IGM
    (fun a IGM' =>
       P a
       /\ exists insts',
            building fn gv (insts ++ insts') M (TheModule IGM')
            /\ frame fn (TheModule IGM) (TheModule IGM')).
Proof.
  intros Hm HB. pose proof HB as (Hk & Hfn & _).
  eapply yields_weaken; [by apply Hm|].
  cbv beta. intros a IGM' _ (HP & insts' & HB'). split; [done|].
  exists insts'. by eapply building_trans.
Qed.

Lemma emits_step {A} (m : IRGen A) fn gv insts M IGM :
  emits fn m ->
  building fn gv insts M (TheModule IGM) ->
  yields m IGM
    (fun _ IGM' =>
       exists insts',
         building fn gv (insts ++ insts') M (TheModule IGM')
         /\ frame fn (TheModule IGM) (TheModule IGM')).
Proof.
  intros Hm HB. eapply yields_weaken; [by eapply emitsTo_step|].
  cbv beta. by intros a IGM' _ (_ & Hinsts).
Qed.

(** Computations that emit compose. *)
Lemma emitsTo_ret {A} fn (a : A) (P : A -> Prop) :
  P a -> emitsTo fn (ret a) P.
Proof.
  intros HP IGM gv Hfn Hk. apply yields_ret. split; [done|].
  exists []. by apply building_refl.
Qed.

Lemma emitsTo_bind {A B} fn (m : IRGen A) (k : A -> IRGen B)
    (P : A -> Prop) (Q : B -> Prop) :
  emitsTo fn m P -> (forall a, P a -> emitsTo fn (k a) Q) ->
  emitsTo fn (bind m k) Q.
Proof.
  intros Hm Hk IGM gv Hfn Hkind.
  eapply yields_bind; [by apply Hm|].
  cbv beta. intros a IGM1 _ (HP & insts1 & HB1).
  pose proof HB1 as (_ & Hfn1 & _).
  eapply yields_weaken; [by apply Hk|].
  cbv beta. intros b IGM2 _ (HQ & insts2 & HB2). split; [done|].
  exists (insts1 ++ insts2)%list. by eapply building_trans.
Qed.

Lemma emitsTo_weaken {A} fn (m : IRGen A) (P Q : A -> Prop) :
  emitsTo fn m P -> (forall a, P a -> Q a) -> emitsTo fn m Q.
Proof.
  intros Hm HPQ IGM gv Hfn Hk.
  eapply yields_weaken; [by apply Hm|].
  cbv beta. intros a IGM' _ (HP & HB). eauto.
Qed.

Lemma emits_ret {A} fn (a : A) : emits fn (ret a).
Proof. by apply emitsTo_ret. Qed.

Lemma emits_bind {A B} fn (m : IRGen A) (k : A -> IRGen B) :
  emits fn m -> (forall a, emits fn (k a)) -> emits fn (bind m k).
Proof. intros Hm Hk. eapply emitsTo_bind; [exact Hm|]. intros a _. apply Hk. Qed.

Lemma forEach_emits {A} fn (l : list A) (f : A -> IRGen unit) :
  (forall x, emits fn (f x)) -> emits fn (forEach l f).
Proof.
  intros Hf. induction l as [|x l IH]; simpl; [apply emits_ret|].
  by apply emits_bind.
Qed.

(** A helper that hands back a constant emits nothing. *)
Lemma provides_emits {A} fn (m : IRGen A) : provides m -> emits fn m.
Proof.
  intros Hm IGM gv Hfn Hk.
  eapply yields_weaken;
    [by apply (provides_step m fn gv [] (TheModule IGM)),building_refl|].
  cbv beta. intros _ IGM' _ [HB _]. split; [done|]. by exists [].
Qed.

Lemma emits_fatal {A} fn : emits fn (fatal : IRGen A).
Proof. intros IGM gv _ _. apply yields_fatal. Qed.

Lemma provides_ret {A} (a : A) : provides (ret a).
Proof. intros IGM. apply yields_ret, grows_refl. Qed.

Lemma provides_getModule : provides getModule.
Proof. intros IGM. apply post_getModule. split; [done|apply grows_refl]. Qed.

Lemma provides_liftOption {A} (o : option A) : provides (liftOption o).
Proof.
  intros IGM. apply post_liftOption. intros a _.
  split; [done|apply grows_refl].
Qed.

(** *** The metaclass object, which the visitor of categories asks for *)

Lemma LinkInfo_get_linkage entity link :
  LinkInfo_get entity = Some link ->
  LinkInfo.getLinkage link <> AppendingLinkage.
Proof.
  unfold LinkInfo_get. intros Hget.
  repeat (case_match; simplify_option_eq); done.
Qed.

Lemma getNamedGlobal_variable M n existing gv :
  getNamedGlobal M n = Some existing ->
  values M !! existing = Some gv ->
  kind gv = GlobalVariableKind.
Proof.
  unfold getNamedGlobal, lookupKind, getNamedValue. intros Hn Hgv.
  destruct (symtab M !! n) as [id|]; simpl in Hn; [|done].
  destruct (values M !! id) as [gv'|] eqn:Hid; simpl in Hn; [|done].
  case_bool_decide; [|done]. by simplify_eq.
Qed.

Lemma grows_setName existing n M gv :
  values M !! existing = Some gv -> kind gv = GlobalVariableKind ->
  grows M (setName existing n M).
Proof.
  intros Hgv Hk. unfold setName. rewrite Hgv. split.
  - intros g gv' Hg. simpl.
    destruct (decide (g = existing)) as [->|Hne].
    + rewrite lookup_insert_eq. eexists. split; [done|].
      right. simplify_eq. by split.
    + rewrite lookup_insert_ne by done. exists gv'.
      split; [done|apply kept_refl].
  - intros g gv' Hg Hn. simpl in Hg.
    destruct (decide (g = existing)) as [->|Hne].
    + congruence.
    + rewrite lookup_insert_ne in Hg by done. congruence.
Qed.

Lemma createVariable_provides link ty :
  LinkInfo.getLinkage link <> AppendingLinkage ->
  provides (LinkInfo_createVariable link ty).
Proof.
  intros Hlink IGM. unfold LinkInfo_createVariable. post_step.
  apply (post_bind _ _ _
           (fun _ IGM1 =>
              steady IGM IGM1
              /\ grows (TheModule IGM) (TheModule IGM1))).
  - destruct (getNamedGlobal _ _) as [existing|] eqn:Hfound;
      [|by apply post_ret; split; [|apply grows_refl]].
    post_step.
    match goal with Hgv : values _ !! existing = Some ?gv |- _ =>
      pose proof (getNamedGlobal_variable _ _ _ _ Hfound Hgv) as Hkind
    end.
    apply (post_bind _ _ _ (fun _ IGM1 => IGM1 = IGM)).
    { case_bool_decide; [by apply post_liftOption|by apply post_ret]. }
    cbv beta. intros compatible ? ->.
    destruct compatible; [by apply post_ret; split; [|apply grows_refl]|].
    repeat post_step. apply post_ret. split; [done|].
    by eapply grows_setName.
  - cbv beta. intros found IGM1 [HS1 HG1].
    destruct found as [existing|]; [by apply post_ret|].
    repeat post_step. apply post_ret. split; [exact HS1|].
    eapply grows_trans; [exact HG1|].
    eapply (grows_added _ _ (fresh (dom (values (TheModule IGM1))))).
    + apply not_elem_of_dom, is_fresh.
    + simpl. apply alter_insert_eq.
    + split; [done|]. done.
Qed.

(** A request that defines the variable with its default type. *)
Lemma getAddrOfLLVMVariable_provides entity ty pointerToDefaultType :
  provides (getAddrOfLLVMVariable entity (Some ty) ty pointerToDefaultType).
Proof.
  intros IGM. unfold getAddrOfLLVMVariable. post_step. cbv zeta.
  destruct (GlobalVars IGM !! entity) as [entry|] eqn:Hentry.
  - repeat post_step. rewrite bool_decide_eq_true_2 by done.
    repeat post_step. apply post_ret. split; [done|apply grows_refl].
  - repeat post_step.
    match goal with Hl : LinkInfo_get entity = Some ?link |- _ =>
      pose proof (LinkInfo_get_linkage _ _ Hl) as Hlinkage
    end.
    eapply post_bind; [by apply createVariable_provides|].
    cbv beta. intros var IGM1 [HS1 HG1].
    repeat post_step. apply post_ret. split; [exact HS1|exact HG1].
Qed.

Lemma getAddrOfMetaclassObject_provides decl :
  provides (getAddrOfMetaclassObject decl).
Proof.
  intros IGM. unfold getAddrOfMetaclassObject.
  destruct (Decl.isObjC decl || Decl.hasClangNode decl).
  - unfold getAddrOfObjCMetaclass. repeat post_step.
    apply getAddrOfLLVMVariable_provides.
  - unfold getAddrOfSwiftMetaclassStub. repeat post_step.
    apply getAddrOfLLVMVariable_provides.
Qed.

(** *** The visitor of the members of a category *)

(** The constructor of the visitor emits the registration of the
    protocols into the function it is given and keeps that
    function. *)
Lemma CategoryInitializerVisitor_new_emits IGF ext :
  ObjCHelpersBehave ->
  emitsTo IGF (CategoryInitializerVisitor_new IGF ext)
    (fun v => CategoryInitializerVisitor.IGF v = IGF).
Proof.
  intros helpers.
  unfold CategoryInitializerVisitor_new.
  eapply emitsTo_bind;
    [apply provides_emits, (getClassReplaceMethodFn_provides helpers)|].
  intros class_replaceMethod _.
  eapply emitsTo_bind;
    [apply provides_emits, (getClassAddProtocolFn_provides helpers)|].
  intros class_addProtocol _.
  eapply emitsTo_bind;
    [apply provides_emits,
       (tryEmitConstantHeapMetadataRef_provides helpers)|].
  intros classMetadata0 _.
  eapply emitsTo_bind; [apply provides_emits, provides_liftOption|].
  intros classMetadata _.
  eapply emitsTo_bind; [apply provides_emits, provides_getModule|].
  intros M1 _.
  eapply emitsTo_bind; [apply provides_emits, provides_liftOption|].
  intros origClass _.
  eapply emitsTo_bind;
    [apply provides_emits, getAddrOfMetaclassObject_provides|].
  intros metaclassMetadata _.
  eapply emitsTo_bind; [apply provides_emits, provides_getModule|].
  intros M2 _.
  eapply emitsTo_bind; [|intros _ _; by apply emitsTo_ret].
  apply forEach_emits. intros p.
  destruct (negb (Decl.isObjC p)); [apply emits_ret|].
  apply emits_bind;
    [apply provides_emits, (getAddrOfObjCProtocolRecord_provides helpers)|].
  intros proto.
  apply emits_bind; [apply emitInst_emits|]. intros _. apply emits_ret.
Qed.

Lemma replaceMethod_emits v target parts :
  ObjCHelpersBehave ->
  emits (CategoryInitializerVisitor.IGF v) (replaceMethod v target parts).
Proof.
  intros helpers.
  destruct parts as [[name types] imp]. unfold replaceMethod.
  apply emits_bind;
    [apply provides_emits, (getObjCSelRegisterNameFn_provides helpers)|].
  intros selRegisterName.
  apply emits_bind; [apply emitInst_emits|]. intros sel.
  apply emits_bind; [apply emitInst_emits|]. intros _. apply emits_ret.
Qed.

Lemma replaceAccessors_emits v decl :
  ObjCHelpersBehave ->
  emits (CategoryInitializerVisitor.IGF v) (replaceAccessors v decl).
Proof.
  intros helpers.
  unfold replaceAccessors.
  apply emits_bind;
    [apply provides_emits,
       (emitObjCGetterDescriptorParts_provides helpers)|].
  intros getter.
  apply emits_bind; [by apply replaceMethod_emits|]. intros _.
  destruct (isSettable decl); [|apply emits_ret].
  apply emits_bind;
    [apply provides_emits,
       (emitObjCSetterDescriptorParts_provides helpers)|].
  intros setter. by apply replaceMethod_emits.
Qed.

Lemma visitFuncDecl_emits v method :
  ObjCHelpersBehave ->
  emits (CategoryInitializerVisitor.IGF v) (visitFuncDecl v method).
Proof.
  intros helpers.
  unfold visitFuncDecl.
  destruct (requiresObjCMethodDescriptor method); [|apply emits_ret].
  apply emits_bind;
    [apply provides_emits,
       (emitObjCMethodDescriptorParts_provides helpers)|].
  intros parts. by apply replaceMethod_emits.
Qed.

Lemma visitConstructorDecl_emits v constructor :
  ObjCHelpersBehave ->
  emits (CategoryInitializerVisitor.IGF v)
        (visitConstructorDecl v constructor).
Proof.
  intros helpers.
  unfold visitConstructorDecl.
  destruct (requiresObjCMethodDescriptor constructor); [|apply emits_ret].
  apply emits_bind;
    [apply provides_emits,
       (emitObjCMethodDescriptorParts_provides helpers)|].
  intros parts. by apply replaceMethod_emits.
Qed.

Lemma visitVarDecl_emits v prop :
  ObjCHelpersBehave ->
  emits (CategoryInitializerVisitor.IGF v) (visitVarDecl v prop).
Proof.
  intros helpers.
  unfold visitVarDecl.
  destruct (requiresObjCPropertyDescriptor prop);
    [by apply replaceAccessors_emits|apply emits_ret].
Qed.

Lemma visitSubscriptDecl_emits v subscript :
  ObjCHelpersBehave ->
  emits (CategoryInitializerVisitor.IGF v)
        (visitSubscriptDecl v subscript).
Proof.
  intros helpers.
  unfold visitSubscriptDecl.
  destruct (requiresObjCSubscriptDescriptor subscript);
    [by apply replaceAccessors_emits|apply emits_ret].
Qed.

Lemma visit_emits v member :
  ObjCHelpersBehave ->
  emits (CategoryInitializerVisitor.IGF v) (visit v member).
Proof.
  intros helpers.
  unfold visit.
  destruct (Decl.getKind member);
    first [by apply visitFuncDecl_emits
          |by apply visitConstructorDecl_emits
          |by apply visitVarDecl_emits
          |by apply visitSubscriptDecl_emits
          |apply (visitOtherDecl_emits helpers)].
Qed.

Lemma visitMembers_emits v ext :
  ObjCHelpersBehave ->
  emits (CategoryInitializerVisitor.IGF v) (visitMembers v ext).
Proof.
  intros helpers. apply forEach_emits. intros member. by apply visit_emits.
Qed.

Lemma visitCategory_emits IGF ext :
  ObjCHelpersBehave ->
  emits IGF (v <- CategoryInitializerVisitor_new IGF ext ;;
             visitMembers v ext).
Proof.
  intros helpers.
  eapply emitsTo_bind; [by apply CategoryInitializerVisitor_new_emits|].
  intros v <-. by apply visitMembers_emits.
Qed.

(** *** Running the generator step by step *)

Lemma bind_run {A B} (m : IRGen A) (k : A -> IRGen B) IGM a IGM' :
  m IGM = Some (a, IGM') -> bind m k IGM = k a IGM'.
Proof. intros Hm. unfold bind. by rewrite Hm. Qed.

Lemma bind_inv {A B} (m : IRGen A) (k : A -> IRGen B) IGM b IGM' :
  bind m k IGM = Some (b, IGM') ->
  exists a IGM1, m IGM = Some (a, IGM1) /\ k a IGM1 = Some (b, IGM').
Proof.
  unfold bind. destruct (m IGM) as [[a IGM1]|]; [|done]. by exists a, IGM1.
Qed.

Lemma withModule_id IGM : withModule (fun M => M) IGM = IGM.
Proof. by destruct IGM. Qed.


(** The state after the builder has appended [insts] to the function
    [fn]. *)
Definition emitted (fn : nat) (insts : list Instruction)
    (IGM : IRGenModule) : IRGenModule :=
  withModule (fun M => foldl (fun M i => emit fn i M) M insts) IGM.

Lemma emitted_nil fn IGM : emitted fn [] IGM = IGM.
Proof. apply withModule_id. Qed.

Lemma emitted_app fn insts1 insts2 IGM :
  emitted fn (insts1 ++ insts2) IGM = emitted fn insts2 (emitted fn insts1 IGM).
Proof.
  unfold emitted, withModule. simpl. by rewrite foldl_app.
Qed.

Lemma steady_emitted fn insts IGM : steady IGM (emitted fn insts IGM).
Proof. apply steady_withModule. Qed.

Lemma emitInst_inv fn i IGM v IGM' :
  emitInst fn i IGM = Some (v, IGM') ->
  exists gv,
    values (TheModule IGM) !! fn = Some gv
    /\ v = Result (length (concat (body gv)))
    /\ IGM' = emitted fn [i] IGM.
Proof.
  unfold emitInst, deref. irgen_unfold.
  destruct (values (TheModule IGM) !! fn) as [gv|] eqn:Hfn; [|done].
  simpl. intros [= <- <-]. by exists gv.
Qed.

Lemma symtab_emitted fn insts IGM :
  symtab (TheModule (emitted fn insts IGM)) = symtab (TheModule IGM).
Proof.
  unfold emitted. simpl. generalize (TheModule IGM).
  induction insts as [|i insts IH]; intros M; [done|]. simpl. by rewrite IH.
Qed.

Lemma lookup_emitted_ne fn insts IGM g :
  g <> fn ->
  values (TheModule (emitted fn insts IGM)) !! g
  = values (TheModule IGM) !! g.
Proof.
  intros Hg. unfold emitted. simpl. generalize (TheModule IGM).
  induction insts as [|i insts IH]; intros M; [done|]. simpl.
  rewrite IH. simpl. by rewrite lookup_alter_ne.
Qed.

Lemma lookup_emitted_eq fn insts IGM :
  values (TheModule (emitted fn insts IGM)) !! fn
  = (fun gv => withBody gv (appendAll insts (body gv)))
      <$> values (TheModule IGM) !! fn.
Proof.
  unfold emitted. simpl. generalize (TheModule IGM).
  induction insts as [|i insts IH]; intros M.
  - simpl. destruct (values M !! fn) as [gv|]; [|done].
    simpl. by rewrite withBody_body.
  - simpl. rewrite IH. simpl. rewrite lookup_alter_eq.
    by destruct (values M !! fn) as [gv|].
Qed.

Lemma typeOf_emitted fn insts IGM c :
  typeOf (TheModule (emitted fn insts IGM)) c = typeOf (TheModule IGM) c.
Proof.
  destruct c as [g| | | | | |]; try done. cbn [typeOf].
  destruct (decide (g = fn)) as [->|Hg].
  - rewrite lookup_emitted_eq.
    by destruct (values (TheModule IGM) !! fn) as [gv|].
  - by rewrite lookup_emitted_ne.
Qed.

Lemma getBitCast_emitted fn insts IGM c ty :
  getBitCast (TheModule (emitted fn insts IGM)) c ty
  = getBitCast (TheModule IGM) c ty.
Proof. unfold getBitCast. by rewrite typeOf_emitted. Qed.

Lemma building_emitted fn gv insts more M IGM :
  building fn gv insts M (TheModule IGM) ->
  building fn gv (insts ++ more) M (TheModule (emitted fn more IGM)).
Proof.
  intros (Hk & Hfn & HF & Hnew). split_and!.
  - done.
  - rewrite lookup_emitted_eq, Hfn. simpl. by rewrite appendAll_app.
  - intros g gv' Hg Hgv'. rewrite lookup_emitted_ne by done. by apply HF.
  - intros g gv' Hg. rewrite lookup_emitted_ne by done. by apply Hnew.
Qed.

Lemma frame_emitted fn insts IGM :
  frame fn (TheModule IGM) (TheModule (emitted fn insts IGM)).
Proof.
  intros g gv Hg Hgv. rewrite lookup_emitted_ne by done.
  exists gv. split; [done|apply kept_refl].
Qed.

Lemma appendAll_empty insts :
  insts <> [] -> appendAll insts [] = [insts].
Proof. destruct insts as [|i insts]; [done|]. intros _. apply appendAll_nil. Qed.

(** *** The initializers of the Objective-C runtime *)

(** The function of an initializer as it is created in [M]. *)
Definition initializerFunction (n : string) (M : IRModule) : GlobalValue :=
  withName (newFunction voidFnType InternalLinkage n)
           (uniqueName (symtab M) n).

(** The module [M] has grown into [M'], and [initFn] is new: the
    initializer of name [n], whose body is one block that ends with
    [ret void]. *)
Definition synthesized (n : string) (initFn : nat) (M M' : IRModule)
  : Prop :=
  values M !! initFn = None
  /\ grows M M'
  /\ exists insts,
       values M' !! initFn
       = Some (withBody (initializerFunction n M) [insts ++ [Ret None]]).

Lemma building_created gv IGM :
  kind gv = FunctionKind ->
  let fn := fresh (dom (values (TheModule IGM))) in
  values (TheModule IGM) !! fn = None
  /\ building fn (withName gv (uniqueName (symtab (TheModule IGM)) (name gv)))
       [] (TheModule IGM) (TheModule (created gv IGM)).
Proof.
  intros Hk fn. assert (values (TheModule IGM) !! fn = None) as Hfresh
    by apply not_elem_of_dom, is_fresh.
  split; [done|]. split_and!.
  - done.
  - simpl. by rewrite lookup_insert_eq.
  - intros g gv' Hg Hgv'. simpl. rewrite lookup_insert_ne by done.
    exists gv'. split; [done|apply kept_refl].
  - intros g gv' Hg. simpl. rewrite lookup_insert_ne by done. congruence.
Qed.

Lemma building_synthesized n initFn insts M M' :
  values M !! initFn = None ->
  building initFn (initializerFunction n M) (insts ++ [Ret None]) M M' ->
  synthesized n initFn M M'.
Proof.
  intros Hfresh (Hk & Hfn & HF & Hnew). split; [done|]. split; [split|].
  - intros g gv Hg. apply HF; [congruence|done].
  - intros g gv Hg Hn. destruct (decide (g = initFn)) as [->|Hne].
    + rewrite Hfn in Hg. injection Hg as <-. split; [done|]. done.
    + by eapply Hnew.
  - exists insts. rewrite Hfn. f_equal. f_equal.
    apply appendAll_empty. by destruct insts.
Qed.

(** One [objc_msgSend] of the selector to a class. *)
Definition sendLoad (M : IRModule) (msgSendFn : Constant) (loadSel : Value)
    (nextClass : Constant) : Instruction :=
  Call (Const (getBitCast M msgSendFn
                 (getPointerTo
                    (FunctionTy VoidTy [ObjCPtrTy; ObjCSELTy] false))))
       [Const (getBitCast M nextClass ObjCPtrTy); loadSel].

(** A handle that is not null: the global value it stands for is in
    the module. *)
Definition liveHandle (M : IRModule) (handle : Constant) : Prop :=
  forall g, handle = GlobalRef g -> is_Some (values M !! g).

Lemma derefHandle_inv handle IGM c IGM' :
  derefHandle handle IGM = Some (c, IGM') ->
  c = handle /\ IGM' = IGM /\ liveHandle (TheModule IGM) handle.
Proof.
  unfold derefHandle, liveHandle.
  destruct handle as [g| | | | | |];
    try by (intros [= <- <-]; split_and!; [done..|intros ? ?]).
  unfold deref. irgen_unfold.
  destruct (values (TheModule IGM) !! g) as [gv|] eqn:Hg; [|done].
  simpl. intros [= <- <-]. split_and!; [done..|].
  intros ? [= <-]. by rewrite Hg.
Qed.

Lemma liveHandle_emitted fn insts IGM handle :
  liveHandle (TheModule (emitted fn insts IGM)) handle
  <-> liveHandle (TheModule IGM) handle.
Proof.
  unfold liveHandle. split; intros Hl g ->; specialize (Hl g eq_refl).
  - destruct (decide (g = fn)) as [->|Hg].
    + rewrite lookup_emitted_eq in Hl.
      by destruct (values (TheModule IGM) !! fn).
    + by rewrite lookup_emitted_ne in Hl.
  - destruct (decide (g = fn)) as [->|Hg].
    + rewrite lookup_emitted_eq. by destruct Hl as [gv ->].
    + by rewrite lookup_emitted_ne.
Qed.

(** The loop of [emitObjCClassInitializer]. *)
Lemma sendLoad_loop initFn msgSendFn loadSel IGM classes sent IGM' :
  forEach classes (fun nextClass =>
    nextClass <- derefHandle nextClass ;;
    M <- getModule ;;
    let receiver := getBitCast M nextClass ObjCPtrTy in
    emitInst initFn
      (Call (Const (getBitCast (TheModule IGM) msgSendFn
                      (getPointerTo
                         (FunctionTy VoidTy [ObjCPtrTy; ObjCSELTy] false))))
            [Const receiver; loadSel]) ;;
    ret tt) (emitted initFn sent IGM)
  = Some (tt, IGM') ->
  Forall (liveHandle (TheModule IGM)) classes
  /\ IGM' = emitted initFn
              (sent ++ map (sendLoad (TheModule IGM) msgSendFn loadSel)
                         classes) IGM.
Proof.
  revert sent. induction classes as [|c classes IH]; intros sent; simpl.
  { intros [= <-]. by rewrite app_nil_r. }
  intros Hrun. apply bind_inv in Hrun as ([] & IGM1 & Hstep & Hrest).
  apply bind_inv in Hstep as (c' & IGMa & Hderef & Hstep).
  apply derefHandle_inv in Hderef as (-> & -> & Hlive).
  apply liveHandle_emitted in Hlive.
  apply bind_inv in Hstep as (M & IGMa & [= <- <-] & Hstep).
  apply bind_inv in Hstep as (v & IGMb & Hemit & Hret).
  injection Hret as <-.
  apply emitInst_inv in Hemit as (gv & _ & _ & ->).
  change (foldl _ (TheModule IGM) sent)
    with (TheModule (emitted initFn sent IGM)) in Hrest.
  rewrite getBitCast_emitted, <- emitted_app in Hrest.
  apply IH in Hrest as [Hall ->]. split; [by constructor|].
  by rewrite <- app_assoc.
Qed.

(** [emitObjCClassInitializer], step by step. *)
Lemma emitObjCClassInitializer_inv classes IGM initFn IGM' :
  emitObjCClassInitializer classes IGM = Some (initFn, IGM') ->
  exists loadSel IGM2 msgSendFn IGM3,
    initFn = fresh (dom (values (TheModule IGM)))
    /\ emitObjCSelectorRefLoad initFn "load"
         (created (newFunction voidFnType InternalLinkage
                               "_swift_initObjCClasses") IGM)
       = Some (loadSel, IGM2)
    /\ getObjCMsgSendFn IGM2 = Some (msgSendFn, IGM3)
    /\ Forall (liveHandle (TheModule IGM3)) classes
    /\ is_Some (values (TheModule IGM3) !! initFn)
    /\ IGM' = emitted initFn
                (map (sendLoad (TheModule IGM3) msgSendFn loadSel) classes
                 ++ [Ret None]) IGM3.
Proof.
  unfold emitObjCClassInitializer. intros Hrun.
  apply bind_inv in Hrun as (initFn' & IGM1 & Hcreate & Hrun).
  rewrite createGlobal_created in Hcreate. injection Hcreate as <- <-.
  apply bind_inv in Hrun as (loadSel & IGM2 & Hsel & Hrun).
  apply bind_inv in Hrun as (msgSendFn & IGM3 & Hsend & Hrun).
  apply bind_inv in Hrun as (M & IGMa & [= <- <-] & Hrun).
  apply bind_inv in Hrun as ([] & IGM4 & Hloop & Hrun).
  apply bind_inv in Hrun as (v & IGM5 & Hret & Hrun).
  injection Hrun as <- <-.
  apply emitInst_inv in Hret as (gv & Hfn & _ & ->).
  pose proof (sendLoad_loop (fresh (dom (values (TheModule IGM))))
                msgSendFn loadSel IGM3 classes [] IGM4) as Hinv.
  rewrite emitted_nil in Hinv. apply Hinv in Hloop as [Hall ->].
  exists loadSel, IGM2, msgSendFn, IGM3. split_and!; [done..| |].
  - rewrite lookup_emitted_eq in Hfn.
    by destruct (values (TheModule IGM3) !! _).
  - by rewrite <- emitted_app.
Qed.

(** What [emitObjCClassInitializer] builds: the selector load emits a
    prologue, and then come the sends and the return. *)
Lemma emitObjCClassInitializer_builds classes IGM initFn IGM'
    loadSel IGM2 msgSendFn IGM3 :
  ObjCHelpersBehave ->
  initFn = fresh (dom (values (TheModule IGM))) ->
  emitObjCSelectorRefLoad initFn "load"
    (created (newFunction voidFnType InternalLinkage
                          "_swift_initObjCClasses") IGM)
  = Some (loadSel, IGM2) ->
  getObjCMsgSendFn IGM2 = Some (msgSendFn, IGM3) ->
  IGM' = emitted initFn
           (map (sendLoad (TheModule IGM3) msgSendFn loadSel) classes
            ++ [Ret None]) IGM3 ->
  steady IGM IGM'
  /\ values (TheModule IGM) !! initFn = None
  /\ exists prologue,
       values (TheModule IGM2) !! initFn
       = Some (withBody
                 (initializerFunction "_swift_initObjCClasses"
                                      (TheModule IGM))
                 (appendAll prologue []))
       /\ building initFn
            (initializerFunction "_swift_initObjCClasses" (TheModule IGM))
            (prologue
             ++ map (sendLoad (TheModule IGM3) msgSendFn loadSel) classes
             ++ [Ret None])
            (TheModule IGM) (TheModule IGM').
Proof.
  intros helpers -> Hsel Hsend ->.
  set (gv := newFunction voidFnType InternalLinkage
                         "_swift_initObjCClasses") in *.
  destruct (building_created gv IGM eq_refl) as [Hfresh HB1].
  pose proof HB1 as (_ & Hlive & _).
  destruct (emitObjCSelectorRefLoad_emits helpers _ "load" _ _ Hlive
              eq_refl _ _ Hsel) as (S2 & _ & prologue & HB2).
  destruct (building_trans _ _ _ _ _ _ _ _ HB1 Hlive HB2) as [HB2' _].
  destruct (getObjCMsgSendFn_provides helpers _ _ _ Hsend) as [S3 HG3].
  destruct (building_grows _ _ _ _ _ _ HB2' HG3) as [HB3 _].
  split; [|split; [done|]].
  - eapply steady_trans; [apply steady_withModule|].
    eapply steady_trans; [exact S2|].
    eapply steady_trans; [exact S3|apply steady_emitted].
  - exists prologue. split.
    + by destruct HB2' as (_ & -> & _).
    + simpl in HB3. by apply building_emitted.
Qed.

Lemma emitObjCClassInitializer_synthesized classes IGM initFn IGM' :
  ObjCHelpersBehave ->
  emitObjCClassInitializer classes IGM = Some (initFn, IGM') ->
  steady IGM IGM'
  /\ synthesized "_swift_initObjCClasses" initFn
       (TheModule IGM) (TheModule IGM').
Proof.
  intros helpers Hrun.
  apply emitObjCClassInitializer_inv in Hrun
    as (loadSel & IGM2 & msgSendFn & IGM3 & Hid & Hsel & Hsend & _ & _ & HI).
  destruct (emitObjCClassInitializer_builds _ _ _ _ _ _ _ _
              helpers Hid Hsel Hsend HI)
    as (HS & Hfresh & prologue & _ & HB).
  split; [done|]. rewrite app_assoc in HB.
  by eapply building_synthesized.
Qed.

Lemma emitObjCCategoryInitializer_synthesized categories IGM initFn IGM' :
  ObjCHelpersBehave ->
  emitObjCCategoryInitializer categories IGM = Some (initFn, IGM') ->
  steady IGM IGM'
  /\ synthesized "_swift_initObjCCategories" initFn
       (TheModule IGM) (TheModule IGM').
Proof.
  intros helpers Hrun. unfold emitObjCCategoryInitializer in Hrun.
  set (gv := newFunction voidFnType InternalLinkage
                         "_swift_initObjCCategories") in *.
  apply bind_inv in Hrun as (initFn' & IGM1 & Hcreate & Hrun).
  rewrite createGlobal_created in Hcreate. injection Hcreate as <- <-.
  apply bind_inv in Hrun as ([] & IGM2 & Hloop & Hrun).
  apply bind_inv in Hrun as (v & IGM3 & Hret & Hrun).
  injection Hrun as <- <-.
  destruct (building_created gv IGM eq_refl) as [Hfresh HB1].
  assert (emits (fresh (dom (values (TheModule IGM))))
            (forEach categories
               (fun ext =>
                  v <- CategoryInitializerVisitor_new
                         (fresh (dom (values (TheModule IGM)))) ext ;;
                  visitMembers v ext))) as Hemits.
  { apply forEach_emits. intros ext. by apply visitCategory_emits. }
  destruct (emits_step _ _ _ _ _ _ Hemits HB1 _ _ Hloop)
    as (S2 & insts & HB2 & _).
  apply emitInst_inv in Hret as (gv' & _ & _ & ->).
  pose proof (building_emitted _ _ _ [Ret None] _ _ HB2) as HB3.
  split.
  - eapply steady_trans; [apply steady_withModule|].
    eapply steady_trans; [exact S2|apply steady_emitted].
  - by eapply building_synthesized.
Qed.

(** *** The entry function *)

(** The type of the accessors of the argument variables. *)
Definition accessorType : type := FunctionTy Int8PtrTy [] false.

(** The three instructions that store the argument [param] of [main]:
    the call of the accessor, which is instruction [first] of [main],
    the cast of its result, and the store. *)
Definition storeArgument (accessor : Constant) (first param : nat)
    (ty : type) : list Instruction :=
  [ Call (Const accessor) [];
    BitCastInst (Result first) (PointerTy ty);
    Store (Argument param) (Result (S first)) ].

Definition marshalArguments (argc argv : Constant) : list Instruction :=
  storeArgument argc 0 0 Int32Ty
  ++ storeArgument argv 3 1 (PointerTy (PointerTy Int8Ty)).

Definition callTo (f : nat) : Instruction := Call (Const (GlobalRef f)) [].

(** The setup of the Objective-C runtime is there for immediate-mode
    code only, and each initializer only when its list is not
    empty. *)
Definition classesAnnounced (IGM : IRGenModule) : bool :=
  ObjCInterop IGM && UseJIT IGM && negb (bool_decide (ObjCClasses IGM = [])).

Definition categoriesAnnounced (IGM : IRGenModule) : bool :=
  ObjCInterop IGM && UseJIT IGM
  && negb (bool_decide (ObjCCategoryDecls IGM = [])).

Definition announceClasses (IGM : IRGenModule) (classInit : nat)
  : list Instruction :=
  if classesAnnounced IGM then [callTo classInit] else [].

Definition announceCategories (IGM : IRGenModule) (catInit : nat)
  : list Instruction :=
  if categoriesAnnounced IGM then [callTo catInit] else [].

Definition runtimeSetup (IGM : IRGenModule) (classInit catInit : nat)
  : list Instruction :=
  announceClasses IGM classInit ++ announceCategories IGM catInit.

Definition topLevelCall (topLevelCodeFn : option nat) : list Instruction :=
  match topLevelCodeFn with
  | Some top => [callTo top]
  | None => []
  end.

Definition returnSuccess : Instruction :=
  Ret (Some (Const (ConstantInt Int32Ty 0))).

Definition entryBody (IGM : IRGenModule) (argc argv : Constant)
    (classInit catInit : nat) (topLevelCodeFn : option nat)
  : list Instruction :=
  marshalArguments argc argv
  ++ runtimeSetup IGM classInit catInit
  ++ topLevelCall topLevelCodeFn
  ++ [returnSuccess].

Definition mainFunction : GlobalValue :=
  newFunction (FunctionTy Int32Ty argcArgvTypes false) ExternalLinkage "main".

(** The entry function as it is created in [M]. *)
Definition entryFunction (M : IRModule) : GlobalValue :=
  withName mainFunction (uniqueName (symtab M) "main").

(** The run of [emitMain] from [IGM] to [IGM'], step by step: the
    entry function [mainFn] is created; the two accessors are looked
    up or declared, each followed by the three instructions that
    store its argument; the two initializers are generated where
    they are called for, each followed by its call; and the call of
    the top-level code and the return end the function. *)
Record entryRun (IGM : IRGenModule) (topLevelCodeFn : option nat)
    (mainFn : nat) (argc argv : Constant) (classInit catInit : nat)
    (IGM1 IGM2 IGM3 IGM4 IGM' : IRGenModule) : Prop := {
  entry_created : mainFn = fresh (dom (values (TheModule IGM)));
  entry_argc :
    getOrInsertFunction "_TFSsa6C_ARGCVSs5Int32" accessorType
      (created mainFunction IGM)
    = Some (argc, IGM1);
  entry_argv :
    getOrInsertFunction "_TFSsa6C_ARGVGVSs13UnsafePointerVSs7CString_"
      accessorType (emitted mainFn (storeArgument argc 0 0 Int32Ty) IGM1)
    = Some (argv, IGM2);
  entry_classes :
    let marshalled :=
      emitted mainFn
        (storeArgument argv 3 1 (PointerTy (PointerTy Int8Ty))) IGM2 in
    if classesAnnounced IGM
    then emitObjCClassInitializer (ObjCClasses IGM) marshalled
         = Some (classInit, IGM3)
    else IGM3 = marshalled;
  entry_categories :
    let announced := emitted mainFn (announceClasses IGM classInit) IGM3 in
    if categoriesAnnounced IGM
    then emitObjCCategoryInitializer (ObjCCategoryDecls IGM) announced
         = Some (catInit, IGM4)
    else IGM4 = announced;
  entry_end :
    IGM' = emitted mainFn
             (announceCategories IGM catInit
              ++ topLevelCall topLevelCodeFn ++ [returnSuccess]) IGM4
}.

(** The initializer [initFn] of name [n], generated from the state
    [before] to the state [after], is in [M']: it was new, it is as
    it was generated, and its body is one block that ends with
    [ret void]. *)
Definition initializerIn (n : string) (initFn : nat)
    (before after : IRGenModule) (M' : IRModule) : Prop :=
  values (TheModule before) !! initFn = None
  /\ values M' !! initFn = values (TheModule after) !! initFn
  /\ exists insts,
       values M' !! initFn
       = Some (withBody (initializerFunction n (TheModule before))
                        [insts ++ [Ret None]]).

(** What [emitMain] has built in [M']: the entry function, with its
    body; the values of the module are kept, and what is new besides
    the entry function is auxiliary; an initializer that is called
    is not the entry function, and is in [M'] as it was generated. *)
Record entryBuilt (IGM : IRGenModule) (topLevelCodeFn : option nat)
    (mainFn : nat) (argc argv : Constant) (classInit catInit : nat)
    (IGM2 IGM3 IGM4 : IRGenModule) (M' : IRModule) : Prop := {
  built_fresh : values (TheModule IGM) !! mainFn = None;
  built_main :
    values M' !! mainFn
    = Some (withBody (entryFunction (TheModule IGM))
              [entryBody IGM argc argv classInit catInit topLevelCodeFn]);
  built_frame : frame mainFn (TheModule IGM) M';
  built_new :
    forall g gv, g <> mainFn -> values M' !! g = Some gv ->
                 values (TheModule IGM) !! g = None -> isAuxiliary gv;
  built_classes :
    classesAnnounced IGM = true ->
    classInit <> mainFn
    /\ initializerIn "_swift_initObjCClasses" classInit IGM2 IGM3 M';
  built_categories :
    categoriesAnnounced IGM = true ->
    catInit <> mainFn
    /\ initializerIn "_swift_initObjCCategories" catInit IGM3 IGM4 M'
}.

Lemma pokeArguments_inv mainFn main M IGM IGM' :
  building mainFn main [] M (TheModule IGM) ->
  body main = [] ->
  pokeArguments mainFn varNames 0 IGM = Some (tt, IGM') ->
  exists argc IGM1 argv IGM2,
    getOrInsertFunction "_TFSsa6C_ARGCVSs5Int32" accessorType IGM
    = Some (argc, IGM1)
    /\ getOrInsertFunction "_TFSsa6C_ARGVGVSs13UnsafePointerVSs7CString_"
         accessorType (emitted mainFn (storeArgument argc 0 0 Int32Ty) IGM1)
       = Some (argv, IGM2)
    /\ IGM' = emitted mainFn
                (storeArgument argv 3 1 (PointerTy (PointerTy Int8Ty))) IGM2
    /\ steady IGM IGM'
    /\ building mainFn main (marshalArguments argc argv) M (TheModule IGM').
Proof.
  intros HB Hbody Hrun. unfold varNames in Hrun. cbn [pokeArguments] in Hrun.
  apply bind_inv in Hrun as (ty1 & ? & [= <- <-] & Hrun).
  apply bind_inv in Hrun as (argc & IGM1 & Hargc & Hrun).
  destruct (provides_step _ _ _ _ _ _
              (getOrInsertFunction_provides _ _) HB _ _ Hargc)
    as (S1 & HB1 & _).
  apply bind_inv in Hrun as (p1 & IGMa & Hi1 & Hrun).
  destruct (emitInst_step _ _ _ _ _ _ HB1 _ _ Hi1) as (_ & -> & HBa & _).
  apply emitInst_inv in Hi1 as (? & _ & _ & ->).
  apply bind_inv in Hrun as (p2 & IGMb & Hi2 & Hrun).
  destruct (emitInst_step _ _ _ _ _ _ HBa _ _ Hi2) as (_ & -> & HBb & _).
  apply emitInst_inv in Hi2 as (? & _ & _ & ->).
  apply bind_inv in Hrun as (p3 & IGMc & Hi3 & Hrun).
  destruct (emitInst_step _ _ _ _ _ _ HBb _ _ Hi3) as (_ & _ & HBc & _).
  apply emitInst_inv in Hi3 as (? & _ & _ & ->).
  rewrite <- !emitted_app in Hrun, HBc. rewrite Hbody in *.
  apply bind_inv in Hrun as (ty2 & ? & [= <- <-] & Hrun).
  apply bind_inv in Hrun as (argv & IGM2 & Hargv & Hrun).
  destruct (provides_step _ _ _ _ _ _
              (getOrInsertFunction_provides _ _) HBc _ _ Hargv)
    as (S2 & HB2 & _).
  apply bind_inv in Hrun as (q1 & IGMd & Hj1 & Hrun).
  destruct (emitInst_step _ _ _ _ _ _ HB2 _ _ Hj1) as (_ & -> & HBd & _).
  apply emitInst_inv in Hj1 as (? & _ & _ & ->).
  apply bind_inv in Hrun as (q2 & IGMe & Hj2 & Hrun).
  destruct (emitInst_step _ _ _ _ _ _ HBd _ _ Hj2) as (_ & -> & HBe & _).
  apply emitInst_inv in Hj2 as (? & _ & _ & ->).
  apply bind_inv in Hrun as (q3 & IGMf & Hj3 & Hrun).
  destruct (emitInst_step _ _ _ _ _ _ HBe _ _ Hj3) as (_ & _ & HBf & _).
  apply emitInst_inv in Hj3 as (? & _ & _ & ->).
  rewrite <- !emitted_app in Hrun, HBf. rewrite Hbody in *.
  injection Hrun as <-.
  exists argc, IGM1, argv, IGM2. split_and!; [done..| |].
  - eapply steady_trans; [exact S1|].
    eapply steady_trans; [apply steady_emitted|].
    eapply steady_trans; [exact S2|apply steady_emitted].
  - rewrite <- !app_assoc in HBf. exact HBf.
Qed.

(** An initializer is generated while the function [fn] is being
    built, and its call is appended to [fn]. *)
Lemma initializer_step n initFn fn gv insts M IGM1 IGM2 :
  building fn gv insts M (TheModule IGM1) ->
  synthesized n initFn (TheModule IGM1) (TheModule IGM2) ->
  initFn <> fn
  /\ building fn gv (insts ++ [callTo initFn]) M
       (TheModule (emitted fn [callTo initFn] IGM2))
  /\ initializerIn n initFn IGM1 IGM2
       (TheModule (emitted fn [callTo initFn] IGM2)).
Proof.
  intros HB (Hfresh & HG & insts' & Hinit).
  pose proof HB as (_ & Hfn & _).
  assert (initFn <> fn) as Hne by congruence.
  destruct (building_grows _ _ _ _ _ _ HB HG) as [HB2 _].
  split; [done|]. split; [by apply building_emitted|].
  split; [done|]. rewrite lookup_emitted_ne by done.
  split; [done|]. by exists insts'.
Qed.

Lemma initializerIn_frame n initFn fn before after M' M'' :
  initFn <> fn -> frame fn M' M'' ->
  initializerIn n initFn before after M' ->
  initializerIn n initFn before after M''.
Proof.
  intros Hne HF (Hfresh & Hsame & insts & Hinit).
  assert (values M'' !! initFn = values M' !! initFn) as Heq.
  { rewrite Hinit. by eapply frame_function. }
  split; [done|]. rewrite Heq. split; [done|]. by exists insts.
Qed.

Lemma initializerIn_before n initFn fn insts IGM1 after M' :
  initFn <> fn ->
  initializerIn n initFn (emitted fn insts IGM1) after M' ->
  initializerIn n initFn IGM1 after M'.
Proof.
  intros Hne (Hfresh & Hsame & insts' & Hinit).
  rewrite lookup_emitted_ne in Hfresh by done.
  unfold initializerFunction in Hinit. rewrite symtab_emitted in Hinit.
  split; [done|]. split; [done|]. by exists insts'.
Qed.

(** [emitMain], step by step, and what it builds. *)
Lemma emitMain_entry topLevelCodeFn IGM IGM' :
  ObjCHelpersBehave ->
  emitMain topLevelCodeFn IGM = Some (tt, IGM') ->
  exists argc argv classInit catInit IGM1 IGM2 IGM3 IGM4,
    entryRun IGM topLevelCodeFn (fresh (dom (values (TheModule IGM))))
      argc argv classInit catInit IGM1 IGM2 IGM3 IGM4 IGM'
    /\ steady IGM IGM'
    /\ entryBuilt IGM topLevelCodeFn (fresh (dom (values (TheModule IGM))))
         argc argv classInit catInit IGM2 IGM3 IGM4 (TheModule IGM').
Proof.
  intros helpers Hrun. unfold emitMain in Hrun.
  apply bind_inv in Hrun as (mainFn' & IGMa & Hcreate & Hrun).
  rewrite createGlobal_created in Hcreate. injection Hcreate as <- <-.
  destruct (building_created mainFunction IGM eq_refl) as [Hfresh HB0].
  change (withName _ _) with (entryFunction (TheModule IGM)) in HB0.
  change (newFunction _ ExternalLinkage "main") with mainFunction in Hrun.
  set (mainFn := fresh (dom (values (TheModule IGM)))) in *.
  set (M := TheModule IGM) in *. set (main := entryFunction M) in *.
  apply bind_inv in Hrun as ([] & IGMb & Hpoke & Hrun).
  destruct (pokeArguments_inv _ _ _ _ _ HB0 eq_refl Hpoke)
    as (argc & IGM1 & argv & IGM2 & Hargc & Hargv & -> & Sb & HBb).
  set (marshalled := emitted mainFn _ IGM2) in *.
  assert (steady IGM marshalled) as S2
    by (eapply steady_trans; [apply steady_withModule|exact Sb]).
  clear Sb. pose proof S2 as (Hcl2 & Hcat2 & Hi2 & Hj2).
  apply bind_inv in Hrun as (? & ? & [= <- <-] & Hrun).
  apply bind_inv in Hrun as ([] & IGMs & Hsetup & Hrun).
  (* the setup of the Objective-C runtime *)
  assert (exists classInit catInit IGM3 IGM4,
            (if classesAnnounced IGM
             then emitObjCClassInitializer (ObjCClasses IGM) marshalled
                  = Some (classInit, IGM3)
             else IGM3 = marshalled)
            /\ (if categoriesAnnounced IGM
                then emitObjCCategoryInitializer (ObjCCategoryDecls IGM)
                       (emitted mainFn (announceClasses IGM classInit) IGM3)
                     = Some (catInit, IGM4)
                else IGM4
                     = emitted mainFn (announceClasses IGM classInit) IGM3)
            /\ IGMs = emitted mainFn (announceCategories IGM catInit) IGM4
            /\ steady IGM IGMs
            /\ building mainFn main
                 (marshalArguments argc argv
                  ++ runtimeSetup IGM classInit catInit) M (TheModule IGMs)
            /\ (classesAnnounced IGM = true ->
                classInit <> mainFn
                /\ initializerIn "_swift_initObjCClasses" classInit
                     IGM2 IGM3 (TheModule IGMs))
            /\ (categoriesAnnounced IGM = true ->
                catInit <> mainFn
                /\ initializerIn "_swift_initObjCCategories" catInit
                     IGM3 IGM4 (TheModule IGMs)))
    as (classInit & catInit & IGM3 & IGM4 & Hclasses & Hcats & -> & Ss
        & HBs & Hcl & Hca).
  { unfold runtimeSetup, announceClasses, announceCategories,
      classesAnnounced, categoriesAnnounced.
    rewrite Hi2, Hj2 in Hsetup.
    destruct (ObjCInterop IGM && UseJIT IGM); cycle 1.
    { injection Hsetup as <-. exists 0, 0, marshalled, marshalled.
      cbn [andb]. rewrite !emitted_nil, !app_nil_r. by split_and!. }
    cbn [andb].
    apply bind_inv in Hsetup as ([] & IGMc & Hclasses & Hsetup).
    (* the classes *)
    assert (exists classInit IGM3,
              (if negb (bool_decide (ObjCClasses IGM = []))
               then emitObjCClassInitializer (ObjCClasses IGM) marshalled
                    = Some (classInit, IGM3)
               else IGM3 = marshalled)
              /\ IGMc
                 = emitted mainFn
                     (if negb (bool_decide (ObjCClasses IGM = []))
                      then [callTo classInit] else []) IGM3
              /\ steady IGM IGMc
              /\ building mainFn main
                   (marshalArguments argc argv
                    ++ (if negb (bool_decide (ObjCClasses IGM = []))
                        then [callTo classInit] else []))
                   M (TheModule IGMc)
              /\ (negb (bool_decide (ObjCClasses IGM = [])) = true ->
                  classInit <> mainFn
                  /\ initializerIn "_swift_initObjCClasses" classInit
                       IGM2 IGM3 (TheModule IGMc)))
      as (classInit & IGM3 & Hgen1 & -> & Sc & HBc & Hcl).
    { rewrite Hcl2 in Hclasses.
      destruct (negb (bool_decide (ObjCClasses IGM = []))); cycle 1.
      { injection Hclasses as <-. exists 0, marshalled.
        rewrite emitted_nil, app_nil_r. by split_and!. }
      apply bind_inv in Hclasses as (classInit & IGM3 & Hgen & Hclasses).
      apply bind_inv in Hclasses as (v & IGMd & Hcall & Hclasses).
      injection Hclasses as <-.
      apply emitInst_inv in Hcall as (? & _ & _ & ->).
      destruct (emitObjCClassInitializer_synthesized _ _ _ _ helpers Hgen)
        as [S3 Hsyn].
      destruct (initializer_step _ _ _ _ _ _ _ _ HBb Hsyn)
        as (Hne & HB3 & Hin).
      exists classInit, IGM3. split_and!; [done..| | |].
      - eapply steady_trans; [exact S2|].
        eapply steady_trans; [exact S3|apply steady_emitted].
      - exact HB3.
      - intros _. split; [done|]. by eapply initializerIn_before. }
    pose proof Sc as (_ & Hcat3 & _).
    apply bind_inv in Hsetup as (? & ? & [= <- <-] & Hsetup).
    rewrite Hcat3 in Hsetup.
    assert (bool_decide (length (ObjCCategoryDecls IGM) = 0)
            = bool_decide (ObjCCategoryDecls IGM = [])) as Hempty
      by (by destruct (ObjCCategoryDecls IGM)).
    rewrite Hempty in Hsetup.
    destruct (negb (bool_decide (ObjCCategoryDecls IGM = []))); cycle 1.
    { injection Hsetup as <-.
      exists classInit, 0, IGM3,
        (emitted mainFn
           (if negb (bool_decide (ObjCClasses IGM = []))
            then [callTo classInit] else []) IGM3).
      rewrite emitted_nil, app_nil_r. by split_and!. }
    apply bind_inv in Hsetup as (catInit & IGM4 & Hgen & Hsetup).
    apply bind_inv in Hsetup as (v & IGMd & Hcall & Hsetup).
    injection Hsetup as <-.
    apply emitInst_inv in Hcall as (? & _ & _ & ->).
    destruct (emitObjCCategoryInitializer_synthesized _ _ _ _ helpers Hgen)
      as [S4 Hsyn].
    destruct (initializer_step _ _ _ _ _ _ _ _ HBc Hsyn)
      as (Hne & HB4 & Hin).
    exists classInit, catInit, IGM3, IGM4. split_and!; [done..| | | |].
    - eapply steady_trans; [exact Sc|].
      eapply steady_trans; [exact S4|apply steady_emitted].
    - by rewrite <- app_assoc in HB4.
    - intros Hc. destruct (Hcl Hc) as [Hne' Hin']. split; [done|].
      eapply initializerIn_frame; [done| |exact Hin'].
      eapply frame_trans; [|apply frame_emitted].
      apply keeps_frame. by destruct Hsyn as (_ & [HK _] & _).
    - intros _. split; [done|]. by eapply initializerIn_before. }
  (* the call of the top-level code and the return *)
  assert (IGM' = emitted mainFn
                   (topLevelCall topLevelCodeFn ++ [returnSuccess])
                   (emitted mainFn (announceCategories IGM catInit) IGM4))
    as ->.
  { apply bind_inv in Hrun as ([] & IGMt & Htop & Hrun).
    apply bind_inv in Hrun as (v & IGMr & Hret & Hrun).
    injection Hrun as <-.
    apply emitInst_inv in Hret as (? & _ & _ & ->).
    rewrite emitted_app. destruct topLevelCodeFn as [top|]; simpl in Htop.
    - apply bind_inv in Htop as (v' & IGMu & Hcall & Htop).
      injection Htop as <-.
      by apply emitInst_inv in Hcall as (? & _ & _ & ->).
    - injection Htop as <-. by rewrite emitted_nil. }
  exists argc, argv, classInit, catInit, IGM1, IGM2, IGM3, IGM4.
  pose proof (building_emitted _ _ _
                (topLevelCall topLevelCodeFn ++ [returnSuccess]) _ _ HBs)
    as HB'.
  rewrite <- !app_assoc in HB'.
  split; [|split].
  - split; [done..|]. by rewrite <- emitted_app.
  - eapply steady_trans; [exact Ss|apply steady_emitted].
  - destruct HB' as (_ & Hmain & HF & Hnew). split; [done| |done|done| |].
    + rewrite Hmain. unfold entryBody. do 2 f_equal.
      apply appendAll_empty. by destruct argc.
    + intros Hc. destruct (Hcl Hc) as [Hne Hin]. split; [done|].
      eapply initializerIn_frame; [done|apply frame_emitted|exact Hin].
    + intros Hc. destruct (Hca Hc) as [Hne Hin]. split; [done|].
      eapply initializerIn_frame; [done|apply frame_emitted|exact Hin].
Qed.

(** When no initializer is called for, [emitMain] returns: it calls no
    helper of another file. *)
Lemma emitInst_returns fn i IGM :
  is_Some (values (TheModule IGM) !! fn) ->
  exists v, emitInst fn i IGM = Some (v, emitted fn [i] IGM).
Proof.
  intros [gv Hfn]. unfold emitInst, deref. irgen_unfold. rewrite Hfn.
  by eexists.
Qed.

Lemma is_Some_emitted fn insts IGM g :
  is_Some (values (TheModule IGM) !! g) ->
  is_Some (values (TheModule (emitted fn insts IGM)) !! g).
Proof.
  intros [gv Hg]. destruct (decide (g = fn)) as [->|Hne].
  - rewrite lookup_emitted_eq, Hg. by eexists.
  - rewrite lookup_emitted_ne, Hg by done. by eexists.
Qed.

Lemma getOrInsertFunction_returns n ty IGM :
  exists c IGM',
    getOrInsertFunction n ty IGM = Some (c, IGM')
    /\ forall g, is_Some (values (TheModule IGM) !! g) ->
                 is_Some (values (TheModule IGM') !! g).
Proof.
  unfold getOrInsertFunction. irgen_unfold.
  destruct (getNamedValue (TheModule IGM) n) as [F|]; [by eexists _, _|].
  eexists _, _. split; [done|]. intros g [gv Hg]. simpl.
  rewrite lookup_insert_ne; [by eexists|].
  intros <-. apply elem_of_dom_2 in Hg. by apply is_fresh in Hg.
Qed.

Lemma pokeArguments_returns mainFn IGM :
  is_Some (values (TheModule IGM) !! mainFn) ->
  exists IGM',
    pokeArguments mainFn varNames 0 IGM = Some (tt, IGM')
    /\ is_Some (values (TheModule IGM') !! mainFn).
Proof.
  intros Hmain. unfold varNames. cbn [pokeArguments].
  rewrite (bind_run _ _ _ Int32Ty IGM eq_refl).
  destruct (getOrInsertFunction_returns "_TFSsa6C_ARGCVSs5Int32"
              (FunctionTy Int8PtrTy [] false) IGM)
    as (argc & IGM1 & Hargc & Hkeep1).
  rewrite (bind_run _ _ _ _ _ Hargc). apply Hkeep1 in Hmain.
  destruct (emitInst_returns mainFn (Call (Const argc) []) _ Hmain)
    as [v1 Hi1].
  rewrite (bind_run _ _ _ _ _ Hi1).
  apply (is_Some_emitted mainFn [Call (Const argc) []]) in Hmain.
  destruct (emitInst_returns mainFn
              (BitCastInst v1 (getPointerTo Int32Ty)) _ Hmain) as [v2 Hi2].
  rewrite (bind_run _ _ _ _ _ Hi2).
  apply (is_Some_emitted mainFn [BitCastInst v1 (getPointerTo Int32Ty)])
    in Hmain.
  destruct (emitInst_returns mainFn (Store (Argument 0) v2) _ Hmain)
    as [v3 Hi3].
  rewrite (bind_run _ _ _ _ _ Hi3).
  apply (is_Some_emitted mainFn [Store (Argument 0) v2]) in Hmain.
  match goal with |- context [bind (liftOption ?o) _ ?st] =>
    rewrite (bind_run (liftOption o) _ st (PointerTy (PointerTy Int8Ty)) st
               eq_refl)
  end.
  match goal with |- context [bind (getOrInsertFunction ?n ?ty) _ ?st] =>
    destruct (getOrInsertFunction_returns n ty st)
      as (argv & IGM2 & Hargv & Hkeep2)
  end.
  rewrite (bind_run _ _ _ _ _ Hargv). apply Hkeep2 in Hmain.
  destruct (emitInst_returns mainFn (Call (Const argv) []) _ Hmain)
    as [w1 Hj1].
  rewrite (bind_run _ _ _ _ _ Hj1).
  apply (is_Some_emitted mainFn [Call (Const argv) []]) in Hmain.
  match goal with |- context [bind (emitInst mainFn ?i) _ ?st] =>
    destruct (emitInst_returns mainFn i st Hmain) as [w2 Hj2];
    rewrite (bind_run _ _ _ _ _ Hj2);
    apply (is_Some_emitted mainFn [i]) in Hmain
  end.
  match goal with |- context [bind (emitInst mainFn ?i) _ ?st] =>
    destruct (emitInst_returns mainFn i st Hmain) as [w3 Hj3];
    rewrite (bind_run _ _ _ _ _ Hj3);
    apply (is_Some_emitted mainFn [i]) in Hmain
  end.
  by eexists.
Qed.

Lemma emitMain_returns topLevelCodeFn IGM :
  classesAnnounced IGM = false -> categoriesAnnounced IGM = false ->
  is_Some (emitMain topLevelCodeFn IGM).
Proof.
  intros Hclasses Hcats. unfold emitMain.
  rewrite (bind_run _ _ _ _ _ (createGlobal_created _ _)).
  set (mainFn := fresh (dom (values (TheModule IGM)))).
  assert (is_Some (values (TheModule (created mainFunction IGM)) !! mainFn))
    as Hmain by (simpl; rewrite lookup_insert_eq; by eexists).
  destruct (pokeArguments_returns _ _ Hmain) as (IGM1 & Hpoke & Hmain1).
  assert (steady IGM IGM1) as (Hcl & Hca & Hi & Hj).
  { destruct (building_created mainFunction IGM eq_refl) as [_ HB].
    destruct (pokeArguments_inv _ _ _ _ _ HB eq_refl Hpoke)
      as (? & ? & ? & ? & _ & _ & _ & S1 & _).
    eapply steady_trans; [apply steady_withModule|exact S1]. }
  change (newFunction _ ExternalLinkage "main") with mainFunction.
  rewrite (bind_run _ _ _ _ _ Hpoke).
  rewrite (bind_run get _ IGM1 IGM1 IGM1 eq_refl).
  match goal with |- context [bind ?setup _ IGM1] =>
    assert (setup IGM1 = Some (tt, IGM1)) as Hsetup
  end.
  { unfold classesAnnounced, categoriesAnnounced in Hclasses, Hcats.
    rewrite Hi, Hj. destruct (ObjCInterop IGM && UseJIT IGM); [|done].
    cbn [andb] in Hclasses, Hcats.
    apply negb_false_iff, bool_decide_eq_true in Hclasses, Hcats.
    rewrite Hcl, Hclasses. cbn [negb bool_decide decide_rel].
    rewrite (bind_run (ret tt) _ IGM1 tt IGM1 eq_refl).
    rewrite (bind_run get _ IGM1 IGM1 IGM1 eq_refl).
    by rewrite Hca, Hcats. }
  rewrite (bind_run _ _ _ _ _ Hsetup).
  destruct topLevelCodeFn as [top|].
  - destruct (emitInst_returns mainFn (Call (Const (GlobalRef top)) [])
                _ Hmain1) as [v1 Hi1].
    rewrite (bind_run _ _ _ tt _ (bind_run _ _ _ _ _ Hi1)).
    apply (is_Some_emitted mainFn [Call (Const (GlobalRef top)) []])
      in Hmain1.
    destruct (emitInst_returns mainFn
                (Ret (Some (Const (ConstantInt Int32Ty 0)))) _ Hmain1)
      as [v2 Hi2].
    rewrite (bind_run _ _ _ _ _ Hi2). by eexists.
  - rewrite (bind_run (ret tt) _ IGM1 tt IGM1 eq_refl).
    destruct (emitInst_returns mainFn
                (Ret (Some (Const (ConstantInt Int32Ty 0)))) _ Hmain1)
      as [v2 Hi2].
    rewrite (bind_run _ _ _ _ _ Hi2). by eexists.
Qed.

(** *** The top-level code of a source file *)

Lemma getModule_run IGM : getModule IGM = Some (TheModule IGM, IGM).
Proof. done. Qed.




(** The declarations are emitted only when the start is within the
    file. *)
Lemma emitGlobalDecls_bound SF StartElem IGM0 IGM :
  emitGlobalDecls SF StartElem IGM0 = Some (tt, IGM) ->
  StartElem <= length (SourceFile.Decls SF)
  /\ forEach (drop StartElem (SourceFile.Decls SF)) emitGlobalDecl IGM0
     = Some (tt, IGM).
Proof. unfold emitGlobalDecls. by case_bool_decide. Qed.

(** In an entry-point unit, what follows the declarations is
    [emitMain]. *)
Lemma emitSourceFile_entry SF StartElem IGM0 IGM :
  emitGlobalDecls SF StartElem IGM0 = Some (tt, IGM) ->
  isEntryPointKind SF = true ->
  emitSourceFile SF StartElem IGM0
  = emitMain (getFunction (TheModule IGM) "top_level_code") IGM.
Proof.
  intros Hloop Hentry. unfold emitSourceFile.
  rewrite (bind_run _ _ _ _ _ Hloop).
  rewrite (bind_run _ _ _ _ _ (getModule_run IGM)). cbv beta zeta.
  replace (SourceFile.isScriptMode SF) with true by done.
  unfold bind at 1.
  destruct (emitMain _ IGM) as [[[] IGM']|]; [|done].
  destruct (getFunction _ _) as [top|]; [|done].
  rewrite Hentry. by destruct topLevelFunctionType.
Qed.

(** *** Initializers of library units *)











(** *** Entry-point units *)

(** From [IGM], the state after the declarations of the unit,
    [emitMain] has run to [IGM'], step by step, and has built the
    entry function. *)
Definition entryPointEmitted (IGM : IRGenModule)
    (topLevelCodeFn : option nat) (IGM' : IRGenModule) : Prop :=
  exists argc argv classInit catInit IGM1 IGM2 IGM3 IGM4,
    entryRun IGM topLevelCodeFn (fresh (dom (values (TheModule IGM))))
      argc argv classInit catInit IGM1 IGM2 IGM3 IGM4 IGM'
    /\ entryBuilt IGM topLevelCodeFn (fresh (dom (values (TheModule IGM))))
         argc argv classInit catInit IGM2 IGM3 IGM4 (TheModule IGM').



Lemma emitSourceFile_entryPointEmitted SF StartElem IGM0 IGM IGM' :
  ObjCHelpersBehave ->
  emitGlobalDecls SF StartElem IGM0 = Some (tt, IGM) ->
  isEntryPointKind SF = true ->
  emitSourceFile SF StartElem IGM0 = Some (tt, IGM') ->
  steady IGM IGM'
  /\ entryPointEmitted IGM (getFunction (TheModule IGM) "top_level_code")
       IGM'.
Proof.
  intros helpers Hloop Hentry Hrun.
  rewrite (emitSourceFile_entry _ _ _ _ Hloop Hentry) in Hrun.
  destruct (emitMain_entry _ _ _ helpers Hrun)
    as (argc & argv & classInit & catInit & IGM1 & IGM2 & IGM3 & IGM4
        & Hchain & HS & Hbuilt).
  split; [done|].
  by exists argc, argv, classInit, catInit, IGM1, IGM2, IGM3, IGM4.
Qed.



(** C9, amended.  When a unit in script mode is lowered with
    Objective-C interop for the JIT, classes and category declarations
    are both pending after the declarations of the unit, the helpers
    of the other files behave, and the lowering of the unit returns:
    the entry function is new, and stores the arguments through the
    two accessors; the initializer of the classes was generated from the pending
    classes after the arguments had been stored, and the initializer
    of the categories from the pending category declarations after
    the call of the first had been emitted; both are new, distinct,
    and in the module as they were generated; and the entry function
    calls the initializer of the classes and then, with the next
    instruction, the initializer of the categories. *)
Theorem class_initializer_called_first SF StartElem IGM0 IGM IGM' :
  ObjCHelpersBehave ->
  SourceFile.isScriptMode SF = true ->
  emitGlobalDecls SF StartElem IGM0 = Some (tt, IGM) ->
  ObjCInterop IGM && UseJIT IGM = true ->
  ObjCClasses IGM <> [] ->
  ObjCCategoryDecls IGM <> [] ->
  emitSourceFile SF StartElem IGM0 = Some (tt, IGM') ->
  exists maingv argc argv classInit catInit IGM1 IGM2 IGM3 IGM4,
    let mainFn := fresh (dom (values (TheModule IGM))) in
    values (TheModule IGM) !! mainFn = None
    /\ values (TheModule IGM') !! mainFn = Some maingv
    /\ getOrInsertFunction "_TFSsa6C_ARGCVSs5Int32" accessorType
         (created mainFunction IGM)
       = Some (argc, IGM1)
    /\ getOrInsertFunction "_TFSsa6C_ARGVGVSs13UnsafePointerVSs7CString_"
         accessorType (emitted mainFn (storeArgument argc 0 0 Int32Ty) IGM1)
       = Some (argv, IGM2)
    /\ emitObjCClassInitializer (ObjCClasses IGM)
         (emitted mainFn
            (storeArgument argv 3 1 (PointerTy (PointerTy Int8Ty))) IGM2)
       = Some (classInit, IGM3)
    /\ emitObjCCategoryInitializer (ObjCCategoryDecls IGM)
         (emitted mainFn [callTo classInit] IGM3)
       = Some (catInit, IGM4)
    /\ initializerIn "_swift_initObjCClasses" classInit IGM2 IGM3
         (TheModule IGM')
    /\ initializerIn "_swift_initObjCCategories" catInit IGM3 IGM4
         (TheModule IGM')
    /\ classInit <> catInit
    /\ maingv
       = withBody (entryFunction (TheModule IGM))
           [marshalArguments argc argv
            ++ [callTo classInit; callTo catInit]
            ++ topLevelCall (getFunction (TheModule IGM) "top_level_code")
            ++ [returnSuccess]]
    /\ concat (body maingv) !! 6 = Some (callTo classInit)
    /\ concat (body maingv) !! 7 = Some (callTo catInit).
Proof.
  intros helpers Hscript Hloop Hjit Hclasses Hcats Hrun.
  destruct (emitSourceFile_entryPointEmitted _ _ _ _ _ helpers Hloop
              Hscript Hrun)
    as (_ & argc & argv & classInit & catInit & IGM1 & IGM2 & IGM3 & IGM4
        & Hchain & Hbuilt).
  assert (classesAnnounced IGM = true) as Hca.
  { unfold classesAnnounced. by rewrite Hjit, bool_decide_eq_false_2. }
  assert (categoriesAnnounced IGM = true) as Hcc.
  { unfold categoriesAnnounced. by rewrite Hjit, bool_decide_eq_false_2. }
  destruct Hchain as [_ Hargc Hargv Hgen1 Hgen2 _].
  destruct Hbuilt as [Hfresh Hmain _ _ Hin1 Hin2].
  unfold announceClasses in Hgen2. rewrite Hca in Hgen1, Hgen2.
  rewrite Hcc in Hgen2. cbv zeta in Hgen1, Hgen2.
  destruct (Hin1 Hca) as [_ Hclass]. destruct (Hin2 Hcc) as [_ Hcat].
  assert (entryBody IGM argc argv classInit catInit
            (getFunction (TheModule IGM) "top_level_code")
          = marshalArguments argc argv
            ++ [callTo classInit; callTo catInit]
            ++ topLevelCall (getFunction (TheModule IGM) "top_level_code")
            ++ [returnSuccess]) as Hbody.
  { unfold entryBody, runtimeSetup, announceClasses, announceCategories.
    by rewrite Hca, Hcc. }
  rewrite Hbody in Hmain.
  eexists _, argc, argv, classInit, catInit, IGM1, IGM2, IGM3, IGM4.
  cbv zeta. split_and!; [done|exact Hmain|done..| |done|done|done].
  intros ->. destruct Hclass as (_ & Hsame & insts & Hinit).
  destruct Hcat as (Hnew & _). rewrite Hinit in Hsame. congruence.
Qed.
End EntryFunction.

(** ** The type of the address of a variable *)

Section VariableAddresses.
Context `{!LinkingHeader}.
Import llvm llvm_facts rauw_facts post_facts create_facts.

(** The symbols cached in [GlobalVars] are global variables (in the
    source, by the type of the map). *)
Definition VarsAreVariables (IGM : IRGenModule) : Prop :=
  forall K g gv,
    GlobalVars IGM !! K = Some g ->
    values (TheModule IGM) !! g = Some gv ->
    kind gv = GlobalVariableKind.

(** The constant is the address of the global variable [g], which has
    type [ty]. *)
Definition isVariableOfType (IGM : IRGenModule) (ty : type)
    (c : Constant) (g : nat) : Prop :=
  c = GlobalRef g
  /\ exists gv, values (TheModule IGM) !! g = Some gv
                /\ kind gv = GlobalVariableKind
                /\ valueType gv = ty.

Lemma replaceAllUsesWith_lookup old new M g :
  values (replaceAllUsesWith old new M) !! g
  = replaceInGlobal old new <$> values M !! g.
Proof. unfold replaceAllUsesWith. simpl. apply lookup_fmap. Qed.

Lemma eraseFromParent_lookup id M g :
  g <> id -> values (eraseFromParent id M) !! g = values M !! g.
Proof.
  intros Hne. unfold eraseFromParent.
  destruct (values M !! id); [|done]. simpl. by rewrite lookup_delete_ne.
Qed.

Lemma eraseFromParent_lookup_Some id M g gv :
  values (eraseFromParent id M) !! g = Some gv -> values M !! g = Some gv.
Proof.
  unfold eraseFromParent.
  destruct (values M !! id) eqn:Hid; [|done]. simpl.
  destruct (decide (g = id)) as [->|Hne].
  - by rewrite lookup_delete_eq.
  - by rewrite lookup_delete_ne.
Qed.

Lemma typeOf_getBitCast M c ty : typeOf M (getBitCast M c ty) = Some ty.
Proof. unfold getBitCast. by case_bool_decide. Qed.

(** What a request for the address of a variable leaves of the
    state besides the module, the diagnostics, the handles and the
    cache of variables. *)
Definition sameOptions (IGM IGM' : IRGenModule) : Prop :=
  GlobalFuncs IGM' = GlobalFuncs IGM
  /\ GlobalStrings IGM' = GlobalStrings IGM
  /\ ObjCCategoryDecls IGM' = ObjCCategoryDecls IGM
  /\ ObjCInterop IGM' = ObjCInterop IGM
  /\ UseJIT IGM' = UseJIT IGM
  /\ SizeTy IGM' = SizeTy IGM.

Lemma sameCaches_sameOptions IGM IGM' :
  sameCaches IGM IGM' -> sameOptions IGM IGM'.
Proof. unfold sameCaches, sameOptions. intros ?. destruct_and!. done. Qed.

Lemma getAddrOfLLVMVariable_spec entity definitionType defaultType IGM :
  VarsAreVariables IGM ->
  post (getAddrOfLLVMVariable entity definitionType defaultType
                              (PointerTy defaultType)) IGM
    (fun c IGM' =>
       sameOptions IGM IGM'
       /\ exists g,
            GlobalVars IGM' !! entity = Some g
            /\ match definitionType with
               | Some ty => isVariableOfType IGM' ty c g
               | None =>
                   typeOf (TheModule IGM') c = Some (PointerTy defaultType)
                   /\ stripPointerCasts c = GlobalRef g
               end).
Proof.
  intros HV.
  unfold getAddrOfLLVMVariable. post_step.
  destruct (GlobalVars IGM !! entity) as [entry|] eqn:Hentry.
  - destruct definitionType as [definitionType|].
    + (* a definition of a cached entity *)
      repeat post_step.
      match goal with Hty : bool_decide _ = true |- _ =>
        apply bool_decide_eq_true_1 in Hty; injection Hty as Hty end.
      case_bool_decide as Hdef.
      * repeat post_step. apply post_ret. split; [done|]. exists entry.
        split; [done|]. split; [done|]. exists gv.
        split; [done|]. split; [by eapply HV|]. congruence.
      * repeat post_step.
        eapply post_bind; [apply createVariable_result|].
        cbv beta. intros var IGM1 ((cv & Hcv & Hkcv & Htcv) & HK & HS).
        repeat post_step. apply post_ret.
        split; [by apply sameCaches_sameOptions in HS|].
        (* the old variable is still there, with its type *)
        destruct (keepsTypes_setName entry "" (TheModule IGM) entry gv)
          as (gv1 & Hgv1 & _ & Ht1 & _); [done|].
        destruct (HK entry gv1 Hgv1) as (gv2 & Hgv2 & _ & Ht2 & _).
        assert (Hne : var <> entry).
        { intros ->. assert (gv2 = cv) as -> by congruence.
          simpl in *. congruence. }
        exists var. split; [simpl; by rewrite lookup_insert_eq|].
        split; [done|].
        exists (replaceInGlobal entry
                  (getBitCast (TheModule IGM1) (GlobalRef var)
                              (PointerTy defaultType)) cv).
        split; [|done]. simpl.
        rewrite eraseFromParent_lookup by done.
        by rewrite replaceAllUsesWith_lookup, Hcv.
    + (* a use of a cached entity *)
      repeat post_step. apply post_ret. split; [done|]. exists entry.
      split; [done|]. split; [apply typeOf_getBitCast|apply getBitCast_strip].
  - (* the first request *)
    repeat post_step.
    eapply post_bind; [apply createVariable_result|].
    cbv beta. intros var IGM1 ((cv & Hcv & Hkcv & Htcv) & HK & HS).
    repeat post_step. apply post_ret.
    split; [by apply sameCaches_sameOptions in HS|].
    exists var. split; [simpl; by rewrite lookup_insert_eq|].
    destruct definitionType as [definitionType|]; simpl in *.
    + split; [done|]. by exists cv.
    + split; [|done]. rewrite Hcv. simpl. unfold getType. by rewrite Htcv.
Qed.

(** A second request that defines the variable at the type it has
    returns the variable and changes nothing; at another type it trips
    the assertion on the type of the cached declaration. *)
Lemma getAddrOfLLVMVariable_again entity ty ty' IGM c g :
  GlobalVars IGM !! entity = Some g ->
  isVariableOfType IGM ty c g ->
  getAddrOfLLVMVariable entity (Some ty') ty' (PointerTy ty') IGM
  = if decide (ty' = ty) then Some (c, IGM) else None.
Proof.
  intros Hg (-> & gv & Hgv & Hk & Ht).
  unfold getAddrOfLLVMVariable. irgen_unfold. rewrite Hg, Hgv. simpl.
  unfold getType. rewrite Ht.
  destruct (decide (ty' = ty)) as [->|Hne].
  - by rewrite !bool_decide_eq_true_2.
  - rewrite bool_decide_eq_false_2; [done|]. congruence.
Qed.

(** X8.  The address [getAddrOfLLVMVariable] returns, when the pointer
    type passed is the pointer to the default type: the entity is
    cached with a variable of the module; with a definition type the
    result is that variable itself, a global variable of the definition
    type; without one the result is an address of the variable that has
    the pointer type, possibly through a cast. *)
Theorem getAddrOfLLVMVariable_result_type
    (entity : LinkEntity) (definitionType : option type)
    (defaultType : type) (IGM : IRGenModule)
    (c : Constant) (IGM' : IRGenModule) :
  VarsAreVariables IGM ->
  getAddrOfLLVMVariable entity definitionType defaultType
                        (PointerTy defaultType) IGM = Some (c, IGM') ->
  exists g,
    GlobalVars IGM' !! entity = Some g
    /\ match definitionType with
       | Some ty => isVariableOfType IGM' ty c g
       | None =>
           typeOf (TheModule IGM') c = Some (PointerTy defaultType)
           /\ stripPointerCasts c = GlobalRef g
       end.
Proof.
  intros HV Hrun.
  by destruct (getAddrOfLLVMVariable_spec entity definitionType defaultType
                 IGM HV c IGM' Hrun) as [_ Hg].
Qed.
End VariableAddresses.

(** ** Addresses of classes, metaclasses and descriptors *)

Section ClassAddresses.
Context `{!LinkingHeader} `{!LoweringHeader} `{!TargetHeader}
        `{!AddressHeader}.
Import llvm llvm_facts rauw_facts post_facts create_facts.

Lemma assert_interop_run {A} (m : IRGen A) IGM :
  (IGM0 <- get ;; assert (ObjCInterop IGM0) ;; m) IGM
  = if ObjCInterop IGM then m IGM else None.
Proof. unfold bind, get, assert, ret, fatal. by destruct (ObjCInterop IGM). Qed.

(** X9.  The address of an Objective-C class is there with interop
    only, and it is a global variable of the type of type metadata,
    cached under the entity of the class.  When the class has no Swift
    metadata, it is what [getAddrOfTypeMetadata] then returns for the
    type of the class: the metadata of the class and the class are
    one symbol, at no adjustment. *)
Theorem getAddrOfObjCClass_is_type_metadata
    (theClass : Decl) (parent : option CanType) (IGM : IRGenModule)
    (c : Constant) (IGM' : IRGenModule) :
  VarsAreVariables IGM ->
  getAddrOfObjCClass theClass IGM = Some (c, IGM') ->
  ObjCInterop IGM = true
  /\ (exists g, GlobalVars IGM' !! forObjCClass theClass = Some g
                /\ isVariableOfType IGM' TypeMetadataStructTy c g)
  /\ (hasKnownSwiftMetadata theClass = false ->
      getAddrOfTypeMetadata (NominalType NominalKind.Class theClass parent)
                            false false None IGM'
      = Some (c, IGM')).
Proof.
  intros HV. unfold getAddrOfObjCClass.
  rewrite (assert_interop_run _ IGM).
  destruct (ObjCInterop IGM) eqn:Hinterop; [|done]. intros Hrun.
  destruct (getAddrOfLLVMVariable_spec _ _ _ _ HV _ _ Hrun)
    as (HS & g & Hg & Hc).
  split; [done|]. split; [by exists g|]. intros Hknown.
  destruct Hc as (-> & gv & Hgv & Hk & Ht).
  unfold getAddrOfTypeMetadata, metadataLayout. simpl. rewrite Hknown.
  simpl. unfold getAddrOfLLVMVariable. irgen_unfold. rewrite Hg. simpl.
  unfold getBitCast. simpl. rewrite Hgv. simpl. unfold getType.
  rewrite Ht. by rewrite bool_decide_eq_true_2.
Qed.

(** The entity of the metaclass object of a class. *)
Definition metaclassEntity (decl : Decl) : LinkEntity :=
  if Decl.isObjC decl || Decl.hasClangNode decl
  then forObjCMetaclass decl
  else forSwiftMetaclassStub decl.

(** X10.  The metaclass object of a class is there with interop only.
    It is a global variable of the type of Objective-C classes, never a
    cast; it is cached under the metaclass of the class when the class
    is an Objective-C class or comes from Clang, and under its Swift
    metaclass stub otherwise; and a second request returns it and
    changes nothing. *)
Theorem getAddrOfMetaclassObject_variable
    (decl : Decl) (IGM : IRGenModule) (c : Constant) (IGM' : IRGenModule) :
  VarsAreVariables IGM ->
  getAddrOfMetaclassObject decl IGM = Some (c, IGM') ->
  ObjCInterop IGM = true
  /\ (exists g, GlobalVars IGM' !! metaclassEntity decl = Some g
                /\ isVariableOfType IGM' ObjCClassStructTy c g)
  /\ getAddrOfMetaclassObject decl IGM' = Some (c, IGM').
Proof.
  intros HV. unfold getAddrOfMetaclassObject, metaclassEntity,
    getAddrOfObjCMetaclass, getAddrOfSwiftMetaclassStub.
  destruct (Decl.isObjC decl || Decl.hasClangNode decl);
    rewrite !(assert_interop_run _ IGM), !(assert_interop_run _ IGM');
    (destruct (ObjCInterop IGM) eqn:Hinterop; [|done]);
    intros Hrun;
    destruct (getAddrOfLLVMVariable_spec _ _ _ _ HV _ _ Hrun)
      as (HS & g & Hg & Hc);
    (split; [done|]); (split; [by exists g|]);
    destruct HS as (_ & _ & _ & -> & _); rewrite Hinterop;
    unfold ObjCClassPtrTy;
    rewrite (getAddrOfLLVMVariable_again _ ObjCClassStructTy _ _ c g)
      by done;
    by rewrite decide_True.
Qed.

(** X11.  The descriptor of a nominal type is a global variable of the
    type it is requested with.  A second request with that type
    returns the same variable and changes nothing; a request with
    another type trips the assertion on the type of the cached
    declaration. *)
Theorem getAddrOfNominalTypeDescriptor_one_type
    (D : Decl) (ty ty' : type) (IGM : IRGenModule)
    (c : Constant) (IGM' : IRGenModule) :
  VarsAreVariables IGM ->
  getAddrOfNominalTypeDescriptor D ty IGM = Some (c, IGM') ->
  (exists g, GlobalVars IGM' !! forNominalTypeDescriptor D = Some g
             /\ isVariableOfType IGM' ty c g)
  /\ getAddrOfNominalTypeDescriptor D ty' IGM'
     = if decide (ty' = ty) then Some (c, IGM') else None.
Proof.
  intros HV. unfold getAddrOfNominalTypeDescriptor, getPointerTo.
  intros Hrun.
  destruct (getAddrOfLLVMVariable_spec _ _ _ _ HV _ _ Hrun)
    as (HS & g & Hg & Hc).
  split; [by exists g|]. by apply (getAddrOfLLVMVariable_again _ _ _ _ _ g).
Qed.

(** X12.  The descriptor of a protocol.  For an Objective-C protocol
    the request is handed to GenObjC, which answers with the protocol
    record.  For another protocol the descriptor is a global variable
    of the type of protocol descriptors, cached under the entity of the
    descriptor; a second request returns it and changes nothing. *)
Theorem getAddrOfProtocolDescriptor_by_protocol
    (D : Decl) (IGM : IRGenModule) :
  VarsAreVariables IGM ->
  if Decl.isObjC D
  then getAddrOfProtocolDescriptor D IGM = getAddrOfObjCProtocolRecord D IGM
  else forall c IGM',
      getAddrOfProtocolDescriptor D IGM = Some (c, IGM') ->
      (exists g, GlobalVars IGM' !! forProtocolDescriptor D = Some g
                 /\ isVariableOfType IGM' ProtocolDescriptorStructTy c g)
      /\ getAddrOfProtocolDescriptor D IGM' = Some (c, IGM').
Proof.
  intros HV. unfold getAddrOfProtocolDescriptor, getPointerTo.
  destruct (Decl.isObjC D); [done|]. intros c IGM' Hrun.
  destruct (getAddrOfLLVMVariable_spec _ _ _ _ HV _ _ Hrun)
    as (HS & g & Hg & Hc).
  split; [by exists g|].
  rewrite (getAddrOfLLVMVariable_again _ ProtocolDescriptorStructTy _ _ c g)
    by done.
  by rewrite decide_True.
Qed.

(** The two requests for the address of a witness table. *)
Inductive WitnessTableAddress :=
| ValueWitnessTable (concreteType : CanType)
| ProtocolWitnessTable (C : Ptr).

Definition getAddrOfTable (table : WitnessTableAddress)
    (definitionType : option type) : IRGen Constant :=
  match table with
  | ValueWitnessTable concreteType =>
      getAddrOfValueWitnessTable concreteType definitionType
  | ProtocolWitnessTable C => getAddrOfWitnessTable C definitionType
  end.

Definition tableEntity (table : WitnessTableAddress) : LinkEntity :=
  match table with
  | ValueWitnessTable concreteType => forValueWitnessTable concreteType
  | ProtocolWitnessTable C => forDirectProtocolWitnessTable C
  end.

(** X13.  The address of a value-witness table and of a protocol
    witness table, where the type of pointers to witness tables is the
    pointer to the type of witness tables.  If a definition type is
    provided, the result is a global variable of that type; otherwise
    the result has the type of pointers to witness tables, and is the
    variable cached for the table, possibly under a cast. *)
Theorem witness_table_addresses
    (table : WitnessTableAddress) (definitionType : option type)
    (IGM : IRGenModule) (c : Constant) (IGM' : IRGenModule) :
  WitnessTablePtrTy = PointerTy WitnessTableTy ->
  VarsAreVariables IGM ->
  getAddrOfTable table definitionType IGM = Some (c, IGM') ->
  exists g,
    GlobalVars IGM' !! tableEntity table = Some g
    /\ match definitionType with
       | Some ty => isVariableOfType IGM' ty c g
       | None =>
           typeOf (TheModule IGM') c = Some WitnessTablePtrTy
           /\ stripPointerCasts c = GlobalRef g
       end.
Proof.
  intros Hptr HV Hrun.
  assert (getAddrOfLLVMVariable (tableEntity table) definitionType
            WitnessTableTy (PointerTy WitnessTableTy) IGM = Some (c, IGM'))
    as Hrun'.
  { rewrite <- Hptr. by destruct table. }
  destruct (getAddrOfLLVMVariable_spec _ _ _ _ HV _ _ Hrun')
    as (_ & g & Hg & Hc).
  exists g. split; [done|]. by rewrite Hptr.
Qed.
End ClassAddresses.

(** ** Addresses of functions *)

Section FunctionAddresses.
Context `{!LinkingHeader} `{!LoweringHeader} `{!TargetHeader}
        `{!AddressHeader}.
Import llvm llvm_facts post_facts create_facts.

(** The requests for the address of a function besides
    [getAddrOfFunction]. *)
Inductive FunctionAddress :=
| InjectionFunction (D : Decl)
| Constructor (ctor : Decl) (ctorKind : ConstructorKind.t)
              (explodeLevel : ExplosionKind.t)
| Destructor (cd : Decl) (kind : DestructorKind.t)
| ValueWitness (abstractType : CanType) (index : nat)
| Getter (value : Decl) (explosionLevel : ExplosionKind.t)
| Setter (value : Decl) (explosionLevel : ExplosionKind.t).

Definition getAddrOf (r : FunctionAddress) : IRGen nat :=
  match r with
  | InjectionFunction D => getAddrOfInjectionFunction D
  | Constructor ctor ctorKind explodeLevel =>
      getAddrOfConstructor ctor ctorKind explodeLevel
  | Destructor cd kind => getAddrOfDestructor cd kind
  | ValueWitness abstractType index =>
      getAddrOfValueWitness abstractType index
  | Getter value explosionLevel => getAddrOfGetter value explosionLevel
  | Setter value explosionLevel => getAddrOfSetter value explosionLevel
  end.

(** The entity the function is cached under. *)
Definition functionEntity (r : FunctionAddress) : LinkEntity :=
  match r with
  | InjectionFunction D =>
      forCodeRef (CodeRef.mk CodeRef.EnumElement D ExplosionKind.Minimal
                             (if hasArgumentType D then 1 else 0))
  | Constructor ctor ctorKind explodeLevel =>
      forConstructor (CodeRef.mk CodeRef.Constructor ctor explodeLevel 1)
                     ctorKind
  | Destructor cd kind => forDestructor cd kind
  | ValueWitness abstractType index => forValueWitness abstractType index
  | Getter value explosionLevel =>
      forCodeRef (CodeRef.mk CodeRef.Getter value explosionLevel 0)
  | Setter value explosionLevel =>
      forCodeRef (CodeRef.mk CodeRef.Setter value explosionLevel 0)
  end.

(** The SIL constant whose type is lowered, for the functions that
    have one. *)
Definition loweredConstant (r : FunctionAddress)
  : option (SILDeclRef * ExplosionKind.t) :=
  match r with
  | InjectionFunction D =>
      Some (SILDeclRef.mk D SILDeclRef.EnumElement
              (Some (if hasArgumentType D then 1 else 0)) false,
            ExplosionKind.Minimal)
  | Constructor ctor ConstructorKind.Allocating explodeLevel =>
      Some (SILDeclRef.mk ctor SILDeclRef.Allocator (Some 1) false,
            explodeLevel)
  | Constructor ctor ConstructorKind.Initializing explodeLevel =>
      Some (SILDeclRef.mk ctor SILDeclRef.Initializer (Some 1) false,
            explodeLevel)
  | Getter value explosionLevel =>
      Some (SILDeclRef.mk value SILDeclRef.Getter None false, explosionLevel)
  | Setter value explosionLevel =>
      Some (SILDeclRef.mk value SILDeclRef.Setter None false, explosionLevel)
  | Destructor _ _ | ValueWitness _ _ => None
  end.

(** The IR type of the function. *)
Definition functionType (r : FunctionAddress) (ty : type) : Prop :=
  match r with
  | Destructor cd DestructorKind.Deallocating => ty = DeallocatingDtorTy
  | Destructor cd DestructorKind.Destroying =>
      ty = FunctionTy RefCountedPtrTy
             [getStorageType
                (getTypeInfoForLowered (getClassDeclaredTypeInContext cd))]
             false
  | ValueWitness _ index => getValueWitnessTy index = PointerTy ty
  | _ =>
      exists silFn explosionLevel,
        loweredConstant r = Some (silFn, explosionLevel)
        /\ ty = (getFunctionType (getConstantFunctionType silFn)
                                 explosionLevel ExtraData.None).1
  end.

Lemma cached_function_post (entity : LinkEntity) (ty : type) (cc : N)
    (attrs : list string) IGM :
  GlobalFuncs IGM !! entity = None ->
  post (link <- liftOption (LinkInfo_get entity) ;;
        entry <- LinkInfo_createFunction link ty cc attrs ;;
        modify (withGlobalFuncs <[entity := entry]>) ;;
        ret entry) IGM
    (fun f IGM' =>
       GlobalFuncs IGM' = <[entity := f]> (GlobalFuncs IGM)
       /\ GlobalVars IGM' = GlobalVars IGM
       /\ exists gv, values (TheModule IGM') !! f = Some gv
                     /\ kind gv = FunctionKind /\ valueType gv = ty).
Proof.
  intros Hentry. post_step.
  eapply post_bind; [apply createFunction_result|].
  cbv beta. intros fn IGM1 (Hfn & HK & HS).
  post_step. apply post_ret. simpl.
  destruct HS as (-> & -> & _). done.
Qed.

(** X14.  Each of these requests goes through the cache of functions:
    a cached function is returned as it is and nothing changes; the
    first request leaves the entity cached with a function of the
    module that has the IR type lowered for it, whether the function
    was created or found under the mangled name; and a second request
    returns the same function and changes nothing.  A value witness of
    a bound generic type is never requested with success. *)
Theorem function_addresses_cached
    (r : FunctionAddress) (IGM : IRGenModule) (f : nat)
    (IGM' : IRGenModule) :
  getAddrOf r IGM = Some (f, IGM') ->
  GlobalFuncs IGM' !! functionEntity r = Some f
  /\ getAddrOf r IGM' = Some (f, IGM')
  /\ match GlobalFuncs IGM !! functionEntity r with
     | Some entry => f = entry /\ IGM' = IGM
     | None =>
         GlobalFuncs IGM' = <[functionEntity r := f]> (GlobalFuncs IGM)
         /\ GlobalVars IGM' = GlobalVars IGM
         /\ exists gv ty,
              values (TheModule IGM') !! f = Some gv
              /\ kind gv = FunctionKind
              /\ valueType gv = ty
              /\ functionType r ty
     end
  /\ match r with
     | ValueWitness abstractType _ => isBoundGenericType abstractType = false
     | _ => True
     end.
Proof.
  intros Hrun.
  assert (Hcached : forall IGM1,
    GlobalFuncs IGM1 !! functionEntity r = Some f ->
    match r with
    | ValueWitness abstractType _ => isBoundGenericType abstractType = false
    | _ => True
    end ->
    getAddrOf r IGM1 = Some (f, IGM1)).
  { intros IGM1 Hf Hbound.
    destruct r; simpl in *;
      unfold getAddrOfInjectionFunction, getAddrOfConstructor,
        getAddrOfDestructor, getAddrOfValueWitness, getAddrOfGetter,
        getAddrOfSetter, CodeRef.forEnumElement, CodeRef.forConstructor,
        CodeRef.forGetter, CodeRef.forSetter;
      rewrite ?Hbound; irgen_unfold; simpl; by rewrite Hf. }
  cut (match GlobalFuncs IGM !! functionEntity r with
       | Some entry => f = entry /\ IGM' = IGM
       | None =>
           GlobalFuncs IGM' = <[functionEntity r := f]> (GlobalFuncs IGM)
           /\ GlobalVars IGM' = GlobalVars IGM
           /\ exists gv ty,
                values (TheModule IGM') !! f = Some gv
                /\ kind gv = FunctionKind
                /\ valueType gv = ty
                /\ functionType r ty
       end
       /\ match r with
          | ValueWitness abstractType _ =>
              isBoundGenericType abstractType = false
          | _ => True
          end).
  { intros [Hcase Hbound].
    assert (Hf : GlobalFuncs IGM' !! functionEntity r = Some f).
    { destruct (GlobalFuncs IGM !! functionEntity r) as [entry|] eqn:He.
      - destruct Hcase as [-> ->]. done.
      - destruct Hcase as (-> & _). by rewrite lookup_insert_eq. }
    split; [done|]. split; [by apply Hcached|]. done. }
  revert f IGM' Hrun Hcached.
  change (post (getAddrOf r) IGM
            (fun f IGM' =>
               (forall IGM1, GlobalFuncs IGM1 !! functionEntity r = Some f ->
                  match r with
                  | ValueWitness abstractType _ =>
                      isBoundGenericType abstractType = false
                  | _ => True
                  end -> getAddrOf r IGM1 = Some (f, IGM1)) ->
               match GlobalFuncs IGM !! functionEntity r with
               | Some entry => f = entry /\ IGM' = IGM
               | None =>
                   GlobalFuncs IGM'
                   = <[functionEntity r := f]> (GlobalFuncs IGM)
                   /\ GlobalVars IGM' = GlobalVars IGM
                   /\ exists gv ty,
                        values (TheModule IGM') !! f = Some gv
                        /\ kind gv = FunctionKind
                        /\ valueType gv = ty
                        /\ functionType r ty
               end
               /\ match r with
                  | ValueWitness abstractType _ =>
                      isBoundGenericType abstractType = false
                  | _ => True
                  end)).
  destruct r as [D|ctor ctorKind explodeLevel|cd kind|abstractType index
                 |value explosionLevel|value explosionLevel]; simpl.
  - unfold getAddrOfInjectionFunction. post_step.
    set (entity := forCodeRef _).
    destruct (GlobalFuncs IGM !! entity) as [entry|] eqn:Hentry.
    { by apply post_ret. }
    destruct (getFunctionType _ _ _) as [fnType attrs] eqn:Hty.
    eapply post_weaken; [by apply cached_function_post|].
    cbv beta. intros f IGM' (HF & HV & gv & Hgv & Hk & Ht) _.
    split; [|done]. split; [done|]. split; [done|].
    exists gv, fnType. split_and!; try done.
    eexists _, _. split; [done|]. by rewrite Hty.
  - unfold getAddrOfConstructor. post_step.
    set (entity := forConstructor _ _).
    destruct (GlobalFuncs IGM !! entity) as [entry|] eqn:Hentry.
    { by apply post_ret. }
    destruct (getFunctionType _ _ _) as [fnType attrs] eqn:Hty.
    eapply post_weaken; [by apply cached_function_post|].
    cbv beta. intros f IGM' (HF & HV & gv & Hgv & Hk & Ht) _.
    split; [|done]. split; [done|]. split; [done|].
    exists gv, fnType. split_and!; try done.
    destruct ctorKind; eexists _, _; (split; [done|]); simpl in Hty;
      by rewrite Hty.
  - unfold getAddrOfDestructor. post_step.
    destruct (GlobalFuncs IGM !! forDestructor cd kind) as [entry|]
      eqn:Hentry.
    { by apply post_ret. }
    eapply post_weaken; [by apply cached_function_post|].
    cbv beta. intros f IGM' (HF & HV & gv & Hgv & Hk & Ht) _.
    split; [|done]. split; [done|]. split; [done|].
    eexists gv, _. split_and!; try done.
    by destruct kind.
  - unfold getAddrOfValueWitness. post_step.
    match goal with Hb : negb _ = true |- _ =>
      apply negb_true_iff in Hb; rename Hb into Hbound end.
    post_step.
    destruct (GlobalFuncs IGM !! forValueWitness abstractType index)
      as [entry|] eqn:Hentry.
    { by apply post_ret. }
    post_step.
    eapply post_weaken; [by apply cached_function_post|].
    cbv beta. intros f IGM' (HF & HV & gv & Hgv & Hk & Ht) _.
    split; [|done]. split; [done|]. split; [done|].
    exists gv, a. split_and!; try done.
    match goal with Hw : _ = Some a |- _ => revert Hw end.
    destruct (getValueWitnessTy index) as [| |elt| | | |]; try done.
    destruct elt; try done. by intros [= <-].
  - unfold getAddrOfGetter. post_step.
    set (entity := forCodeRef _).
    destruct (GlobalFuncs IGM !! entity) as [entry|] eqn:Hentry.
    { by apply post_ret. }
    destruct (getFunctionType _ _ _) as [fnType attrs] eqn:Hty.
    eapply post_weaken; [by apply cached_function_post|].
    cbv beta. intros f IGM' (HF & HV & gv & Hgv & Hk & Ht) _.
    split; [|done]. split; [done|]. split; [done|].
    exists gv, fnType. split_and!; try done.
    eexists _, _. split; [done|]. by rewrite Hty.
  - unfold getAddrOfSetter. post_step.
    set (entity := forCodeRef _).
    destruct (GlobalFuncs IGM !! entity) as [entry|] eqn:Hentry.
    { by apply post_ret. }
    destruct (getFunctionType _ _ _) as [fnType attrs] eqn:Hty.
    eapply post_weaken; [by apply cached_function_post|].
    cbv beta. intros f IGM' (HF & HV & gv & Hgv & Hk & Ht) _.
    split; [|done]. split; [done|]. split; [done|].
    exists gv, fnType. split_and!; try done.
    eexists _, _. split; [done|]. by rewrite Hty.
Qed.
End FunctionAddresses.

(** ** Addresses of offset variables and of global variables *)

Section SimpleVariables.
Context `{!LinkingHeader} `{!LoweringHeader} `{!TargetHeader}
        `{!AddressHeader}.
Import llvm llvm_facts post_facts create_facts.

Lemma updated_lookup g f IGM :
  values (TheModule (updated g f IGM)) !! g
  = f <$> values (TheModule IGM) !! g.
Proof. simpl. by rewrite lookup_alter_eq. Qed.

Lemma getAddrOfSimpleVariable_cached entity type alignment IGM g gv :
  GlobalVars IGM !! entity = Some g ->
  values (TheModule IGM) !! g = Some gv ->
  getAddrOfSimpleVariable entity type alignment IGM
  = if decide (alignment = llvm.alignment gv)
    then Some (Address.mk (GlobalRef g) alignment, IGM) else None.
Proof.
  intros Hg Hgv. unfold getAddrOfSimpleVariable. irgen_unfold.
  rewrite Hg, Hgv. simpl.
  destruct (decide (alignment = llvm.alignment gv)) as [->|Hne].
  - by rewrite bool_decide_eq_true_2.
  - by rewrite bool_decide_eq_false_2.
Qed.

Lemma getAddrOfSimpleVariable_first entity type alignment IGM :
  GlobalVars IGM !! entity = None ->
  post (getAddrOfSimpleVariable entity type alignment) IGM
    (fun a IGM' =>
       sameOptions IGM IGM'
       /\ exists g gv,
            a = Address.mk (GlobalRef g) alignment
            /\ GlobalVars IGM' = <[entity := g]> (GlobalVars IGM)
            /\ values (TheModule IGM') !! g = Some gv
            /\ kind gv = GlobalVariableKind
            /\ valueType gv = type
            /\ isConstant gv = true
            /\ llvm.alignment gv = alignment).
Proof.
  intros Hentry. unfold getAddrOfSimpleVariable. post_step.
  rewrite Hentry. post_step.
  eapply post_bind; [apply createVariable_result|].
  cbv beta. intros var IGM1 ((cv & Hcv & Hkcv & Htcv) & HK & HS).
  repeat post_step. apply post_ret.
  split; [by apply sameCaches_sameOptions in HS|].
  eexists var, _. split; [done|]. split.
  { simpl. destruct HS as (-> & _). done. }
  split.
  { simpl. rewrite !lookup_alter_eq, Hcv. simpl. reflexivity. }
  done.
Qed.

(** X15.  The first request for a simple variable leaves the entity
    cached with a global variable of the requested type that is marked
    constant and carries the requested alignment.  A later request for
    the entity returns the same address and changes nothing when it
    names the same alignment, whatever type it names, and trips the
    assertion on the alignment otherwise. *)
Theorem getAddrOfSimpleVariable_alignment
    (entity : LinkEntity) (ty ty' : type) (alignment alignment' : N)
    (IGM : IRGenModule) (a : Address) (IGM' : IRGenModule) :
  GlobalVars IGM !! entity = None ->
  getAddrOfSimpleVariable entity ty alignment IGM = Some (a, IGM') ->
  (exists g gv,
     a = Address.mk (GlobalRef g) alignment
     /\ GlobalVars IGM' = <[entity := g]> (GlobalVars IGM)
     /\ values (TheModule IGM') !! g = Some gv
     /\ kind gv = GlobalVariableKind
     /\ valueType gv = ty
     /\ isConstant gv = true
     /\ llvm.alignment gv = alignment)
  /\ getAddrOfSimpleVariable entity ty' alignment' IGM'
     = if decide (alignment' = alignment) then Some (a, IGM') else None.
Proof.
  intros Hentry Hrun.
  destruct (getAddrOfSimpleVariable_first _ _ _ _ Hentry _ _ Hrun)
    as (_ & g & gv & -> & HV & Hgv & Hk & Ht & Hc & Ha).
  split; [by exists g, gv|].
  rewrite (getAddrOfSimpleVariable_cached _ _ _ _ g gv);
    [|by rewrite HV, lookup_insert_eq|done].
  rewrite Ha. by destruct (decide (alignment' = alignment)) as [->|].
Qed.

(** The requests for the address of an offset variable. *)
Inductive OffsetAddress :=
| WitnessTableOffset (code : CodeRef)
| WitnessTableOffsetOfField (field : Decl)
| FieldOffset (var : Decl) (isIndirect : bool).

Definition getAddrOfOffset (r : OffsetAddress) : IRGen Address :=
  match r with
  | WitnessTableOffset code => getAddrOfWitnessTableOffset code
  | WitnessTableOffsetOfField field =>
      getAddrOfWitnessTableOffset_field field
  | FieldOffset var isIndirect => getAddrOfFieldOffset var isIndirect
  end.

Definition offsetEntity (r : OffsetAddress) : LinkEntity :=
  match r with
  | WitnessTableOffset code =>
      forWitnessTableOffset (CodeRef.getDecl code)
                            (CodeRef.getExplosionLevel code)
                            (CodeRef.getUncurryLevel code)
  | WitnessTableOffsetOfField field =>
      forWitnessTableOffset field ExplosionKind.Minimal 0
  | FieldOffset var isIndirect => forFieldOffset var isIndirect
  end.

Lemma getAddrOfOffset_unfold r IGM :
  getAddrOfOffset r IGM
  = getAddrOfSimpleVariable (offsetEntity r) (SizeTy IGM)
                            getPointerAlignment IGM.
Proof. by destruct r. Qed.

(** X16.  The first request for a witness-table offset or a field
    offset leaves the entity cached with a constant global variable of
    the size type at the alignment of pointers, and every later request
    returns the same address and changes nothing. *)
Theorem offset_variables
    (r : OffsetAddress) (IGM : IRGenModule) (a : Address)
    (IGM' : IRGenModule) :
  GlobalVars IGM !! offsetEntity r = None ->
  getAddrOfOffset r IGM = Some (a, IGM') ->
  (exists g gv,
     a = Address.mk (GlobalRef g) getPointerAlignment
     /\ GlobalVars IGM' !! offsetEntity r = Some g
     /\ values (TheModule IGM') !! g = Some gv
     /\ kind gv = GlobalVariableKind
     /\ valueType gv = SizeTy IGM
     /\ isConstant gv = true
     /\ llvm.alignment gv = getPointerAlignment)
  /\ getAddrOfOffset r IGM' = Some (a, IGM').
Proof.
  intros Hentry. rewrite !getAddrOfOffset_unfold. intros Hrun.
  destruct (getAddrOfSimpleVariable_first _ _ _ _ Hentry _ _ Hrun)
    as (HS & g & gv & -> & HV & Hgv & Hk & Ht & Hc & Ha).
  split.
  { exists g, gv. split_and!; try done. by rewrite HV, lookup_insert_eq. }
  rewrite (getAddrOfSimpleVariable_cached _ _ _ _ g gv);
    [|by rewrite HV, lookup_insert_eq|done].
  by rewrite Ha, decide_True.
Qed.

(** X17.  The first request for the address of a global variable
    leaves the entity cached with a global variable of the storage type
    of the type of the declaration, on which the alignment of the
    address the type information gave has been set; a later request
    returns the variable itself at that alignment and changes
    nothing. *)
Theorem getAddrOfGlobalVariable_alignment
    (var : ValueDecl) (IGM : IRGenModule) (a : Address)
    (IGM' : IRGenModule) :
  let entity := forNonFunction (ValueDecl.asDecl var) in
  let type := getTypeInfoForUnlowered (ValueDecl.getType var) in
  GlobalVars IGM !! entity = None ->
  getAddrOfGlobalVariable var IGM = Some (a, IGM') ->
  exists g gv,
    a = getAddressForPointer type (GlobalRef g)
    /\ GlobalVars IGM' !! entity = Some g
    /\ values (TheModule IGM') !! g = Some gv
    /\ kind gv = GlobalVariableKind
    /\ valueType gv = getStorageType type
    /\ llvm.alignment gv = Address.getAlignment a
    /\ getAddrOfGlobalVariable var IGM'
       = Some (Address.mk (GlobalRef g) (Address.getAlignment a), IGM').
Proof.
  intros entity type Hentry. revert a IGM'.
  change (post (getAddrOfGlobalVariable var) IGM
            (fun a IGM' =>
               exists g gv,
                 a = getAddressForPointer type (GlobalRef g)
                 /\ GlobalVars IGM' !! entity = Some g
                 /\ values (TheModule IGM') !! g = Some gv
                 /\ kind gv = GlobalVariableKind
                 /\ valueType gv = getStorageType type
                 /\ llvm.alignment gv = Address.getAlignment a
                 /\ getAddrOfGlobalVariable var IGM'
                    = Some (Address.mk (GlobalRef g)
                                       (Address.getAlignment a), IGM'))).
  unfold getAddrOfGlobalVariable at 1. post_step. fold entity.
  rewrite Hentry. post_step.
  eapply post_bind; [apply createVariable_result|].
  cbv beta. intros addr IGM1 ((cv & Hcv & Hkcv & Htcv) & HK & HS).
  repeat post_step. apply post_ret. fold type.
  eexists addr, _. split; [done|].
  split; [simpl; by rewrite lookup_insert_eq|].
  split; [simpl; rewrite lookup_alter_eq, Hcv; simpl; reflexivity|].
  split; [done|]. split; [done|]. split; [done|].
  unfold getAddrOfGlobalVariable. irgen_unfold. fold entity. simpl.
  rewrite lookup_insert_eq. simpl. rewrite lookup_alter_eq, Hcv. done.
Qed.
End SimpleVariables.

(** ** The global lists *)

Section GlobalListProperties.
Context `{!TargetHeader}.
Import llvm llvm_facts post_facts create_facts builder_facts.

(** The handle has not been nulled: the global value it holds is in
    the module. *)
Definition handleLive (M : IRModule) (handle : Constant) : bool :=
  match handle with
  | GlobalRef g => bool_decide (is_Some (values M !! g))
  | _ => true
  end.

(** The elements of a list: the handles cast to [i8*]. *)
Definition listElements (M : IRModule) (handles : list Constant)
  : list Constant :=
  map (fun handle => getBitCast M handle Int8PtrTy) handles.

(** The variable that holds a list. *)
Definition listVariable (M : IRModule) (handles : list Constant)
    (name section : string) (linkage : LinkageTypes) : GlobalValue :=
  mkGlobalValue GlobalVariableKind (uniqueName (symtab M) name)
    (ArrayTy Int8PtrTy (N.of_nat (length handles))) linkage
    DefaultVisibility 0 [] [] false
    (Some (ConstantArray (listElements M handles))) false
    getPointerAlignment section.

(** The state after a list has been emitted. *)
Definition listEmitted (handles : list Constant) (name section : string)
    (linkage : LinkageTypes) (IGM : IRGenModule) : IRGenModule :=
  let M := TheModule IGM in
  let var := fresh (dom (values M)) in
  let IGM1 :=
    withModule
      (fun _ => mkModule
                  (<[var := listVariable M handles name section linkage]>
                     (values M))
                  (tabAdd (uniqueName (symtab M) name) var (symtab M)))
      IGM in
  if GlobalValue_isLocalLinkage linkage
  then withUsed (GlobalRef var) IGM1 else IGM1.

Lemma derefHandle_run M IGM handle :
  TheModule IGM = M ->
  derefHandle handle IGM
  = if handleLive M handle then Some (handle, IGM) else None.
Proof.
  intros <-. destruct handle; try done. simpl.
  unfold deref, getModule, bind, get, ret, liftOption.
  destruct (values (TheModule IGM) !! g) as [gv|] eqn:Hg.
  - rewrite bool_decide_eq_true_2; [done|by eexists].
  - rewrite bool_decide_eq_false_2; [done|]. by intros [? ?].
Qed.

Lemma mapIRGen_handles IGM handles :
  mapIRGen (fun handle =>
              elt <- derefHandle handle ;;
              M <- getModule ;;
              ret (getBitCast M elt Int8PtrTy)) handles IGM
  = if forallb (handleLive (TheModule IGM)) handles
    then Some (listElements (TheModule IGM) handles, IGM) else None.
Proof.
  induction handles as [|handle handles IH]; [done|]. simpl.
  unfold bind at 1. unfold bind at 1.
  rewrite (derefHandle_run (TheModule IGM)) by done.
  destruct (handleLive (TheModule IGM) handle); [|done]. simpl.
  unfold bind at 1. rewrite IH.
  by destruct (forallb _ handles).
Qed.

Lemma emitGlobalList_run handles name section linkage IGM :
  emitGlobalList handles name section linkage IGM
  = if bool_decide (handles = []) then Some (tt, IGM)
    else if forallb (handleLive (TheModule IGM)) handles
         then Some (tt, listEmitted handles name section linkage IGM)
         else None.
Proof.
  unfold emitGlobalList. case_bool_decide as Hempty; [done|].
  unfold bind at 1. rewrite mapIRGen_handles.
  destruct (forallb _ handles); [|done].
  unfold listEmitted, addUsedGlobal. irgen_unfold. simpl.
  unfold listElements. rewrite length_map.
  assert (Hvalues :
    alter (setAlignment getPointerAlignment)
      (fresh (dom (values (TheModule IGM))))
      (alter (setSection section) (fresh (dom (values (TheModule IGM))))
         (<[fresh (dom (values (TheModule IGM))) :=
              withName
                (newGlobalVariable
                   (ArrayTy Int8PtrTy (N.of_nat (length handles))) false
                   linkage
                   (Some (ConstantArray
                            (map (fun handle =>
                                    getBitCast (TheModule IGM) handle
                                               Int8PtrTy) handles)))
                   name)
                (uniqueName (symtab (TheModule IGM)) name)]>
            (values (TheModule IGM))))
    = <[fresh (dom (values (TheModule IGM))) :=
          listVariable (TheModule IGM) handles name section linkage]>
        (values (TheModule IGM))).
  { apply map_eq. intros g.
    destruct (decide (g = fresh (dom (values (TheModule IGM)))))
      as [->|Hg].
    - by rewrite !lookup_alter_eq, !lookup_insert_eq.
    - by rewrite !lookup_alter_ne, !lookup_insert_ne. }
  destruct (GlobalValue_isLocalLinkage linkage); simpl;
    rewrite ?lookup_alter_eq, ?lookup_insert_eq; simpl;
    unfold withModule, withUsed; simpl; by rewrite Hvalues.
Qed.

(** X1.  A global list.  Nothing is emitted for an empty list.  For
    a list that is not empty [emitGlobalList] returns exactly when no
    handle of the list has been nulled; it then adds one global
    variable to the module: an array of as many [i8*] as the list has
    handles, initialized with the handles cast to [i8*] in the order
    of the list, with the given linkage and section and the alignment
    of pointers, under the given name made unique.  The variable is
    appended to the used globals exactly when the linkage is local;
    nothing else changes. *)
Theorem emitGlobalList_emits
    (handles : list Constant) (name section : string)
    (linkage : LinkageTypes) (IGM : IRGenModule) :
  let M := TheModule IGM in
  match handles with
  | [] => emitGlobalList handles name section linkage IGM = Some (tt, IGM)
  | _ :: _ =>
      if forallb (handleLive M) handles then
        exists IGM' var gv,
          emitGlobalList handles name section linkage IGM = Some (tt, IGM')
          /\ values M !! var = None
          /\ values (TheModule IGM') = <[var := gv]> (values M)
          /\ kind gv = GlobalVariableKind
          /\ (exists suffix, llvm.name gv = name +:+ suffix)
          /\ valueType gv = ArrayTy Int8PtrTy (N.of_nat (length handles))
          /\ initializer gv
             = Some (ConstantArray
                       (map (fun handle => getBitCast M handle Int8PtrTy)
                            handles))
          /\ llvm.linkage gv = linkage
          /\ llvm.section gv = section
          /\ alignment gv = getPointerAlignment
          /\ LLVMUsed IGM'
             = (if GlobalValue_isLocalLinkage linkage
                then LLVMUsed IGM ++ [GlobalRef var] else LLVMUsed IGM)
          /\ sameOptions IGM IGM'
          /\ GlobalVars IGM' = GlobalVars IGM
          /\ ObjCClasses IGM' = ObjCClasses IGM
          /\ ObjCCategories IGM' = ObjCCategories IGM
          /\ Diags IGM' = Diags IGM
      else emitGlobalList handles name section linkage IGM = None
  end.
Proof.
  intros M. rewrite emitGlobalList_run.
  destruct handles as [|handle handles]; [done|].
  rewrite bool_decide_eq_false_2 by done.
  destruct (forallb _ _); [|done].
  eexists _, (fresh (dom (values M))), _. split; [reflexivity|].
  split; [apply fresh_values|].
  unfold listEmitted. fold M.
  split.
  { destruct (GlobalValue_isLocalLinkage linkage); reflexivity. }
  split; [done|]. split; [apply uniqueName_prefix|].
  split; [done|]. split; [done|]. split; [done|]. split; [done|].
  split; [done|].
  by destruct (GlobalValue_isLocalLinkage linkage).
Qed.

Lemma handleLive_extends M M' handle :
  extends M M' -> handleLive M handle = true -> handleLive M' handle = true.
Proof.
  intros He. destruct handle; try done. simpl.
  rewrite !bool_decide_eq_true. intros [gv Hgv]. exists gv. by apply He.
Qed.

Lemma handlesLive_extends M M' handles :
  extends M M' ->
  forallb (handleLive M) handles = true ->
  forallb (handleLive M') handles = true.
Proof.
  intros He. rewrite !forallb_forall. intros Hl handle Hin.
  eapply handleLive_extends; [done|]. by apply Hl.
Qed.

Lemma getBitCast_extends M M' handle ty :
  extends M M' -> handleLive M handle = true ->
  getBitCast M' handle ty = getBitCast M handle ty.
Proof.
  intros He. destruct handle; try done. simpl.
  rewrite bool_decide_eq_true. intros [gv Hgv].
  unfold getBitCast. simpl. by rewrite Hgv, (He _ _ Hgv).
Qed.

Lemma listElements_extends M M' handles :
  extends M M' ->
  forallb (handleLive M) handles = true ->
  listElements M' handles = listElements M handles.
Proof.
  intros He. rewrite forallb_forall. intros Hl.
  apply map_ext_in. intros handle Hin.
  apply getBitCast_extends; [done|]. by apply Hl.
Qed.

(** One list emitted, for the lists that follow. *)
Lemma emitGlobalList_stage handles name section linkage IGM :
  forallb (handleLive (TheModule IGM)) handles = true ->
  exists IGM',
    emitGlobalList handles name section linkage IGM = Some (tt, IGM')
    /\ extends (TheModule IGM) (TheModule IGM')
    /\ ObjCClasses IGM' = ObjCClasses IGM
    /\ ObjCCategories IGM' = ObjCCategories IGM
    /\ match handles with
       | [] => IGM' = IGM
       | _ :: _ =>
           let var := fresh (dom (values (TheModule IGM))) in
           values (TheModule IGM')
           = <[var := listVariable (TheModule IGM) handles name section
                                   linkage]> (values (TheModule IGM))
           /\ LLVMUsed IGM'
              = if GlobalValue_isLocalLinkage linkage
                then LLVMUsed IGM ++ [GlobalRef var] else LLVMUsed IGM
       end.
Proof.
  intros Hlive. rewrite emitGlobalList_run, Hlive.
  destruct handles as [|handle handles].
  { exists IGM. rewrite bool_decide_eq_true_2 by done.
    split_and!; try done. apply extends_refl. }
  rewrite bool_decide_eq_false_2 by done.
  eexists. split; [reflexivity|]. unfold listEmitted.
  assert (He : extends (TheModule IGM)
            (mkModule
               (<[fresh (dom (values (TheModule IGM))) :=
                    listVariable (TheModule IGM) (handle :: handles) name
                                 section linkage]> (values (TheModule IGM)))
               (tabAdd (uniqueName (symtab (TheModule IGM)) name)
                       (fresh (dom (values (TheModule IGM))))
                       (symtab (TheModule IGM))))).
  { intros g gv Hg. simpl. rewrite lookup_insert_ne; [done|].
    intros <-. by rewrite fresh_values in Hg. }
  by destruct (GlobalValue_isLocalLinkage linkage).
Qed.

Lemma emitGlobalLists_run IGM IGM1 IGM2 IGM3 IGM4 :
  emitGlobalList (ObjCClasses IGM) "objc_classes"
    "__DATA, __objc_classlist, regular, no_dead_strip" InternalLinkage IGM
  = Some (tt, IGM1) ->
  emitGlobalList (ObjCCategories IGM1) "objc_categories"
    "__DATA, __objc_catlist, regular, no_dead_strip" InternalLinkage IGM1
  = Some (tt, IGM2) ->
  emitGlobalList (ObjCClasses IGM2) "objc_non_lazy_classes"
    "__DATA, __objc_nlclslist, regular, no_dead_strip" InternalLinkage IGM2
  = Some (tt, IGM3) ->
  emitGlobalList (LLVMUsed IGM3) "llvm.used" "llvm.metadata"
    AppendingLinkage IGM3
  = Some (tt, IGM4) ->
  emitGlobalLists IGM = Some (tt, IGM4).
Proof.
  intros H1 H2 H3 H4. unfold emitGlobalLists, bind, get.
  by rewrite H1, H2, H3, H4.
Qed.

(** The lists emitted so far: the module has grown, and the used
    globals have grown by the variables [lists], which are new and of
    internal linkage. *)
Definition listsEmitted (IGM IGM' : IRGenModule) (lists : list nat)
  : Prop :=
  extends (TheModule IGM) (TheModule IGM')
  /\ ObjCClasses IGM' = ObjCClasses IGM
  /\ ObjCCategories IGM' = ObjCCategories IGM
  /\ LLVMUsed IGM' = LLVMUsed IGM ++ (GlobalRef <$> lists)
  /\ Forall (fun g =>
               values (TheModule IGM) !! g = None
               /\ exists gv, values (TheModule IGM') !! g = Some gv
                             /\ kind gv = GlobalVariableKind
                             /\ linkage gv = InternalLinkage) lists.

Lemma listsEmitted_stage IGM IGM1 lists handles name section :
  listsEmitted IGM IGM1 lists ->
  forallb (handleLive (TheModule IGM)) handles = true ->
  exists IGM2 new,
    emitGlobalList handles name section InternalLinkage IGM1
    = Some (tt, IGM2)
    /\ listsEmitted IGM IGM2 (lists ++ new)
    /\ length new = (if bool_decide (handles = []) then 0 else 1)
    /\ (handles = [] -> IGM2 = IGM1).
Proof.
  intros (He & Hc & Hcat & Hused & Hlists) Hlive.
  destruct (emitGlobalList_stage handles name section InternalLinkage IGM1)
    as (IGM2 & Hrun & He2 & Hc2 & Hcat2 & Hcase).
  { by eapply handlesLive_extends. }
  destruct handles as [|handle handles].
  - subst IGM2. exists IGM1, []. rewrite app_nil_r.
    split; [done|]. split; [by split_and!|]. done.
  - destruct Hcase as [Hvalues Hused2].
    exists IGM2, [fresh (dom (values (TheModule IGM1)))].
    split; [done|]. split; [|done]. split_and!.
    + by eapply extends_trans.
    + congruence.
    + congruence.
    + rewrite Hused2. simpl. rewrite Hused, fmap_app, <- app_assoc. done.
    + apply Forall_app. split.
      * eapply Forall_impl; [exact Hlists|]. cbv beta.
        intros g (Hnew & gv & Hgv & Hk & Hl). split; [done|].
        exists gv. split; [by apply He2|done].
      * apply Forall_singleton. split.
        -- destruct (values (TheModule IGM) !! fresh _) as [gv|] eqn:Hg;
             [|done].
           apply He in Hg. by rewrite fresh_values in Hg.
        -- eexists. rewrite Hvalues, lookup_insert_eq. done.
Qed.

(** X2.  The global lists, when no handle of the pending lists has
    been nulled.  [emitGlobalLists] returns, and keeps the values of the
    module.  It emits a list for the classes, one for the categories
    and a second one for the classes, each only when there is something
    to list, as a new variable of internal linkage, and appends these
    variables to the used globals.  When no global is used after that,
    nothing at all has changed.  Otherwise a new variable of appending
    linkage in section llvm.metadata holds all used globals in order,
    cast to [i8*], the lists just emitted at the end; the variable is
    not among the used globals itself. *)
Theorem emitGlobalLists_used (IGM : IRGenModule) :
  let M := TheModule IGM in
  forallb (handleLive M)
          (ObjCClasses IGM ++ ObjCCategories IGM ++ LLVMUsed IGM) = true ->
  exists IGM' lists,
    emitGlobalLists IGM = Some (tt, IGM')
    /\ listsEmitted IGM IGM' lists
    /\ length lists
       = (if bool_decide (ObjCClasses IGM = []) then 0 else 2)
         + (if bool_decide (ObjCCategories IGM = []) then 0 else 1)
    /\ (LLVMUsed IGM' = [] -> IGM' = IGM)
    /\ (LLVMUsed IGM' <> [] ->
        exists used gv,
          values M !! used = None
          /\ values (TheModule IGM') !! used = Some gv
          /\ kind gv = GlobalVariableKind
          /\ linkage gv = AppendingLinkage
          /\ section gv = "llvm.metadata"
          /\ (exists suffix, name gv = "llvm.used" +:+ suffix)
          /\ initializer gv
             = Some (ConstantArray
                       (map (fun handle =>
                               getBitCast (TheModule IGM') handle Int8PtrTy)
                            (LLVMUsed IGM')))
          /\ GlobalRef used ∉ LLVMUsed IGM').
Proof.
  intros M. rewrite !forallb_app, !andb_true_iff.
  intros (Hclasses & Hcats & Hused).
  assert (H0 : listsEmitted IGM IGM []).
  { split_and!; try done; [apply extends_refl|by rewrite app_nil_r]. }
  destruct (listsEmitted_stage IGM IGM [] (ObjCClasses IGM) "objc_classes"
              "__DATA, __objc_classlist, regular, no_dead_strip" H0 Hclasses)
    as (IGM1 & new1 & Hrun1 & H1 & Hlen1 & Hid1).
  destruct (listsEmitted_stage IGM IGM1 _ (ObjCCategories IGM)
              "objc_categories"
              "__DATA, __objc_catlist, regular, no_dead_strip" H1 Hcats)
    as (IGM2 & new2 & Hrun2 & H2 & Hlen2 & Hid2).
  destruct (listsEmitted_stage IGM IGM2 _ (ObjCClasses IGM)
              "objc_non_lazy_classes"
              "__DATA, __objc_nlclslist, regular, no_dead_strip" H2 Hclasses)
    as (IGM3 & new3 & Hrun3 & H3 & Hlen3 & Hid3).
  simpl in H3. set (lists := (new1 ++ new2) ++ new3) in *.
  pose proof H1 as (_ & _ & Hcat1 & _).
  pose proof H2 as (_ & Hc2 & _).
  pose proof H3 as (He3 & _ & _ & Hused3 & Hlists3).
  (* the used globals are live after the three lists *)
  assert (Hlive3 : forallb (handleLive (TheModule IGM3)) (LLVMUsed IGM3)
                   = true).
  { rewrite Hused3, forallb_app, andb_true_iff. split.
    - by eapply handlesLive_extends.
    - apply forallb_forall. intros handle Hin.
      apply in_map_iff in Hin as (g & <- & Hin).
      rewrite Forall_forall in Hlists3.
      destruct (Hlists3 g) as (_ & gv & Hgv & _);
        [by apply list_elem_of_In|].
      simpl. rewrite bool_decide_eq_true. by eexists. }
  destruct (emitGlobalList_stage (LLVMUsed IGM3) "llvm.used" "llvm.metadata"
              AppendingLinkage IGM3 Hlive3)
    as (IGM4 & Hrun4 & He4 & Hc4 & Hcat4 & Hcase4).
  rewrite <- Hcat1 in Hrun2. rewrite <- Hc2 in Hrun3.
  exists IGM4, lists.
  split; [by eapply emitGlobalLists_run|].
  assert (Hused4 : LLVMUsed IGM4 = LLVMUsed IGM3).
  { revert Hcase4. clear. destruct (LLVMUsed IGM3) eqn:Hl; [by intros ->|].
    by intros [_ ?]. }
  split.
  { destruct H3 as (? & ? & ? & ? & ?). split_and!; try congruence.
    - by eapply extends_trans.
    - eapply Forall_impl; [exact Hlists3|]. cbv beta.
      intros g (Hnew & gv & Hgv & Hk & Hl). split; [done|].
      exists gv. split; [by apply He4|done]. }
  split.
  { unfold lists. rewrite !length_app, Hlen1, Hlen2, Hlen3.
    repeat case_bool_decide; lia. }
  split.
  - rewrite Hused4, Hused3. intros Hnil.
    apply app_eq_nil in Hnil as [Hnil1 Hnil2].
    apply fmap_nil_inv in Hnil2. unfold lists in Hnil2.
    apply app_eq_nil in Hnil2 as [Hnil2 Hnil3].
    apply app_eq_nil in Hnil2 as [Hnil2 Hnil2'].
    assert (Hc : ObjCClasses IGM = []).
    { destruct (ObjCClasses IGM); [done|]. by subst new1. }
    assert (Hcat : ObjCCategories IGM = []).
    { destruct (ObjCCategories IGM); [done|]. by subst new2. }
    rewrite Hused3, Hnil1 in Hcase4. unfold lists in Hcase4.
    rewrite Hnil2, Hnil2', Hnil3 in Hcase4. simpl in Hcase4.
    rewrite Hcase4, (Hid3 Hc), (Hid2 Hcat), (Hid1 Hc). done.
  - rewrite Hused4. intros Hne.
    revert Hcase4.
    destruct (LLVMUsed IGM3) as [|handle handles] eqn:Hl; [done|].
    intros [Hvalues _]. cbv zeta in Hvalues. rewrite ?Hl in Hlive3.
    set (used := fresh (dom (values (TheModule IGM3)))) in *.
    eexists used, _. split.
    { destruct (values M !! used) as [gv|] eqn:Hg; [|done].
      apply He3 in Hg. unfold used in Hg. by rewrite fresh_values in Hg. }
    split; [by rewrite Hvalues, lookup_insert_eq|].
    split; [done|]. split; [done|]. split; [done|].
    split; [apply uniqueName_prefix|]. split.
    + simpl. do 2 f_equal. symmetry.
      by apply (listElements_extends _ _ (handle :: handles)).
    + intros Hin. rewrite forallb_forall in Hlive3.
      apply list_elem_of_In, Hlive3 in Hin. simpl in Hin.
      apply bool_decide_eq_true in Hin as [gv Hgv].
      unfold used in Hgv. by rewrite fresh_values in Hgv.
Qed.
End GlobalListProperties.

(** ** Declarations that cannot be lowered *)

Section Dispatch.
Context `{!LinkingHeader} `{!LoweringHeader} `{!TargetHeader}
        `{!AddressHeader} `{!EmitterHeader} `{!ObjCHeader}
        `{!TopLevelHeader}.

Lemma forEach_fatal {A} (l : list A) (f : A -> IRGen unit) (x : A) :
  x ∈ l -> (forall IGM, f x IGM = None) ->
  forall IGM, forEach l f IGM = None.
Proof.
  intros Hin Hx. induction l as [|y l IH]; intros IGM; simpl.
  { by apply elem_of_nil in Hin. }
  unfold bind. apply elem_of_cons in Hin as [<-|Hin].
  - by rewrite Hx.
  - destruct (f y IGM) as [[[] IGM1]|]; [by apply IH|done].
Qed.

Lemma bind_fatal {A B} (m : IRGen A) (k : A -> IRGen B) IGM :
  m IGM = None -> bind m k IGM = None.
Proof. intros Hm. unfold bind. by rewrite Hm. Qed.

(** X3.  An extension with a member that an extension may not have (an
    import, an enum case or element, top-level code, a protocol, an
    extension, a destructor, an operator, or a stored variable) is
    never lowered: wherever the member stands among the members, and
    whatever the emitters of the other members do, the compiler stops
    in [emitExtension]. *)
Theorem emitExtension_forbidden_member
    (ext : ExtensionDecl) (member : Decl) (IGM : IRGenModule) :
  member ∈ ExtensionDecl.getMembers ext ->
  allowedInExtension member = false ->
  emitExtension ext IGM = None.
Proof.
  intros Hin Hforbidden. unfold emitExtension. apply bind_fatal.
  apply (forEach_fatal _ _ member); [done|].
  intros IGM1. unfold emitExtensionMember, allowedInExtension in *.
  destruct (Decl.getKind member); try done. by rewrite Hforbidden.
Qed.

(** The declarations that stand at the top level of a source file. *)
Definition isGlobalDeclKind (k : DeclKind.t) : bool :=
  negb (bool_decide (k ∈ [DeclKind.Subscript; DeclKind.EnumCase;
                          DeclKind.EnumElement; DeclKind.Constructor;
                          DeclKind.Destructor])).

(** X4.  A source file with a subscript, an enum case or element, a
    constructor or a destructor among the declarations that are
    lowered is never lowered: the compiler stops in [emitSourceFile],
    whatever stands before or after that declaration and whatever the
    kind of the file. *)
Theorem emitSourceFile_invalid_global
    (SF : SourceFile) (StartElem : nat) (D : Decl) (IGM : IRGenModule) :
  D ∈ drop StartElem (SourceFile.Decls SF) ->
  isGlobalDeclKind (Decl.getKind D) = false ->
  emitSourceFile SF StartElem IGM = None.
Proof.
  intros Hin Hkind. unfold emitSourceFile. apply bind_fatal.
  unfold emitGlobalDecls. case_bool_decide; [|done].
  apply (forEach_fatal _ _ D); [done|].
  intros IGM1. unfold emitGlobalDecl.
  by destruct (Decl.getKind D).
Qed.

(** What may be an external definition: a function, a constructor, a
    struct, an enum, a class or a protocol. *)
Definition isExternalDefinitionKind (k : DeclKind.t) : bool :=
  bool_decide (k ∈ [DeclKind.Func; DeclKind.Constructor; DeclKind.Struct;
                    DeclKind.Enum; DeclKind.Class; DeclKind.Protocol]).

(** X5.  External definitions.  For an external class nothing is
    emitted at all.  A declaration of another kind than function,
    constructor, struct, enum, class or protocol is no external
    definition: [emitExternalDefinition] stops on it, and so does
    [emitGlobalTopLevel] when one is among the external definitions
    of the context, whatever the SIL module holds. *)
Theorem emitExternalDefinition_kinds (D : Decl) (IGM : IRGenModule) :
  (Decl.getKind D = DeclKind.Class ->
   emitExternalDefinition D IGM = Some (tt, IGM))
  /\ (isExternalDefinitionKind (Decl.getKind D) = false ->
      emitExternalDefinition D IGM = None
      /\ (D ∈ ExternalDefinitions -> emitGlobalTopLevel IGM = None)).
Proof.
  split.
  - intros Hk. unfold emitExternalDefinition. by rewrite Hk.
  - intros Hkind.
    assert (Hfatal : forall IGM1, emitExternalDefinition D IGM1 = None).
    { intros IGM1. unfold emitExternalDefinition.
      by destruct (Decl.getKind D). }
    split; [done|]. intros Hin. unfold emitGlobalTopLevel.
    unfold bind.
    destruct (forEach getGlobals _ IGM) as [[[] IGM1]|]; [|done].
    destruct (forEach getSILGlobals _ IGM1) as [[[] IGM2]|]; [|done].
    destruct (forEach getSILFunctions _ IGM2) as [[[] IGM3]|]; [|done].
    destruct EmitSILProtocolWitnessTables.
    + destruct (forEach getWitnessTableList _ IGM3) as [[[] IGM4]|];
        [|done].
      by apply (forEach_fatal _ _ D).
    + by apply (forEach_fatal _ _ D).
Qed.
End Dispatch.

(** ** Extensions that get no category *)

Section ExtensionProperties.
Context `{!EmitterHeader}.

Lemma protocolsRequireCategory_past_the_end protocols conformances i :
  i <= length conformances ->
  length conformances < i + length protocols ->
  (forall j protocol conformance,
      protocols !! j = Some protocol ->
      conformances !! (i + j) = Some conformance ->
      ~ ConformsToObjCProtocol protocol conformance) ->
  protocolsRequireCategory protocols conformances i = None.
Proof.
  revert i. induction protocols as [|p ps IH]; intros i Hi Hlen Hnone;
    simpl in *; [lia|].
  destruct (conformances !! i) as [c|] eqn:Hc; simpl; [|done].
  pose proof (lookup_lt_Some _ _ _ Hc) as Hlt.
  destruct (protocolExtensionRequiresCategory p c) eqn:Hreq.
  { apply protocolExtensionRequiresCategory_spec in Hreq.
    destruct (Hnone 0 p c); [done|by rewrite Nat.add_0_r|done]. }
  apply IH; [lia..|]. intros j p' c' Hp Hc'.
  apply (Hnone (S j)); [done|]. by rewrite Nat.add_succ_r.
Qed.

(** X6.  An extension of a class that is no Objective-C class, with
    more protocols than conformances, none of its conformances being
    to an Objective-C protocol (directly or through inherited
    conformances): the loop over the protocols reads past the end of
    the conformances, and the compiler stops. *)
Theorem emitExtension_missing_conformance
    (ext : ExtensionDecl) (origClass : Decl) (IGM : IRGenModule) :
  getClassOrBoundGenericClass (ExtensionDecl.getDeclaredTypeInContext ext)
    = Some origClass ->
  Decl.isObjC origClass = false ->
  length (ExtensionDecl.getConformances ext)
    < length (ExtensionDecl.getProtocols ext) ->
  (forall i protocol conformance,
      ExtensionDecl.getProtocols ext !! i = Some protocol ->
      ExtensionDecl.getConformances ext !! i = Some conformance ->
      ~ ConformsToObjCProtocol protocol conformance) ->
  emitExtension ext IGM = None.
Proof.
  intros Hclass HO Hlen Hnone. unfold emitExtension. rewrite Hclass, HO.
  unfold bind at 1.
  destruct (forEach _ _ IGM) as [[[] IGM1]|]; [|done].
  rewrite protocolsRequireCategory_past_the_end; [done|lia|simpl; lia|].
  intros j p c Hp Hc. by apply (Hnone j).
Qed.

(** X7.  An extension of a type that is no class (a struct, an enum)
    never gets a category, even when its members require Objective-C
    entry points or it conforms to Objective-C protocols: with members
    an extension may have, and emitters of the other files that leave
    the category lists alone, [emitExtension] returns and the lists are
    what they were. *)
Theorem emitExtension_not_of_class
    (ext : ExtensionDecl) (IGM : IRGenModule) :
  EmittersKeepCategories ->
  getClassOrBoundGenericClass (ExtensionDecl.getDeclaredTypeInContext ext)
    = None ->
  Forall (fun member => allowedInExtension member = true)
         (ExtensionDecl.getMembers ext) ->
  exists IGM',
    emitExtension ext IGM = Some (tt, IGM')
    /\ ObjCCategories IGM' = ObjCCategories IGM
    /\ ObjCCategoryDecls IGM' = ObjCCategoryDecls IGM.
Proof.
  intros HE Hclass Hmembers. unfold emitExtension. rewrite Hclass.
  destruct (emitExtensionMembers_keeps _ HE Hmembers IGM)
    as ([] & IGM1 & Hrun & HC & HD).
  exists IGM1. unfold bind. by rewrite Hrun.
Qed.
End ExtensionProperties.

(** ** The initializer of the classes, and units without top-level code *)

Section InitializerProperties.
Context `{!LinkingHeader} `{!LoweringHeader} `{!TargetHeader}
        `{!AddressHeader} `{!EmitterHeader} `{!ObjCHeader}.
Import llvm llvm_facts builder_facts post_facts.

(** X18.  The initializer of the classes, when
    [emitObjCClassInitializer] returns and the helpers of the other
    files behave.  The function is new: of internal linkage and type
    [void ()], and named _swift_initObjCClasses, made unique.  The
    selector is loaded right after the function has been created, and
    what that emitted is the prologue of the function; the message
    function is asked for next.  No handle of a class is null.  The
    function then receives one call for each class, in the order of
    the list: of the message function cast to the type of a function
    from an object and a selector, with the class cast to the type
    of objects as receiver, and with the loaded selector; and then
    [ret void].  So its body is one block: the prologue, the calls,
    the return.  The pending lists and the options are as they were,
    the values of the module are kept, and what is new is
    auxiliary. *)
Theorem emitObjCClassInitializer_sends_load
    (classes : list Constant) (IGM : IRGenModule)
    (initFn : nat) (IGM' : IRGenModule) :
  ObjCHelpersBehave ->
  emitObjCClassInitializer classes IGM = Some (initFn, IGM') ->
  exists loadSel IGM2 msgSendFn IGM3 prologue,
    let initgv :=
      initializerFunction "_swift_initObjCClasses" (TheModule IGM) in
    let sends :=
      map (sendLoad (TheModule IGM3) msgSendFn loadSel) classes in
    initFn = fresh (dom (values (TheModule IGM)))
    /\ values (TheModule IGM) !! initFn = None
    /\ emitObjCSelectorRefLoad initFn "load"
         (created (newFunction voidFnType InternalLinkage
                               "_swift_initObjCClasses") IGM)
       = Some (loadSel, IGM2)
    /\ values (TheModule IGM2) !! initFn
       = Some (withBody initgv (appendAll prologue []))
    /\ getObjCMsgSendFn IGM2 = Some (msgSendFn, IGM3)
    /\ Forall (liveHandle (TheModule IGM3)) classes
    /\ IGM' = emitted initFn (sends ++ [Ret None]) IGM3
    /\ values (TheModule IGM') !! initFn
       = Some (withBody initgv [prologue ++ sends ++ [Ret None]])
    /\ steady IGM IGM'
    /\ grows (TheModule IGM) (TheModule IGM').
Proof.
  intros helpers Hrun.
  destruct (emitObjCClassInitializer_synthesized _ _ _ _ helpers Hrun)
    as (_ & _ & Hgrows & _).
  apply emitObjCClassInitializer_inv in Hrun
    as (loadSel & IGM2 & msgSendFn & IGM3 & Hid & Hsel & Hsend & Hlive & _
        & HI).
  destruct (emitObjCClassInitializer_builds _ _ _ _ _ _ _ _
              helpers Hid Hsel Hsend HI)
    as (HS & Hfresh & prologue & Hprologue & HB).
  exists loadSel, IGM2, msgSendFn, IGM3, prologue. cbv zeta.
  split_and!; try done.
  destruct HB as (_ & -> & _). do 2 f_equal. simpl.
  apply appendAll_empty. intros Hnil.
  apply (f_equal length) in Hnil. rewrite !length_app in Hnil.
  simpl in Hnil. lia.
Qed.

(** X19.  A unit whose module has no function top_level_code after its
    declarations.  A unit that is not in script mode gets nothing
    besides its declarations: no initializer and no table of global
    constructors.  A unit in script mode still gets the entry
    function: its lowering returns when no initializer of the
    Objective-C runtime is called for, and, with helpers of the other
    files that behave, whenever it returns it has run [emitMain] step
    by step and the entry function stores the arguments, sets up the
    Objective-C runtime where that applies, with the initializers
    generated for it, and returns 0 without a call of top-level
    code. *)
Theorem emitSourceFile_without_top_level_code
    (SF : SourceFile) (StartElem : nat) (IGM0 IGM : IRGenModule) :
  emitGlobalDecls SF StartElem IGM0 = Some (tt, IGM) ->
  getFunction (TheModule IGM) "top_level_code" = None ->
  if SourceFile.isScriptMode SF then
    (classesAnnounced IGM = false -> categoriesAnnounced IGM = false ->
     is_Some (emitSourceFile SF StartElem IGM0))
    /\ (ObjCHelpersBehave ->
        forall IGM',
          emitSourceFile SF StartElem IGM0 = Some (tt, IGM') ->
          steady IGM IGM'
          /\ entryPointEmitted IGM None IGM'
          /\ exists argc argv classInit catInit,
               values (TheModule IGM')
                 !! fresh (dom (values (TheModule IGM)))
               = Some (withBody (entryFunction (TheModule IGM))
                         [marshalArguments argc argv
                          ++ runtimeSetup IGM classInit catInit
                          ++ [returnSuccess]]))
  else emitSourceFile SF StartElem IGM0 = Some (tt, IGM).
Proof.
  intros Hloop Htop.
  destruct (SourceFile.isScriptMode SF) eqn:Hscript.
  - split.
    + intros Hclasses Hcats.
      rewrite (emitSourceFile_entry _ _ _ _ Hloop Hscript).
      by apply emitMain_returns.
    + intros helpers IGM' Hrun.
      destruct (emitSourceFile_entryPointEmitted _ _ _ _ _ helpers
                  Hloop Hscript Hrun) as [HS Hemitted].
      rewrite Htop in Hemitted. split; [done|]. split; [done|].
      destruct Hemitted as (argc & argv & classInit & catInit & IGM1 & IGM2
                            & IGM3 & IGM4 & _ & Hbuilt).
      exists argc, argv, classInit, catInit.
      by destruct Hbuilt as [_ -> _ _ _ _].
  - unfold emitSourceFile.
    rewrite (bind_run _ _ _ _ _ Hloop).
    rewrite (bind_run _ _ _ _ _ (getModule_run IGM)). cbv beta zeta.
    by rewrite Htop, Hscript.
Qed.
End InitializerProperties.

(** ** Symbols of one kind under the name of another *)

Section CrossKind.
Import llvm llvm_facts post_facts create_facts.

Lemma uniqueName_taken tab n g :
  n <> "" -> tab !! n = Some g -> uniqueName tab n <> n.
Proof.
  intros Hne Hn E. destruct (uniqueName_fresh tab n) as [Hfree|Hempty].
  - rewrite E in Hfree. congruence.
  - done.
Qed.

Lemma lookupKind_other k M n g gv :
  symtab M !! n = Some g -> values M !! g = Some gv -> kind gv <> k ->
  lookupKind k M n = None.
Proof.
  intros Hn Hg Hk. unfold lookupKind, getNamedValue. rewrite Hn. simpl.
  rewrite Hg. simpl. by rewrite bool_decide_eq_false_2.
Qed.

(** X20.  A function requested under a name that a global variable of
    the module carries, and a variable requested under the name of a
    function: the lookup by kind finds nothing, so there is no
    diagnostic and the existing symbol is left as it is; the new symbol
    is created, with the requested type, but under another name: the
    requested name followed by what makes it unique. *)
Theorem cross_kind_collision_is_silent
    (link : LinkInfo) (ty : type) (cc : N) (attrs : list string)
    (IGM : IRGenModule) (existing : nat) (gv : GlobalValue) :
  symtab_ok (TheModule IGM) ->
  symtab (TheModule IGM) !! LinkInfo.getName link = Some existing ->
  values (TheModule IGM) !! existing = Some gv ->
  let outcome (k : ValueKind) (new : nat) (IGM' : IRGenModule) :=
    Diags IGM' = Diags IGM
    /\ new <> existing
    /\ values (TheModule IGM') !! existing = Some gv
    /\ exists newgv suffix,
         values (TheModule IGM') !! new = Some newgv
         /\ kind newgv = k
         /\ valueType newgv = ty
         /\ name newgv = LinkInfo.getName link +:+ suffix
         /\ name newgv <> LinkInfo.getName link in
  (kind gv = GlobalVariableKind ->
   exists fn IGM',
     LinkInfo_createFunction link ty cc attrs IGM = Some (fn, IGM')
     /\ outcome FunctionKind fn IGM')
  /\ (kind gv = FunctionKind ->
      exists var IGM',
        LinkInfo_createVariable link ty IGM = Some (var, IGM')
        /\ outcome GlobalVariableKind var IGM').
Proof.
  intros Hok Hname Hgv outcome.
  set (M := TheModule IGM) in *.
  assert (Hnonempty : LinkInfo.getName link <> "").
  { intros E. rewrite E in Hname.
    by rewrite (symtab_ok_no_empty_name _ Hok) in Hname. }
  set (new := fresh (dom (values M))).
  assert (Hfresh : values M !! new = None) by apply fresh_values.
  assert (Hne : new <> existing) by congruence.
  destruct (uniqueName_prefix (symtab M) (LinkInfo.getName link))
    as [suffix Hsuffix].
  pose proof (uniqueName_taken _ _ _ Hnonempty Hname) as Hother.
  split; intros Hkind.
  - unfold LinkInfo_createFunction. irgen_unfold. fold M.
    unfold getFunction.
    rewrite (lookupKind_other _ _ _ _ _ Hname Hgv) by congruence.
    simpl. fold M new.
    destruct (bool_decide (attrs = [])); simpl;
      (eexists new, _; split; [reflexivity|]; unfold outcome; simpl;
       split; [done|]; split; [done|]; split;
       [ rewrite ?lookup_alter_ne by done; by rewrite lookup_insert_ne
       | eexists _, suffix;
         rewrite ?lookup_alter_eq, lookup_insert_eq; simpl;
         split; [done|]; simpl; by rewrite <- Hsuffix ]).
  - unfold LinkInfo_createVariable. irgen_unfold. fold M.
    unfold getNamedGlobal.
    rewrite (lookupKind_other _ _ _ _ _ Hname Hgv) by congruence.
    simpl. fold M new.
    eexists new, _. split; [reflexivity|]. unfold outcome. simpl.
    split; [done|]. split; [done|]. split.
    + rewrite lookup_alter_ne by done. by rewrite lookup_insert_ne.
    + eexists _, suffix. rewrite lookup_alter_eq, lookup_insert_eq. simpl.
      split; [done|]. simpl. by rewrite <- Hsuffix.
Qed.

(** X21.  Whatever [createFunction] returns is a function of the
    requested type, and whatever [createVariable] returns is a global
    variable of the requested type, be it found under the name or
    created; the values that were in the module are still there with
    their kinds, types and alignments, and the caches and the pending
    lists are as they were. *)
Theorem created_symbol_has_requested_type
    (link : LinkInfo) (ty : type) (cc : N) (attrs : list string)
    (IGM : IRGenModule) :
  (forall fn IGM',
      LinkInfo_createFunction link ty cc attrs IGM = Some (fn, IGM') ->
      (exists gv, values (TheModule IGM') !! fn = Some gv
                  /\ kind gv = FunctionKind /\ valueType gv = ty)
      /\ keepsTypes (TheModule IGM) (TheModule IGM')
      /\ sameCaches IGM IGM')
  /\ (forall var IGM',
        LinkInfo_createVariable link ty IGM = Some (var, IGM') ->
        (exists gv, values (TheModule IGM') !! var = Some gv
                    /\ kind gv = GlobalVariableKind /\ valueType gv = ty)
        /\ keepsTypes (TheModule IGM) (TheModule IGM')
        /\ sameCaches IGM IGM').
Proof.
  split.
  - apply createFunction_result.
  - apply createVariable_result.
Qed.
End CrossKind.

(** ** The body of a trivial initializer *)

(** X22.  [isTrivialGlobalInit] by the body of the function: true on
    exactly one block with exactly one instruction, a return; false on
    more than one block, and on one block with more than one
    instruction; undefined on a function without blocks, on a single
    empty block, and on a single instruction that is no return (the
    assertion). *)
Theorem isTrivialGlobalInit_cases (fn : llvm.GlobalValue) :
  match isTrivialGlobalInit fn with
  | Some true => exists v, llvm.body fn = [[llvm.Ret v]]
  | Some false =>
      2 <= length (llvm.body fn)
      \/ exists entry, llvm.body fn = [entry] /\ 2 <= length entry
  | None =>
      llvm.body fn = [] \/ llvm.body fn = [[]]
      \/ exists i, llvm.body fn = [[i]] /\ forall v, i <> llvm.Ret v
  end.
Proof.
  unfold isTrivialGlobalInit.
  destruct (llvm.body fn) as [|entry blocks]; [by left|].
  case_bool_decide as Hblocks; simpl; [|left; destruct blocks; simpl; [done|lia]].
  subst blocks. destruct entry as [|front insts]; [by right; left|].
  case_bool_decide as Hinsts; simpl.
  - subst insts. destruct front; try (right; right; eexists; by split).
    by eexists.
  - right. eexists. split; [done|]. destruct insts; simpl; [done|lia].
Qed.

(** ** Cached results of name-lookup requests *)

Section RequestCaches.
Import NameLookupRequests.

(** X23.  The cache of the superclass request.  Caching a result in a
    class or protocol declaration makes it the cached result, the null
    pointer included: a class known to have no superclass is a hit.
    On a struct or an enum caching does nothing, and there is never a
    cached result.  The kind of the declaration is not touched. *)
Theorem SuperclassDeclRequest_cache_round_trip
    (value : option Ptr) (nominalDecl : NominalTypeDecl) :
  let cached := SuperclassDeclRequest_cacheResult value nominalDecl in
  kind cached = kind nominalDecl
  /\ if bool_decide (kind nominalDecl = NominalKind.Class)
        || bool_decide (kind nominalDecl = NominalKind.Protocol)
     then SuperclassDeclRequest_getCachedResult cached = Some value
     else cached = nominalDecl
          /\ SuperclassDeclRequest_getCachedResult nominalDecl = None.
Proof.
  unfold SuperclassDeclRequest_cacheResult,
    SuperclassDeclRequest_getCachedResult.
  destruct nominalDecl as [[] [p b]]; simpl; done.
Qed.

(** X24.  The cache of the extended-nominal request.  A result that is
    a declaration is cached and is then the cached result.  A null
    result is not recorded: the cache is what it was, so a miss stays a
    miss (the request is evaluated again) and an earlier result stays
    cached; and the cached result is never the null pointer. *)
Theorem ExtendedNominalRequest_cache
    (value : option Ptr) (ext : ExtensionDecl) :
  ExtendedNominalRequest_getCachedResult
    (ExtendedNominalRequest_cacheResult value ext)
  = match value with
    | Some nominal => Some (Some nominal)
    | None => ExtendedNominalRequest_getCachedResult ext
    end
  /\ (value = None -> ExtendedNominalRequest_cacheResult value ext = ext)
  /\ ExtendedNominalRequest_getCachedResult ext <> Some None.
Proof.
  destruct value as [nominal|], ext as [[old|]]; done.
Qed.
End RequestCaches.

(** ** One symbol per entity *)

Ltac irgen_unfold_in H :=
  cbv beta iota delta [bind ret get modify getModule createGlobal update deref
                       liftOption assert error fatal] in H.

Section OneSymbolPerEntity.
Context `{!LinkingHeader} `{!LoweringHeader} `{!TargetHeader}
        `{!AddressHeader}.
Import llvm llvm_facts rauw_facts cache_facts post_facts create_facts.

(** The requests for the address of an entity: the entry points of
    GenDecl.cpp that go through a cache keyed by the entity. *)
Inductive Request :=
| FunctionRequest (fn : FunctionRef) (extraData : ExtraData.t)
| FunctionAddressRequest (r : FunctionAddress)
| VariableRequest (entity : LinkEntity) (definitionType : option type)
                  (defaultType pointerToDefaultType : type)
| ObjCClassRequest (theClass : Decl)
| ObjCMetaclassRequest (theClass : Decl)
| SwiftMetaclassStubRequest (theClass : Decl)
| MetaclassObjectRequest (decl : Decl)
| TypeMetadataRequest (concreteType : CanType) (isIndirect isPattern : bool)
                      (storageType : option type)
| NominalTypeDescriptorRequest (D : Decl) (ty : type)
| ProtocolDescriptorRequest (D : Decl)
| TableRequest (table : WitnessTableAddress) (definitionType : option type)
| SimpleVariableRequest (entity : LinkEntity) (ty : type) (alignment : N)
| OffsetRequest (r : OffsetAddress)
| GlobalVariableRequest (var : ValueDecl).

(** What an entry point returns: a function, a constant, or an
    address with its alignment. *)
Inductive Result :=
| FunctionResult (f : nat)
| ConstantResult (c : Constant)
| AddressResult (a : Address).

Definition perform (r : Request) : IRGen Result :=
  match r with
  | FunctionRequest fn extraData =>
      f <- getAddrOfFunction fn extraData ;; ret (FunctionResult f)
  | FunctionAddressRequest r => f <- getAddrOf r ;; ret (FunctionResult f)
  | VariableRequest entity definitionType defaultType pointerToDefaultType =>
      c <- getAddrOfLLVMVariable entity definitionType defaultType
                                 pointerToDefaultType ;;
      ret (ConstantResult c)
  | ObjCClassRequest theClass =>
      c <- getAddrOfObjCClass theClass ;; ret (ConstantResult c)
  | ObjCMetaclassRequest theClass =>
      c <- getAddrOfObjCMetaclass theClass ;; ret (ConstantResult c)
  | SwiftMetaclassStubRequest theClass =>
      c <- getAddrOfSwiftMetaclassStub theClass ;; ret (ConstantResult c)
  | MetaclassObjectRequest decl =>
      c <- getAddrOfMetaclassObject decl ;; ret (ConstantResult c)
  | TypeMetadataRequest concreteType isIndirect isPattern storageType =>
      c <- getAddrOfTypeMetadata concreteType isIndirect isPattern
                                 storageType ;;
      ret (ConstantResult c)
  | NominalTypeDescriptorRequest D ty =>
      c <- getAddrOfNominalTypeDescriptor D ty ;; ret (ConstantResult c)
  | ProtocolDescriptorRequest D =>
      c <- getAddrOfProtocolDescriptor D ;; ret (ConstantResult c)
  | TableRequest table definitionType =>
      c <- getAddrOfTable table definitionType ;; ret (ConstantResult c)
  | SimpleVariableRequest entity ty alignment =>
      a <- getAddrOfSimpleVariable entity ty alignment ;;
      ret (AddressResult a)
  | OffsetRequest r => a <- getAddrOfOffset r ;; ret (AddressResult a)
  | GlobalVariableRequest var =>
      a <- getAddrOfGlobalVariable var ;; ret (AddressResult a)
  end.

(** How a request goes through the caches: through the cache of
    functions, with the type, the calling convention and the
    attributes of the function, when it has them; through
    [getAddrOfLLVMVariable], with the index of the adjustment of the
    result; through [getAddrOfSimpleVariable]; as a global variable of
    the program; through GenObjC (the descriptor of an Objective-C
    protocol); or not at all, when the assertion that guards the
    entry point fails. *)
Inductive Plan :=
| ThroughFunctions (entity : LinkEntity)
                   (lowered : option (type * N * list string))
| ThroughVariables (entity : LinkEntity) (definitionType : option type)
                   (defaultType pointerToDefaultType : type)
                   (adjustmentIndex : nat)
| ThroughSimple (entity : LinkEntity) (ty : type) (alignment : N)
| ThroughGlobal (var : ValueDecl)
| ThroughGenObjC (D : Decl)
| Stopped.

Definition loweredAs (silFn : SILDeclRef) (explosionLevel : ExplosionKind.t)
  : option (type * N * list string) :=
  let silFnType := getConstantFunctionType silFn in
  let '(fnType, attrs) :=
    getFunctionType silFnType explosionLevel ExtraData.None in
  Some (fnType, expandAbstractCC (getAbstractCC silFnType), attrs).

Definition functionPlan (r : FunctionAddress) : Plan :=
  match r with
  | InjectionFunction D =>
      let uncurryLevel := if hasArgumentType D then 1 else 0 in
      ThroughFunctions (functionEntity r)
        (loweredAs (SILDeclRef.mk D SILDeclRef.EnumElement
                                  (Some uncurryLevel) false)
                   ExplosionKind.Minimal)
  | Constructor ctor ctorKind explodeLevel =>
      ThroughFunctions (functionEntity r)
        (loweredAs (SILDeclRef.mk ctor (getSILDeclRefKind ctorKind)
                                  (Some 1) false)
                   explodeLevel)
  | Destructor cd kind =>
      ThroughFunctions (functionEntity r)
        (Some (if bool_decide (kind = DestructorKind.Deallocating)
               then DeallocatingDtorTy
               else FunctionTy RefCountedPtrTy
                      [getStorageType
                         (getTypeInfoForLowered
                            (getClassDeclaredTypeInContext cd))]
                      false,
               expandAbstractCC AbstractCC.Method, []))
  | ValueWitness abstractType index =>
      if isBoundGenericType abstractType then Stopped
      else
        ThroughFunctions (functionEntity r)
          (match getValueWitnessTy index with
           | PointerTy (FunctionTy _ _ _ as fnType) =>
               Some (fnType, RuntimeCC, [])
           | _ => None
           end)
  | Getter value explosionLevel =>
      ThroughFunctions (functionEntity r)
        (loweredAs (SILDeclRef.mk value SILDeclRef.Getter None false)
                   explosionLevel)
  | Setter value explosionLevel =>
      ThroughFunctions (functionEntity r)
        (loweredAs (SILDeclRef.mk value SILDeclRef.Setter None false)
                   explosionLevel)
  end.

Definition plan (r : Request) (IGM : IRGenModule) : Plan :=
  match r with
  | FunctionRequest fn extraData =>
      ThroughFunctions (forFunction fn) (Some (lowerFunctionRef fn extraData))
  | FunctionAddressRequest r => functionPlan r
  | VariableRequest entity definitionType defaultType pointerToDefaultType =>
      ThroughVariables entity definitionType defaultType
                       pointerToDefaultType 0
  | ObjCClassRequest theClass =>
      if ObjCInterop IGM
      then ThroughVariables (forObjCClass theClass)
             (Some TypeMetadataStructTy) TypeMetadataStructTy
             TypeMetadataPtrTy 0
      else Stopped
  | ObjCMetaclassRequest theClass =>
      if ObjCInterop IGM
      then ThroughVariables (forObjCMetaclass theClass)
             (Some ObjCClassStructTy) ObjCClassStructTy ObjCClassPtrTy 0
      else Stopped
  | SwiftMetaclassStubRequest theClass =>
      if ObjCInterop IGM
      then ThroughVariables (forSwiftMetaclassStub theClass)
             (Some ObjCClassStructTy) ObjCClassStructTy ObjCClassPtrTy 0
      else Stopped
  | MetaclassObjectRequest decl =>
      if ObjCInterop IGM
      then ThroughVariables (metaclassEntity decl)
             (Some ObjCClassStructTy) ObjCClassStructTy ObjCClassPtrTy 0
      else Stopped
  | TypeMetadataRequest concreteType isIndirect isPattern storageType =>
      if isPattern || negb (isUnboundGenericType concreteType) then
        let '(defaultVarTy, defaultVarPtrTy, adjustmentIndex, ObjCClass) :=
          metadataLayout concreteType isIndirect isPattern in
        ThroughVariables
          (match ObjCClass with
           | Some ObjCClass => forObjCClass ObjCClass
           | None => forTypeMetadata concreteType isIndirect isPattern
           end)
          storageType defaultVarTy defaultVarPtrTy adjustmentIndex
      else Stopped
  | NominalTypeDescriptorRequest D ty =>
      ThroughVariables (forNominalTypeDescriptor D) (Some ty) ty
                       (PointerTy ty) 0
  | ProtocolDescriptorRequest D =>
      if Decl.isObjC D then ThroughGenObjC D
      else ThroughVariables (forProtocolDescriptor D)
             (Some ProtocolDescriptorStructTy) ProtocolDescriptorStructTy
             (PointerTy ProtocolDescriptorStructTy) 0
  | TableRequest table definitionType =>
      ThroughVariables (tableEntity table) definitionType WitnessTableTy
                       WitnessTablePtrTy 0
  | SimpleVariableRequest entity ty alignment =>
      ThroughSimple entity ty alignment
  | OffsetRequest r =>
      ThroughSimple (offsetEntity r) (SizeTy IGM) getPointerAlignment
  | GlobalVariableRequest var => ThroughGlobal var
  end.

(** A function through the cache of functions. *)
Definition cachedFunction (entity : LinkEntity)
    (lowered : option (type * N * list string)) : IRGen nat :=
  IGM <- get ;;
  match GlobalFuncs IGM !! entity with
  | Some entry => ret entry
  | None =>
      l <- liftOption lowered ;;
      link <- liftOption (LinkInfo_get entity) ;;
      entry <- LinkInfo_createFunction link l.1.1 l.1.2 l.2 ;;
      modify (withGlobalFuncs <[entity := entry]>) ;;
      ret entry
  end.

(** The adjustment of the address of type metadata. *)
Definition adjusted (adjustmentIndex : nat) (storageType : option type)
    (addr : Constant) : Constant :=
  if bool_decide (adjustmentIndex <> 0) && bool_decide (storageType = None)
  then getInBoundsGetElementPtr addr
         [ConstantInt Int32Ty 0;
          ConstantInt Int32Ty (Z.of_nat adjustmentIndex)]
  else addr.

Definition follow (p : Plan) : IRGen Result :=
  match p with
  | ThroughFunctions entity lowered =>
      f <- cachedFunction entity lowered ;; ret (FunctionResult f)
  | ThroughVariables entity definitionType defaultType pointerToDefaultType
                     adjustmentIndex =>
      c <- getAddrOfLLVMVariable entity definitionType defaultType
                                 pointerToDefaultType ;;
      ret (ConstantResult (adjusted adjustmentIndex definitionType c))
  | ThroughSimple entity ty alignment =>
      a <- getAddrOfSimpleVariable entity ty alignment ;;
      ret (AddressResult a)
  | ThroughGlobal var =>
      a <- getAddrOfGlobalVariable var ;; ret (AddressResult a)
  | ThroughGenObjC D =>
      c <- getAddrOfObjCProtocolRecord D ;; ret (ConstantResult c)
  | Stopped => fatal
  end.

(** Every entry point follows its plan. *)
Lemma perform_plan r IGM : perform r IGM = follow (plan r IGM) IGM.
Proof.
  destruct r as [fn extraData|fa|entity definitionType defaultType
                 pointerToDefaultType|theClass|theClass|theClass|decl
                 |concreteType isIndirect isPattern storageType|D ty|D
                 |table definitionType|entity ty alignment|o|var];
    simpl.
  - unfold getAddrOfFunction, cachedFunction. irgen_unfold.
    destruct (GlobalFuncs IGM !! forFunction fn); [reflexivity|].
    destruct (lowerFunctionRef fn extraData) as [[fnType cc] attrs].
    reflexivity.
  - destruct fa as [D|ctor ctorKind explodeLevel|cd kind|abstractType index
                    |value explosionLevel|value explosionLevel];
      simpl;
      unfold getAddrOfInjectionFunction, getAddrOfConstructor,
        getAddrOfDestructor, getAddrOfValueWitness, getAddrOfGetter,
        getAddrOfSetter, cachedFunction, loweredAs, CodeRef.forEnumElement,
        CodeRef.forConstructor, CodeRef.forGetter, CodeRef.forSetter;
      irgen_unfold.
    + destruct (GlobalFuncs IGM !! _); [reflexivity|].
      destruct (getFunctionType _ _ _) as [fnType attrs]. reflexivity.
    + destruct (GlobalFuncs IGM !! _); [reflexivity|].
      destruct (getFunctionType _ _ _) as [fnType attrs]. reflexivity.
    + destruct (GlobalFuncs IGM !! _); [reflexivity|]. simpl.
      destruct (LinkInfo_get _); reflexivity.
    + destruct (isBoundGenericType abstractType); [reflexivity|]. simpl.
      unfold cachedFunction. irgen_unfold.
      destruct (GlobalFuncs IGM !! _); [reflexivity|].
      destruct (getValueWitnessTy index) as [| |elt| | | |];
        try reflexivity.
      destruct elt; reflexivity.
    + destruct (GlobalFuncs IGM !! _); [reflexivity|].
      destruct (getFunctionType _ _ _) as [fnType attrs]. reflexivity.
    + destruct (GlobalFuncs IGM !! _); [reflexivity|].
      destruct (getFunctionType _ _ _) as [fnType attrs]. reflexivity.
  - unfold adjusted. simpl. unfold bind, ret.
    by destruct (getAddrOfLLVMVariable _ _ _ _ IGM) as [[c IGM']|].
  - unfold getAddrOfObjCClass, bind, get, assert, ret, fatal.
    destruct (ObjCInterop IGM); [|reflexivity]. unfold adjusted. simpl.
    unfold bind, ret.
    by destruct (getAddrOfLLVMVariable _ _ _ _ IGM) as [[c IGM']|].
  - unfold getAddrOfObjCMetaclass, bind, get, assert, ret, fatal.
    destruct (ObjCInterop IGM); [|reflexivity]. unfold adjusted. simpl.
    unfold bind, ret.
    by destruct (getAddrOfLLVMVariable _ _ _ _ IGM) as [[c IGM']|].
  - unfold getAddrOfSwiftMetaclassStub, bind, get, assert, ret, fatal.
    destruct (ObjCInterop IGM); [|reflexivity]. unfold adjusted. simpl.
    unfold bind, ret.
    by destruct (getAddrOfLLVMVariable _ _ _ _ IGM) as [[c IGM']|].
  - unfold getAddrOfMetaclassObject, metaclassEntity,
      getAddrOfObjCMetaclass, getAddrOfSwiftMetaclassStub.
    destruct (Decl.isObjC decl || Decl.hasClangNode decl);
      unfold bind, get, assert, ret, fatal;
      (destruct (ObjCInterop IGM); [|reflexivity]); unfold adjusted; simpl;
      unfold bind, ret;
      by destruct (getAddrOfLLVMVariable _ _ _ _ IGM) as [[c IGM']|].
  - unfold getAddrOfTypeMetadata. irgen_unfold.
    destruct (isPattern || negb (isUnboundGenericType concreteType));
      [|reflexivity].
    destruct (metadataLayout concreteType isIndirect isPattern)
      as [[[defaultVarTy defaultVarPtrTy] adjustmentIndex] ObjCClass].
    simpl. unfold adjusted, bind, ret.
    destruct (getAddrOfLLVMVariable _ _ _ _ IGM) as [[c IGM']|];
      [|reflexivity].
    by destruct (bool_decide (adjustmentIndex <> 0)
                 && bool_decide (storageType = None)).
  - unfold getAddrOfNominalTypeDescriptor, adjusted. simpl.
    unfold bind, ret.
    by destruct (getAddrOfLLVMVariable _ _ _ _ IGM) as [[c IGM']|].
  - unfold getAddrOfProtocolDescriptor.
    destruct (Decl.isObjC D); [reflexivity|]. unfold adjusted. simpl.
    unfold bind, ret.
    by destruct (getAddrOfLLVMVariable _ _ _ _ IGM) as [[c IGM']|].
  - unfold adjusted. simpl. unfold bind, ret.
    destruct table; simpl;
      unfold getAddrOfValueWitnessTable, getAddrOfWitnessTable;
      by destruct (getAddrOfLLVMVariable _ _ _ _ IGM) as [[c IGM']|].
  - reflexivity.
  - unfold bind. by rewrite getAddrOfOffset_unfold.
  - reflexivity.
Qed.

(** *** Where a symbol comes from *)

Definition collisionWith (k : ValueKind) : string :=
  match k with
  | FunctionKind => "function"
  | GlobalVariableKind => "variable"
  end.

(** What [createFunction] and [createVariable] have done when they
    return [g]: the symbol table is consistent, the caches and the
    handles are as they were, the values of the module have kept
    their kinds and types, and [g] is a symbol of the requested kind
    and type.  When a symbol of that kind carried the name: if it had
    the requested type, it is [g] and nothing has changed; otherwise
    there was a collision.  When none did, [g] is new: it is the
    requested symbol, under the name made unique. *)
Definition obtained (k : ValueKind) (link : LinkInfo) (ty : type)
    (requested : GlobalValue) (g : nat) (IGM IGM1 : IRGenModule) : Prop :=
  symtab_ok (TheModule IGM1)
  /\ sameCaches IGM IGM1
  /\ keepsTypes (TheModule IGM) (TheModule IGM1)
  /\ (exists gv, values (TheModule IGM1) !! g = Some gv
                 /\ kind gv = k /\ valueType gv = ty)
  /\ match lookupKind k (TheModule IGM) (LinkInfo.getName link) with
     | Some existing =>
         exists gv0,
           values (TheModule IGM) !! existing = Some gv0
           /\ if decide (valueType gv0 = ty)
              then g = existing /\ IGM1 = IGM
              else collisionOutcome (collisionWith k) k link ty
                                    existing gv0 IGM g IGM1
     | None =>
         values (TheModule IGM) !! g = None
         /\ values (TheModule IGM1)
            = <[g := withName requested
                       (uniqueName (symtab (TheModule IGM))
                                   (LinkInfo.getName link))]>
                (values (TheModule IGM))
         /\ Diags IGM1 = Diags IGM
     end.

Lemma createVariable_obtained link ty IGM g IGM1 :
  symtab_ok (TheModule IGM) ->
  LinkInfo_createVariable link ty IGM = Some (g, IGM1) ->
  obtained GlobalVariableKind link ty (createdVariable link ty) g IGM IGM1.
Proof.
  intros HM Hrun.
  destruct (createVariable_result link ty IGM g IGM1 Hrun)
    as (Hg & HK & HS).
  unfold obtained. change (lookupKind GlobalVariableKind) with getNamedGlobal.
  destruct (getNamedGlobal (TheModule IGM) (LinkInfo.getName link))
    as [existing|] eqn:Hfound.
  - destruct (lookupKind_Some _ _ _ _ HM Hfound)
      as (gv0 & Hgv0 & Hname & Hne & Hkind).
    destruct (name_collision_recovers link ty 0 [] IGM existing gv0 HM Hgv0)
      as [_ Hvariable].
    destruct (Hvariable Hfound) as [Hsame Hother].
    destruct (decide (valueType gv0 = ty)) as [Hty|Hty].
    + rewrite (Hsame Hty) in Hrun. injection Hrun as <- <-.
      split_and!; try done. exists gv0. split; [done|].
      by rewrite decide_True.
    + destruct (Hother Hty) as (var & IGM2 & Hrun' & Hout).
      rewrite Hrun' in Hrun. injection Hrun as <- <-.
      split_and!; try done.
      * by destruct Hout as (_ & _ & _ & _ & _ & _ & Hok & _).
      * exists gv0. split; [done|]. by rewrite decide_False.
  - unfold LinkInfo_createVariable in Hrun. irgen_unfold_in Hrun.
    rewrite Hfound in Hrun. simpl in Hrun. injection Hrun as <- <-.
    split_and!; try done.
    + apply (alter_symtab_ok _ _ (mkModule _ _)); [done|].
      apply (create_symtab_ok
               (newGlobalVariable ty false (LinkInfo.getLinkage link) None
                                  (LinkInfo.getName link)) _ HM).
    + apply fresh_values.
    + simpl. by rewrite alter_insert_eq.
Qed.

Lemma createFunction_obtained link ty cc attrs IGM g IGM1 :
  symtab_ok (TheModule IGM) ->
  LinkInfo_createFunction link ty cc attrs IGM = Some (g, IGM1) ->
  obtained FunctionKind link ty (createdFunction link ty cc attrs)
           g IGM IGM1.
Proof.
  intros HM Hrun.
  destruct (createFunction_result link ty cc attrs IGM g IGM1 Hrun)
    as (Hg & HK & HS).
  unfold obtained. change (lookupKind FunctionKind) with getFunction.
  destruct (getFunction (TheModule IGM) (LinkInfo.getName link))
    as [existing|] eqn:Hfound.
  - destruct (lookupKind_Some _ _ _ _ HM Hfound)
      as (gv0 & Hgv0 & Hname & Hne & Hkind).
    destruct (name_collision_recovers link ty cc attrs IGM existing gv0
                HM Hgv0) as [Hfunction _].
    destruct (Hfunction Hfound) as [Hsame Hother].
    destruct (decide (valueType gv0 = ty)) as [Hty|Hty].
    + rewrite (Hsame Hty) in Hrun. injection Hrun as <- <-.
      split_and!; try done. exists gv0. split; [done|].
      by rewrite decide_True.
    + destruct (Hother Hty) as (var & IGM2 & Hrun' & Hout).
      rewrite Hrun' in Hrun. injection Hrun as <- <-.
      split_and!; try done.
      * by destruct Hout as (_ & _ & _ & _ & _ & _ & Hok & _).
      * exists gv0. split; [done|]. by rewrite decide_False.
  - unfold LinkInfo_createFunction in Hrun. irgen_unfold_in Hrun.
    rewrite Hfound in Hrun. simpl in Hrun.
    pose proof (create_symtab_ok
                  (newFunction ty (LinkInfo.getLinkage link)
                               (LinkInfo.getName link)) _ HM) as Hok.
    unfold createdFunction.
    destruct (bool_decide (attrs = [])); simpl in Hrun;
      injection Hrun as <- <-; (split_and!; try done);
      first [apply fresh_values
            |simpl; by rewrite !alter_insert_eq
            |repeat (apply (alter_symtab_ok _ _ (mkModule _ _)); [done|]);
             exact Hok].
Qed.

(** *** What a request leaves behind *)

Inductive Cache := Functions | Variables.

Definition cacheOf (p : Plan) : Cache :=
  match p with ThroughFunctions _ _ => Functions | _ => Variables end.

Definition otherCache (c : Cache) : Cache :=
  match c with Functions => Variables | Variables => Functions end.

Definition lookupIn (c : Cache) (IGM : IRGenModule) : gmap LinkEntity nat :=
  match c with
  | Functions => GlobalFuncs IGM
  | Variables => GlobalVars IGM
  end.

Definition cacheSymbol (c : Cache) (K : LinkEntity) (g : nat)
    (IGM : IRGenModule) : IRGenModule :=
  match c with
  | Functions => withGlobalFuncs <[K := g]> IGM
  | Variables => withGlobalVars <[K := g]> IGM
  end.

Definition kindOf (c : Cache) : ValueKind :=
  match c with
  | Functions => FunctionKind
  | Variables => GlobalVariableKind
  end.

(** The entity of a plan that goes through a cache. *)
Definition entityOf (p : Plan) : option LinkEntity :=
  match p with
  | ThroughFunctions entity _ | ThroughVariables entity _ _ _ _
  | ThroughSimple entity _ _ => Some entity
  | ThroughGlobal var => Some (forNonFunction (ValueDecl.asDecl var))
  | ThroughGenObjC _ | Stopped => None
  end.

Definition storageOf (var : ValueDecl) : type :=
  getStorageType (getTypeInfoForUnlowered (ValueDecl.getType var)).

(** The symbol a plan asks for when the entity is not cached. *)
Definition requestedSymbol (p : Plan) (link : LinkInfo)
  : option (type * GlobalValue) :=
  match p with
  | ThroughFunctions _ lowered =>
      l ← lowered;
      Some (l.1.1, createdFunction link l.1.1 l.1.2 l.2)
  | ThroughVariables _ definitionType defaultType _ _ =>
      let ty := default defaultType definitionType in
      Some (ty, createdVariable link ty)
  | ThroughSimple _ ty _ => Some (ty, createdVariable link ty)
  | ThroughGlobal var =>
      Some (storageOf var, createdVariable link (storageOf var))
  | ThroughGenObjC _ | Stopped => None
  end.

Definition createSymbol (p : Plan) (link : LinkInfo) : IRGen nat :=
  match p with
  | ThroughFunctions _ (Some l) =>
      LinkInfo_createFunction link l.1.1 l.1.2 l.2
  | ThroughVariables _ definitionType defaultType _ _ =>
      LinkInfo_createVariable link (default defaultType definitionType)
  | ThroughSimple _ ty _ => LinkInfo_createVariable link ty
  | ThroughGlobal var => LinkInfo_createVariable link (storageOf var)
  | _ => fatal
  end.

(** What is set on a new symbol before it is cached. *)
Definition finishSymbol (p : Plan) (g : nat) (IGM : IRGenModule)
  : IRGenModule :=
  match p with
  | ThroughSimple _ _ alignment =>
      updated g (setAlignment alignment) (updated g (setConstant true) IGM)
  | ThroughGlobal var =>
      updated g
        (setAlignment
           (Address.getAlignment
              (getAddressForPointer
                 (getTypeInfoForUnlowered (ValueDecl.getType var))
                 (GlobalRef g))))
        IGM
  | _ => IGM
  end.

(** The result of a request that has created, adopted or redefined
    the symbol [g]. *)
Definition resultOnMiss (p : Plan) (g : nat) : Result :=
  match p with
  | ThroughVariables _ definitionType _ _ adjustmentIndex =>
      ConstantResult (adjusted adjustmentIndex definitionType (GlobalRef g))
  | ThroughSimple _ _ alignment =>
      AddressResult (Address.mk (GlobalRef g) alignment)
  | ThroughGlobal var =>
      AddressResult
        (getAddressForPointer
           (getTypeInfoForUnlowered (ValueDecl.getType var)) (GlobalRef g))
  | _ => FunctionResult g
  end.

(** The result of a request that finds the symbol [g0], which is
    [gv0], cached: a function as it is, whatever type the request
    lowers to; a variable requested without a definition type cast to
    the pointer type of the request, where its type is another; a
    variable requested with one as it is. *)
Definition resultOnHit (p : Plan) (M : IRModule) (g0 : nat)
    (gv0 : option GlobalValue) : Result :=
  match p with
  | ThroughVariables _ None _ pointerToDefaultType adjustmentIndex =>
      ConstantResult
        (adjusted adjustmentIndex None
           (getBitCast M (GlobalRef g0) pointerToDefaultType))
  | ThroughVariables _ (Some _) _ _ _ => ConstantResult (GlobalRef g0)
  | ThroughSimple _ _ alignment =>
      AddressResult (Address.mk (GlobalRef g0) alignment)
  | ThroughGlobal _ =>
      AddressResult
        (Address.mk (GlobalRef g0) (default 0%N (alignment <$> gv0)))
  | _ => FunctionResult g0
  end.

(** What a request asserts of the cached symbol: a request with a
    definition type, that the symbol has the pointer type of the
    request; a request for a simple variable, its alignment; and a
    request that reads the symbol, that it is in the module. *)
Definition hitAsserts (p : Plan) (gv0 : option GlobalValue) : Prop :=
  match p with
  | ThroughVariables _ (Some _) _ pointerToDefaultType _ =>
      exists gv, gv0 = Some gv /\ getType gv = pointerToDefaultType
  | ThroughSimple _ _ alignment =>
      exists gv, gv0 = Some gv /\ llvm.alignment gv = alignment
  | ThroughGlobal _ => is_Some gv0
  | _ => True
  end.

(** The request supplies a definition type that differs from the
    default type. *)
Definition redefines (p : Plan) : bool :=
  match p with
  | ThroughVariables _ (Some definitionType) defaultType _ _ =>
      negb (bool_decide (definitionType = defaultType))
  | _ => false
  end.

(** What the first request for the entity [K] has done: the linkage of
    the entity is defined; [g] is what [createFunction] or
    [createVariable] returned for it from [IGM]; and the state is the
    state after that, with what the entry point sets on the symbol and
    with the entity cached. *)
Definition firstRequest (p : Plan) (K : LinkEntity) (g : nat)
    (IGM : IRGenModule) (result : Result) (IGM' : IRGenModule) : Prop :=
  exists link ty requested IGM1,
    LinkInfo_get K = Some link
    /\ requestedSymbol p link = Some (ty, requested)
    /\ createSymbol p link IGM = Some (g, IGM1)
    /\ obtained (kindOf (cacheOf p)) link ty requested g IGM IGM1
    /\ IGM' = cacheSymbol (cacheOf p) K g (finishSymbol p g IGM1)
    /\ result = resultOnMiss p g.

(** What a request that replaces the cached declaration [g0] of the
    entity [K] has done: [g0] has given up its name; [g] is what
    [createVariable] returned then, a global variable [g] of the
    definition type that is not [g0]; the uses of [g0], in the module
    and in the handles, have become uses of [g] cast to the pointer
    type of the request; [g0] has been erased, and nothing refers to
    it; and when [g] was created, the module has as many values as it
    had. *)
Definition spliced (p : Plan) (K : LinkEntity) (g0 g : nat)
    (IGM : IRGenModule) (result : Result) (IGM' : IRGenModule) : Prop :=
  exists link ty requested IGM1,
    let renamed := withModule (setName g0 "") IGM in
    let castVar :=
      match p with
      | ThroughVariables _ _ _ pointerToDefaultType _ =>
          getBitCast (TheModule IGM1) (GlobalRef g) pointerToDefaultType
      | _ => GlobalRef g
      end in
    LinkInfo_get K = Some link
    /\ requestedSymbol p link = Some (ty, requested)
    /\ LinkInfo_createVariable link ty renamed = Some (g, IGM1)
    /\ obtained GlobalVariableKind link ty requested g renamed IGM1
    /\ IGM' = withGlobalVars <[K := g]>
                (withModule (eraseFromParent g0)
                   (withHandles (replaceInConstant g0 castVar)
                      (withModule (llvm.replaceAllUsesWith g0 castVar)
                                  IGM1)))
    /\ result = resultOnMiss p g
    /\ g <> g0
    /\ values (TheModule IGM') !! g0 = None
    /\ (exists gv, values (TheModule IGM') !! g = Some gv
                   /\ kind gv = GlobalVariableKind /\ valueType gv = ty)
    /\ (forall g', g' <> g0 ->
          values (TheModule IGM') !! g'
          = replaceInGlobal g0 castVar <$> values (TheModule IGM1) !! g')
    /\ (forall g' gv', values (TheModule IGM') !! g' = Some gv' ->
                       globalRefersTo g0 gv' = false)
    /\ (forall c, c ∈ LLVMUsed IGM' ++ ObjCClasses IGM' ++ ObjCCategories IGM'
                  -> refersTo g0 c = false)
    /\ (lookupKind GlobalVariableKind (TheModule renamed)
                   (LinkInfo.getName link) = None ->
        values (TheModule IGM) !! g = None
        /\ size (values (TheModule IGM')) = size (values (TheModule IGM))).

(** Later requests for an entity that is cached with [g]: for a
    function, whatever the extra data; for a variable without a
    definition type, whatever the types. *)
Definition laterRequests (c : Cache) (K : LinkEntity) (g : nat)
    (IGM : IRGenModule) : Prop :=
  match c with
  | Functions =>
      forall fn extraData,
        forFunction fn = K ->
        getAddrOfFunction fn extraData IGM = Some (g, IGM)
  | Variables =>
      forall defaultType pointerToDefaultType,
        getAddrOfLLVMVariable K None defaultType pointerToDefaultType IGM
        = Some (getBitCast (TheModule IGM) (GlobalRef g)
                           pointerToDefaultType, IGM)
  end.

Lemma laterRequests_cached c K g IGM :
  lookupIn c IGM !! K = Some g -> laterRequests c K g IGM.
Proof.
  destruct c; simpl; intros Hg.
  - intros fn extraData <-. unfold getAddrOfFunction. irgen_unfold.
    by rewrite Hg.
  - intros defaultType pointerToDefaultType.
    unfold getAddrOfLLVMVariable. irgen_unfold. by rewrite Hg.
Qed.

(** The request has settled the entity [K] with the symbol [g]. *)
Definition settled (p : Plan) (K : LinkEntity) (g : nat)
    (IGM : IRGenModule) (result : Result) (IGM' : IRGenModule) : Prop :=
  lookupIn (cacheOf p) IGM' = <[K := g]> (lookupIn (cacheOf p) IGM)
  /\ lookupIn (otherCache (cacheOf p)) IGM'
     = lookupIn (otherCache (cacheOf p)) IGM
  /\ symtab_ok (TheModule IGM')
  /\ laterRequests (cacheOf p) K g IGM'
  /\ match lookupIn (cacheOf p) IGM !! K with
     | None => firstRequest p K g IGM result IGM'
     | Some g0 =>
         let gv0 := values (TheModule IGM) !! g0 in
         hitAsserts p gv0
         /\ if redefines p then spliced p K g0 g IGM result IGM'
            else g = g0 /\ IGM' = IGM
                 /\ result = resultOnHit p (TheModule IGM) g0 gv0
     end.

(** *** The creation of a symbol returns *)

Lemma createVariable_returns link ty IGM :
  symtab_ok (TheModule IGM) ->
  exists g IGM1, LinkInfo_createVariable link ty IGM = Some (g, IGM1).
Proof.
  intros HM.
  destruct (getNamedGlobal (TheModule IGM) (LinkInfo.getName link))
    as [existing|] eqn:Hfound.
  - destruct (lookupKind_Some _ _ _ _ HM Hfound) as (gv0 & Hgv0 & _).
    destruct (name_collision_recovers link ty 0 [] IGM existing gv0 HM Hgv0)
      as [_ Hvariable].
    destruct (Hvariable Hfound) as [Hsame Hother].
    destruct (decide (valueType gv0 = ty)) as [Hty|Hty].
    + rewrite (Hsame Hty). eauto.
    + destruct (Hother Hty) as (var & IGM2 & -> & _). eauto.
  - unfold LinkInfo_createVariable. irgen_unfold. rewrite Hfound. simpl.
    eauto.
Qed.

Lemma createFunction_returns link ty cc attrs IGM :
  symtab_ok (TheModule IGM) ->
  exists g IGM1,
    LinkInfo_createFunction link ty cc attrs IGM = Some (g, IGM1).
Proof.
  intros HM.
  destruct (getFunction (TheModule IGM) (LinkInfo.getName link))
    as [existing|] eqn:Hfound.
  - destruct (lookupKind_Some _ _ _ _ HM Hfound) as (gv0 & Hgv0 & _).
    destruct (name_collision_recovers link ty cc attrs IGM existing gv0
                HM Hgv0) as [Hfunction _].
    destruct (Hfunction Hfound) as [Hsame Hother].
    destruct (decide (valueType gv0 = ty)) as [Hty|Hty].
    + rewrite (Hsame Hty). eauto.
    + destruct (Hother Hty) as (var & IGM2 & -> & _). eauto.
  - unfold LinkInfo_createFunction. irgen_unfold. rewrite Hfound. simpl.
    destruct (bool_decide (attrs = [])); simpl; eauto.
Qed.

Lemma createSymbol_returns p link ty requested IGM :
  symtab_ok (TheModule IGM) ->
  requestedSymbol p link = Some (ty, requested) ->
  exists g IGM1, createSymbol p link IGM = Some (g, IGM1).
Proof.
  intros HM Hreq.
  destruct p as [entity [l|]|entity definitionType defaultType
                 pointerToDefaultType adjustmentIndex|entity ty' alignment
                 |var|D|]; simpl in *; try done;
    first [by apply createFunction_returns|by apply createVariable_returns].
Qed.

Lemma createSymbol_obtained p link ty requested IGM g IGM1 :
  symtab_ok (TheModule IGM) ->
  requestedSymbol p link = Some (ty, requested) ->
  createSymbol p link IGM = Some (g, IGM1) ->
  obtained (kindOf (cacheOf p)) link ty requested g IGM IGM1.
Proof.
  intros HM Hreq Hrun.
  destruct p as [entity [l|]|entity definitionType defaultType
                 pointerToDefaultType adjustmentIndex|entity ty' alignment
                 |var|D|]; simpl in *; try done;
    injection Hreq as <- <-;
    first [by apply createFunction_obtained
          |by apply createVariable_obtained].
Qed.

(** *** The first request *)

Lemma follow_miss p K link ty requested g IGM IGM1 :
  entityOf p = Some K ->
  lookupIn (cacheOf p) IGM !! K = None ->
  LinkInfo_get K = Some link ->
  requestedSymbol p link = Some (ty, requested) ->
  createSymbol p link IGM = Some (g, IGM1) ->
  follow p IGM
  = Some (resultOnMiss p g,
          cacheSymbol (cacheOf p) K g (finishSymbol p g IGM1)).
Proof.
  intros HK Hmiss Hlink Hreq Hrun.
  destruct p as [entity [l|]|entity definitionType defaultType
                 pointerToDefaultType adjustmentIndex|entity ty' alignment
                 |var|D|]; simpl in *; try done;
    injection HK as <-.
  - unfold cachedFunction. irgen_unfold. rewrite Hmiss. simpl.
    rewrite Hlink. simpl. by rewrite Hrun.
  - unfold getAddrOfLLVMVariable. irgen_unfold. rewrite Hmiss. simpl.
    rewrite Hlink. simpl. by rewrite Hrun.
  - unfold getAddrOfSimpleVariable. irgen_unfold. rewrite Hmiss.
    rewrite Hlink. simpl. by rewrite Hrun.
  - unfold getAddrOfGlobalVariable. irgen_unfold. rewrite Hmiss.
    rewrite Hlink. simpl. unfold storageOf in Hrun. by rewrite Hrun.
Qed.

Lemma follow_miss_inv p K IGM result IGM' :
  entityOf p = Some K ->
  lookupIn (cacheOf p) IGM !! K = None ->
  follow p IGM = Some (result, IGM') ->
  exists link ty requested g IGM1,
    LinkInfo_get K = Some link
    /\ requestedSymbol p link = Some (ty, requested)
    /\ createSymbol p link IGM = Some (g, IGM1)
    /\ IGM' = cacheSymbol (cacheOf p) K g (finishSymbol p g IGM1)
    /\ result = resultOnMiss p g.
Proof.
  intros HK Hmiss Hrun.
  destruct p as [entity lowered|entity definitionType defaultType
                 pointerToDefaultType adjustmentIndex|entity ty' alignment
                 |var|D|]; simpl in *; try done;
    injection HK as <-.
  - unfold cachedFunction in Hrun. irgen_unfold_in Hrun.
    rewrite Hmiss in Hrun. destruct lowered as [l|]; simpl in Hrun; [|done].
    destruct (LinkInfo_get entity) as [link|]; simpl in Hrun; [|done].
    destruct (LinkInfo_createFunction _ _ _ _ IGM) as [[g IGM1]|] eqn:Hc;
      simpl in Hrun; [|done].
    injection Hrun as <- <-. by eexists link, _, _, g, IGM1.
  - unfold getAddrOfLLVMVariable in Hrun. irgen_unfold_in Hrun.
    rewrite Hmiss in Hrun. simpl in Hrun.
    destruct (LinkInfo_get entity) as [link|]; simpl in Hrun; [|done].
    destruct (LinkInfo_createVariable _ _ IGM) as [[g IGM1]|] eqn:Hc;
      simpl in Hrun; [|done].
    injection Hrun as <- <-. by eexists link, _, _, g, IGM1.
  - unfold getAddrOfSimpleVariable in Hrun. irgen_unfold_in Hrun.
    rewrite Hmiss in Hrun.
    destruct (LinkInfo_get entity) as [link|]; simpl in Hrun; [|done].
    destruct (LinkInfo_createVariable _ _ IGM) as [[g IGM1]|] eqn:Hc;
      simpl in Hrun; [|done].
    injection Hrun as <- <-. by eexists link, _, _, g, IGM1.
  - unfold getAddrOfGlobalVariable in Hrun. irgen_unfold_in Hrun.
    rewrite Hmiss in Hrun.
    destruct (LinkInfo_get _) as [link|]; simpl in Hrun; [|done].
    destruct (LinkInfo_createVariable _ _ IGM) as [[g IGM1]|] eqn:Hc;
      simpl in Hrun; [|done].
    injection Hrun as <- <-. by eexists link, _, _, g, IGM1.
Qed.

(** *** A later request *)

Lemma adjusted_defined adjustmentIndex ty c :
  adjusted adjustmentIndex (Some ty) c = c.
Proof. unfold adjusted. by rewrite andb_false_r. Qed.

Lemma follow_hit p K g0 IGM :
  entityOf p = Some K ->
  lookupIn (cacheOf p) IGM !! K = Some g0 ->
  redefines p = false ->
  hitAsserts p (values (TheModule IGM) !! g0) ->
  follow p IGM
  = Some (resultOnHit p (TheModule IGM) g0 (values (TheModule IGM) !! g0),
          IGM).
Proof.
  intros HK Hhit Hre Hassert.
  destruct p as [entity lowered|entity definitionType defaultType
                 pointerToDefaultType adjustmentIndex|entity ty' alignment
                 |var|D|]; simpl in *; try done;
    injection HK as <-.
  - unfold cachedFunction. irgen_unfold. by rewrite Hhit.
  - unfold getAddrOfLLVMVariable. irgen_unfold. rewrite Hhit.
    destruct definitionType as [definitionType|]; simpl; [|done].
    destruct Hassert as (gv & -> & Hty). simpl.
    rewrite (bool_decide_eq_true_2 _ Hty). simpl.
    apply negb_false_iff in Hre. rewrite Hre. simpl.
    by rewrite adjusted_defined.
  - unfold getAddrOfSimpleVariable. irgen_unfold. rewrite Hhit.
    destruct Hassert as (gv & -> & Hal). simpl.
    by rewrite bool_decide_eq_true_2.
  - unfold getAddrOfGlobalVariable. irgen_unfold. rewrite Hhit.
    by destruct Hassert as (gv & ->).
Qed.

Lemma follow_hit_inv p K g0 IGM result IGM' :
  entityOf p = Some K ->
  lookupIn (cacheOf p) IGM !! K = Some g0 ->
  redefines p = false ->
  follow p IGM = Some (result, IGM') ->
  hitAsserts p (values (TheModule IGM) !! g0)
  /\ IGM' = IGM
  /\ result = resultOnHit p (TheModule IGM) g0
                          (values (TheModule IGM) !! g0).
Proof.
  intros HK Hhit Hre Hrun.
  destruct p as [entity lowered|entity definitionType defaultType
                 pointerToDefaultType adjustmentIndex|entity ty' alignment
                 |var|D|]; simpl in *; try done;
    injection HK as <-.
  - unfold cachedFunction in Hrun. irgen_unfold_in Hrun.
    rewrite Hhit in Hrun. by injection Hrun as <- <-.
  - unfold getAddrOfLLVMVariable in Hrun. irgen_unfold_in Hrun.
    rewrite Hhit in Hrun.
    destruct definitionType as [definitionType|]; simpl in Hrun;
      [|by injection Hrun as <- <-].
    destruct (values (TheModule IGM) !! g0) as [gv|]; simpl in Hrun;
      [|done].
    case_bool_decide as Hty; simpl in Hrun; [|done].
    apply negb_false_iff in Hre. rewrite Hre in Hrun. simpl in Hrun.
    injection Hrun as <- <-. rewrite adjusted_defined. eauto.
  - unfold getAddrOfSimpleVariable in Hrun. irgen_unfold_in Hrun.
    rewrite Hhit in Hrun.
    destruct (values (TheModule IGM) !! g0) as [gv|]; simpl in Hrun;
      [|done].
    case_bool_decide as Hal; simpl in Hrun; [|done].
    injection Hrun as <- <-. eauto.
  - unfold getAddrOfGlobalVariable in Hrun. irgen_unfold_in Hrun.
    rewrite Hhit in Hrun.
    destruct (values (TheModule IGM) !! g0) as [gv|]; simpl in Hrun;
      [|done].
    injection Hrun as <- <-. eauto.
Qed.

(** *** A later request that redefines the symbol *)

Lemma redefines_inv p :
  redefines p = true ->
  exists entity definitionType defaultType pointerToDefaultType
         adjustmentIndex,
    p = ThroughVariables entity (Some definitionType) defaultType
                         pointerToDefaultType adjustmentIndex
    /\ definitionType <> defaultType.
Proof.
  destruct p as [entity lowered|entity [definitionType|] defaultType
                 pointerToDefaultType adjustmentIndex|entity ty' alignment
                 |var|D|]; simpl; try done.
  intros Hne. apply negb_true_iff, bool_decide_eq_false in Hne.
  by eexists _, _, _, _, _.
Qed.

(** The state after the cached declaration [g0] has been replaced by
    [g], cast to [ptr], in the state [IGM1] that has [g]. *)
Definition replaced (K : LinkEntity) (g0 g : nat) (ptr : type)
    (IGM1 : IRGenModule) : IRGenModule :=
  let castVar := getBitCast (TheModule IGM1) (GlobalRef g) ptr in
  withGlobalVars <[K := g]>
    (withModule (eraseFromParent g0)
       (withHandles (replaceInConstant g0 castVar)
          (withModule (llvm.replaceAllUsesWith g0 castVar) IGM1))).

Lemma follow_splice K dt defT ptr adj g0 gv0 link g IGM IGM1 :
  GlobalVars IGM !! K = Some g0 ->
  dt <> defT ->
  values (TheModule IGM) !! g0 = Some gv0 ->
  getType gv0 = ptr ->
  LinkInfo_get K = Some link ->
  LinkInfo_createVariable link dt (withModule (setName g0 "") IGM)
  = Some (g, IGM1) ->
  follow (ThroughVariables K (Some dt) defT ptr adj) IGM
  = Some (ConstantResult (GlobalRef g), replaced K g0 g ptr IGM1).
Proof.
  intros Hhit Hne Hgv0 Hty Hlink Hrun. simpl.
  unfold getAddrOfLLVMVariable. irgen_unfold. rewrite Hhit. simpl.
  rewrite Hgv0. simpl. rewrite (bool_decide_eq_true_2 _ Hty). simpl.
  rewrite (bool_decide_eq_false_2 _ Hne). simpl. rewrite Hlink. simpl.
  rewrite Hrun. by rewrite adjusted_defined.
Qed.

Lemma follow_splice_inv K dt defT ptr adj g0 IGM result IGM' :
  GlobalVars IGM !! K = Some g0 ->
  dt <> defT ->
  follow (ThroughVariables K (Some dt) defT ptr adj) IGM
  = Some (result, IGM') ->
  exists gv0 link g IGM1,
    values (TheModule IGM) !! g0 = Some gv0
    /\ getType gv0 = ptr
    /\ LinkInfo_get K = Some link
    /\ LinkInfo_createVariable link dt (withModule (setName g0 "") IGM)
       = Some (g, IGM1)
    /\ IGM' = replaced K g0 g ptr IGM1
    /\ result = ConstantResult (GlobalRef g).
Proof.
  intros Hhit Hne Hrun. simpl in Hrun.
  unfold getAddrOfLLVMVariable in Hrun. irgen_unfold_in Hrun.
  rewrite Hhit in Hrun. simpl in Hrun.
  destruct (values (TheModule IGM) !! g0) as [gv0|]; simpl in Hrun; [|done].
  case_bool_decide as Hty; simpl in Hrun; [|done].
  rewrite (bool_decide_eq_false_2 _ Hne) in Hrun. simpl in Hrun.
  destruct (LinkInfo_get K) as [link|]; simpl in Hrun; [|done].
  destruct (LinkInfo_createVariable link dt _) as [[g IGM1]|] eqn:Hc;
    simpl in Hrun; [|done].
  injection Hrun as <- <-. rewrite adjusted_defined.
  by eexists gv0, link, g, IGM1.
Qed.

Lemma setName_empty_lookup g0 gv0 M :
  values M !! g0 = Some gv0 ->
  values (setName g0 "" M) = <[g0 := withName gv0 ""]> (values M).
Proof. intros Hg0. unfold setName. by rewrite Hg0. Qed.

(** A symbol that has been obtained is not a symbol without a name
    that was there. *)
Lemma obtained_named k link ty requested g IGM IGM1 g0 gv0 :
  symtab_ok (TheModule IGM) ->
  obtained k link ty requested g IGM IGM1 ->
  values (TheModule IGM) !! g0 = Some gv0 -> name gv0 = "" -> g <> g0.
Proof.
  intros HM (_ & _ & _ & _ & Hcase) Hg0 Hname ->.
  destruct (lookupKind k (TheModule IGM) (LinkInfo.getName link))
    as [existing|] eqn:Hfound.
  - destruct (lookupKind_Some _ _ _ _ HM Hfound)
      as (gv & Hgv & Hn & Hne & _).
    destruct Hcase as (gv' & Hgv' & Hcase).
    destruct (decide (valueType gv' = ty)).
    + destruct Hcase as [-> _]. congruence.
    + destruct Hcase as (_ & _ & _ & Hnew & _). congruence.
  - destruct Hcase as [Hnew _]. congruence.
Qed.

Lemma splice_facts K dt defT ptr adj g0 gv0 link g IGM IGM1 :
  symtab_ok (TheModule IGM) ->
  values (TheModule IGM) !! g0 = Some gv0 ->
  LinkInfo_get K = Some link ->
  LinkInfo_createVariable link dt (withModule (setName g0 "") IGM)
  = Some (g, IGM1) ->
  symtab_ok (TheModule (replaced K g0 g ptr IGM1))
  /\ GlobalVars (replaced K g0 g ptr IGM1) = <[K := g]> (GlobalVars IGM)
  /\ GlobalFuncs (replaced K g0 g ptr IGM1) = GlobalFuncs IGM
  /\ spliced (ThroughVariables K (Some dt) defT ptr adj) K g0 g IGM
             (ConstantResult (GlobalRef g)) (replaced K g0 g ptr IGM1).
Proof.
  intros HM Hg0 Hlink Hrun.
  set (renamed := withModule (setName g0 "") IGM) in *.
  assert (HMr : symtab_ok (TheModule renamed))
    by by apply setName_symtab_ok.
  assert (Hvr : values (TheModule renamed)
                = <[g0 := withName gv0 ""]> (values (TheModule IGM)))
    by by apply setName_empty_lookup.
  assert (Hg0r : values (TheModule renamed) !! g0 = Some (withName gv0 ""))
    by by rewrite Hvr, lookup_insert_eq.
  pose proof (createVariable_obtained _ _ _ _ _ HMr Hrun) as Hob.
  assert (Hne : g <> g0)
    by exact (obtained_named _ _ _ _ _ _ _ _ _ HMr Hob Hg0r eq_refl).
  destruct Hob as (HM1 & HS & HK & (gv & Hgv & Hkind & Hty) & Hcase).
  destruct (HK _ _ Hg0r) as (gv1 & Hg01 & _).
  set (castVar := getBitCast (TheModule IGM1) (GlobalRef g) ptr).
  assert (Hcast : refersTo g0 castVar = false)
    by (apply getBitCast_refersTo; congruence).
  assert (Hlookup : forall g', g' <> g0 ->
            values (TheModule (replaced K g0 g ptr IGM1)) !! g'
            = replaceInGlobal g0 castVar <$> values (TheModule IGM1) !! g').
  { intros g' Hg'. simpl. rewrite eraseFromParent_lookup by done.
    apply replaceAllUsesWith_lookup. }
  destruct HS as (HGV & HGF & _ & HU & HC & HCat & _).
  split_and!.
  - simpl. by apply eraseFromParent_symtab_ok, replaceAllUsesWith_symtab_ok.
  - simpl. by rewrite HGV.
  - simpl. by rewrite HGF.
  - exists link, dt, (createdVariable link dt), IGM1. cbv zeta.
    fold renamed. fold castVar. split_and!; try done.
    + by apply createVariable_obtained.
    + simpl. by rewrite adjusted_defined.
    + simpl. unfold eraseFromParent.
      rewrite replaceAllUsesWith_lookup, Hg01. simpl.
      apply lookup_delete_eq.
    + rewrite (Hlookup g Hne), Hgv. simpl. eexists. split; [done|].
      by split.
    + intros g' gv' Hgv'. simpl in Hgv'.
      apply eraseFromParent_lookup_Some in Hgv'.
      rewrite replaceAllUsesWith_lookup in Hgv'.
      destruct (values (TheModule IGM1) !! g'); [|done].
      simpl in Hgv'. injection Hgv' as <-. by apply replaceInGlobal_gone.
    + intros c Hc. simpl in Hc. rewrite <- !fmap_app in Hc.
      apply list_elem_of_fmap in Hc as (c' & -> & _).
      by apply replaceInConstant_gone.
    + intros Hfree. rewrite Hfree in Hcase.
      destruct Hcase as (Hnew & Hvalues & _).
      assert (Hg : values (TheModule IGM) !! g = None).
      { rewrite Hvr in Hnew. apply lookup_insert_None in Hnew. tauto. }
      split; [done|]. simpl. unfold eraseFromParent.
      rewrite replaceAllUsesWith_lookup, Hg01. simpl.
      erewrite map_size_delete_Some; last first.
      { by rewrite lookup_fmap, Hg01. }
      rewrite map_size_fmap, Hvalues, map_size_insert_None by done.
      rewrite Hvr, map_size_insert_Some by done. done.
Qed.

(** *** When a request is answered *)

(** A request is answered when, the entity not being cached, it has a
    linkage and the function a type; and when, the entity being
    cached, what the entry point asserts of the cached symbol holds,
    and the entity has a linkage where the symbol is redefined. *)
Definition answered (p : Plan) (K : LinkEntity) (IGM : IRGenModule)
  : Prop :=
  match lookupIn (cacheOf p) IGM !! K with
  | None =>
      exists link, LinkInfo_get K = Some link
                   /\ is_Some (requestedSymbol p link)
  | Some g0 =>
      hitAsserts p (values (TheModule IGM) !! g0)
      /\ (redefines p = true -> is_Some (LinkInfo_get K))
  end.

Lemma cacheSymbol_lookup c K g IGM :
  lookupIn c (cacheSymbol c K g IGM) = <[K := g]> (lookupIn c IGM)
  /\ lookupIn (otherCache c) (cacheSymbol c K g IGM)
     = lookupIn (otherCache c) IGM
  /\ TheModule (cacheSymbol c K g IGM) = TheModule IGM.
Proof. by destruct c. Qed.

Lemma finishSymbol_facts p g IGM :
  (symtab_ok (TheModule IGM) -> symtab_ok (TheModule (finishSymbol p g IGM)))
  /\ GlobalVars (finishSymbol p g IGM) = GlobalVars IGM
  /\ GlobalFuncs (finishSymbol p g IGM) = GlobalFuncs IGM.
Proof.
  destruct p; simpl; split_and!; try done; intros HM;
    repeat (apply (alter_symtab_ok _ _ (mkModule _ _)); [done|]); done.
Qed.

Lemma follow_settles p K IGM result IGM' :
  symtab_ok (TheModule IGM) ->
  entityOf p = Some K ->
  follow p IGM = Some (result, IGM') ->
  exists g, settled p K g IGM result IGM'.
Proof.
  intros HM HK Hrun. unfold settled.
  destruct (lookupIn (cacheOf p) IGM !! K) as [g0|] eqn:Hcached.
  - destruct (redefines p) eqn:Hre.
    + destruct (redefines_inv p Hre)
        as (entity & dt & defT & ptr & adj & -> & Hne).
      simpl in HK. injection HK as ->. simpl in Hcached.
      destruct (follow_splice_inv _ _ _ _ _ _ _ _ _ Hcached Hne Hrun)
        as (gv0 & link & g & IGM1 & Hgv0 & Hty & Hlink & Hc & -> & ->).
      destruct (splice_facts K dt defT ptr adj g0 gv0 link g IGM IGM1
                  HM Hgv0 Hlink Hc) as (HM' & HGV & HGF & Hs).
      exists g. split_and!; try done.
      * apply laterRequests_cached. simpl. apply lookup_insert_eq.
      * exists gv0. by rewrite Hgv0.
    + destruct (follow_hit_inv _ _ _ _ _ _ HK Hcached Hre Hrun)
        as (Hassert & -> & ->).
      exists g0. split_and!; try done.
      * by rewrite insert_id.
      * by apply laterRequests_cached.
  - destruct (follow_miss_inv _ _ _ _ _ HK Hcached Hrun)
      as (link & ty & requested & g & IGM1 & Hlink & Hreq & Hc & -> & ->).
    pose proof (createSymbol_obtained _ _ _ _ _ _ _ HM Hreq Hc) as Hob.
    destruct (cacheSymbol_lookup (cacheOf p) K g (finishSymbol p g IGM1))
      as (Hl1 & Hl2 & HT).
    destruct (finishSymbol_facts p g IGM1) as (Hf1 & Hf2 & Hf3).
    destruct Hob as (HM1 & HS & Hrest).
    pose proof HS as (HGV & HGF & _).
    exists g. split_and!.
    + rewrite Hl1. destruct (cacheOf p); simpl; congruence.
    + rewrite Hl2. destruct (cacheOf p); simpl; congruence.
    + rewrite HT. by apply Hf1.
    + apply laterRequests_cached. rewrite Hl1. apply lookup_insert_eq.
    + by exists link, ty, requested, IGM1.
Qed.

Lemma follow_answers p K IGM :
  symtab_ok (TheModule IGM) ->
  entityOf p = Some K ->
  answered p K IGM <-> is_Some (follow p IGM).
Proof.
  intros HM HK. unfold answered. split.
  - destruct (lookupIn (cacheOf p) IGM !! K) as [g0|] eqn:Hcached.
    + intros [Hassert Hlink]. destruct (redefines p) eqn:Hre.
      * destruct (redefines_inv p Hre)
          as (entity & dt & defT & ptr & adj & -> & Hne).
        simpl in HK. injection HK as ->. simpl in Hcached.
        destruct (Hlink eq_refl) as [link Hl].
        destruct Hassert as (gv0 & Hgv0 & Hty).
        destruct (createVariable_returns link dt
                    (withModule (setName g0 "") IGM)) as (g & IGM1 & Hc).
        { by apply setName_symtab_ok. }
        by rewrite (follow_splice _ _ _ _ adj _ _ _ _ _ _
                      Hcached Hne Hgv0 Hty Hl Hc).
      * by rewrite (follow_hit _ _ _ _ HK Hcached Hre Hassert).
    + intros (link & Hlink & [[ty requested] Hreq]).
      destruct (createSymbol_returns _ _ _ _ _ HM Hreq) as (g & IGM1 & Hc).
      by rewrite (follow_miss _ _ _ _ _ _ _ _ HK Hcached Hlink Hreq Hc).
  - intros [[result IGM'] Hrun].
    destruct (lookupIn (cacheOf p) IGM !! K) as [g0|] eqn:Hcached.
    + destruct (redefines p) eqn:Hre.
      * destruct (redefines_inv p Hre)
          as (entity & dt & defT & ptr & adj & -> & Hne).
        simpl in HK. injection HK as ->. simpl in Hcached.
        destruct (follow_splice_inv _ _ _ _ _ _ _ _ _ Hcached Hne Hrun)
          as (gv0 & link & g & IGM1 & Hgv0 & Hty & Hlink & _).
        split; [by exists gv0|]. by rewrite Hlink.
      * destruct (follow_hit_inv _ _ _ _ _ _ HK Hcached Hre Hrun)
          as (Hassert & _). by split.
    + destruct (follow_miss_inv _ _ _ _ _ HK Hcached Hrun)
        as (link & ty & requested & g & IGM1 & Hlink & Hreq & _).
      exists link. by rewrite Hreq.
Qed.

Lemma plan_GenObjC r IGM D :
  plan r IGM = ThroughGenObjC D ->
  r = ProtocolDescriptorRequest D /\ Decl.isObjC D = true.
Proof.
  destruct r as [fn extraData|fa|entity definitionType defaultType
                 pointerToDefaultType|theClass|theClass|theClass|decl
                 |concreteType isIndirect isPattern storageType|D' ty|D'
                 |table definitionType|entity ty alignment|o|var];
    simpl; try done;
    try (by destruct (ObjCInterop IGM)).
  - destruct fa; simpl; try done.
    by destruct (isBoundGenericType _).
  - destruct (isPattern || negb (isUnboundGenericType concreteType));
      [|done].
    by destruct (metadataLayout concreteType isIndirect isPattern)
      as [[[defaultVarTy defaultVarPtrTy] adjustmentIndex] ObjCClass].
  - destruct (Decl.isObjC D') eqn:HD; [|done]. by intros [= ->].
Qed.

(** C1.  A request for the address of an entity, through any of the
    entry points, in a module whose symbol table is consistent.  When
    the entry point goes through a cache with the entity [K], the
    request returns exactly when it is answered; and when it returns,
    one symbol [g] is cached for [K] and for [K] alone, the other
    cache is as it was, the symbol table is consistent, and later
    requests for [K] return [g]: a function as it is, whatever type
    they lower to, and a variable cast to the pointer type they ask
    for.  The first request takes what [createFunction] or
    [createVariable] returns: the symbol of that kind that carries the
    name, when it has the requested type; a new symbol after a
    diagnostic, when it has another; and otherwise a new symbol under
    the name made unique.  A later request returns the cached symbol
    and changes nothing, unless it supplies a definition type that
    differs from the default type: then the cached symbol gives up its
    name, all its uses become uses of the symbol that [createVariable]
    returns, cast, and it is erased.  An entry point that goes through
    no cache stops at its assertion, or is the descriptor of an
    Objective-C protocol, which GenObjC makes. *)
Theorem one_symbol_per_entity (r : Request) (IGM : IRGenModule) :
  symtab_ok (TheModule IGM) ->
  match entityOf (plan r IGM) with
  | Some K =>
      (answered (plan r IGM) K IGM <-> is_Some (perform r IGM))
      /\ forall result IGM',
           perform r IGM = Some (result, IGM') ->
           exists g, settled (plan r IGM) K g IGM result IGM'
  | None =>
      (plan r IGM = Stopped /\ perform r IGM = None)
      \/ exists D,
           r = ProtocolDescriptorRequest D /\ Decl.isObjC D = true
           /\ perform r IGM
              = (c <- getAddrOfObjCProtocolRecord D ;;
                 ret (ConstantResult c)) IGM
  end.
Proof.
  intros HM. rewrite perform_plan.
  destruct (entityOf (plan r IGM)) as [K|] eqn:HK.
  - split; [by apply follow_answers|].
    intros result IGM' Hrun. by apply follow_settles.
  - destruct (plan r IGM) as [| | | |D|] eqn:Hp; simpl in HK; try done.
    + right. exists D. destruct (plan_GenObjC _ _ _ Hp) as [-> HD]. done.
    + by left.
Qed.
End OneSymbolPerEntity.

(** * Sample inputs *)

(** A sample of what Linking.h provides: a mangler that numbers the
    entities, and the classification of the kinds. *)
Definition sampleLinking : LinkingHeader := {|
  mangle e := "_T" +:+ pretty (Npos (encode e));
  isValueWitness e :=
    bool_decide (LinkEntity.getKind e = Kind.ValueWitness)
    || bool_decide (LinkEntity.getKind e = Kind.ValueWitnessTable);
  isDeclKind k :=
    bool_decide (k ∈ [Kind.WitnessTableOffset; Kind.Constructor;
                      Kind.Destructor; Kind.Function; Kind.Getter;
                      Kind.Setter; Kind.Other; Kind.ObjCClass;
                      Kind.ObjCMetaclass; Kind.SwiftMetaclassStub;
                      Kind.FieldOffset; Kind.NominalTypeDescriptor;
                      Kind.ProtocolDescriptor;
                      Kind.DebuggerDeclTypeMangling]);
  isProtocolConformanceKind k :=
    bool_decide (k ∈ [Kind.DirectProtocolWitnessTable;
                      Kind.LazyProtocolWitnessTableAccessor;
                      Kind.DependentProtocolWitnessTableGenerator;
                      Kind.LazyProtocolWitnessTableTemplate;
                      Kind.DependentProtocolWitnessTableTemplate]);
  isTypeKind k :=
    bool_decide (k ∈ [Kind.ValueWitness; Kind.ValueWitnessTable;
                      Kind.TypeMetadata; Kind.TypeMangling;
                      Kind.DebuggerTypeMangling;
                      Kind.BridgeToBlockConverter]);
  isLocalContext DC :=
    bool_decide (getContextKind DC ∈
                   [DeclContextKind.AbstractClosureExpr;
                    DeclContextKind.Initializer;
                    DeclContextKind.TopLevelCodeDecl;
                    DeclContextKind.AbstractFunctionDecl]);
  inClangModuleUnit DC := false
|}.

(** A lowering that gives every function the IR type [void ()]. *)
Definition sampleLowering : LoweringHeader := {|
  forFunction fn :=
    LinkEntity.mk (DeclPointer (FunctionRef.getDecl fn)) Kind.Function
                  (N.of_nat (FunctionRef.getUncurryLevel fn));
  forObjCClass D := LinkEntity.mk (DeclPointer D) Kind.ObjCClass 0;
  forTypeMetadata T isIndirect isPattern :=
    LinkEntity.mk (TypePointer T) Kind.TypeMetadata
                  (if isIndirect then 1 else if isPattern then 2 else 0);
  lowerFunctionRef _ _ := (llvm.FunctionTy llvm.VoidTy [] false, 0%N, []);
  hasKnownSwiftMetadata D := negb (Decl.hasClangNode D)
|}.

Definition sampleModuleDC : DeclContext :=
  SubDC DeclContextKind.FileUnit 2 (ModuleDC 1).

Definition sampleFunction : Decl :=
  Decl.mk 20 DeclKind.Func sampleModuleDC false false false.

Definition sampleClass : Decl :=
  Decl.mk 21 DeclKind.Class sampleModuleDC false false false.

Definition sampleExtensionDecl : Decl :=
  Decl.mk 22 DeclKind.Extension sampleModuleDC false false false.

(** Emitters for a small world: a class is emitted as one global variable
    for its metadata, which is added to the Objective-C class list; the
    other emitters emit nothing; members marked [isObjC] require an
    Objective-C entry point; and every extension extends [sampleClass]
    with one such method. *)
Definition sampleEmitter : EmitterHeader := {|
  emitEnumDecl _ := ret tt;
  emitStructDecl _ := ret tt;
  emitClassDecl _ :=
    (var <- createGlobal (newGlobalVariable (llvm.StructTy "objc_class")
                            false ExternalLinkage None "OBJC_CLASS_$_C") ;;
     addObjCClass (llvm.GlobalRef var));
  emitProtocolDecl _ := ret tt;
  emitLocalDecls _ := ret tt;
  emitCategoryData _ := ret (llvm.ConstantStruct []);
  requiresObjCMethodDescriptor := Decl.isObjC;
  requiresObjCPropertyDescriptor := Decl.isObjC;
  requiresObjCSubscriptDescriptor := Decl.isObjC;
  castExtensionDecl D :=
    ExtensionDecl.mk D
      [Decl.mk 23 DeclKind.Func sampleModuleDC true false false] [] []
      (NominalType NominalKind.Class sampleClass None)
|}.

Definition voidFunctionTy : llvm.type := llvm.FunctionTy llvm.VoidTy [] false.

(** A mangler that names an entity by its kind and the address of what
    it points to; the rest is as in [sampleLinking]. *)
Definition entityAddress (e : LinkEntity) : N :=
  match LinkEntity.Pointer e with
  | DeclPointer D => Decl.addr D
  | ConformancePointer C => C
  | ExprPointer E => E
  | _ => 0
  end.

Definition plainLinking : LinkingHeader := {|
  mangle e := "_T" +:+ pretty (Npos (encode (LinkEntity.getKind e)))
              +:+ "_" +:+ pretty (entityAddress e);
  isValueWitness := @isValueWitness sampleLinking;
  isDeclKind := @isDeclKind sampleLinking;
  isProtocolConformanceKind := @isProtocolConformanceKind sampleLinking;
  isTypeKind := @isTypeKind sampleLinking;
  isLocalContext := @isLocalContext sampleLinking;
  inClangModuleUnit := @inClangModuleUnit sampleLinking
|}.

(** A target with pointers of eight bytes. *)
Definition sampleTarget : TargetHeader := {|
  getPointerAlignment := 8;
  getPointerSize := 8
|}.

(** Entities by kind, every function of type [void ()], every variable
    stored as an [i64] at alignment 8. *)
Definition sampleAddress : AddressHeader := {|
  forCodeRef code :=
    LinkEntity.mk (DeclPointer (CodeRef.getDecl code))
                  (match CodeRef.kind code with
                   | CodeRef.Getter => Kind.Getter
                   | CodeRef.Setter => Kind.Setter
                   | CodeRef.Constructor => Kind.Constructor
                   | _ => Kind.Function
                   end)
                  (N.of_nat (CodeRef.getUncurryLevel code));
  forConstructor code ctorKind :=
    LinkEntity.mk (DeclPointer (CodeRef.getDecl code)) Kind.Constructor
                  (match ctorKind with
                   | ConstructorKind.Allocating => 0
                   | ConstructorKind.Initializing => 1
                   end);
  forDestructor D kind :=
    LinkEntity.mk (DeclPointer D) Kind.Destructor
                  (match kind with
                   | DestructorKind.Deallocating => 0
                   | DestructorKind.Destroying => 1
                   end);
  forValueWitness T index :=
    LinkEntity.mk (TypePointer T) Kind.ValueWitness (N.of_nat index);
  forValueWitnessTable T := LinkEntity.mk (TypePointer T) Kind.ValueWitnessTable 0;
  forNonFunction D := LinkEntity.mk (DeclPointer D) Kind.Other 0;
  forObjCMetaclass D := LinkEntity.mk (DeclPointer D) Kind.ObjCMetaclass 0;
  forSwiftMetaclassStub D :=
    LinkEntity.mk (DeclPointer D) Kind.SwiftMetaclassStub 0;
  forNominalTypeDescriptor D :=
    LinkEntity.mk (DeclPointer D) Kind.NominalTypeDescriptor 0;
  forProtocolDescriptor D :=
    LinkEntity.mk (DeclPointer D) Kind.ProtocolDescriptor 0;
  forWitnessTableOffset D _ uncurryLevel :=
    LinkEntity.mk (DeclPointer D) Kind.WitnessTableOffset
                  (N.of_nat uncurryLevel);
  forFieldOffset D isIndirect :=
    LinkEntity.mk (DeclPointer D) Kind.FieldOffset
                  (if isIndirect then 1 else 0);
  forDirectProtocolWitnessTable C :=
    LinkEntity.mk (ConformancePointer C) Kind.DirectProtocolWitnessTable 0;
  forTypeMangling T := LinkEntity.mk (TypePointer T) Kind.TypeMangling 0;
  SILFunctionType := unit;
  getConstantFunctionType _ := tt;
  getAbstractCC _ := AbstractCC.Freestanding;
  getFunctionType _ _ _ := (voidFunctionTy, []);
  expandAbstractCC _ := 0%N;
  hasArgumentType _ := false;
  getClassDeclaredTypeInContext D := NominalType NominalKind.Class D None;
  TypeInfo := llvm.type;
  getTypeInfoForUnlowered _ := llvm.IntegerTy 64;
  getTypeInfoForLowered _ := llvm.IntegerTy 64;
  getStorageType info := info;
  getAddressForPointer _ addr := Address.mk addr 8;
  ObjCClassStructTy := llvm.StructTy "objc_class";
  ProtocolDescriptorStructTy := llvm.StructTy "swift.protocol";
  WitnessTableTy := llvm.StructTy "swift.witness_table";
  WitnessTablePtrTy := llvm.PointerTy (llvm.StructTy "swift.witness_table");
  DeallocatingDtorTy := voidFunctionTy;
  RefCountedPtrTy := Int8PtrTy;
  RuntimeCC := 0%N;
  getValueWitnessTy _ := llvm.PointerTy voidFunctionTy;
  getAddrOfObjCProtocolRecord _ := ret (llvm.ConstantStruct [])
|}.

(** Stand-ins for the helpers of the other files: the functions of the
    Objective-C runtime are declared in the module on first use, a
    selector is loaded with one instruction, the metadata of a class and
    the parts of a method descriptor are constants, and the members the
    visitor does not define emit nothing. *)
Definition runtimeFunctionTy (params : nat) : llvm.type :=
  llvm.FunctionTy Int8PtrTy (replicate params Int8PtrTy) false.

Definition sampleObjC : ObjCHeader := {|
  ObjCPtrTy := Int8PtrTy;
  ObjCSELTy := Int8PtrTy;
  getObjCMsgSendFn :=
    getOrInsertFunction "objc_msgSend"
      (llvm.FunctionTy Int8PtrTy [Int8PtrTy; Int8PtrTy] true);
  emitObjCSelectorRefLoad IGF sel :=
    emitInst IGF (llvm.OtherInst ("load selector " +:+ sel) []);
  getClassReplaceMethodFn :=
    getOrInsertFunction "class_replaceMethod" (runtimeFunctionTy 4);
  getClassAddProtocolFn :=
    getOrInsertFunction "class_addProtocol" (runtimeFunctionTy 2);
  getObjCSelRegisterNameFn :=
    getOrInsertFunction "sel_registerName" (runtimeFunctionTy 1);
  getDeclaredTypeOfContext := ExtensionDecl.getDeclaredTypeInContext;
  tryEmitConstantHeapMetadataRef _ :=
    ret (Some (llvm.ConstantDataString "metadata"));
  emitObjCMethodDescriptorParts _ :=
    ret (llvm.ConstantDataString "method", llvm.ConstantDataString "v@:",
         llvm.ConstantDataString "imp");
  emitObjCGetterDescriptorParts _ :=
    ret (llvm.ConstantDataString "getter", llvm.ConstantDataString "@@:",
         llvm.ConstantDataString "imp");
  emitObjCSetterDescriptorParts _ :=
    ret (llvm.ConstantDataString "setter", llvm.ConstantDataString "v@:@",
         llvm.ConstantDataString "imp");
  isStatic _ := false;
  isSettable _ := true;
  visitOtherDecl _ _ := ret tt;
  topLevelFunctionType := (llvm.FunctionTy llvm.VoidTy [] false, [])
|}.

Lemma sampleObjC_behaves : @ObjCHelpersBehave sampleAddress sampleObjC.
Proof.
  split; intros; try apply getOrInsertFunction_provides;
    try apply emitInst_emits; try apply provides_ret; try apply emits_ret.
Qed.

(** Whether a computation has returned. *)
Definition returns {A} (o : option A) : bool :=
  match o with Some _ => true | None => false end.

Lemma returns_run {A B} (o : option (A * B)) :
  returns o = true -> exists a b, o = Some (a, b).
Proof. destruct o as [[a b]|]; [by exists a, b|done]. Qed.

(** The state before anything is emitted. *)
Definition initialIGM (interop jit : bool) : IRGenModule :=
  mkIRGenModule llvm.empty ∅ ∅ ∅ [] [] [] [] [] interop jit
                (llvm.IntegerTy 64).

(** An extension of a class that is no Objective-C class, with one
    method that requires an Objective-C entry point. *)
Definition sampleExtension : ExtensionDecl :=
  @castExtensionDecl sampleEmitter sampleExtensionDecl.

(** * The properties on sample inputs *)

(** A function declared inside a function body. *)
Definition localFunctionEntity : LinkEntity :=
  LinkEntity.mk
    (DeclPointer
       (Decl.mk 10 DeclKind.Func
          (SubDC DeclContextKind.AbstractFunctionDecl 11
             (SubDC DeclContextKind.FileUnit 12 (ModuleDC 13)))
          false false false))
    Kind.Function 0.

(** C2 (amended) on that function: it is local and gets internal
    linkage. *)
Lemma LinkInfo_get_decision_table_witness :
  exists info,
    @LinkInfo_get sampleLinking localFunctionEntity = Some info /\
    LinkInfo.getLinkage info = InternalLinkage.
Proof.
  destruct (@LinkInfo_get_decision_table sampleLinking localFunctionEntity)
    as (info & Hget & _ & Hlocal & _); [by vm_compute|].
  exists info. split; [done|]. apply Hlocal.
  unfold LocalEntity; simpl. eexists; split; [done|].
  apply LocalHere; by vm_compute.
Defined.

(** C2, as stated, fails on a SIL function of internal linkage: it has
    no declaration in a local context and no type, it is no value
    witness, thunk or deserialized entity, and yet it gets internal
    linkage instead of external linkage. *)
Lemma LinkInfo_get_sil_internal_counterexample :
  let e := LinkEntity.mk (SILFunctionPointer "f" SILLinkage.Internal)
                         Kind.SILFunction 0 in
  ~ @LocalByContextOrType sampleLinking e
  /\ @isValueWitness sampleLinking e = false
  /\ @isThunk sampleLinking e = Some false
  /\ isDeserialized e = Some false
  /\ LinkInfo.getLinkage <$> @LinkInfo_get sampleLinking e
     = Some InternalLinkage.
Proof.
  simpl. repeat split; try done.
  intros [(D & [=] & _)|(T & [=] & _)].
Qed.

(** C3, as stated, fails: an anonymous function and a witness-table
    template are local and get internal linkage, and a bridge-to-block
    converter is not local. *)
Lemma isLocalLinkage_polarity_counterexample :
  let closure := LinkEntity.mk (ExprPointer 7) Kind.AnonymousFunction 0 in
  let template :=
    LinkEntity.mk (ConformancePointer 8)
                  Kind.LazyProtocolWitnessTableTemplate 0 in
  let shim :=
    LinkEntity.mk (TypePointer (FunctionType (TupleType []) (TupleType [])))
                  Kind.BridgeToBlockConverter 0 in
  @isLocalLinkage sampleLinking closure = Some true
  /\ LinkInfo.getLinkage <$> @LinkInfo_get sampleLinking closure
     = Some InternalLinkage
  /\ @isLocalLinkage sampleLinking template = Some true
  /\ LinkInfo.getLinkage <$> @LinkInfo_get sampleLinking template
     = Some InternalLinkage
  /\ @isLocalLinkage sampleLinking shim = Some false
  /\ LinkInfo.getLinkage <$> @LinkInfo_get sampleLinking shim
     = Some ExternalLinkage.
Proof. simpl. repeat split; done. Qed.

(** A module with one function, as [create] makes it. *)
Definition moduleWith (gv : llvm.GlobalValue) : llvm.IRModule :=
  (llvm.create gv llvm.empty).2.

Definition stateWith (gv : llvm.GlobalValue) (interop jit : bool)
  : IRGenModule :=
  withModule (fun _ => moduleWith gv) (initialIGM interop jit).

Definition existingFunction : llvm.GlobalValue :=
  newFunction voidFunctionTy ExternalLinkage "f".

Section OneSymbolSamples.
#[local] Existing Instance plainLinking.
#[local] Existing Instance sampleTarget.
#[local] Existing Instance sampleAddress.
Import llvm llvm_facts.

(** A lowering that gives a function that takes extra data one
    parameter for it; the rest is as in [sampleLowering]. *)
Definition dataLowering : LoweringHeader := {|
  forFunction := @forFunction sampleLowering;
  forObjCClass := @forObjCClass sampleLowering;
  forTypeMetadata := @forTypeMetadata sampleLowering;
  lowerFunctionRef _ extraData :=
    (FunctionTy VoidTy
       (match extraData with
        | ExtraData.None => []
        | _ => [Int8PtrTy]
        end) false, 0%N, []);
  hasKnownSwiftMetadata := @hasKnownSwiftMetadata sampleLowering
|}.

#[local] Existing Instance dataLowering.

Definition sampleFunctionRef : FunctionRef :=
  FunctionRef.mk sampleFunction ExplosionKind.Minimal 0.

Definition sampleRequest : Request :=
  FunctionRequest sampleFunctionRef ExtraData.None.

Definition sampleEntity : LinkEntity := forFunction sampleFunctionRef.

Definition sampleLink : LinkInfo :=
  LinkInfo.mk (mangle sampleEntity) ExternalLinkage DefaultVisibility.

Lemma sampleLink_get : LinkInfo_get sampleEntity = Some sampleLink.
Proof. vm_compute. reflexivity. Qed.

(** A function that carries the name of [sampleEntity], and a state
    that has it in the module and in no cache. *)
Definition namedFunction : GlobalValue :=
  newFunction voidFunctionTy ExternalLinkage (mangle sampleEntity).

(** C1 on the first request for a function, from the initial state. *)
Lemma one_symbol_per_entity_witness :
  symtab_ok (TheModule (initialIGM true true))
  /\ exists result g IGM',
       perform sampleRequest (initialIGM true true) = Some (result, IGM')
       /\ settled (plan sampleRequest (initialIGM true true)) sampleEntity g
                  (initialIGM true true) result IGM'.
Proof.
  split; [exact symtab_ok_empty|].
  pose proof (one_symbol_per_entity sampleRequest (initialIGM true true)
                symtab_ok_empty) as Hone.
  change (entityOf (plan sampleRequest (initialIGM true true)))
    with (Some sampleEntity) in Hone.
  destruct Hone as [Hanswered Hsettled].
  destruct (proj1 Hanswered) as [[result IGM'] Hrun].
  { exists sampleLink. split; [exact sampleLink_get|]. by eexists. }
  destruct (Hsettled result IGM' Hrun) as [g Hg].
  by exists result, g, IGM'.
Defined.

(** Two requests for one function, the second with extra data, from
    the initial state: the second returns the function of the first,
    as it is, and that has not the type the second lowers to.  And a
    first request in a module that has a function of the name and the
    type: it returns that function, and creates none. *)
Lemma function_handle_is_not_cast :
  (exists f IGM' gv,
     perform sampleRequest (initialIGM true true)
     = Some (FunctionResult f, IGM')
     /\ perform (FunctionRequest sampleFunctionRef ExtraData.Retainable) IGM'
        = Some (FunctionResult f, IGM')
     /\ values (TheModule IGM') !! f = Some gv
     /\ getType gv
        <> PointerTy
             (lowerFunctionRef sampleFunctionRef ExtraData.Retainable).1.1)
  /\ (let IGM := stateWith namedFunction true true in
      GlobalFuncs IGM !! sampleEntity = None
      /\ values (TheModule IGM) !! 0 = Some namedFunction
      /\ exists IGM',
           perform sampleRequest IGM = Some (FunctionResult 0, IGM')
           /\ TheModule IGM' = TheModule IGM).
Proof.
  split.
  - destruct (createFunction_returns sampleLink voidFunctionTy 0 []
                (initialIGM true true) symtab_ok_empty)
      as (f & IGM1 & Hcreate).
    destruct (create_facts.createFunction_result _ _ _ _ _ _ _ Hcreate)
      as ((gv & Hgv & _ & Hty) & _ & _).
    exists f, (withGlobalFuncs <[sampleEntity := f]> IGM1), gv.
    split_and!.
    + rewrite perform_plan.
      exact (follow_miss (plan sampleRequest (initialIGM true true))
               sampleEntity sampleLink _ _ f (initialIGM true true) IGM1
               eq_refl eq_refl
               sampleLink_get eq_refl Hcreate).
    + simpl. unfold getAddrOfFunction, bind, get, ret. simpl.
      change (@forFunction dataLowering sampleFunctionRef)
        with sampleEntity.
      by rewrite lookup_insert_eq.
    + exact Hgv.
    + unfold getType. rewrite Hty. discriminate.
  - cbv zeta. split; [reflexivity|]. split; [reflexivity|].
    assert (HM : symtab_ok (TheModule (stateWith namedFunction true true)))
      by apply create_symtab_ok, symtab_ok_empty.
    destruct (name_collision_recovers sampleLink voidFunctionTy 0 []
                (stateWith namedFunction true true) 0
                (withName namedFunction (mangle sampleEntity)) HM)
      as [Hfunction _]; [reflexivity|].
    destruct Hfunction as [Hsame _]; [vm_compute; reflexivity|].
    exists (withGlobalFuncs <[sampleEntity := 0]>
              (stateWith namedFunction true true)).
    split; [|reflexivity].
    rewrite perform_plan.
    exact (follow_miss (plan sampleRequest
                          (stateWith namedFunction true true))
             sampleEntity sampleLink _ _ 0
             (stateWith namedFunction true true) _ eq_refl eq_refl
             sampleLink_get eq_refl (Hsame eq_refl)).
Qed.
End OneSymbolSamples.

(** A function [f] of type [void ()] that is requested with type
    [i32 ()]. *)
Lemma name_collision_recovers_witness :
  let link := LinkInfo.mk "f" ExternalLinkage DefaultVisibility in
  let ty := llvm.FunctionTy Int32Ty [] false in
  let IGM := stateWith existingFunction true true in
  exists fn IGM',
    LinkInfo_createFunction link ty 0 [] IGM = Some (fn, IGM')
    /\ collisionOutcome "function" llvm.FunctionKind link ty
                        0 existingFunction IGM fn IGM'.
Proof.
  intros link ty IGM.
  destruct (name_collision_recovers link ty 0 [] IGM 0 existingFunction)
    as [Hfunction _].
  - apply llvm_facts.create_symtab_ok, llvm_facts.symtab_ok_empty.
  - reflexivity.
  - apply Hfunction; [reflexivity|discriminate].
Defined.

(** C4, at a variable requested under the name of a function, and at a
    function requested under the name of a variable: the name belongs
    to a symbol of another shape, and yet there is no diagnostic, the
    existing symbol keeps the name, and the new symbol is created under
    another name. *)
Lemma collision_with_other_kind_unreported :
  (let link := LinkInfo.mk "f" ExternalLinkage DefaultVisibility in
   let IGM := stateWith existingFunction true true in
   exists IGM',
     llvm.getNamedValue (TheModule IGM) "f" = Some 0
     /\ llvm.values (TheModule IGM) !! 0 = Some existingFunction
     /\ LinkInfo_createVariable link Int32Ty IGM = Some (1, IGM')
     /\ Diags IGM' = []
     /\ prod_map id (fun gv => (llvm.kind gv, llvm.name gv))
          <$> map_to_list (llvm.values (TheModule IGM'))
        = [(1, (llvm.GlobalVariableKind, "f0"));
           (0, (llvm.FunctionKind, "f"))])
  /\ (let link := LinkInfo.mk "v" ExternalLinkage DefaultVisibility in
      let IGM :=
        stateWith (newGlobalVariable Int32Ty false ExternalLinkage None "v")
                  true true in
      exists IGM',
        llvm.getNamedValue (TheModule IGM) "v" = Some 0
        /\ LinkInfo_createFunction link voidFunctionTy 0 [] IGM
           = Some (1, IGM')
        /\ Diags IGM' = []
        /\ prod_map id (fun gv => (llvm.kind gv, llvm.name gv))
             <$> map_to_list (llvm.values (TheModule IGM'))
           = [(1, (llvm.FunctionKind, "v0"));
              (0, (llvm.GlobalVariableKind, "v"))]).
Proof.
  split; cbv zeta; eexists; split_and!; try reflexivity;
    vm_compute; reflexivity.
Qed.

(** C7 on an extension of a Swift class with a method that requires an
    Objective-C entry point: one category is registered. *)
Lemma emitExtension_category_witness :
  exists IGM',
    @emitExtension sampleEmitter sampleExtension (initialIGM true true)
    = Some (tt, IGM')
    /\ ObjCCategoryDecls IGM' = [sampleExtension]
    /\ length (ObjCCategories IGM') = 1.
Proof.
  destruct (@emitExtension_category sampleEmitter sampleExtension sampleClass
              (initialIGM true true))
    as (IGM' & Hrun & Hcase).
  - split; intros; try apply keepsCategories_ret.
    intros IGM. eexists _, _. split; [reflexivity|]. split; reflexivity.
  - reflexivity.
  - repeat constructor.
  - simpl. lia.
  - exists IGM'. split; [exact Hrun|].
    destruct Hcase as [(_ & [category Hcats] & Hdecls)|[Hno _]].
    + split; [exact Hdecls|]. by rewrite Hcats.
    + destruct Hno. right. right. eexists. split; [by left|].
      left. split; [by left|reflexivity].
Defined.

Definition libraryUnit : SourceFile :=
  SourceFile.mk [] SourceFileKind.Library "a.swift" "M".

Definition mainUnit : SourceFile :=
  SourceFile.mk [] SourceFileKind.Main "main.swift" "M".





(** The variable of a class, as [sampleEmitter] emits it. *)
Definition classVariable : llvm.GlobalValue :=
  newGlobalVariable (llvm.StructTy "objc_class") false ExternalLinkage None
                    "OBJC_CLASS_$_C".




(** A main unit that declares a class and an extension of it. *)
Definition interopUnit : SourceFile :=
  SourceFile.mk [sampleClass; sampleExtensionDecl] SourceFileKind.Main
                "main.swift" "M".

(** The state after the declarations of [interopUnit]: the variable of
    the class is in the module, and one class and one category are
    pending. *)
Definition afterDecls (jit : bool) : IRGenModule :=
  withCategory (llvm.BitCast (llvm.ConstantStruct []) Int8PtrTy)
               sampleExtension
    (withObjCClass (llvm.GlobalRef 0) (stateWith classVariable true jit)).

(** C9 (amended) on a main unit lowered for the JIT. *)
Lemma class_initializer_called_first_witness :
  exists IGM' maingv classInit catInit,
    @emitSourceFile plainLinking sampleAddress sampleEmitter sampleObjC
      interopUnit 0 (initialIGM true true)
    = Some (tt, IGM')
    /\ llvm.values (TheModule IGM') !! 1 = Some maingv
    /\ classInit <> catInit
    /\ concat (llvm.body maingv) !! 6 = Some (callTo classInit)
    /\ concat (llvm.body maingv) !! 7 = Some (callTo catInit).
Proof.
  destruct (returns_run
              (@emitSourceFile plainLinking sampleAddress sampleEmitter
                 sampleObjC interopUnit 0 (initialIGM true true)))
    as ([] & IGM' & Hrun); [vm_compute; reflexivity|].
  destruct (@class_initializer_called_first plainLinking sampleAddress
              sampleEmitter sampleObjC interopUnit 0 (initialIGM true true)
              (afterDecls true) IGM')
    as (maingv & argc & argv & classInit & catInit & IGM1 & IGM2 & IGM3 & IGM4
        & _ & Hmain & _ & _ & _ & _ & _ & _ & Hne & _ & H6 & H7);
    [exact sampleObjC_behaves|reflexivity|reflexivity|reflexivity
    |discriminate|discriminate|exact Hrun|].
  exists IGM', maingv, classInit, catInit.
  split; [exact Hrun|]. split; [exact Hmain|]. split; [exact Hne|].
  split; [exact H6|exact H7].
Defined.

(** C9, as stated, fails when the unit is not lowered for the JIT: the
    unit declares a class and an extension that needs a category, so a
    class and a category are pending at the end of the unit, and the
    entry function stores the arguments and returns.  It calls the two
    accessors only; the module holds the variable of the class, the entry
    function and the two accessors, and no initializer. *)
Lemma entry_function_without_initializers :
  exists IGM' maingv,
    @emitSourceFile plainLinking sampleAddress sampleEmitter sampleObjC
      interopUnit 0 (initialIGM true false)
    = Some (tt, IGM')
    /\ ObjCClasses IGM' = [llvm.GlobalRef 0]
    /\ ObjCCategoryDecls IGM' = [sampleExtension]
    /\ length (ObjCCategories IGM') = 1
    /\ llvm.values (TheModule IGM') !! 1 = Some maingv
    /\ llvm.name maingv = "main"
    /\ llvm.body maingv
       = [marshalArguments (llvm.GlobalRef 2) (llvm.GlobalRef 3)
          ++ [returnSuccess]]
    /\ prod_map id llvm.name <$> map_to_list (llvm.values (TheModule IGM'))
       = [(2, "_TFSsa6C_ARGCVSs5Int32");
          (3, "_TFSsa6C_ARGVGVSs13UnsafePointerVSs7CString_");
          (1, "main"); (0, "OBJC_CLASS_$_C")].
Proof.
  eexists _, _. split; [vm_compute; reflexivity|].
  split; [reflexivity|]. split; [reflexivity|]. split; [reflexivity|].
  split; [vm_compute; reflexivity|]. split; [reflexivity|].
  split; [reflexivity|]. vm_compute. reflexivity.
Qed.

(** * More sample inputs *)

(** A SIL module without globals, functions or witness tables, and a
    context with one external definition. *)
Definition sampleTopLevel (external : list Decl) : TopLevelHeader := {|
  getGlobals := [];
  getSILGlobals := [];
  getSILFunctions := [];
  getWitnessTableList := [];
  EmitSILProtocolWitnessTables := false;
  ExternalDefinitions := external;
  emitGlobalVariable _ := ret tt;
  emitSILGlobalVariable _ := ret tt;
  emitSILFunction _ := ret tt;
  emitSILWitnessTable _ := ret tt;
  emitStructMetadata _ := ret tt;
  emitEnumMetadata _ := ret tt
|}.

(** A class imported from Clang, a struct and a variable. *)
Definition clangClass : Decl :=
  Decl.mk 30 DeclKind.Class sampleModuleDC true false true.

Definition sampleStruct : Decl :=
  Decl.mk 31 DeclKind.Struct sampleModuleDC false false false.

Definition sampleVar : ValueDecl :=
  ValueDecl.mk (Decl.mk 32 DeclKind.Var sampleModuleDC false false false)
               (BuiltinType "Int64") (TupleType []) (TupleType []).

Definition sampleProtocol : Decl :=
  Decl.mk 33 DeclKind.Protocol sampleModuleDC false false false.

Lemma VarsAreVariables_initial interop jit :
  VarsAreVariables (initialIGM interop jit).
Proof. intros K g gv HK. simpl in HK. by rewrite lookup_empty in HK. Qed.

(** ** First requests

    A first request for an entity whose linkage is defined and whose
    name is free in the module returns. *)
Section FirstRequests.
Context `{!LinkingHeader} `{!LoweringHeader} `{!TargetHeader}
        `{!AddressHeader}.
Import llvm llvm_facts cache_facts.

Lemma get_run IGM : get IGM = Some (IGM, IGM).
Proof. done. Qed.

Lemma getAddrOfLLVMVariable_first_run entity definitionType defaultType
    pointerToDefaultType IGM :
  GlobalVars IGM !! entity = None ->
  is_Some (LinkInfo_get entity) ->
  symtab (TheModule IGM) !! mangle entity = None ->
  is_Some (getAddrOfLLVMVariable entity definitionType defaultType
                                 pointerToDefaultType IGM).
Proof.
  intros Hentry [link Hlink] Hfree.
  rewrite <- (LinkInfo_get_name _ _ Hlink) in Hfree.
  unfold getAddrOfLLVMVariable.
  rewrite (bind_run _ _ _ _ _ (get_run IGM)).
  cbv zeta. rewrite Hentry.
  rewrite (bind_run _ _ _ _ _ (eq_refl : ret None IGM = Some (None, IGM))).
  rewrite Hlink.
  rewrite (bind_run _ _ _ _ _
             (eq_refl : liftOption (Some link) IGM = Some (link, IGM))).
  rewrite (bind_run _ _ _ _ _
             (createVariable_no_collision link _ IGM Hfree)).
  by eexists.
Qed.

Lemma cached_function_first_run entity ty cc attrs IGM :
  is_Some (LinkInfo_get entity) ->
  symtab (TheModule IGM) !! mangle entity = None ->
  is_Some ((link <- liftOption (LinkInfo_get entity) ;;
            entry <- LinkInfo_createFunction link ty cc attrs ;;
            modify (withGlobalFuncs <[entity := entry]>) ;;
            ret entry) IGM).
Proof.
  intros [link Hlink] Hfree.
  rewrite <- (LinkInfo_get_name _ _ Hlink) in Hfree.
  rewrite Hlink.
  rewrite (bind_run _ _ _ _ _
             (eq_refl : liftOption (Some link) IGM = Some (link, IGM))).
  rewrite (bind_run _ _ _ _ _
             (createFunction_no_collision link ty cc attrs IGM Hfree)).
  by eexists.
Qed.

Lemma getAddrOfDestructor_first_run cd kind IGM :
  GlobalFuncs IGM !! forDestructor cd kind = None ->
  is_Some (LinkInfo_get (forDestructor cd kind)) ->
  symtab (TheModule IGM) !! mangle (forDestructor cd kind) = None ->
  is_Some (getAddrOfDestructor cd kind IGM).
Proof.
  intros Hentry Hlink Hfree. unfold getAddrOfDestructor.
  rewrite (bind_run _ _ _ _ _ (get_run IGM)).
  cbv zeta. rewrite Hentry. destruct Hlink as [link Hlink].
  rewrite <- (LinkInfo_get_name _ _ Hlink) in Hfree.
  rewrite Hlink.
  rewrite (bind_run _ _ _ _ _
             (eq_refl : liftOption (Some link) IGM = Some (link, IGM))).
  rewrite (bind_run _ _ _ _ _
             (createFunction_no_collision link _ _ _ IGM Hfree)).
  by eexists.
Qed.

Lemma getAddrOfSimpleVariable_first_run entity type alignment IGM :
  GlobalVars IGM !! entity = None ->
  is_Some (LinkInfo_get entity) ->
  symtab (TheModule IGM) !! mangle entity = None ->
  is_Some (getAddrOfSimpleVariable entity type alignment IGM).
Proof.
  intros Hentry [link Hlink] Hfree.
  rewrite <- (LinkInfo_get_name _ _ Hlink) in Hfree.
  unfold getAddrOfSimpleVariable.
  rewrite (bind_run _ _ _ _ _ (get_run IGM)).
  rewrite Hentry, Hlink.
  rewrite (bind_run _ _ _ _ _
             (eq_refl : liftOption (Some link) IGM = Some (link, IGM))).
  rewrite (bind_run _ _ _ _ _
             (createVariable_no_collision link _ IGM Hfree)).
  by eexists.
Qed.

Lemma getAddrOfGlobalVariable_first_run var IGM :
  let entity := forNonFunction (ValueDecl.asDecl var) in
  GlobalVars IGM !! entity = None ->
  is_Some (LinkInfo_get entity) ->
  symtab (TheModule IGM) !! mangle entity = None ->
  is_Some (getAddrOfGlobalVariable var IGM).
Proof.
  intros entity Hentry [link Hlink] Hfree.
  rewrite <- (LinkInfo_get_name _ _ Hlink) in Hfree.
  unfold getAddrOfGlobalVariable.
  rewrite (bind_run _ _ _ _ _ (get_run IGM)).
  fold entity. cbv zeta. rewrite Hentry, Hlink.
  rewrite (bind_run _ _ _ _ _
             (eq_refl : liftOption (Some link) IGM = Some (link, IGM))).
  rewrite (bind_run _ _ _ _ _
             (createVariable_no_collision link _ IGM Hfree)).
  by eexists.
Qed.
End FirstRequests.

(** * The further properties on sample inputs *)

#[local] Existing Instance plainLinking.
#[local] Existing Instance sampleLowering.
#[local] Existing Instance sampleTarget.
#[local] Existing Instance sampleAddress.
#[local] Existing Instance sampleEmitter.
#[local] Existing Instance sampleObjC.

Definition witnessTableEntity : LinkEntity :=
  LinkEntity.mk (ConformancePointer 40) Kind.DirectProtocolWitnessTable 0.

Definition witnessTableTy : llvm.type := llvm.StructTy "swift.witness_table".

(** The address of a witness table requested without a definition type,
    from the initial state. *)
Lemma getAddrOfLLVMVariable_result_type_witness :
  exists c IGM' g,
    getAddrOfLLVMVariable witnessTableEntity None witnessTableTy
                          (llvm.PointerTy witnessTableTy)
                          (initialIGM true true) = Some (c, IGM')
    /\ GlobalVars IGM' !! witnessTableEntity = Some g
    /\ llvm.typeOf (TheModule IGM') c = Some (llvm.PointerTy witnessTableTy)
    /\ llvm.stripPointerCasts c = llvm.GlobalRef g.
Proof.
  destruct (getAddrOfLLVMVariable_first_run witnessTableEntity None
              witnessTableTy (llvm.PointerTy witnessTableTy)
              (initialIGM true true))
    as [[c IGM'] Hrun]; [apply lookup_empty|by eexists|apply lookup_empty|].
  destruct (getAddrOfLLVMVariable_result_type witnessTableEntity None
              witnessTableTy (initialIGM true true) c IGM'
              (VarsAreVariables_initial true true) Hrun)
    as (g & Hg & Hty & Hc).
  by exists c, IGM', g.
Defined.

(** The class object of a class imported from Clang, from the initial
    state with interop: it is the type metadata of the class. *)
Lemma getAddrOfObjCClass_is_type_metadata_witness :
  exists c IGM',
    getAddrOfObjCClass clangClass (initialIGM true true) = Some (c, IGM')
    /\ getAddrOfTypeMetadata (NominalType NominalKind.Class clangClass None)
                             false false None IGM'
       = Some (c, IGM').
Proof.
  destruct (getAddrOfLLVMVariable_first_run (forObjCClass clangClass)
              (Some TypeMetadataStructTy) TypeMetadataStructTy
              TypeMetadataPtrTy (initialIGM true true))
    as [[c IGM'] Hrun]; [apply lookup_empty|by eexists|apply lookup_empty|].
  exists c, IGM'. split; [exact Hrun|].
  apply (getAddrOfObjCClass_is_type_metadata clangClass None
           (initialIGM true true) c IGM'
           (VarsAreVariables_initial true true));
    [exact Hrun|reflexivity].
Defined.

(** The metaclass object of a Swift class: its metaclass stub. *)
Lemma getAddrOfMetaclassObject_variable_witness :
  exists c IGM' g,
    getAddrOfMetaclassObject sampleClass (initialIGM true true)
    = Some (c, IGM')
    /\ GlobalVars IGM' !! forSwiftMetaclassStub sampleClass = Some g
    /\ c = llvm.GlobalRef g
    /\ getAddrOfMetaclassObject sampleClass IGM' = Some (c, IGM').
Proof.
  destruct (getAddrOfLLVMVariable_first_run
              (forSwiftMetaclassStub sampleClass)
              (Some ObjCClassStructTy) ObjCClassStructTy ObjCClassPtrTy
              (initialIGM true true))
    as [[c IGM'] Hrun]; [apply lookup_empty|by eexists|apply lookup_empty|].
  destruct (getAddrOfMetaclassObject_variable sampleClass
              (initialIGM true true) c IGM'
              (VarsAreVariables_initial true true) Hrun)
    as (_ & (g & Hg & Hc & _) & Hagain).
  by exists c, IGM', g.
Defined.

(** The descriptor of a struct, requested with one type and then with
    another. *)
Lemma getAddrOfNominalTypeDescriptor_one_type_witness :
  exists c IGM',
    getAddrOfNominalTypeDescriptor sampleStruct (llvm.StructTy "descriptor")
                                   (initialIGM true true)
    = Some (c, IGM')
    /\ getAddrOfNominalTypeDescriptor sampleStruct (llvm.StructTy "descriptor")
                                      IGM'
       = Some (c, IGM')
    /\ getAddrOfNominalTypeDescriptor sampleStruct Int8Ty IGM' = None.
Proof.
  destruct (getAddrOfLLVMVariable_first_run
              (forNominalTypeDescriptor sampleStruct)
              (Some (llvm.StructTy "descriptor")) (llvm.StructTy "descriptor")
              (llvm.PointerTy (llvm.StructTy "descriptor"))
              (initialIGM true true))
    as [[c IGM'] Hrun]; [apply lookup_empty|by eexists|apply lookup_empty|].
  exists c, IGM'. split; [exact Hrun|]. split.
  - apply (getAddrOfNominalTypeDescriptor_one_type sampleStruct
             (llvm.StructTy "descriptor") (llvm.StructTy "descriptor")
             (initialIGM true true) c IGM'
             (VarsAreVariables_initial true true) Hrun).
  - apply (getAddrOfNominalTypeDescriptor_one_type sampleStruct
             (llvm.StructTy "descriptor") Int8Ty
             (initialIGM true true) c IGM'
             (VarsAreVariables_initial true true) Hrun).
Defined.

(** The descriptor of a Swift protocol. *)
Lemma getAddrOfProtocolDescriptor_by_protocol_witness :
  exists c IGM' g,
    getAddrOfProtocolDescriptor sampleProtocol (initialIGM true true)
    = Some (c, IGM')
    /\ GlobalVars IGM' !! forProtocolDescriptor sampleProtocol = Some g
    /\ c = llvm.GlobalRef g
    /\ getAddrOfProtocolDescriptor sampleProtocol IGM' = Some (c, IGM').
Proof.
  destruct (getAddrOfLLVMVariable_first_run
              (forProtocolDescriptor sampleProtocol)
              (Some ProtocolDescriptorStructTy) ProtocolDescriptorStructTy
              (llvm.PointerTy ProtocolDescriptorStructTy)
              (initialIGM true true))
    as [[c IGM'] Hrun]; [apply lookup_empty|by eexists|apply lookup_empty|].
  destruct (getAddrOfProtocolDescriptor_by_protocol sampleProtocol
              (initialIGM true true) (VarsAreVariables_initial true true)
              c IGM' Hrun)
    as ((g & Hg & Hc & _) & Hagain).
  by exists c, IGM', g.
Defined.

(** The deallocating destructor of a class, requested twice. *)
Lemma function_addresses_cached_witness :
  let r := Destructor sampleClass DestructorKind.Deallocating in
  exists f IGM' gv,
    getAddrOf r (initialIGM true true) = Some (f, IGM')
    /\ GlobalFuncs IGM' !! functionEntity r = Some f
    /\ getAddrOf r IGM' = Some (f, IGM')
    /\ llvm.values (TheModule IGM') !! f = Some gv
    /\ llvm.kind gv = llvm.FunctionKind
    /\ llvm.valueType gv = DeallocatingDtorTy.
Proof.
  intros r.
  destruct (getAddrOfDestructor_first_run sampleClass
              DestructorKind.Deallocating (initialIGM true true))
    as [[f IGM'] Hrun]; [apply lookup_empty|by eexists|apply lookup_empty|].
  destruct (function_addresses_cached r (initialIGM true true) f IGM' Hrun)
    as (Hf & Hagain & Hfirst & _).
  change (GlobalFuncs (initialIGM true true) !! functionEntity r)
    with (@lookup _ _ (gmap LinkEntity nat) _ (functionEntity r) ∅)
    in Hfirst.
  rewrite lookup_empty in Hfirst.
  destruct Hfirst as (_ & _ & gv & ty & Hgv & Hkind & Hty & ->).
  by exists f, IGM', gv.
Defined.

Definition offsetEntitySample : LinkEntity :=
  forFieldOffset (ValueDecl.asDecl sampleVar) false.

(** A simple variable requested at alignment 8, then again at alignment
    8 with another type, and at alignment 4. *)
Lemma getAddrOfSimpleVariable_alignment_witness :
  exists a IGM',
    getAddrOfSimpleVariable offsetEntitySample Int32Ty 8
                            (initialIGM true true) = Some (a, IGM')
    /\ getAddrOfSimpleVariable offsetEntitySample Int8Ty 8 IGM'
       = Some (a, IGM')
    /\ getAddrOfSimpleVariable offsetEntitySample Int32Ty 4 IGM' = None.
Proof.
  destruct (getAddrOfSimpleVariable_first_run offsetEntitySample Int32Ty 8
              (initialIGM true true))
    as [[a IGM'] Hrun]; [apply lookup_empty|by eexists|apply lookup_empty|].
  exists a, IGM'. split; [exact Hrun|]. split.
  - apply (getAddrOfSimpleVariable_alignment offsetEntitySample Int32Ty
             Int8Ty 8 8 (initialIGM true true) a IGM'
             (lookup_empty _) Hrun).
  - apply (getAddrOfSimpleVariable_alignment offsetEntitySample Int32Ty
             Int32Ty 8 4 (initialIGM true true) a IGM'
             (lookup_empty _) Hrun).
Defined.

(** The offset of a field, requested twice. *)
Lemma offset_variables_witness :
  let r := FieldOffset (ValueDecl.asDecl sampleVar) false in
  exists a IGM',
    getAddrOfOffset r (initialIGM true true) = Some (a, IGM')
    /\ Address.getAlignment a = 8%N
    /\ getAddrOfOffset r IGM' = Some (a, IGM').
Proof.
  intros r.
  destruct (getAddrOfSimpleVariable_first_run (offsetEntity r)
              (SizeTy (initialIGM true true)) getPointerAlignment
              (initialIGM true true))
    as [[a IGM'] Hrun]; [apply lookup_empty|by eexists|apply lookup_empty|].
  rewrite <- getAddrOfOffset_unfold in Hrun.
  destruct (offset_variables r (initialIGM true true) a IGM'
              (lookup_empty _) Hrun)
    as ((g & gv & -> & _) & Hagain).
  by exists (Address.mk (llvm.GlobalRef g) getPointerAlignment), IGM'.
Defined.

(** The address of a global variable, requested twice. *)
Lemma getAddrOfGlobalVariable_alignment_witness :
  exists a IGM' g gv,
    getAddrOfGlobalVariable sampleVar (initialIGM true true) = Some (a, IGM')
    /\ llvm.values (TheModule IGM') !! g = Some gv
    /\ llvm.valueType gv = llvm.IntegerTy 64
    /\ llvm.alignment gv = 8%N
    /\ getAddrOfGlobalVariable sampleVar IGM'
       = Some (Address.mk (llvm.GlobalRef g) 8, IGM').
Proof.
  destruct (getAddrOfGlobalVariable_first_run sampleVar
              (initialIGM true true))
    as [[a IGM'] Hrun]; [apply lookup_empty|by eexists|apply lookup_empty|].
  destruct (getAddrOfGlobalVariable_alignment sampleVar
              (initialIGM true true) a IGM' (lookup_empty _) Hrun)
    as (g & gv & -> & _ & Hgv & _ & Hty & Halign & Hagain).
  eexists _, IGM', g, gv. split; [exact Hrun|]. by split_and!.
Defined.

(** A state with one class in the list of Objective-C classes. *)
Definition classState : IRGenModule :=
  mkIRGenModule (moduleWith classVariable) ∅ ∅ ∅ [] [llvm.GlobalRef 0] [] []
                [] true true (llvm.IntegerTy 64).

(** The global lists of that state: two lists of classes, and the used
    globals that hold them. *)
Lemma emitGlobalLists_used_witness :
  exists IGM' lists used gv,
    emitGlobalLists classState = Some (tt, IGM')
    /\ length lists = 2
    /\ LLVMUsed IGM' = llvm.GlobalRef <$> lists
    /\ llvm.values (TheModule IGM') !! used = Some gv
    /\ llvm.linkage gv = AppendingLinkage
    /\ llvm.section gv = "llvm.metadata".
Proof.
  destruct (emitGlobalLists_used classState eq_refl)
    as (IGM' & lists & Hrun & (_ & _ & _ & Hused & _) & Hlen & _ & Hlist).
  destruct Hlist as (used & gv & _ & Hgv & _ & Hlinkage & Hsection & _).
  { rewrite Hused. destruct lists; [discriminate Hlen|discriminate]. }
  by exists IGM', lists, used, gv.
Defined.

(** An extension with a destructor among its members. *)
Definition extensionWithDestructor : ExtensionDecl :=
  ExtensionDecl.mk sampleExtensionDecl
    [sampleFunction;
     Decl.mk 34 DeclKind.Destructor sampleModuleDC false false false]
    [] [] (NominalType NominalKind.Class sampleClass None).

Lemma emitExtension_forbidden_member_witness :
  emitExtension extensionWithDestructor (initialIGM true true) = None.
Proof.
  apply (emitExtension_forbidden_member extensionWithDestructor
           (Decl.mk 34 DeclKind.Destructor sampleModuleDC false false false)).
  - right. left.
  - reflexivity.
Defined.

(** A unit with a constructor at the top level, after a function. *)
Definition unitWithConstructor : SourceFile :=
  SourceFile.mk
    [sampleFunction;
     Decl.mk 35 DeclKind.Constructor sampleModuleDC false false false]
    SourceFileKind.Library "a.swift" "M".

Lemma emitSourceFile_invalid_global_witness :
  emitSourceFile unitWithConstructor 0 (initialIGM true true) = None
  /\ emitSourceFile unitWithConstructor 1 (initialIGM true true) = None.
Proof.
  split.
  - apply (emitSourceFile_invalid_global unitWithConstructor 0
             (Decl.mk 35 DeclKind.Constructor sampleModuleDC false false
                      false)).
    + right. left.
    + reflexivity.
  - apply (emitSourceFile_invalid_global unitWithConstructor 1
             (Decl.mk 35 DeclKind.Constructor sampleModuleDC false false
                      false)).
    + left.
    + reflexivity.
Defined.

(** An extension of a Swift class that names a protocol and has no
    conformance. *)
Definition extensionWithoutConformance : ExtensionDecl :=
  ExtensionDecl.mk sampleExtensionDecl [sampleFunction] [sampleProtocol] []
                   (NominalType NominalKind.Class sampleClass None).

Lemma emitExtension_missing_conformance_witness :
  emitExtension extensionWithoutConformance (initialIGM true true) = None.
Proof.
  apply (emitExtension_missing_conformance extensionWithoutConformance
           sampleClass).
  - reflexivity.
  - reflexivity.
  - simpl. lia.
  - intros i protocol conformance _ Hc. simpl in Hc.
    by rewrite lookup_nil in Hc.
Defined.

(** An extension of a struct with a method that requires an Objective-C
    entry point. *)
Definition structExtension : ExtensionDecl :=
  ExtensionDecl.mk sampleExtensionDecl
    [Decl.mk 36 DeclKind.Func sampleModuleDC true false false] [] []
    (NominalType NominalKind.Struct sampleStruct None).

Lemma sampleEmitter_keeps : @EmittersKeepCategories sampleEmitter.
Proof.
  split; intros; try apply keepsCategories_ret.
  intros IGM. eexists _, _. split; [reflexivity|]. split; reflexivity.
Qed.

Lemma emitExtension_not_of_class_witness :
  exists IGM',
    emitExtension structExtension (initialIGM true true) = Some (tt, IGM')
    /\ ObjCCategories IGM' = []
    /\ ObjCCategoryDecls IGM' = [].
Proof.
  apply (emitExtension_not_of_class structExtension (initialIGM true true)).
  - exact sampleEmitter_keeps.
  - reflexivity.
  - repeat constructor.
Defined.

(** The initializer of the classes of [classState]. *)
Lemma emitObjCClassInitializer_sends_load_witness :
  exists initFn IGM' loadSel msgSendFn IGM3 prologue,
    emitObjCClassInitializer [llvm.GlobalRef 0] classState
    = Some (initFn, IGM')
    /\ llvm.values (TheModule IGM') !! initFn
       = Some (llvm.withBody
                 (initializerFunction "_swift_initObjCClasses"
                                      (TheModule classState))
                 [prologue
                  ++ [sendLoad (TheModule IGM3) msgSendFn loadSel
                               (llvm.GlobalRef 0);
                      llvm.Ret None]]).
Proof.
  destruct (returns_run
              (emitObjCClassInitializer [llvm.GlobalRef 0] classState))
    as (initFn & IGM' & Hrun); [vm_compute; reflexivity|].
  destruct (emitObjCClassInitializer_sends_load [llvm.GlobalRef 0] classState
              initFn IGM' sampleObjC_behaves Hrun)
    as (loadSel & IGM2 & msgSendFn & IGM3 & prologue & _ & _ & _ & _ & _ & _
        & _ & Hbody & _).
  by exists initFn, IGM', loadSel, msgSendFn, IGM3, prologue.
Defined.

(** A library unit and a main unit without declarations, in a module
    without top-level code. *)
Lemma emitSourceFile_without_top_level_code_witness :
  emitSourceFile libraryUnit 0 (initialIGM true true)
  = Some (tt, initialIGM true true)
  /\ exists IGM' argc argv classInit catInit,
       emitSourceFile mainUnit 0 (initialIGM true true) = Some (tt, IGM')
       /\ llvm.values (TheModule IGM') !! 0
          = Some (llvm.withBody (entryFunction llvm.empty)
                    [marshalArguments argc argv
                     ++ runtimeSetup (initialIGM true true) classInit catInit
                     ++ [returnSuccess]]).
Proof.
  split.
  - apply (emitSourceFile_without_top_level_code libraryUnit 0
             (initialIGM true true) (initialIGM true true));
      reflexivity.
  - destruct (emitSourceFile_without_top_level_code mainUnit 0
                (initialIGM true true) (initialIGM true true)
                eq_refl eq_refl) as [Hreturns Hmain].
    destruct (Hreturns eq_refl eq_refl) as [[[] IGM'] Hrun].
    destruct (Hmain sampleObjC_behaves IGM' Hrun)
      as (_ & _ & argc & argv & classInit & catInit & Hbody).
    by exists IGM', argc, argv, classInit, catInit.
Defined.

(** A variable requested under the name of the function [f]. *)
Lemma cross_kind_collision_is_silent_witness :
  let link := LinkInfo.mk "f" ExternalLinkage DefaultVisibility in
  let IGM := stateWith existingFunction true true in
  exists var IGM' newgv,
    LinkInfo_createVariable link Int32Ty IGM = Some (var, IGM')
    /\ Diags IGM' = []
    /\ llvm.values (TheModule IGM') !! 0 = Some existingFunction
    /\ llvm.values (TheModule IGM') !! var = Some newgv
    /\ llvm.kind newgv = llvm.GlobalVariableKind
    /\ llvm.name newgv <> "f".
Proof.
  intros link IGM.
  destruct (cross_kind_collision_is_silent link Int32Ty 0 [] IGM 0
              existingFunction)
    as [_ Hvariable].
  - apply llvm_facts.create_symtab_ok, llvm_facts.symtab_ok_empty.
  - reflexivity.
  - reflexivity.
  - destruct (Hvariable eq_refl)
      as (var & IGM' & Hrun & Hdiags & _ & Hold & newgv & suffix & Hnew
          & Hkind & _ & _ & Hname).
    by exists var, IGM', newgv.
Defined.

(** The value-witness table of a struct, requested without a definition
    type. *)
Lemma witness_table_addresses_witness :
  let table := ValueWitnessTable
                 (NominalType NominalKind.Struct sampleStruct None) in
  exists c IGM' g,
    getAddrOfTable table None (initialIGM true true) = Some (c, IGM')
    /\ GlobalVars IGM' !! tableEntity table = Some g
    /\ llvm.typeOf (TheModule IGM') c = Some WitnessTablePtrTy
    /\ llvm.stripPointerCasts c = llvm.GlobalRef g.
Proof.
  intros table.
  destruct (getAddrOfLLVMVariable_first_run (tableEntity table) None
              WitnessTableTy WitnessTablePtrTy (initialIGM true true))
    as [[c IGM'] Hrun]; [apply lookup_empty|by eexists|apply lookup_empty|].
  destruct (witness_table_addresses table None (initialIGM true true) c IGM')
    as (g & Hg & Hty & Hc);
    [reflexivity|apply VarsAreVariables_initial|exact Hrun|].
  by exists c, IGM', g.
Defined.
